(* ===== verification/_CoqProject ===== *)
-Q . S2P
Prelude.v
Text.v
Messages.v
Node.v
Ledger.v
LedgerSpec.v
LedgerProofs.v
Elections.v
TwoPhase.v
Replication.v
Requests.v
NewView.v
Control.v
Machine.v
CallData.v
ElectionProofs.v
ReplicationProofs.v
TwoPhaseProofs.v
ExecutionProofs.v
NewViewProofs.v
RequestProofs.v
Frames.v
Calls.v
CallProofs.v
Safety.v
Promises.v
CallDataProofs.v
OutCalls.v
Votes.v
Cluster.v
ClusterProofs.v
ClusterRuns.v
Service.v
Client.v
ClientProofs.v
TimerProofs.v
ClientSafety.v
ClientServer.v
Sharding.v
ShardingProofs.v
ReshardProofs.v
LogRing.v
Benchmark.v
BenchmarkProofs.v
BenchReport.v
Launch.v
LaunchProofs.v
CsvProofs.v
Terminal.v
TerminalProofs.v
Storage.v
Deploy.v
LogLine.v
