(* ===== verification/Prelude.v ===== *)
(** * A replicated, sharded transaction store: the development

    The repository is a C++ program in which clusters of nodes replicate a log
    of money transfers with Multi-Paxos, and run transfers between clusters
    through two-phase commit over those logs. This library is a shallow
    embedding of it: every handler of the node is a function in a state monad
    with faults, translated statement by statement, and the theorems are about
    those functions.

    ** Parts of the program and where they are modelled

    - [Text]: [std::to_string] and [std::stoi], through which account numbers
      travel.
    - [Messages]: the messages of [grpc/paxos.proto] and [struct Ballot] of
      [paxos_node.h].
    - [Node]: the data members of [PaxosNode], its constructor, sending,
      logging, accounts and their locks.
    - [Ledger]: [ExecuteTransaction] and the write-ahead-log loops of
      [DemoteToBackup] and [OnElectionComplete]. [LedgerSpec] is the abstract
      ledger they implement, [LedgerProofs] the refinement.
    - [Elections]: roles, timer, heartbeat, [HandlePrepare], [SendPrepare].
    - [TwoPhase]: replies, second phase, prepare timeout, dispatch of the 2PC
      messages ([TwoPCCallData] of [call_data.cpp]).
    - [Replication]: [HandlePropose], [HandleAccept], [CommitEntry],
      [HandleCommit], the execution loop.
    - [Requests]: [HandleClientRequest] and [ProcessClientRequest].
    - [NewView]: promises, merge of the promised logs, gap filling, NEW-VIEW.
    - [Control]: kill, revive, reset, move-on, inspection.
    - [Machine]: one event per entry point of a node, and the states reachable
      from the constructor.
    - [CallData]: the call objects of [call_data.cpp] that serve RPCs, with the
      pollers of [paxos_node.cpp] as events; it runs the handlers of the node.
      Finishing a call and the write that [MoveOnCallData] makes after it are
      two events.
    - [OutCalls]: the call objects that start RPCs and delete themselves.
    - [Cluster]: the nodes of a deployment and the network between them.
    - [Client]: [PaxosClient] ([paxos_client.cpp]): requests in flight, timer,
      leaders, replies, move-on, and the destruction of the requests that
      nothing names any more. [ClientServer]: the server it takes its replies
      from, with [AsyncServerCall].
    - [Sharding]: [MakeShardMap] and [Reshard] of [node_launch.cpp].
    - [Benchmark]: the workload generator of [benchmark.h]. [Launch]: the file
      loop of [main], the rows it parses, the file [write_csv] writes, and the
      paths under which the one opens what the other wrote.
      [Deploy]: the processes and addresses [main] sets up. [Terminal]: the
      prompt between two sets of transactions and the end of a set.
    - [Storage]: the SQLite functions of [paxos_node.cpp], over SQL statements
      that are parameters.
    - [LogRing]: the trace ring of [log.h]. [LogLine]: its lines on the terminal.

    A client hands requests to nodes over gRPC ([Client.call_node] is the send,
    [CallData] the arrival); nodes exchange the messages of [Messages], which
    [Cluster] delivers as events of [Machine]; the launcher drives the client,
    the alive updates of the nodes and their shard maps.

    ** What the theorems show

    - [LedgerProofs]: execution implements the abstract ledger on every branch,
      replicas with equal ledgers execute alike, totals and signs of balances.
    - [ElectionProofs], [ReplicationProofs], [RequestProofs]: what each handler
      does on every branch; the commit rule and its quorum.
    - [ExecutionProofs]: the execution loop terminates, executes exactly the
      gap-free run, each entry with the second phase its log entry carries, and
      does not depend on the order of the Commit messages of first phases.
    - [NewViewProofs]: the log of a new leader. [TwoPhaseProofs]: what the second
      phase does to ledger, locks and log; what a commit changes in the totals;
      an abort undoes a first phase that took effect.
    - [Safety]: an invariant of the term of a node in all its reachable states,
      and what the [std::abort] of the program takes. [Promises]: which events
      can lower the promised ballot; a new leader has counted a quorum.
    - [Votes], [ClusterProofs]: over a network that loses, repeats and reorders,
      a quorum stands behind every COMMIT with a number
      ([commit_backed_by_quorum]). It does not make the logs agree:
      [commits_can_disagree]. [ClusterRuns]: runs of a deployment, every message
      of which was sent, that end in the abort, in a transfer committed without
      its debit, and in COMMITs that carry less than what stands behind them.
      [Service]: a request that a leader accepts is executed and answered on one
      run of the cluster ([request_is_served]).
    - [Frames]: what each handler leaves alone, and which faults it can end in.
      [Calls], [CallProofs]: a linear account of the gRPC calls a node holds:
      each is answered at most once. [CallDataProofs]: the call objects are
      never answered twice, nor used after their deletion while the pollers are
      in time; [move_on_use_after_free] is the run that is not. [OutCalls]: nor are the
      outgoing ones while tracing is off ([outgoing_calls_safe]).
    - [ClientProofs]: the client counts its transactions right. [TimerProofs]:
      it sends what is due and loses nothing. [ClientSafety]: it never fails
      although it destroys its requests, the requests in flight are those the
      timer retries, and it agrees with the nodes on the clusters. [ClientServer]: its server adds
      nothing and loses nothing. [LaunchProofs], [CsvProofs]: the launcher
      numbers requests apart, and reads back the file of the workload when its two
      paths lead to one file, the old file otherwise.
      [BenchmarkProofs]: the workload is well formed. [BenchReport]: the
      printed statistics are those of everything generated. [Deploy]: nodes and
      client start with one configuration. [ShardingProofs]: the initial map tiles the
      items. [ReshardProofs]: resharding keeps items and loads, and when it
      ends. [TerminalProofs]: a resharding reaches every node; what the commands
      show; what the end of a set answers and leaves. [LogRing]: the dump is the last
      statements. [LogLine]: statements do not mix. [Storage]: the table is
      initialised once, and what is written is read back.
    - Behaviours of the code that its comments rule out are theorems too:
      [noop_stops_execution], [repeated_abort_zeroes], [commit_without_debit],
      [leader_with_foreign_ballot], [even_quorums_disjoint],
      [rebalance_diverges], [Reshard_last_cluster], [reply_leader_right_iff],
      [commits_can_disagree], [accept_ack_use_after_free],
      [unknown_item_crashes], [abort_reachable], [commit_phases_do_not_commute],
      [commit_of_nothing], [commit_in_older_ballot], [move_on_use_after_free].

    ** Modelling choices

    A handler is atomic: the source serialises on mutexes, the model runs each
    handler to its end. Threads ([TransactionRetryLoop], the election timer,
    [HeartbeatLoop]) are one turn of their loop. What a node sends is appended
    to [outbox_]; time is read from [now_]. An uncaught exception, an abort, a
    null stub and an access outside a vector are faults. Unlocking a mutex that
    is not held, undefined in C++, leaves it free. Amounts, which the messages
    carry as [float], and balances are integers: the two agree up to [2 ^ 24].
    A turn of the election timer is one whose timer still runs at its end. Hash maps have no order: loops
    over them run in the order of [map_to_list], one order the language allows;
    [Reshard] takes the order as a parameter.
    The execution loop runs with one more unit of fuel than there are committed
    entries, which [execution_fuel_suffices] proves enough; a turn of the
    client's timer with one more than its heap holds; the reflection of
    [sample_gaussian_centered] with one more than the value, both shown enough
    by the theorems that they return; the rebalancing loop takes any fuel.

    ** Not modelled

    The generated gRPC code and the threads of [Run] that move tags between
    gRPC and the call objects: their effect is the events of [CallData] and
    [OutCalls]. SQLite itself, Boost's [trim] and [split], the random engines
    and the order of [std::sort] on equal counts are parameters. Signals,
    [fork], [kill], [waitpid] and sleeps of [node_launch.cpp]. The averages that
    the prompt and [generate_txns] print are kept as quotients, without the
    rounding of [double]. Functions with an empty body or no caller:
    [SendAccept], [SetRequestTimestamp], the [SendMoveOn] of the client. *)

(** ** The prelude

    Faults, the handler monad, field update, what a computation keeps, which
    faults it can end in, weakest preconditions, and lemmas on maps and sets
    that the components share. *)
From stdpp Require Export gmap strings list fin_maps sorting pretty numbers.
From Stdlib Require Export Lia.
#[global] Open Scope Z_scope.

(** ** Faults

    What stops a node process: an uncaught C++ exception ([std::stoi] throws
    [invalid_argument] or [out_of_range]), [std::abort], the dereference of a
    null stub, an access outside a [std::vector] (undefined behaviour), the
    use of an object after its deletion, a second answer on one gRPC call, or
    the [runtime_error] of a blocking call that failed. *)
Inductive fault :=
  | InvalidArgument
  | OutOfRange
  | Aborted
  | NullStub
  | BadIndex
  | UseAfterFree
  | DoubleFinish
  | RpcFailed.

#[export] Instance fault_eq_dec : EqDecision fault.
Proof. solve_decision. Defined.

(** ** The handler monad: explicit state passing with faults *)
Inductive res (A : Type) :=
  | Ok (a : A)
  | Fault (f : fault).
Arguments Ok {A} a.
Arguments Fault {A} f.

Definition M (S A : Type) : Type := S → res (A * S).

#[export] Instance M_ret {S} : MRet (M S) := λ A a s, Ok (a, s).
#[export] Instance M_bind {S} : MBind (M S) := λ A B k m s,
  match m s with
  | Ok (a, s') => k a s'
  | Fault f => Fault f
  end.
#[export] Instance M_fmap {S} : FMap (M S) := λ A B g m s,
  match m s with
  | Ok (a, s') => Ok (g a, s')
  | Fault f => Fault f
  end.

Definition gets {S A} (g : S → A) : M S A := λ s, Ok (g s, s).
Definition modify {S} (g : S → S) : M S unit := λ s, Ok (tt, g s).
Definition raise {S A} (f : fault) : M S A := λ _, Fault f.
Definition skip {S} : M S unit := mret tt.
Definition when {S} (b : bool) (m : M S unit) : M S unit := if b then m else skip.

(** [for (x : l) body(x)] *)
Fixpoint for_each {S X} (l : list X) (body : X → M S unit) : M S unit :=
  match l with
  | [] => skip
  | x :: l => body x ;; for_each l body
  end.

(** The state a computation ends in, if it ends in one. *)
Definition final {S A} (r : res (A * S)) : option S :=
  match r with Ok (_, s) => Some s | Fault _ => None end.
Definition value {S A} (r : res (A * S)) : option A :=
  match r with Ok (a, _) => Some a | Fault _ => None end.

Lemma value_Ok {S A} (r : res (A * S)) a : value r = Some a → ∃ s, r = Ok (a, s).
Proof. destruct r as [[a' s]|]; [|done]. intros [= ->]. eauto. Qed.

Section monad_laws.
Context {S : Type}.

Lemma M_bind_assoc {A B C} (m : M S A) (k : A → M S B) (h : B → M S C) s :
  ((m ≫= k) ≫= h) s = (m ≫= λ a, k a ≫= h) s.
Proof. unfold mbind, M_bind. by destruct (m s) as [[]|]. Qed.

Lemma bind_Ok {A B} (m : M S A) (k : A → M S B) s a s' :
  m s = Ok (a, s') → (m ≫= k) s = k a s'.
Proof. intros H. unfold mbind, M_bind. by rewrite H. Qed.

Lemma bind_Ok_inv {A B} (m : M S A) (k : A → M S B) s b s'' :
  (m ≫= k) s = Ok (b, s'') → ∃ a s', m s = Ok (a, s') ∧ k a s' = Ok (b, s'').
Proof. unfold mbind, M_bind. destruct (m s) as [[a s']|]; [eauto|done]. Qed.

Lemma bind_Fault {A B} (m : M S A) (k : A → M S B) s f :
  m s = Fault f → (m ≫= k) s = Fault f.
Proof. intros H. unfold mbind, M_bind. by rewrite H. Qed.

Lemma for_each_app {X} (l1 l2 : list X) (body : X → M S unit) s :
  for_each (l1 ++ l2) body s = (for_each l1 body ;; for_each l2 body) s.
Proof.
  revert s; induction l1 as [|x l1 IH]; intros s; [done|]; simpl.
  unfold mbind, M_bind in *. destruct (body x s) as [[[] s']|]; [apply IH|done].
Qed.
End monad_laws.

(** ** Field update for the records that model C++ objects

    [rebuild] is the constructor applied to all projections; [derive_upd]
    abstracts one projection out of it and puts a new value there. *)
Class Rebuild (R : Type) := rebuild : R → R.
Class Upd {R A : Type} (p : R → A) := upd_inst : A → R → R.
Definition upd {R A : Type} (p : R → A) {u : Upd p} (v : A) (r : R) : R := upd_inst v r.
Arguments upd {R A} p {u} v r : simpl never.

Ltac derive_upd :=
  lazymatch goal with
  | |- @Upd ?R ?A ?p =>
      let v := fresh "v" in
      let r := fresh "r" in
      unfold Upd; intros v r;
      let body := eval hnf in (@rebuild R _ r) in
      lazymatch eval pattern (p r) in body with
      | ?F _ => let t := eval cbv beta in (F v) in exact t
      end
  end.

Notation "p ::= v" := (modify (λ s, upd p v s))
  (at level 50, v at level 60, no associativity, only parsing) : stdpp_scope.

Notation "p ::~ f" := (modify (λ s, upd p (f (p s)) s))
  (at level 50, f at level 60, no associativity, only parsing) : stdpp_scope.

(** Reading a field after writing one. The equation of the two fields is
    proved on variables and then rewritten with, so that a long chain of
    assignments is never compared as a whole. *)
Ltac upd_equation p q R A u tac :=
  let E := fresh "E" in
  first
    [ constr_eq p q;
      assert (∀ (v : A) (r : R), p (@upd R A q u v r) = v) as E by (intros; reflexivity)
    | assert (∀ (v : A) (r : R), p (@upd R A q u v r) = p r) as E by (intros; reflexivity) ];
  tac E; clear E.
(** Only a field or a function of the state is looked through, not a
    computation that runs on it. *)
Ltac reads_state p :=
  lazymatch p with
  | upd _ _ => fail
  | @upd_inst _ _ _ _ _ => fail
  | ?f => lazymatch type of f with
          | _ → res _ => fail
          | _ → (_ → Prop) → Prop => fail
          | _ => idtac
          end
  end.
Ltac simp_upd :=
  repeat match goal with
  | |- context [?p (@upd ?R ?A ?q ?u _ _)] =>
      reads_state p; upd_equation p q R A u ltac:(fun E => rewrite !E)
  | H : context [?p (@upd ?R ?A ?q ?u _ _)] |- _ =>
      reads_state p; upd_equation p q R A u ltac:(fun E => rewrite !E in H)
  end.

(** ** Relations kept by a computation

    [respects R m]: whenever [m] returns, the state it ends in is related by
    [R] to the state it started in. With [R] a preorder this composes along
    the monad, which is how monotonicity and frame facts of whole handlers
    are proved from those of their assignments. *)
Definition respects {S A} (R : relation S) (m : M S A) : Prop :=
  ∀ s a s', m s = Ok (a, s') → R s s'.

Section respects.
Context {S : Type} (R : relation S) `{!PreOrder R}.

Lemma respects_ret {A} (a : A) : respects R (mret a).
Proof. intros s a' s' [= _ <-]. reflexivity. Qed.
Lemma respects_skip : respects R skip.
Proof. apply respects_ret. Qed.
Lemma respects_gets {A} (g : S → A) : respects R (gets g).
Proof. intros s a' s' [= _ <-]. reflexivity. Qed.
Lemma respects_raise {A} f : respects R (raise (A:=A) f).
Proof. intros s a' s' [=]. Qed.
Lemma respects_modify g : (∀ s, R s (g s)) → respects R (modify g).
Proof. intros H s a' s' [= _ <-]. apply H. Qed.
Lemma respects_bind {A B} (m : M S A) (k : A → M S B) :
  respects R m → (∀ a, respects R (k a)) → respects R (m ≫= k).
Proof.
  intros Hm Hk s b s'' H. apply bind_Ok_inv in H as (a & s' & H1 & H2).
  etrans; [eapply Hm, H1 | eapply Hk, H2].
Qed.
Lemma respects_when b (m : M S unit) : respects R m → respects R (when b m).
Proof. destruct b; [done|]. intros _. apply respects_skip. Qed.
Lemma respects_for_each {X} (l : list X) body :
  (∀ x, respects R (body x)) → respects R (for_each l body).
Proof.
  intros Hb. induction l as [|x l IH]; simpl; [apply respects_skip|].
  apply respects_bind; auto.
Qed.
End respects.

Create HintDb respects discriminated.

(** Decomposes a handler along the monad; [leaf] closes the assignments. *)
Ltac solve_respects_with leaf :=
  repeat first
    [ progress intros
    | solve [eauto 2 with respects]
    | apply respects_ret; [typeclasses eauto ..]
    | apply respects_skip; [typeclasses eauto ..]
    | apply respects_gets; [typeclasses eauto ..]
    | apply respects_raise
    | apply respects_bind; [typeclasses eauto | ..]
    | apply respects_when; [typeclasses eauto | ..]
    | apply respects_for_each; [typeclasses eauto | ..]
    | match goal with
      | |- respects _ (match ?x with _ => _ end) => destruct x eqn:?
      end
    | apply respects_modify; intros; leaf ].

(** The frame relation of a field, or of any projection of the state. *)
Definition keeps {S T} (p : S → T) : relation S := λ s s', p s' = p s.
#[export] Instance keeps_preorder {S T} (p : S → T) : PreOrder (keeps p).
Proof. split; [done | intros s1 s2 s3 H1 H2; unfold keeps in *; congruence]. Qed.

Ltac solve_keeps :=
  solve_respects_with ltac:(unfold keeps; simp_upd; reflexivity).

(** ** Which faults a computation can end in *)
Definition faults {S A} (F : fault → Prop) (m : M S A) : Prop := ∀ s f, m s = Fault f → F f.
Definition any_fault : fault → Prop := λ _, True.

Section faults.
Context {S : Type} (F : fault → Prop).

Lemma faults_any {A} (m : M S A) : faults any_fault m.
Proof. done. Qed.
Lemma faults_ret {A} (a : A) : faults (S:=S) F (mret a).
Proof. intros s f [=]. Qed.
Lemma faults_gets {A} (g : S → A) : faults F (gets g).
Proof. intros s f [=]. Qed.
Lemma faults_modify (g : S → S) : faults F (modify g).
Proof. intros s f [=]. Qed.
Lemma faults_raise {A} f : F f → faults (S:=S) F (raise (A:=A) f).
Proof. by intros H s f' [= <-]. Qed.
Lemma faults_bind {A B} (m : M S A) (k : A → M S B) :
  faults F m → (∀ a, faults F (k a)) → faults F (m ≫= k).
Proof.
  intros Hm Hk s f. unfold mbind, M_bind. destruct (m s) as [[a s']|f'] eqn:E.
  - apply Hk.
  - intros [= <-]. by apply (Hm s).
Qed.
Lemma faults_when b (m : M S unit) : faults F m → faults F (when b m).
Proof. destruct b; [done|]. intros _. apply faults_ret. Qed.
Lemma faults_for_each {X} (l : list X) (body : X → M S unit) :
  (∀ x, faults F (body x)) → faults F (for_each l body).
Proof.
  intros Hb. induction l as [|x l IH]; simpl; [apply faults_ret|].
  apply faults_bind; auto.
Qed.
End faults.

Create HintDb faults discriminated.
Ltac solve_faults :=
  repeat first
    [ progress intros
    | solve [eauto 2 with faults]
    | apply faults_any | apply faults_ret | apply faults_gets | apply faults_modify
    | apply faults_raise; done
    | apply faults_bind | apply faults_when | apply faults_for_each
    | match goal with
      | |- faults _ (match ?x with _ => _ end) => destruct x eqn:?
      end ].

(** ** Weakest preconditions

    [wp F m s Q]: [m] returns from [s] with a value and a state in [Q], or
    ends in a fault of [F]. With [F] everything this is partial correctness,
    with [F] nothing it is total. A computation known only through what it
    [respects] is stepped over with [wp_respects]; everything else computes. *)
Definition wp {S A} (F : fault → Prop) (m : M S A) (s : S) (Q : A → S → Prop) : Prop :=
  match m s with Ok (a, s') => Q a s' | Fault f => F f end.

Section wp.
Context {S : Type} (F : fault → Prop).
Implicit Types s : S.

Lemma wp_ret {A} (a : A) s (Q : A → S → Prop) : Q a s → wp F (mret a) s Q.
Proof. done. Qed.
Lemma wp_gets {A} (g : S → A) s (Q : A → S → Prop) : Q (g s) s → wp F (gets g) s Q.
Proof. done. Qed.
Lemma wp_modify g s (Q : unit → S → Prop) : Q tt (g s) → wp F (modify g) s Q.
Proof. done. Qed.
Lemma wp_raise {A} f s (Q : A → S → Prop) : F f → wp F (raise f) s Q.
Proof. done. Qed.
Lemma wp_bind {A B} (m : M S A) (k : A → M S B) s (Q : B → S → Prop) :
  wp F m s (λ a s', wp F (k a) s' Q) → wp F (m ≫= k) s Q.
Proof. unfold wp, mbind, M_bind. by destruct (m s) as [[a s']|]. Qed.
Lemma wp_mono {A} (m : M S A) s (Q Q' : A → S → Prop) :
  (∀ a s', Q a s' → Q' a s') → wp F m s Q → wp F m s Q'.
Proof. unfold wp. destruct (m s) as [[a s']|]; auto. Qed.
Lemma wp_respects {A} (R : relation S) (m : M S A) s (Q : A → S → Prop) :
  faults F m → respects R m → (∀ a s', R s s' → Q a s') → wp F m s Q.
Proof. unfold wp. intros Hf Hm HQ. destruct (m s) as [[a s']|] eqn:E; eauto. Qed.
Lemma wp_keeps {A T} (p : S → T) (m : M S A) s (Q : A → S → Prop) :
  faults F m → respects (keeps p) m → (∀ a s', p s' = p s → Q a s') → wp F m s Q.
Proof. apply (wp_respects (keeps p)). Qed.
Lemma wp_Ok {A} (m : M S A) s a s' (Q : A → S → Prop) :
  m s = Ok (a, s') → wp F m s Q → Q a s'.
Proof. unfold wp. by intros ->. Qed.
Lemma wp_eq {A} (m m' : M S A) s s' (Q : A → S → Prop) :
  m s = m' s' → wp F m' s' Q → wp F m s Q.
Proof. unfold wp. by intros ->. Qed.
Lemma wp_returns {A} (m : M S A) s a s' (Q : A → S → Prop) :
  m s = Ok (a, s') → Q a s' → wp F m s Q.
Proof. unfold wp. by intros ->. Qed.
Lemma wp_when b (m : M S unit) s (Q : unit → S → Prop) :
  (b = true → wp F m s Q) → (b = false → Q tt s) → wp F (when b m) s Q.
Proof. intros H1 H2. destruct b; [exact (H1 eq_refl) | exact (H2 eq_refl)]. Qed.

Lemma wp_for_each {X} (l : list X) body s (I : S → Prop) (Q : unit → S → Prop) :
  (∀ x t, x ∈ l → I t → wp F (body x) t (λ _, I)) → I s → (∀ t, I t → Q tt t) →
  wp F (for_each l body) s Q.
Proof.
  revert s. induction l as [|x l IH]; simpl; intros s Hb HI HQ; [by apply HQ|].
  apply wp_bind. eapply wp_mono; [|apply Hb; [left|done]].
  intros ? t Ht. apply IH; auto. intros y t' Hy. apply Hb. by right.
Qed.
End wp.

Definition no_fault : fault → Prop := λ _, False.

(** Total correctness with an exact result. *)
Lemma wp_exact {S A} (m : M S A) s x :
  wp no_fault m s (λ a s', (a, s') = x) → m s = Ok x.
Proof. unfold wp. destruct (m s) as [[a s']|]; [by intros ->|done]. Qed.

Lemma wp_total {S} (m : M S unit) s (Q : S → Prop) :
  wp no_fault m s (λ _, Q) → ∃ s', m s = Ok (tt, s') ∧ Q s'.
Proof. unfold wp. destruct (m s) as [[[] s']|]; [eauto|done]. Qed.

Lemma respects_wp {S A} (R : relation S) (m : M S A) :
  (∀ s, wp any_fault m s (λ _ s', R s s')) → respects R m.
Proof. intros H s a s' E. exact (wp_Ok _ _ _ _ _ _ E (H s)). Qed.

(** Steps through the primitives of the monad, splitting the tests. *)
Ltac wp_step :=
  lazymatch goal with
  | |- wp _ ?m _ _ =>
      lazymatch m with
      | mbind _ _ => apply wp_bind
      | gets _ => apply wp_gets; cbv beta delta [id]
      | modify _ => apply wp_modify; cbn beta
      | mret _ => apply wp_ret; cbn beta
      | raise _ => apply wp_raise; try done
      | skip => apply wp_ret; cbn beta
      | when _ _ => apply wp_when; intros; try discriminate
      | match ?x with _ => _ end => destruct x eqn:?
      end
  end.
Ltac wp_steps := repeat (wp_step; cbv zeta); simp_upd.

(** The same, with [tac] rewriting the tests that are already known. *)
Ltac wp_run_with tac := repeat (wp_step; cbv zeta; simp_upd; tac; cbn [negb andb orb]).

(** Steps over a computation that keeps the projection [p]. *)
Ltac wp_over p :=
  lazymatch goal with
  | |- wp _ _ _ _ =>
      apply (wp_keeps _ p); [solve_faults | solve_keeps | intros ? ? ?; cbn beta]
  end.

(** ** Maps iterated in key order ([std::map]) *)
Definition key_le {A} : relation (Z * A) := λ p q, p.1 ≤ q.1.
#[export] Instance key_le_dec {A} : RelDecision (@key_le A).
Proof. intros p q. unfold key_le. apply _. Defined.
#[export] Instance key_le_total {A} : Total (@key_le A).
Proof. intros p q. unfold key_le. lia. Qed.
#[export] Instance key_le_trans {A} : Transitive (@key_le A).
Proof. intros p q r. unfold key_le. lia. Qed.

Definition entries {A} (m : gmap Z A) : list (Z * A) := merge_sort key_le (map_to_list m).

Lemma elem_of_entries {A} (m : gmap Z A) k x : (k, x) ∈ entries m ↔ m !! k = Some x.
Proof. unfold entries. rewrite merge_sort_Permutation. apply elem_of_map_to_list. Qed.

Lemma entries_sorted {A} (m : gmap Z A) : StronglySorted key_le (entries m).
Proof. apply (StronglySorted_merge_sort _). Qed.

Lemma entries_NoDup {A} (m : gmap Z A) : NoDup (entries m).*1.
Proof. unfold entries. rewrite merge_sort_Permutation. apply NoDup_fst_map_to_list. Qed.

Lemma entries_empty {A} : entries (∅ : gmap Z A) = [].
Proof. done. Qed.

Lemma entries_nil_inv {A} (m : gmap Z A) : entries m = [] → m = ∅.
Proof.
  intros H. apply map_empty. intros k. apply eq_None_not_Some. intros [x Hx].
  apply elem_of_entries in Hx. rewrite H in Hx. by apply elem_of_nil in Hx.
Qed.

(** [operator[]] of a map: the value, default-inserted when the key is absent. *)
Definition subscript {A} (d : A) (m : gmap Z A) (k : Z) : A * gmap Z A :=
  match m !! k with
  | Some x => (x, m)
  | None => (d, <[k := d]> m)
  end.

Lemma subscript_fst {A} (d : A) m k : (subscript d m k).1 = default d (m !! k).
Proof. unfold subscript. by destruct (m !! k). Qed.

Lemma subscript_lookup {A} (d : A) m k j :
  (subscript d m k).2 !! j = if decide (k = j) then Some (default d (m !! k)) else m !! j.
Proof.
  unfold subscript. destruct (m !! k) eqn:E; simpl.
  - case_decide; [by subst|done].
  - rewrite lookup_insert. case_decide; [by subst|done].
Qed.

(** ** Boolean tests of the source *)
Notation "x ==s y" := (bool_decide (x = y)) (at level 70) : stdpp_scope.

(** ** Sets of node identifiers *)
Lemma size_seqZ_set (m n : Z) : 0 ≤ n → Z.of_nat (size (list_to_set (seqZ m n) : gset Z)) = n.
Proof.
  intros Hn. rewrite size_list_to_set by apply NoDup_seqZ.
  rewrite length_seqZ. lia.
Qed.

Lemma size_union_le (A B C : gset Z) :
  A ⊆ C → B ⊆ C → A ∩ B = ∅ → (size A + size B ≤ size C)%nat.
Proof.
  intros HA HB Hd. rewrite <-size_union.
  - apply subseteq_size. by apply union_subseteq.
  - intros x Hx Hx'. apply (not_elem_of_empty (C:=gset Z) x). rewrite <-Hd.
    by apply elem_of_intersection.
Qed.

(** ** Running a handler on a symbolic state *)
Ltac run :=
  unfold mbind, M_bind, mret, M_ret, gets, modify, raise, when, skip in *; cbn beta iota zeta in *;
  simp_upd.
Ltac run_goal :=
  unfold when, skip, mbind, M_bind, mret, M_ret, gets, modify, raise, id; cbn beta iota zeta.
