(* ===== verification/Text.v ===== *)
(** * Text: [std::to_string] and [std::stoi]

    The account numbers of a request travel as strings: [node_launch.cpp]
    prints them with [std::to_string] and the node parses them with
    [std::stoi] wherever it needs the index. Both are modelled on integers in
    the range of a 32-bit [int]; a failed parse is a fault of the process. *)
From S2P Require Import Prelude.
From Stdlib Require Import Ascii.
#[local] Open Scope Z_scope.

Definition to_string (z : Z) : string := pretty z.

(** [std::to_string(float)] on a float that holds an integer: six decimals. *)
Definition float_to_string (z : Z) : string := to_string z +:+ ".000000".

Definition nl : string := String "010"%char EmptyString.

(** What is printed: text, and the value of a [double] as a quotient. *)
Inductive Piece :=
  | Str (s : string)
  | Quot (n d : Z).

Definition is_space (c : ascii) : bool :=
  let n := N_of_ascii c in (n =? 32)%N || ((9 <=? n)%N && (n <=? 13)%N).

Definition digit_val (c : ascii) : option Z :=
  let n := N_of_ascii c in
  if ((48 <=? n)%N && (n <=? 57)%N) then Some (Z.of_N n - 48) else None.

Fixpoint skip_space (s : string) : string :=
  match s with
  | String c s' => if is_space c then skip_space s' else s
  | EmptyString => s
  end.

(** The longest prefix of digits, accumulated on top of [acc]. *)
Fixpoint digits (acc : Z) (s : string) : Z :=
  match s with
  | String c s' =>
      match digit_val c with
      | Some d => digits (acc * 10 + d) s'
      | None => acc
      end
  | EmptyString => acc
  end.

Definition int_min : Z := -2147483648.
Definition int_max : Z := 2147483647.
Definition fits_int (z : Z) : bool := (int_min <=? z) && (z <=? int_max).

Definition starts_digit (s : string) : bool :=
  match s with
  | String c _ => match digit_val c with Some _ => true | None => false end
  | EmptyString => false
  end.

Definition stoi (s : string) : fault + Z :=
  let s := skip_space s in
  let '(neg, s) :=
    match s with
    | String "-" s' => (true, s')
    | String "+" s' => (false, s')
    | _ => (false, s)
    end in
  if starts_digit s then
    let z := if neg : bool then - digits 0 s else digits 0 s in
    if fits_int z then inr z else inl OutOfRange
  else inl InvalidArgument.

Definition stoiM {S} (s : string) : M S Z :=
  match stoi s with inl f => raise f | inr z => mret z end.

(** ** Concatenation *)
Lemma append_cons c s t : String c s +:+ t = String c (s +:+ t).
Proof. done. Qed.
Lemma append_nil t : "" +:+ t = t.
Proof. done. Qed.
Lemma append_assoc (s t u : string) : (s +:+ t) +:+ u = s +:+ t +:+ u.
Proof. induction s as [|c s IH]; [done|]. rewrite !append_cons. by rewrite IH. Qed.
Lemma append_nil_r s : s +:+ "" = s.
Proof. induction s as [|c s IH]; [done|]. by rewrite append_cons, IH. Qed.

(** ** Printing and parsing *)
Lemma digit_val_pretty (n : N) :
  (n < 10)%N → digit_val (pretty_N_char n) = Some (Z.of_N n).
Proof.
  intros H.
  assert (n = 0 ∨ n = 1 ∨ n = 2 ∨ n = 3 ∨ n = 4 ∨ n = 5 ∨ n = 6 ∨ n = 7 ∨ n = 8 ∨ n = 9)%N
    as Hn by lia.
  destruct_or! Hn; subst n; reflexivity.
Qed.

Lemma starts_digit_not_sign s :
  starts_digit s = true →
  skip_space s = s ∧ (∀ s', s ≠ String "-" s') ∧ (∀ s', s ≠ String "+" s').
Proof.
  destruct s as [|c s]; [done|]. simpl. intros H.
  split_and!; [|by intros s' [= -> ->] ..].
  unfold is_space, digit_val in *. destruct (N_of_ascii c) as [|p]; [done|].
  destruct (48 <=? _)%N eqn:E; [|done]. apply N.leb_le in E.
  rewrite (proj2 (N.eqb_neq _ _)) by lia. simpl.
  by rewrite (proj2 (N.leb_gt _ 13)), andb_false_r by lia.
Qed.

Lemma pretty_N_go_starts x s :
  starts_digit s = true → starts_digit (pretty_N_go x s) = true.
Proof.
  revert s. induction (N.lt_wf_0 x) as [x _ IH]; intros s Hs.
  destruct (decide (x = 0)%N) as [->|Hx]; [by rewrite pretty_N_go_0|].
  rewrite pretty_N_go_step by lia. apply IH; [by apply N.div_lt; lia|].
  simpl. by rewrite digit_val_pretty by (apply N.mod_lt; lia).
Qed.

Lemma pretty_N_starts (n : N) : starts_digit (pretty n) = true.
Proof.
  unfold pretty, pretty_N. case_decide; [done|].
  rewrite pretty_N_go_step by lia. apply pretty_N_go_starts.
  simpl. by rewrite digit_val_pretty by (apply N.mod_lt; lia).
Qed.

Lemma digits_pretty_N_go x s :
  ∃ k, ∀ acc, digits acc (pretty_N_go x s) = digits (acc * k + Z.of_N x) s.
Proof.
  revert s. induction (N.lt_wf_0 x) as [x _ IH]; intros s.
  destruct (decide (x = 0)%N) as [->|Hx].
  { exists 1. intros acc. rewrite pretty_N_go_0. f_equal. lia. }
  rewrite pretty_N_go_step by lia.
  destruct (IH (x `div` 10)%N ltac:(apply N.div_lt; lia)
              (String (pretty_N_char (x `mod` 10)) s)) as [k Hk].
  exists (k * 10). intros acc. rewrite Hk. simpl.
  rewrite digit_val_pretty by (apply N.mod_lt; lia). f_equal.
  rewrite (N.div_mod x 10) at 3 by lia. lia.
Qed.

Lemma digits_pretty_N (n : N) : digits 0 (pretty n) = Z.of_N n.
Proof.
  unfold pretty, pretty_N. case_decide as H; [by subst|].
  destruct (digits_pretty_N_go n "") as [k Hk]. rewrite Hk. simpl. lia.
Qed.

Lemma stoi_unsigned s z :
  starts_digit s = true → digits 0 s = z → fits_int z = true → stoi s = inr z.
Proof.
  intros Hs Hd Hf. destruct (starts_digit_not_sign s Hs) as (E & Hm & Hp).
  unfold stoi. rewrite E.
  assert (match s with String "-" s' => (true, s') | String "+" s' => (false, s')
          | _ => (false, s) end = (false, s)) as ->.
  { destruct s as [|[[] [] [] [] [] [] [] []] s]; done. }
  by rewrite Hs, Hd, Hf.
Qed.

(** An integer printed by [std::to_string] is read back by [std::stoi] as the
    same integer, for every 32-bit [int]. *)
Lemma stoi_to_string (z : Z) : int_min ≤ z ≤ int_max → stoi (to_string z) = inr z.
Proof.
  intros Hz.
  assert (fits_int z = true) as Hf.
  { unfold fits_int. apply andb_true_iff. rewrite !Z.leb_le. lia. }
  unfold to_string. destruct z as [|p|p]; [done | |].
  - apply stoi_unsigned; [apply pretty_N_starts | apply (digits_pretty_N (Npos p)) | done].
  - change (pretty (Zneg p)) with (String "-"%char (pretty (Npos p))).
    unfold stoi; simpl. rewrite pretty_N_starts, digits_pretty_N.
    change (- Z.of_N (Npos p)) with (Zneg p). by rewrite Hf.
Qed.

(** The empty string has no digits. *)
Lemma stoi_empty : stoi "" = inl InvalidArgument.
Proof. reflexivity. Qed.
