(* ===== verification/Messages.v ===== *)
(** * Messages: the wire types and the ballot order

    The protocol buffers of [grpc/paxos.proto] as records, one field per proto
    field, with the proto3 default of every message ([..._default]); a field
    that is never set on the wire reads as its default. [struct Ballot] of
    [paxos_node.h] and the proto message of the same name have the same two
    fields and are one record here, with the comparison operators of the
    struct. [Output] lists what a handler can put on the wire. *)
From S2P Require Import Prelude.
#[local] Open Scope Z_scope.

(** ** Ballots *)
Record Ballot := MkBallot { counter : Z; node_id : Z }.
Definition Ballot_default : Ballot := MkBallot 0 0.

#[export] Instance Ballot_eq_dec : EqDecision Ballot.
Proof. solve_decision. Defined.

Definition ballot_eqb (a b : Ballot) : bool :=
  (counter a =? counter b) && (node_id a =? node_id b).
Definition ballot_gtb (a b : Ballot) : bool :=
  (counter a >? counter b) || ((counter a =? counter b) && (node_id a >? node_id b)).
Definition ballot_ltb (a b : Ballot) : bool :=
  (counter a <? counter b) || ((counter a =? counter b) && (node_id a <? node_id b)).
Definition ballot_geb (a b : Ballot) : bool := ballot_gtb a b || ballot_eqb a b.

(** ** Client traffic *)
Record ClientRequest := MkClientRequest {
  rq_client_id : string;
  rq_timestamp : Z;
  rq_from_account : string;
  rq_to_account : string;
  rq_amount : Z;
  rq_read_only : bool;
  rq_two_pc_msg : string;
  rq_from_node : Z }.
Definition ClientRequest_default : ClientRequest :=
  MkClientRequest "" 0 "" "" 0 false "" 0.
#[export] Instance ClientRequest_eq_dec : EqDecision ClientRequest.
Proof. solve_decision. Defined.
#[export] Instance rebuild_ClientRequest : Rebuild ClientRequest := λ r,
  MkClientRequest (rq_client_id r) (rq_timestamp r) (rq_from_account r) (rq_to_account r)
    (rq_amount r) (rq_read_only r) (rq_two_pc_msg r) (rq_from_node r).
#[export] Instance upd_rq_two_pc_msg : Upd rq_two_pc_msg := ltac:(derive_upd).
#[export] Instance upd_rq_from_node : Upd rq_from_node := ltac:(derive_upd).

Record ClientReply := MkClientReply {
  cr_ballot : Ballot;
  cr_timestamp : Z;
  cr_client_id : string;
  cr_success : bool;
  cr_from_this_term : bool;
  cr_read_only_balance : Z }.
#[export] Instance ClientReply_eq_dec : EqDecision ClientReply.
Proof. solve_decision. Defined.

(** ** Log entries *)
Record AcceptedEntry := MkAcceptedEntry {
  ae_ballot : Ballot;
  ae_seqnum : Z;
  ae_request : ClientRequest;
  ae_node_id : Z;
  ae_two_pc_status : string;
  ae_m : ClientRequest;
  ae_new_leader : Z;
  ae_phase2_result : string }.
Definition AcceptedEntry_default : AcceptedEntry :=
  MkAcceptedEntry Ballot_default 0 ClientRequest_default 0 "" ClientRequest_default 0 "".
#[export] Instance AcceptedEntry_eq_dec : EqDecision AcceptedEntry.
Proof. solve_decision. Defined.
#[export] Instance rebuild_AcceptedEntry : Rebuild AcceptedEntry := λ r,
  MkAcceptedEntry (ae_ballot r) (ae_seqnum r) (ae_request r) (ae_node_id r)
    (ae_two_pc_status r) (ae_m r) (ae_new_leader r) (ae_phase2_result r).
#[export] Instance upd_ae_seqnum : Upd ae_seqnum := ltac:(derive_upd).
#[export] Instance upd_ae_two_pc_status : Upd ae_two_pc_status := ltac:(derive_upd).
#[export] Instance upd_ae_m : Upd ae_m := ltac:(derive_upd).
#[export] Instance upd_ae_phase2_result : Upd ae_phase2_result := ltac:(derive_upd).

Record CommitEntry := MkCommitEntry {
  ce_ballot : Ballot;
  ce_seqnum : Z;
  ce_request : ClientRequest;
  ce_two_pc_status : string;
  ce_m : ClientRequest;
  ce_phase2_result : string }.
#[export] Instance CommitEntry_eq_dec : EqDecision CommitEntry.
Proof. solve_decision. Defined.

Record Ack := MkAck {
  ack_ballot : Ballot;
  ack_node_id : Z;
  ack_accepted : bool;
  ack_seqnum : Z;
  ack_phase : Z;
  ack_status : string }.
Definition Ack_default : Ack := MkAck Ballot_default 0 false 0 0 "".
#[export] Instance Ack_eq_dec : EqDecision Ack.
Proof. solve_decision. Defined.
#[export] Instance rebuild_Ack : Rebuild Ack := λ r,
  MkAck (ack_ballot r) (ack_node_id r) (ack_accepted r) (ack_seqnum r) (ack_phase r) (ack_status r).
#[export] Instance upd_ack_accepted : Upd ack_accepted := ltac:(derive_upd).
#[export] Instance upd_ack_phase : Upd ack_phase := ltac:(derive_upd).
#[export] Instance upd_ack_status : Upd ack_status := ltac:(derive_upd).

(** ** Elections *)
Record PrepareRequest := MkPrepareRequest { pr_ballot : Ballot; pr_node_id : Z }.
Record PromiseResponse := MkPromiseResponse {
  ps_ballot : Ballot;
  ps_node_id : Z;
  ps_promised : bool;
  ps_accept_log : list AcceptedEntry }.
Record NewViewRequest := MkNewViewRequest {
  nv_ballot : Ballot;
  nv_accept_log : list AcceptedEntry }.
Record HeartbeatRequest := MkHeartbeatRequest { hb_ballot : Ballot; hb_node_id : Z }.

(** ** Two-phase commit *)
Record TwoPCMsg := MkTwoPCMsg {
  tp_type : string;
  tp_s : string;
  tp_r : string;
  tp_amt : Z;
  tp_m : ClientRequest }.
Definition TwoPCMsg_default : TwoPCMsg := MkTwoPCMsg "" "" "" 0 ClientRequest_default.
#[export] Instance TwoPCMsg_eq_dec : EqDecision TwoPCMsg.
Proof. solve_decision. Defined.
#[export] Instance rebuild_TwoPCMsg : Rebuild TwoPCMsg := λ r,
  MkTwoPCMsg (tp_type r) (tp_s r) (tp_r r) (tp_amt r) (tp_m r).
#[export] Instance upd_tp_type : Upd tp_type := ltac:(derive_upd).

(** ** Control plane *)
Record AliveUpdateRequest := MkAliveUpdateRequest {
  au_is_alive : bool;
  au_kill_leader : bool;
  au_prompt_pause : bool;
  au_recover : bool;
  au_reset_state : bool;
  au_reshard : bool;
  au_shard_map : list (Z * Z) }.

Record InfoRequest := MkInfoRequest {
  in_print_log : bool;
  in_print_db : bool;
  in_print_status : bool;
  in_print_newview : bool;
  in_seqnum : Z }.
Record NodeInfo := MkNodeInfo {
  ni_print_log : string;
  ni_database : list (string * Z);
  ni_status : string;
  ni_newviews : list NewViewRequest }.

(** ** Two-phase statuses carried as strings *)
Definition is_phase2_status (s : string) : bool :=
  (s ==s "C_COORD") || (s ==s "C") || (s ==s "A_COORD") || (s ==s "A_PART_COMMIT").
Definition is_phase1_status (s : string) : bool :=
  (s ==s "COORD") || (s ==s "P") || (s ==s "A").

(** ** What a node sends

    Every RPC a node starts, with its destination, and every response it gives
    on a call it was asked to answer. A call object of the server side is
    named by a number. *)
Inductive Output :=
  | SendPrepareTo (peer : Z) (r : PrepareRequest)
  | SendAcceptTo (peer : Z) (e : AcceptedEntry)
  | SendCommitTo (peer : Z) (c : CommitEntry)
  | SendNewViewTo (peer : Z) (v : NewViewRequest)
  | SendAcceptAckTo (peer : Z) (a : Ack)
  | SendClientRequestTo (peer : Z) (r : ClientRequest)
  | SendTwoPCMsgTo (peer : Z) (m : TwoPCMsg)
  | SendHeartbeatTo (peer : Z) (h : HeartbeatRequest)
  | SendReplyToClient (c : string) (r : ClientReply)
  | RespondPrepare (call : Z) (r : PromiseResponse)
  | RespondNewView (call : Z)
  | RespondClient (call : Z).

(** ** The ballot order is the lexicographic order *)
Definition ballot_lt (a b : Ballot) : Prop :=
  counter a < counter b ∨ (counter a = counter b ∧ node_id a < node_id b).
Definition ballot_le (a b : Ballot) : Prop := ballot_lt a b ∨ a = b.

Lemma ballot_eta b : MkBallot (counter b) (node_id b) = b.
Proof. by destruct b. Qed.
Lemma ballot_eqb_spec a b : ballot_eqb a b = true ↔ a = b.
Proof.
  unfold ballot_eqb. rewrite andb_true_iff, !Z.eqb_eq.
  destruct a, b; simpl. split; [by intros [-> ->] | by intros [= -> ->]].
Qed.
Lemma ballot_ltb_spec a b : ballot_ltb a b = true ↔ ballot_lt a b.
Proof.
  unfold ballot_ltb, ballot_lt.
  by rewrite orb_true_iff, andb_true_iff, Z.eqb_eq, !Z.ltb_lt.
Qed.
Lemma ballot_gtb_spec a b : ballot_gtb a b = true ↔ ballot_lt b a.
Proof.
  unfold ballot_gtb, ballot_lt.
  rewrite orb_true_iff, andb_true_iff, Z.eqb_eq, !Z.gtb_gt. lia.
Qed.
Lemma ballot_geb_spec a b : ballot_geb a b = true ↔ ballot_le b a.
Proof.
  unfold ballot_geb, ballot_le. rewrite orb_true_iff, ballot_gtb_spec, ballot_eqb_spec.
  split; (intros [H|H]; [by left | by right]).
Qed.
Lemma ballot_gtb_false a b : ballot_gtb a b = false ↔ ballot_le a b.
Proof.
  rewrite <-not_true_iff_false, ballot_gtb_spec. unfold ballot_le, ballot_lt.
  destruct a as [c i], b as [d j]; simpl. split.
  - intros H. destruct (decide (c = d ∧ i = j)) as [[-> ->]|]; [by right|left; lia].
  - intros [H|[= -> ->]]; lia.
Qed.
Lemma ballot_ltb_false a b : ballot_ltb a b = false ↔ ballot_le b a.
Proof.
  rewrite <-not_true_iff_false, ballot_ltb_spec.
  by rewrite <-ballot_gtb_false, <-not_true_iff_false, ballot_gtb_spec.
Qed.
#[export] Instance ballot_lt_strict : StrictOrder ballot_lt.
Proof.
  unfold ballot_lt. split; [intros a H; lia | intros a b c H1 H2; lia].
Qed.
#[export] Instance ballot_le_preorder : PreOrder ballot_le.
Proof.
  unfold ballot_le. split; [by right|].
  intros a b c [H1| ->] [H2| ->]; auto. left. by etrans.
Qed.
Lemma ballot_le_antisym a b : ballot_le a b → ballot_le b a → a = b.
Proof. unfold ballot_le, ballot_lt. intros [H|] [H'|]; auto. lia. Qed.

Create Rewrite HintDb ballot.
#[export] Hint Rewrite ballot_eqb_spec ballot_ltb_spec ballot_gtb_spec ballot_geb_spec
  ballot_gtb_false ballot_ltb_false : ballot.

(** C21: the operators [<], [>], [>=] and [==] of [struct Ballot] are one strict
    total order: exactly one of [<], [==], [>] holds of two ballots, [>=] is
    its reflexive closure, and the order is transitive. *)
Theorem ballot_total_order (a b c : Ballot) :
  ((ballot_ltb a b = true ∧ ballot_eqb a b = false ∧ ballot_gtb a b = false) ∨
   (ballot_ltb a b = false ∧ ballot_eqb a b = true ∧ ballot_gtb a b = false) ∨
   (ballot_ltb a b = false ∧ ballot_eqb a b = false ∧ ballot_gtb a b = true)) ∧
  ballot_geb a b = negb (ballot_ltb a b) ∧
  ballot_gtb a b = ballot_ltb b a ∧
  implb (ballot_ltb a b && ballot_ltb b c) (ballot_ltb a c) = true.
Proof.
  destruct a as [c1 i1], b as [c2 i2], c as [c3 i3].
  unfold ballot_geb, ballot_ltb, ballot_eqb, ballot_gtb; simpl.
  split_and!; lia.
Qed.
