(* ===== verification/Node.v ===== *)
(** * The state of a [PaxosNode]

    The data members of [class PaxosNode] ([paxos_node.h]), its constructor,
    and the operations every handler uses: sending, logging, the account and
    lock vectors, the in-flight tables.

    Representation. Hash maps and [std::map]s are [gmap]s; a [std::set] of
    integers is a [gset]. [accounts_] and [balance_locks_] are vectors of 9001
    elements: the balances are a function read only through the checked
    [account_at], and the set [balance_locks_] holds the indices of the locked
    mutexes. Balances and amounts are integers: every amount enters the system
    as an [int] ([node_launch.cpp]) and the initial balance is 10, so the
    doubles only ever hold integers, exactly while they stay below 2^53. A
    stub is present or null; calls held for a later response are numbers
    ([pending_promise_call_], [newview_call_data_]) or carry their request
    ([SendClientRequestCallData]). Two members are of the environment: [now_],
    the reading of [steady_clock] during the current handler, in milliseconds,
    and [outbox_], what the node has sent so far, oldest first. *)
From stdpp Require Export functions.
From S2P Require Import Prelude Text Messages.
#[local] Open Scope Z_scope.

Inductive Role := LEADER | BACKUP.
#[export] Instance Role_eq_dec : EqDecision Role.
Proof. solve_decision. Defined.

(** The tests [role_ == Role::...] on a known role. *)
Ltac role_tests :=
  rewrite ?(bool_decide_eq_true_2 (LEADER = LEADER)) by done;
  rewrite ?(bool_decide_eq_true_2 (BACKUP = BACKUP)) by done;
  rewrite ?(bool_decide_eq_false_2 (LEADER = BACKUP)) by done;
  rewrite ?(bool_decide_eq_false_2 (BACKUP = LEADER)) by done.

Record WalEntry := MkWalEntry { before_value : Z; after_value : Z }.
Definition WalEntry_default : WalEntry := MkWalEntry 0 0.

Record InFlightTransaction := MkInFlight {
  if_msg : TwoPCMsg;
  if_last_send : Z;
  if_completed : bool;
  if_sent : bool;
  if_retries : Z }.
Definition InFlight_default : InFlightTransaction := MkInFlight TwoPCMsg_default 0 false false 0.
#[export] Instance rebuild_InFlight : Rebuild InFlightTransaction := λ r,
  MkInFlight (if_msg r) (if_last_send r) (if_completed r) (if_sent r) (if_retries r).
#[export] Instance upd_if_msg : Upd if_msg := ltac:(derive_upd).
#[export] Instance upd_if_last_send : Upd if_last_send := ltac:(derive_upd).
#[export] Instance upd_if_completed : Upd if_completed := ltac:(derive_upd).
#[export] Instance upd_if_sent : Upd if_sent := ltac:(derive_upd).
#[export] Instance upd_if_retries : Upd if_retries := ltac:(derive_upd).

(** A [std::vector]: its size, and the elements that differ from the default. *)
Record vec (A : Type) := MkVec { vec_size : Z; vec_slots : gmap Z A }.
Arguments MkVec {A} _ _.
Arguments vec_size {A} _.
Arguments vec_slots {A} _.
Definition vec_in {A} (v : vec A) (i : Z) : bool := (0 <=? i) && (i <? vec_size v).
Definition vec_get {A} (d : A) (v : vec A) (i : Z) : A := default d (vec_slots v !! i).
Definition vec_set {A} (v : vec A) (i : Z) (x : A) : vec A :=
  MkVec (vec_size v) (<[i := x]> (vec_slots v)).
(** [v.clear()] *)
Definition vec_clear {A} (v : vec A) : vec A := MkVec 0 ∅.

(** A client call kept until its entry executes: the call object and the
    request it carries ([GetRequest]). *)
Record SendClientRequestCallData := MkCall { cd_id : Z; cd_request : ClientRequest }.

Record PaxosNode := MkNode {
  node_id_ : Z;
  role_ : Role;
  alive_ : bool;
  client_stubs_ : gset string;
  current_ballot_ : Ballot;
  last_reply_per_client_ : gmap string ClientReply;
  accept_log_ : gmap Z AcceptedEntry;
  highest_promised_ballot_ : Ballot;
  promises_received_ : gset Z;
  waiting_for_promises_ : bool;
  received_promise_logs_ : (gmap Z (list AcceptedEntry));
  leader_id_ : Z;
  peer_stubs_ : gset Z;
  timer_running_ : bool;
  election_reset_ : bool;
  last_prepare_received_ : Z;
  last_leader_msg_received_ : Z;
  newview_acks_ : gset Z;
  newview_quorum_reached_ : bool;
  pending_promise_call_ : option Z;
  accepted_count_ : (gmap Z (gmap Z (gset Z)));
  pending_entries_ : gmap Z AcceptedEntry;
  executed_entries_ : gset Z;
  executed_two_pc_ : gset Z;
  entries_to_commit_ : gmap Z CommitEntry;
  last_executed_seq_ : Z;
  f_ : Z;
  last_seqnum_ : Z;
  accounts_ : Z → Z;
  pending_client_calls_ : gmap Z SendClientRequestCallData;
  in_election_ : bool;
  queued_client_requests_ : (list (ClientRequest * SendClientRequestCallData));
  print_log_ : string;
  new_view_logs_ : list NewViewRequest;
  newview_call_data_ : option Z;
  in_new_view_ : bool;
  max_seqnum_in_new_view_ : Z;
  alive_before_prompt_ : bool;
  modified_accounts_ : gset Z;
  balance_locks_ : gset Z;
  shard_map_ : gmap Z Z;
  divisor_ : Z;
  intra_c_nid_range_ : Z * Z;
  cluster_id_ : Z;
  wal_ : gmap Z WalEntry;
  cluster_leaders_ : gmap Z Z;
  digest_to_seqnum_ : gmap Z Z;
  in_flight_two_pc_transactions_ : vec InFlightTransaction;
  in_flight_two_pc_prepares_ : vec InFlightTransaction;
  heartbeat_running_ : bool;
  accepted_count_two_pc_commit_ : (gmap Z (gmap Z (gset Z)));
  num_clusters_ : Z;
  prepare_and_aborted_queue_ : gmap Z TwoPCMsg;
  handled_ro_requests_ : gset Z;
  first_txn_received_ : bool;
  pending_or_completed_ts_ : gset Z;
  now_ : Z;
  outbox_ : list Output }.

#[export] Instance rebuild_PaxosNode : Rebuild PaxosNode := λ s,
  MkNode
    (node_id_ s) (role_ s) (alive_ s) (client_stubs_ s) (current_ballot_ s)
    (last_reply_per_client_ s) (accept_log_ s) (highest_promised_ballot_ s)
    (promises_received_ s) (waiting_for_promises_ s) (received_promise_logs_ s) (leader_id_ s)
    (peer_stubs_ s) (timer_running_ s) (election_reset_ s) (last_prepare_received_ s)
    (last_leader_msg_received_ s) (newview_acks_ s) (newview_quorum_reached_ s)
    (pending_promise_call_ s) (accepted_count_ s) (pending_entries_ s) (executed_entries_ s)
    (executed_two_pc_ s) (entries_to_commit_ s) (last_executed_seq_ s) (f_ s) (last_seqnum_ s)
    (accounts_ s) (pending_client_calls_ s) (in_election_ s) (queued_client_requests_ s)
    (print_log_ s) (new_view_logs_ s) (newview_call_data_ s) (in_new_view_ s)
    (max_seqnum_in_new_view_ s) (alive_before_prompt_ s) (modified_accounts_ s)
    (balance_locks_ s) (shard_map_ s) (divisor_ s) (intra_c_nid_range_ s) (cluster_id_ s)
    (wal_ s) (cluster_leaders_ s) (digest_to_seqnum_ s) (in_flight_two_pc_transactions_ s)
    (in_flight_two_pc_prepares_ s) (heartbeat_running_ s) (accepted_count_two_pc_commit_ s)
    (num_clusters_ s) (prepare_and_aborted_queue_ s) (handled_ro_requests_ s)
    (first_txn_received_ s) (pending_or_completed_ts_ s) (now_ s) (outbox_ s).
#[export] Instance upd_role_ : Upd role_ := ltac:(derive_upd).
#[export] Instance upd_alive_ : Upd alive_ := ltac:(derive_upd).
#[export] Instance upd_current_ballot_ : Upd current_ballot_ := ltac:(derive_upd).
#[export] Instance upd_last_reply_per_client_ : Upd last_reply_per_client_ := ltac:(derive_upd).
#[export] Instance upd_accept_log_ : Upd accept_log_ := ltac:(derive_upd).
#[export] Instance upd_highest_promised_ballot_ : Upd highest_promised_ballot_ := ltac:(derive_upd).
#[export] Instance upd_promises_received_ : Upd promises_received_ := ltac:(derive_upd).
#[export] Instance upd_waiting_for_promises_ : Upd waiting_for_promises_ := ltac:(derive_upd).
#[export] Instance upd_received_promise_logs_ : Upd received_promise_logs_ := ltac:(derive_upd).
#[export] Instance upd_leader_id_ : Upd leader_id_ := ltac:(derive_upd).
#[export] Instance upd_timer_running_ : Upd timer_running_ := ltac:(derive_upd).
#[export] Instance upd_election_reset_ : Upd election_reset_ := ltac:(derive_upd).
#[export] Instance upd_last_prepare_received_ : Upd last_prepare_received_ := ltac:(derive_upd).
#[export] Instance upd_last_leader_msg_received_ : Upd last_leader_msg_received_ := ltac:(derive_upd).
#[export] Instance upd_newview_acks_ : Upd newview_acks_ := ltac:(derive_upd).
#[export] Instance upd_newview_quorum_reached_ : Upd newview_quorum_reached_ := ltac:(derive_upd).
#[export] Instance upd_pending_promise_call_ : Upd pending_promise_call_ := ltac:(derive_upd).
#[export] Instance upd_accepted_count_ : Upd accepted_count_ := ltac:(derive_upd).
#[export] Instance upd_pending_entries_ : Upd pending_entries_ := ltac:(derive_upd).
#[export] Instance upd_executed_entries_ : Upd executed_entries_ := ltac:(derive_upd).
#[export] Instance upd_executed_two_pc_ : Upd executed_two_pc_ := ltac:(derive_upd).
#[export] Instance upd_entries_to_commit_ : Upd entries_to_commit_ := ltac:(derive_upd).
#[export] Instance upd_last_executed_seq_ : Upd last_executed_seq_ := ltac:(derive_upd).
#[export] Instance upd_last_seqnum_ : Upd last_seqnum_ := ltac:(derive_upd).
#[export] Instance upd_accounts_ : Upd accounts_ := ltac:(derive_upd).
#[export] Instance upd_pending_client_calls_ : Upd pending_client_calls_ := ltac:(derive_upd).
#[export] Instance upd_in_election_ : Upd in_election_ := ltac:(derive_upd).
#[export] Instance upd_queued_client_requests_ : Upd queued_client_requests_ := ltac:(derive_upd).
#[export] Instance upd_print_log_ : Upd print_log_ := ltac:(derive_upd).
#[export] Instance upd_new_view_logs_ : Upd new_view_logs_ := ltac:(derive_upd).
#[export] Instance upd_newview_call_data_ : Upd newview_call_data_ := ltac:(derive_upd).
#[export] Instance upd_in_new_view_ : Upd in_new_view_ := ltac:(derive_upd).
#[export] Instance upd_max_seqnum_in_new_view_ : Upd max_seqnum_in_new_view_ := ltac:(derive_upd).
#[export] Instance upd_alive_before_prompt_ : Upd alive_before_prompt_ := ltac:(derive_upd).
#[export] Instance upd_modified_accounts_ : Upd modified_accounts_ := ltac:(derive_upd).
#[export] Instance upd_balance_locks_ : Upd balance_locks_ := ltac:(derive_upd).
#[export] Instance upd_shard_map_ : Upd shard_map_ := ltac:(derive_upd).
#[export] Instance upd_wal_ : Upd wal_ := ltac:(derive_upd).
#[export] Instance upd_cluster_leaders_ : Upd cluster_leaders_ := ltac:(derive_upd).
#[export] Instance upd_digest_to_seqnum_ : Upd digest_to_seqnum_ := ltac:(derive_upd).
#[export] Instance upd_in_flight_two_pc_transactions_ : Upd in_flight_two_pc_transactions_ := ltac:(derive_upd).
#[export] Instance upd_in_flight_two_pc_prepares_ : Upd in_flight_two_pc_prepares_ := ltac:(derive_upd).
#[export] Instance upd_heartbeat_running_ : Upd heartbeat_running_ := ltac:(derive_upd).
#[export] Instance upd_accepted_count_two_pc_commit_ : Upd accepted_count_two_pc_commit_ := ltac:(derive_upd).
#[export] Instance upd_prepare_and_aborted_queue_ : Upd prepare_and_aborted_queue_ := ltac:(derive_upd).
#[export] Instance upd_handled_ro_requests_ : Upd handled_ro_requests_ := ltac:(derive_upd).
#[export] Instance upd_first_txn_received_ : Upd first_txn_received_ := ltac:(derive_upd).
#[export] Instance upd_pending_or_completed_ts_ : Upd pending_or_completed_ts_ := ltac:(derive_upd).
#[export] Instance upd_now_ : Upd now_ := ltac:(derive_upd).
#[export] Instance upd_outbox_ : Upd outbox_ := ltac:(derive_upd).

Abbreviation NodeM := (M PaxosNode).

(** ** Constants *)
Definition kPrintLog : bool := true.
Definition prepare_cooldown_ : Z := 100.
Definition base_timeout_ : Z := 1000.
Definition jitter_ : Z := 300.
Definition num_accounts : Z := 9001.
Definition in_flight_slots : Z := 5000.
Definition initial_balance : Z := 10.

(** ** Sending and answering *)
Definition emit (o : Output) : NodeM unit := outbox_ ::~ (λ l, l ++ [o]).

(** [new ...Call(peer_stubs_[peer], ...)]: a null stub is dereferenced. *)
Definition send_to (peer : Z) (o : Output) : NodeM unit :=
  peers ← gets peer_stubs_;
  if decide (peer ∈ peers) then emit o else raise NullStub.

(** [new AsyncClientReplyCallData(client_stubs_["A"], ...)] *)
Definition send_client (r : ClientReply) : NodeM unit :=
  stubs ← gets client_stubs_;
  if decide ("A"%string ∈ stubs) then emit (SendReplyToClient "A" r) else raise NullStub.

(** [call_data->Respond(TransactionAck)] *)
Definition respond (c : SendClientRequestCallData) : NodeM unit := emit (RespondClient (cd_id c)).

Definition log_line (l : string) : NodeM unit :=
  when kPrintLog (print_log_ ::~ (λ p, p +:+ l)).

(** The loop over [peer_stubs_] that skips the node itself and the nodes
    outside its cluster. *)
Definition outside_cluster (s : PaxosNode) (p : Z) : bool :=
  (p <? (intra_c_nid_range_ s).1) || (p >? (intra_c_nid_range_ s).2).

Definition to_cluster (mk : Z → Output) : NodeM unit :=
  s ← gets id;
  for_each (elements (peer_stubs_ s)) (λ p,
    if p =? node_id_ s then skip
    else if outside_cluster s p then skip
    else emit (mk p)).

(** The peers that loop reaches. *)
Definition cluster_peers (s : PaxosNode) : list Z :=
  filter (λ p, p ≠ node_id_ s ∧ outside_cluster s p = false) (elements (peer_stubs_ s)).

(** ** Accounts and their locks *)
Definition valid_index (i : Z) : bool := (0 <=? i) && (i <? num_accounts).

Definition account_at (i : Z) : NodeM Z :=
  if valid_index i then gets (λ s, accounts_ s i) else raise BadIndex.
Definition set_account (i v : Z) : NodeM unit :=
  if valid_index i then accounts_ ::~ (λ a, <[i := v]> a) else raise BadIndex.
Definition try_lock (i : Z) : NodeM bool :=
  if valid_index i then
    held ← gets balance_locks_;
    if decide (i ∈ held) then mret false
    else balance_locks_ ::~ (λ l, {[i]} ∪ l) ;; mret true
  else raise BadIndex.
Definition unlock (i : Z) : NodeM unit :=
  if valid_index i then balance_locks_ ::~ (λ l, l ∖ {[i]}) else raise BadIndex.

(** [shard_map_[item]]: 0 when the item is not mapped. The default insertion
    of [operator[]] is not observable: the map is only ever read this way. *)
Definition shard_of (s : PaxosNode) (item : Z) : Z := default 0 (shard_map_ s !! item).
Definition leader_of_cluster (s : PaxosNode) (c : Z) : Z := default 0 (cluster_leaders_ s !! c).

(** [digest_to_seqnum_[ts]], with its default insertion. *)
Definition digest_at (ts : Z) : NodeM Z :=
  m ← gets digest_to_seqnum_;
  let '(seq, m') := subscript 0 m ts in
  digest_to_seqnum_ ::= m' ;; mret seq.

(** [accept_log_[seq]], with its default insertion. *)
Definition log_at (seq : Z) : NodeM AcceptedEntry :=
  m ← gets accept_log_;
  let '(e, m') := subscript AcceptedEntry_default m seq in
  accept_log_ ::= m' ;; mret e.

(** [counts[seq][ballot_counter].insert(node)] *)
Definition count_in (m : gmap Z (gmap Z (gset Z))) (seq c : Z) : gset Z :=
  default ∅ (default ∅ (m !! seq) !! c).
Definition count_insert (m : gmap Z (gmap Z (gset Z))) (seq c node : Z) :
    gmap Z (gmap Z (gset Z)) :=
  <[seq := <[c := {[node]} ∪ count_in m seq c]> (default ∅ (m !! seq))]> m.

Lemma count_in_insert m q c i : count_in (count_insert m q c i) q c = {[i]} ∪ count_in m q c.
Proof.
  unfold count_insert. unfold count_in at 1. rewrite lookup_insert_eq. simpl.
  by rewrite lookup_insert_eq.
Qed.

(** ** Construction *)
Definition accounts_init : Z → Z := λ i, if (1 <=? i) && (i <=? 9000) then initial_balance else 0.

Definition in_flight_init : vec InFlightTransaction := MkVec in_flight_slots ∅.

(** [n / num_clusters_] and the quantities derived from it. *)
Definition divisor_of (n num_clusters : Z) : Z := Z.quot n num_clusters.
Definition range_low (divisor id : Z) : Z := Z.quot (id - 1) divisor * divisor + 1.
Definition cluster_of (divisor id : Z) : Z := Z.quot (id - 1) divisor + 1.
Definition max_faulty (divisor : Z) : Z := Z.quot (divisor - 1) 2.

Definition cluster_leaders_init (divisor num_clusters : Z) : gmap Z Z :=
  list_to_map ((λ i, (i, divisor * (i - 1) + 1)) <$> seqZ 1 num_clusters).

Definition PaxosNode_init (id : Z) (peers : gset Z) (clients : gset string)
    (shard_map : gmap Z Z) (num_clusters now : Z) : PaxosNode :=
  let divisor := divisor_of (Z.of_nat (size peers)) num_clusters in
  let low := range_low divisor id in
  {| node_id_ := id;
     role_ := BACKUP;
     alive_ := true;
     client_stubs_ := clients;
     current_ballot_ := MkBallot 0 id;
     last_reply_per_client_ := ∅;
     accept_log_ := ∅;
     highest_promised_ballot_ := Ballot_default;
     promises_received_ := ∅;
     waiting_for_promises_ := false;
     received_promise_logs_ := ∅;
     leader_id_ := -1;
     peer_stubs_ := peers;
     timer_running_ := false;
     election_reset_ := false;
     last_prepare_received_ := now - 1000;
     last_leader_msg_received_ := now - 1000;
     newview_acks_ := ∅;
     newview_quorum_reached_ := false;
     pending_promise_call_ := None;
     accepted_count_ := ∅;
     pending_entries_ := ∅;
     executed_entries_ := ∅;
     executed_two_pc_ := ∅;
     entries_to_commit_ := ∅;
     last_executed_seq_ := 0;
     f_ := max_faulty divisor;
     last_seqnum_ := 0;
     accounts_ := accounts_init;
     pending_client_calls_ := ∅;
     in_election_ := true;
     queued_client_requests_ := [];
     print_log_ := "";
     new_view_logs_ := [];
     newview_call_data_ := None;
     in_new_view_ := false;
     max_seqnum_in_new_view_ := 0;
     alive_before_prompt_ := true;
     modified_accounts_ := ∅;
     balance_locks_ := ∅;
     shard_map_ := shard_map;
     divisor_ := divisor;
     intra_c_nid_range_ := (low, low + divisor - 1);
     cluster_id_ := cluster_of divisor id;
     wal_ := ∅;
     cluster_leaders_ := cluster_leaders_init divisor num_clusters;
     digest_to_seqnum_ := ∅;
     in_flight_two_pc_transactions_ := in_flight_init;
     in_flight_two_pc_prepares_ := in_flight_init;
     heartbeat_running_ := false;
     accepted_count_two_pc_commit_ := ∅;
     num_clusters_ := num_clusters;
     prepare_and_aborted_queue_ := ∅;
     handled_ro_requests_ := ∅;
     first_txn_received_ := true;
     pending_or_completed_ts_ := ∅;
     now_ := now;
     outbox_ := [] |}.

(** ** What the sending loops do *)
Definition sent (os : list Output) (s : PaxosNode) : PaxosNode := upd outbox_ (outbox_ s ++ os) s.

Lemma sent_nil s : sent [] s = s.
Proof. destruct s. unfold sent. cbn. by rewrite app_nil_r. Qed.
Lemma sent_app l1 l2 s : sent l2 (sent l1 s) = sent (l1 ++ l2) s.
Proof. unfold sent. simp_upd. by rewrite <-app_assoc. Qed.

Lemma emit_eq o s : emit o s = Ok (tt, sent [o] s).
Proof. reflexivity. Qed.

Lemma send_to_eq p o s : p ∈ peer_stubs_ s → send_to p o s = Ok (tt, sent [o] s).
Proof. intros H. unfold send_to. run_goal. by rewrite decide_True. Qed.

Lemma for_each_emit {X} (l : list X) (f : X → list Output) (body : X → NodeM unit) s :
  (∀ x s, body x s = Ok (tt, sent (f x) s)) →
  for_each l body s = Ok (tt, sent (concat (f <$> l)) s).
Proof.
  intros Hb. revert s. induction l as [|x l IH]; intros s; simpl; [by rewrite sent_nil|].
  rewrite (bind_Ok _ _ _ _ _ (Hb x s)), IH, sent_app. done.
Qed.

Lemma to_cluster_eq mk s :
  to_cluster mk s = Ok (tt, sent (mk <$> cluster_peers s) s).
Proof.
  unfold to_cluster, cluster_peers. run_goal. change (id s) with s.
  rewrite (for_each_emit _ (λ p, if decide (p ≠ node_id_ s ∧ outside_cluster s p = false)
                                 then [mk p] else [])).
  - do 3 f_equal. induction (elements (peer_stubs_ s)) as [|p l IH]; [done|].
    rewrite fmap_cons. cbn [concat]. rewrite IH, filter_cons. by case_decide.
  - intros p s'. cbn. destruct (Z.eqb_spec p (node_id_ s)) as [->|Hp].
    { rewrite decide_False by (intros []; congruence). by rewrite sent_nil. }
    destruct (outside_cluster s p) eqn:E.
    + rewrite decide_False by (intros []; congruence). by rewrite sent_nil.
    + by rewrite decide_True by done.
Qed.

Lemma respond_all_eq {X} (l : list X) (g : X → SendClientRequestCallData) s :
  for_each l (λ x, respond (g x)) s = Ok (tt, sent ((λ x, RespondClient (cd_id (g x))) <$> l) s).
Proof.
  rewrite (for_each_emit l (λ x, [RespondClient (cd_id (g x))])); [|intros x s'; reflexivity].
  do 3 f_equal. induction l as [|x l IH]; [done|].
  rewrite !fmap_cons. cbn [concat]. by rewrite IH.
Qed.

Lemma log_line_eq l s : log_line l s = Ok (tt, upd print_log_ (print_log_ s +:+ l) s).
Proof. reflexivity. Qed.

(** The account primitives, on an index the containers hold. *)
Lemma unlock_eq i s : valid_index i = true → unlock i s = Ok (tt, upd balance_locks_ (balance_locks_ s ∖ {[i]}) s).
Proof. intros H. unfold unlock. by rewrite H. Qed.
Lemma set_account_eq i v s :
  valid_index i = true → set_account i v s = Ok (tt, upd accounts_ (<[i := v]> (accounts_ s)) s).
Proof. intros H. unfold set_account. by rewrite H. Qed.
Lemma account_at_eq i s : valid_index i = true → account_at i s = Ok (accounts_ s i, s).
Proof. intros H. unfold account_at. by rewrite H. Qed.
Lemma try_lock_eq i s :
  valid_index i = true →
  try_lock i s =
    if decide (i ∈ balance_locks_ s) then Ok (false, s)
    else Ok (true, upd balance_locks_ ({[i]} ∪ balance_locks_ s) s).
Proof. intros H. unfold try_lock. rewrite H. run_goal. by case_decide. Qed.

(** ** A small deployment

    Six nodes in two clusters and four accounts, two per cluster: the concrete
    states on which the theorems' examples run. *)
Definition small_shards : gmap Z Z := list_to_map [(1, 1); (2, 1); (3, 2); (4, 2)].
Definition small_node (id : Z) : PaxosNode :=
  PaxosNode_init id (list_to_set [1; 2; 3; 4; 5; 6]) {["A"%string]} small_shards 2 5000.
Definition transfer (ts : Z) (from to : string) (amt : Z) : ClientRequest :=
  MkClientRequest "A" ts from to amt false "" 0.
