(* ===== verification/Ledger.v ===== *)
(** * Ledger: executing transactions, the write-ahead log, its reconciliation

    [ExecuteTransaction] and the two WAL loops of [DemoteToBackup] and
    [OnElectionComplete] ([paxos_node.cpp]). Each function mirrors the order of
    the source: both account strings are parsed before the NO-OP test. *)
From S2P Require Import Prelude Text Messages Node.
#[local] Open Scope Z_scope.

Definition mark_executed (seqnum : Z) : NodeM unit := executed_entries_ ::~ (λ e, {[seqnum]} ∪ e).
Definition mark_modified (i : Z) : NodeM unit := modified_accounts_ ::~ (λ e, {[i]} ∪ e).
Definition wal_write (seqnum : Z) (w : WalEntry) : NodeM unit := wal_ ::~ (λ m, <[seqnum := w]> m).
Definition wal_erase (seqnum : Z) : NodeM unit := wal_ ::~ (λ m, delete seqnum m).

Definition ExecuteTransaction (request : ClientRequest) (seqnum : Z) (two_pc_status : string) :
    NodeM bool :=
  from ← stoiM (rq_from_account request);
  to ← stoiM (rq_to_account request);
  intra_shard ← gets (λ s, shard_of s to =? shard_of s from);
  let amt := rq_amount request in
  if rq_client_id request ==s "NO-OP" then mret true else
  balance ← account_at from;
  if balance <? amt then
    mark_executed seqnum ;;
    when intra_shard (unlock from ;; unlock to) ;;
    mret false
  else if two_pc_status ==s "A" then
    mark_executed seqnum ;;
    mret false
  else
    (if intra_shard : bool then
       set_account from (balance - amt) ;;
       b ← account_at to ;
       set_account to (b + amt) ;;
       mark_modified from ;; mark_modified to ;;
       unlock from ;; unlock to
     else if two_pc_status ==s "P" then
       b ← account_at to ;
       wal_write seqnum (MkWalEntry b (b + amt)) ;;
       set_account to (b + amt) ;;
       mark_modified to
     else if two_pc_status ==s "COORD" then
       wal_write seqnum (MkWalEntry balance (balance - amt)) ;;
       set_account from (balance - amt) ;;
       mark_modified from
     else skip) ;;
    mark_executed seqnum ;;
    mret true.

(** ** The account a WAL entry is about *)
Definition wal_account (req : ClientRequest) : NodeM Z :=
  from_account ← stoiM (rq_from_account req);
  s ← gets id;
  if cluster_id_ s =? shard_of s from_account then mret from_account
  else stoiM (rq_to_account req).

Definition undo_delta (acct : Z) (w : WalEntry) : NodeM unit :=
  b ← account_at acct;
  set_account acct (b + (before_value w - after_value w)).

(** One iteration of the loop over [wal_] in [OnElectionComplete]. *)
Definition reconcile_elected (seqnum : Z) (w : WalEntry) : NodeM unit :=
  e ← log_at seqnum;
  let p2 := ae_phase2_result e in
  if (p2 ==s "C_COORD") || (p2 ==s "C") then wal_erase seqnum else
  acct ← wal_account (ae_request e);
  if (p2 ==s "A_COORD") || (p2 ==s "A_PART_COMMIT") then
    undo_delta acct w ;; unlock acct ;; wal_erase seqnum
  else
    set_account acct (before_value w) ;; unlock acct ;; wal_erase seqnum.

Definition reconcile_wal_elected : NodeM unit :=
  w ← gets wal_;
  for_each (entries w) (λ p, reconcile_elected p.1 p.2).

(** One iteration of the loop over [wal_] in [DemoteToBackup]. *)
Definition reconcile_demoted (seqnum : Z) (w : WalEntry) : NodeM unit :=
  e ← log_at seqnum;
  let p2 := ae_phase2_result e in
  if (p2 ==s "C_COORD") || (p2 ==s "C") then wal_erase seqnum else
  acct ← wal_account (ae_request e);
  if (p2 ==s "A_COORD") || (p2 ==s "A_PART_COMMIT") then
    undo_delta acct w ;; unlock acct ;; wal_erase seqnum
  else unlock acct.

Definition reconcile_wal_demoted : NodeM unit :=
  w ← gets wal_;
  for_each (entries w) (λ p, reconcile_demoted p.1 p.2).
