(* ===== verification/LedgerSpec.v ===== *)
(** * The ledger as an abstract machine

    What a committed log entry is meant to do to the replicated ledger:
    balances, write-ahead log, executed sequence numbers and modified
    accounts. [LedgerProofs] shows that [ExecuteTransaction] implements
    [ledger_apply] and carries the facts proved here over to the node. *)
From S2P Require Import Prelude Text Messages Node Ledger.
#[local] Open Scope Z_scope.

Record Ledger := MkLedger {
  l_accounts : Z → Z;
  l_wal : gmap Z WalEntry;
  l_executed : gset Z;
  l_modified : gset Z }.

Definition ledger_of (s : PaxosNode) : Ledger :=
  MkLedger (accounts_ s) (wal_ s) (executed_entries_ s) (modified_accounts_ s).

(** What an entry asks of this cluster's ledger. *)
Inductive LedgerCmd :=
  | Noop
  | Transfer (from to amt : Z)
  | Debit (from amt : Z)
  | Credit (from to amt : Z)
  | Refused (from amt : Z)
  | Unknown (from amt : Z).

Definition classify (intra : bool) (client status : string) (from to amt : Z) : LedgerCmd :=
  if client ==s "NO-OP" then Noop
  else if status ==s "A" then Refused from amt
  else if intra then Transfer from to amt
  else if status ==s "P" then Credit from to amt
  else if status ==s "COORD" then Debit from amt
  else Unknown from amt.

(** The account whose balance decides whether the entry takes effect. *)
Definition payer (c : LedgerCmd) : option (Z * Z) :=
  match c with
  | Noop => None
  | Transfer f _ a | Debit f a | Credit f _ a | Refused f a | Unknown f a => Some (f, a)
  end.

Definition affordable (c : LedgerCmd) (l : Ledger) : bool :=
  match payer c with
  | Some (f, a) => a <=? l_accounts l f
  | None => true
  end.

Definition l_mark (seq : Z) (l : Ledger) : Ledger :=
  MkLedger (l_accounts l) (l_wal l) ({[seq]} ∪ l_executed l) (l_modified l).

Definition l_effect (seq : Z) (c : LedgerCmd) (l : Ledger) : Ledger :=
  let b := l_accounts l in
  match c with
  | Transfer f t a =>
      let b1 := <[f := b f - a]> b in
      MkLedger (<[t := b1 t + a]> b1) (l_wal l) (l_executed l) ({[t]} ∪ ({[f]} ∪ l_modified l))
  | Debit f a =>
      MkLedger (<[f := b f - a]> b) (<[seq := MkWalEntry (b f) (b f - a)]> (l_wal l))
        (l_executed l) ({[f]} ∪ l_modified l)
  | Credit _ t a =>
      MkLedger (<[t := b t + a]> b) (<[seq := MkWalEntry (b t) (b t + a)]> (l_wal l))
        (l_executed l) ({[t]} ∪ l_modified l)
  | Noop | Refused _ _ | Unknown _ _ => l
  end.

Definition ledger_apply (seq : Z) (c : LedgerCmd) (l : Ledger) : bool * Ledger :=
  match c with
  | Noop => (true, l)
  | Refused _ _ => (false, l_mark seq l)
  | _ => if affordable c l then (true, l_mark seq (l_effect seq c l)) else (false, l_mark seq l)
  end.

(** ** Totals *)
Definition sum_over (b : Z → Z) (l : list Z) : Z := foldr (λ i acc, b i + acc) 0 l.
Definition total (b : Z → Z) : Z := sum_over b (seqZ 0 num_accounts).

Section totals.
Implicit Types (b : Z → Z) (l : list Z).

Lemma sum_over_notin b l i v : i ∉ l → sum_over (<[i := v]> b) l = sum_over b l.
Proof.
  induction l as [|x l IH]; intros H; [done|]; simpl.
  apply not_elem_of_cons in H as [Hx Hl].
  by rewrite fn_lookup_insert_ne, IH by done.
Qed.

Lemma sum_over_insert b l i v :
  NoDup l → i ∈ l → sum_over (<[i := v]> b) l = sum_over b l + (v - b i).
Proof.
  induction l as [|x l IH]; intros Hd Hi; [by apply elem_of_nil in Hi|].
  apply list.NoDup_cons in Hd as [Hx Hd]. simpl.
  apply elem_of_cons in Hi as [->|Hi].
  - rewrite fn_lookup_insert, sum_over_notin by done. lia.
  - assert (i ≠ x) by (intros ->; done).
    rewrite fn_lookup_insert_ne, IH by done. lia.
Qed.

Lemma total_insert b i v : valid_index i = true → total (<[i := v]> b) = total b + (v - b i).
Proof.
  intros Hi. apply (sum_over_insert b _ i v); [apply NoDup_seqZ|].
  apply elem_of_seqZ. unfold valid_index in Hi.
  apply andb_true_iff in Hi as [H1%Z.leb_le H2%Z.ltb_lt]. lia.
Qed.
End totals.

(** The net effect of an affordable command on the total. *)
Definition net_change (c : LedgerCmd) : Z :=
  match c with
  | Debit _ a => - a
  | Credit _ _ a => a
  | _ => 0
  end.

Definition cmd_indices_valid (c : LedgerCmd) : bool :=
  match c with
  | Noop => true
  | Transfer f t _ | Credit f t _ => valid_index f && valid_index t
  | Debit f _ | Refused f _ | Unknown f _ => valid_index f
  end.

Lemma l_effect_total seq c l :
  cmd_indices_valid c = true →
  total (l_accounts (l_effect seq c l)) = total (l_accounts l) + net_change c.
Proof.
  intros Hv. destruct c as [|f t a|f a|f t a|f a|f a]; simpl in *; try lia.
  - apply andb_true_iff in Hv as [Hf Ht]. rewrite !total_insert by done. lia.
  - rewrite total_insert by done. lia.
  - apply andb_true_iff in Hv as [_ Ht]. rewrite total_insert by done. lia.
Qed.

Lemma l_effect_nonneg seq c l :
  affordable c l = true → (∀ f a, payer c = Some (f, a) → 0 ≤ a) →
  (∀ i, 0 ≤ l_accounts l i) → ∀ i, 0 ≤ l_accounts (l_effect seq c l) i.
Proof.
  intros Ha Hp Hn i. unfold affordable in Ha.
  destruct c as [|f t a|f a|f t a|f a|f a]; simpl in *; auto;
    apply Z.leb_le in Ha; specialize (Hp _ _ eq_refl).
  - pose proof (Hn t). pose proof (Hn i).
    destruct (decide (t = i)) as [->|]; [rewrite fn_lookup_insert|rewrite fn_lookup_insert_ne by done];
      (destruct (decide (f = i)) as [->|];
       [rewrite fn_lookup_insert|rewrite fn_lookup_insert_ne by done]); lia.
  - destruct (decide (f = i)) as [->|]; [rewrite fn_lookup_insert|rewrite fn_lookup_insert_ne by done];
      [lia | apply Hn].
  - pose proof (Hn t).
    destruct (decide (t = i)) as [->|]; [rewrite fn_lookup_insert|rewrite fn_lookup_insert_ne by done];
      [lia | apply Hn].
Qed.
