(* ===== verification/LedgerProofs.v ===== *)
(** * [ExecuteTransaction] implements the abstract ledger

    The refinement theorem, and what follows from it for the node: agreement
    of replicas, conservation and non-negativity of balances. *)
From S2P Require Import Prelude Text Messages Node Ledger LedgerSpec.
#[local] Open Scope Z_scope.

(** The state whose ledger is [l] and whose held locks are [locks]. *)
Definition with_ledger (l : Ledger) (locks : gset Z) (s : PaxosNode) : PaxosNode :=
  upd modified_accounts_ (l_modified l)
    (upd executed_entries_ (l_executed l)
      (upd wal_ (l_wal l)
        (upd accounts_ (l_accounts l)
          (upd balance_locks_ locks s)))).

Lemma with_ledger_of s : with_ledger (ledger_of s) (balance_locks_ s) s = s.
Proof. by destruct s. Qed.

Lemma ledger_of_with_ledger l locks s : ledger_of (with_ledger l locks s) = l.
Proof. by destruct l. Qed.

(** The mutexes released by the execution of an entry. *)
Definition exec_locks (intra : bool) (c : LedgerCmd) (from to : Z) (l : Ledger) (locks : gset Z) :
    gset Z :=
  match c with
  | Noop => locks
  | Refused _ _ =>
      if affordable c l then locks
      else if intra then locks ∖ {[from]} ∖ {[to]} else locks
  | _ => if intra then locks ∖ {[from]} ∖ {[to]} else locks
  end.

(** What a request of this cluster asks of the ledger of [s]. *)
Definition command (s : PaxosNode) (r : ClientRequest) (status : string) (from to : Z) : LedgerCmd :=
  classify (shard_of s to =? shard_of s from) (rq_client_id r) status from to (rq_amount r).

Lemma stoiM_ok {S} str z (s : S) : stoi str = inr z → stoiM str s = Ok (z, s).
Proof. intros H. unfold stoiM. by rewrite H. Qed.
Lemma stoiM_fault {S} str f (s : S) : stoi str = inl f → stoiM str s = Fault f.
Proof. intros H. unfold stoiM. by rewrite H. Qed.

(** The two strings of a request name accounts [f] and [t]. *)
Definition names (r : ClientRequest) (f t : Z) : Prop :=
  stoi (rq_from_account r) = inr f ∧ stoi (rq_to_account r) = inr t ∧
  valid_index f = true ∧ valid_index t = true.

(** The node after an entry executed. *)
Definition executed_node (r : ClientRequest) (q : Z) (st : string) (f t : Z) (s : PaxosNode) :
    PaxosNode :=
  let c := command s r st f t in
  with_ledger (ledger_apply q c (ledger_of s)).2
    (exec_locks (shard_of s t =? shard_of s f) c f t (ledger_of s) (balance_locks_ s)) s.

Lemma ExecuteTransaction_eq r q st s f t :
  names r f t →
  ExecuteTransaction r q st s =
    Ok ((ledger_apply q (command s r st f t) (ledger_of s)).1, executed_node r q st f t s).
Proof.
  intros (Hf & Ht & Vf & Vt). unfold executed_node, command, classify, ExecuteTransaction.
  rewrite !(bind_Ok _ _ _ _ _ (stoiM_ok _ _ _ Hf)).
  rewrite !(bind_Ok _ _ _ _ _ (stoiM_ok _ _ _ Ht)).
  unfold mark_executed, mark_modified, wal_write, account_at, set_account, unlock.
  rewrite Vf, Vt.
  destruct (rq_client_id r ==s "NO-OP").
  { run_goal. simpl. by rewrite with_ledger_of. }
  run_goal.
  destruct (accounts_ s f <? rq_amount r) eqn:E;
    [apply Z.ltb_lt in E | apply Z.ltb_ge in E];
    destruct (st ==s "A"), (shard_of s t =? shard_of s f),
      (st ==s "P"), (st ==s "COORD");
    unfold ledger_apply, exec_locks; simpl; unfold affordable; simpl;
    repeat match goal with
    | |- context [?a <=? accounts_ s f] =>
        first [ rewrite (proj2 (Z.leb_gt a (accounts_ s f))) by lia
              | rewrite (proj2 (Z.leb_le a (accounts_ s f))) by lia ]
    end; reflexivity.
Qed.

Lemma ExecuteTransaction_fault r q st s e :
  stoi (rq_from_account r) = inl e ∨
    ((∃ f, stoi (rq_from_account r) = inr f) ∧ stoi (rq_to_account r) = inl e) →
  ExecuteTransaction r q st s = Fault e.
Proof.
  unfold ExecuteTransaction, stoiM. intros [H|[[f Hf] H]].
  - by rewrite H.
  - rewrite Hf, H. done.
Qed.

(** C4: [ExecuteTransaction] implements the abstract ledger. A request one of
    whose account strings is not a number stops the node with the exception of
    [std::stoi]. On a request that names two accounts it returns; its result
    and the new balances, WAL, executed set and modified set are those of
    [ledger_apply], it releases exactly the mutexes [exec_locks] says, and it
    changes nothing else of the node. *)
Theorem ExecuteTransaction_refines (r : ClientRequest) (q : Z) (st : string) (s : PaxosNode) :
  match stoi (rq_from_account r), stoi (rq_to_account r) with
  | inl e, _ | inr _, inl e => ExecuteTransaction r q st s = Fault e
  | inr f, inr t =>
      valid_index f = true → valid_index t = true →
      ∃ s', ExecuteTransaction r q st s =
              Ok ((ledger_apply q (command s r st f t) (ledger_of s)).1, s') ∧
        ledger_of s' = (ledger_apply q (command s r st f t) (ledger_of s)).2 ∧
        balance_locks_ s' =
          exec_locks (shard_of s t =? shard_of s f) (command s r st f t) f t (ledger_of s)
            (balance_locks_ s) ∧
        s' = with_ledger (ledger_of s') (balance_locks_ s') s
  end.
Proof.
  destruct (stoi (rq_from_account r)) as [e|f] eqn:Hf;
    [by apply ExecuteTransaction_fault; left|].
  destruct (stoi (rq_to_account r)) as [e|t] eqn:Ht;
    [by apply ExecuteTransaction_fault; eauto|].
  intros Vf Vt. eexists. rewrite (ExecuteTransaction_eq r q st s f t) by done.
  split; [done|]. unfold executed_node. by destruct (ledger_apply _ _ _) as [? []].
Qed.

(** ** Executing a log in order *)
Record Entry := MkEntry { en_request : ClientRequest; en_seq : Z; en_status : string }.

Fixpoint execute_all (l : list Entry) : NodeM (list bool) :=
  match l with
  | [] => mret []
  | e :: l =>
      b ← ExecuteTransaction (en_request e) (en_seq e) (en_status e);
      bs ← execute_all l;
      mret (b :: bs)
  end.

(** Two replicas agree when their ledgers and shard maps do; role, ballots,
    locks, pending calls may all differ. *)
Definition replicas_agree (s1 s2 : PaxosNode) : Prop :=
  ledger_of s1 = ledger_of s2 ∧ shard_map_ s1 = shard_map_ s2.

#[export] Instance replicas_agree_equiv : Equivalence replicas_agree.
Proof.
  split; [done | by intros s1 s2 [? ?] | intros s1 s2 s3 [? ?] [? ?]; split; congruence].
Qed.

Definition same_outcome {A} (r1 r2 : res (A * PaxosNode)) : Prop :=
  match r1, r2 with
  | Ok (a1, s1), Ok (a2, s2) => a1 = a2 ∧ replicas_agree s1 s2
  | Fault f1, Fault f2 => f1 = f2
  | _, _ => False
  end.

Lemma same_outcome_bind {A B} (m1 m2 : NodeM A) (k : A → NodeM B) s1 s2 :
  same_outcome (m1 s1) (m2 s2) →
  (∀ a t1 t2, replicas_agree t1 t2 → same_outcome (k a t1) (k a t2)) →
  same_outcome ((m1 ≫= k) s1) ((m2 ≫= k) s2).
Proof.
  unfold mbind, M_bind, same_outcome. intros H Hk.
  destruct (m1 s1) as [[a1 t1]|], (m2 s2) as [[a2 t2]|]; try done.
  destruct H as [-> H]. by apply Hk.
Qed.

Lemma ExecuteTransaction_same_outcome r q st s1 s2 :
  replicas_agree s1 s2 →
  same_outcome (ExecuteTransaction r q st s1) (ExecuteTransaction r q st s2).
Proof.
  intros Hag. destruct (Hag) as [Hl Hs]. unfold ledger_of in Hl. injection Hl as Ha Hw He Hm.
  unfold ExecuteTransaction, mark_executed, mark_modified, wal_write, account_at, set_account,
    unlock, stoiM, shard_of.
  destruct (stoi (rq_from_account r)) as [|f]; [done|].
  destruct (stoi (rq_to_account r)) as [|t]; [done|].
  run_goal. rewrite <-Hs. destruct (rq_client_id r ==s "NO-OP"); [by split|].
  destruct (valid_index f); [|done]. rewrite <-Ha.
  destruct (accounts_ s1 f <? rq_amount r), (_ =? _), (valid_index t), (st ==s "A"),
    (st ==s "P"), (st ==s "COORD"); try done;
    (split; [done|]; split; [|done]); unfold ledger_of; simpl; simp_upd; congruence.
Qed.

(** C5: replicas that execute the same entries in the same order stay equal.
    From agreeing ledgers and shard maps, whatever else differs between the
    two nodes, executing a log either stops both with the same fault or gives
    both the same results and agreeing ledgers. *)
Theorem replicas_execute_alike (l : list Entry) (s1 s2 : PaxosNode) :
  replicas_agree s1 s2 → same_outcome (execute_all l s1) (execute_all l s2).
Proof.
  revert s1 s2. induction l as [|e l IH]; intros s1 s2 H; simpl; [done|].
  apply same_outcome_bind; [by apply ExecuteTransaction_same_outcome|].
  intros b t1 t2 Ht. apply same_outcome_bind; [by apply IH | done].
Qed.

(** ** Conservation *)

Lemma command_indices s r st f t :
  valid_index f = true → valid_index t = true → cmd_indices_valid (command s r st f t) = true.
Proof.
  intros Hf Ht. unfold command, classify.
  repeat (case_match; simpl; rewrite ?Hf, ?Ht; try done).
Qed.

Lemma ledger_apply_total q c l b l' :
  cmd_indices_valid c = true → ledger_apply q c l = (b, l') →
  total (l_accounts l') = total (l_accounts l) + (if b then net_change c else 0).
Proof.
  intros Hv. pose proof (l_effect_total q c l Hv) as H. unfold ledger_apply.
  destruct (affordable c l), c; intros [= <- <-]; simpl in *; lia.
Qed.

Lemma ledger_apply_nonneg q c l b l' :
  (∀ f a, payer c = Some (f, a) → 0 ≤ a) → ledger_apply q c l = (b, l') →
  (∀ i, 0 ≤ l_accounts l i) → ∀ i, 0 ≤ l_accounts l' i.
Proof.
  intros Hp. pose proof (λ H, l_effect_nonneg q c l H Hp) as He. unfold ledger_apply.
  destruct (affordable c l), c; intros [= <- <-] Hn i; simpl in *; auto; by apply He.
Qed.

Lemma payer_amount s r st f t g a :
  payer (command s r st f t) = Some (g, a) → a = rq_amount r.
Proof. unfold command, classify. repeat (case_match; simpl; try done); by intros [= _ <-]. Qed.

(** Execution moves money only where the protocol says. An intra-shard
    entry leaves the sum of the balances as it was; a [COORD] entry that takes
    effect lowers it by the amount, a [P] entry raises it by the amount, and
    an entry that returns [false] changes no sum. *)
Theorem ExecuteTransaction_total (r : ClientRequest) (q : Z) (st : string) (s s' : PaxosNode)
    (f t : Z) (b : bool) :
  names r f t → ExecuteTransaction r q st s = Ok (b, s') →
  total (accounts_ s') =
    total (accounts_ s) + (if b then net_change (command s r st f t) else 0).
Proof.
  intros Hn. rewrite (ExecuteTransaction_eq r q st s f t) by done. unfold executed_node.
  destruct Hn as (_ & _ & Vf & Vt).
  destruct (ledger_apply _ _ _) as [b' l'] eqn:E. simpl. intros [= <- <-].
  by apply (ledger_apply_total _ _ _ _ _ (command_indices s r st f t Vf Vt)) in E.
Qed.

(** With a non-negative amount, execution never drives a balance below
    zero: the guard on the sender's balance is enough on every branch. *)
Theorem ExecuteTransaction_nonneg (r : ClientRequest) (q : Z) (st : string) (s s' : PaxosNode)
    (f t : Z) (b : bool) :
  names r f t → 0 ≤ rq_amount r → (∀ i, 0 ≤ accounts_ s i) →
  ExecuteTransaction r q st s = Ok (b, s') → ∀ i, 0 ≤ accounts_ s' i.
Proof.
  intros Hr Ha Hn. rewrite (ExecuteTransaction_eq r q st s f t) by done. unfold executed_node.
  destruct (ledger_apply _ _ _) as [b' l'] eqn:E. simpl. intros [= <- <-].
  eapply ledger_apply_nonneg; [|exact E|exact Hn].
  intros g a Hp. apply payer_amount in Hp. by subst.
Qed.

(** ** The theorems on a small deployment *)
Lemma ExecuteTransaction_refines_witness :
  ∃ s', ExecuteTransaction (transfer 1 "1" "2" 4) 1 "" (small_node 1) = Ok (true, s') ∧
    accounts_ s' 1 = 6 ∧ accounts_ s' 2 = 14 ∧ accounts_ s' 3 = 10.
Proof.
  destruct (ExecuteTransaction_refines (transfer 1 "1" "2" 4) 1 "" (small_node 1) eq_refl eq_refl)
    as (s' & -> & Hl & _ & _).
  exists s'. split; [reflexivity|]. apply (f_equal l_accounts) in Hl. simpl in Hl.
  rewrite Hl. split_and!; reflexivity.
Defined.

Definition small_log : list Entry :=
  [MkEntry (transfer 1 "1" "2" 4) 1 ""; MkEntry (transfer 2 "1" "3" 20) 2 "COORD";
   MkEntry (transfer 3 "2" "3" 3) 3 "COORD"].

Lemma replicas_execute_alike_witness :
  same_outcome (execute_all small_log (small_node 1))
    (execute_all small_log (upd role_ LEADER (small_node 2))).
Proof. apply replicas_execute_alike. split; reflexivity. Defined.

Lemma small_debit :
  ExecuteTransaction (transfer 1 "1" "3" 4) 1 "COORD" (small_node 1) =
    Ok (true, executed_node (transfer 1 "1" "3" 4) 1 "COORD" 1 3 (small_node 1)).
Proof.
  rewrite (ExecuteTransaction_eq _ _ _ _ 1 3) by (split_and!; reflexivity). reflexivity.
Qed.
Lemma small_refusal :
  ExecuteTransaction (transfer 1 "1" "2" 11) 1 "" (small_node 1) =
    Ok (false, executed_node (transfer 1 "1" "2" 11) 1 "" 1 2 (small_node 1)).
Proof.
  rewrite (ExecuteTransaction_eq _ _ _ _ 1 2) by (split_and!; reflexivity). reflexivity.
Qed.

Lemma ExecuteTransaction_total_witness :
  total (accounts_ (executed_node (transfer 1 "1" "3" 4) 1 "COORD" 1 3 (small_node 1))) =
    total (accounts_ (small_node 1)) - 4.
Proof.
  refine (ExecuteTransaction_total _ _ _ _ _ 1 3 _ _ small_debit). split_and!; reflexivity.
Defined.

Lemma ExecuteTransaction_nonneg_witness :
  let s' := executed_node (transfer 1 "1" "2" 11) 1 "" 1 2 (small_node 1) in
  0 ≤ accounts_ s' 1 ∧ 0 ≤ accounts_ s' 2.
Proof.
  split; (refine (ExecuteTransaction_nonneg _ _ _ _ _ 1 2 _ _ _ _ small_refusal _);
    [split_and!; reflexivity | done |]; intros i; cbn; unfold accounts_init; by destruct (_ && _)).
Defined.
