(* ===== verification/Elections.v ===== *)
(** * Elections: roles, timers, Prepare and Promise

    [SetNewLeader], [DemoteToBackup], [BecomeLeader], the election timer, the
    heartbeat sender, and the phase-1 handlers [HandlePrepare], [SendPromise],
    [SendPrepare] and [OnElectionTimeout] ([paxos_node.cpp]). The candidate's
    side of a promise is in [NewView]. *)
From S2P Require Import Prelude Text Messages Node Ledger.
#[local] Open Scope Z_scope.

(** ** Trace text *)
Definition ballot_text (sep : string) (b : Ballot) : string :=
  "(" +:+ to_string (counter b) +:+ sep +:+ to_string (node_id b) +:+ ")".

Definition request_text (r : ClientRequest) : string :=
  "(" +:+ rq_from_account r +:+ ", " +:+ rq_to_account r +:+ ", "
    +:+ float_to_string (rq_amount r) +:+ ")".

Definition AcceptLogToString (accept_log : gmap Z AcceptedEntry) : string :=
  "{" +:+ foldr (λ p acc,
    ("<ACCEPT, " +:+ ballot_text ", " (ae_ballot p.2) +:+ ", " +:+ to_string p.1 +:+ ", "
       +:+ request_text (ae_request p.2) +:+ ">; ") +:+ acc) "" (entries accept_log) +:+ "}".

(** ** Leadership *)
Definition SetNewLeader (new_leader_id new_leader_counter : Z) : NodeM unit :=
  leader_id_ ::= new_leader_id ;;
  s ← gets id;
  cluster_leaders_ ::~ (λ m, <[shard_of s (node_id_ s) := new_leader_id]> m) ;;
  current_ballot_ ::= MkBallot new_leader_counter new_leader_id ;;
  b ← gets current_ballot_;
  highest_promised_ballot_ ::= b.

Definition StopHeartbeat : NodeM unit := heartbeat_running_ ::= false.
Definition StartHeartbeat : NodeM unit := StopHeartbeat ;; heartbeat_running_ ::= true.

(** One turn of [HeartbeatLoop]: it sends only while alive and leader. *)
Definition HeartbeatLoop_turn : NodeM unit :=
  s ← gets id;
  when (heartbeat_running_ s && (alive_ s && (role_ s ==s LEADER)))
    (to_cluster (λ p, SendHeartbeatTo p (MkHeartbeatRequest (current_ballot_ s) (node_id_ s)))).

(** [retries] is not among the members the source resets. *)
Definition reset_in_flight (e : InFlightTransaction) : InFlightTransaction :=
  MkInFlight TwoPCMsg_default 0 false false (if_retries e).

Definition reset_in_flights : NodeM unit :=
  in_flight_two_pc_prepares_ ::~ (λ v, MkVec (vec_size v) (reset_in_flight <$> vec_slots v)) ;;
  in_flight_two_pc_transactions_ ::~ vec_clear.

(** Finish every client call still pending. *)
Definition finish_pending_calls : NodeM unit :=
  calls ← gets pending_client_calls_;
  for_each (map_to_list calls) (λ p, respond p.2) ;;
  pending_client_calls_ ::= ∅.

Definition DemoteToBackup : NodeM unit :=
  StopHeartbeat ;;
  role_ ::= BACKUP ;;
  leader_id_ ::= -1 ;;
  waiting_for_promises_ ::= false ;;
  newview_acks_ ::= ∅ ;;
  newview_quorum_reached_ ::= false ;;
  accepted_count_ ::= ∅ ;;
  entries_to_commit_ ::= ∅ ;;
  pending_entries_ ::= ∅ ;;
  finish_pending_calls ;;
  reset_in_flights ;;
  reconcile_wal_demoted.

(** ** The election timer *)

(** The first node of a cluster before its first election. *)
Definition bootstrapping (s : PaxosNode) : bool :=
  (Z.rem (node_id (current_ballot_ s)) (divisor_ s) =? 1) && (counter (current_ballot_ s) =? 0).

(** [GetRandomizedTimeout] with the value drawn from [0 .. jitter_]. *)
Definition GetRandomizedTimeout (draw : Z) : Z := base_timeout_ + draw.

Definition election_wait (s : PaxosNode) (draw : Z) : Z :=
  if bootstrapping s then 70 else GetRandomizedTimeout draw.

Definition StartElectionTimer : NodeM unit :=
  s ← gets id;
  if negb (role_ s ==s BACKUP) || negb (alive_ s) then skip
  else if timer_running_ s then skip
  else timer_running_ ::= true ;; election_reset_ ::= false.

Definition StopElectionTimer : NodeM unit :=
  running ← gets timer_running_;
  when running (timer_running_ ::= false ;; election_reset_ ::= true).

Definition ResetElectionTimer : NodeM unit :=
  t ← gets now_;
  last_leader_msg_received_ ::= t ;;
  election_reset_ ::= true ;;
  running ← gets timer_running_;
  when (negb running) StartElectionTimer.

Definition HandleHeartbeat (request : HeartbeatRequest) : NodeM unit :=
  s ← gets id;
  if negb (alive_ s) || negb (role_ s ==s BACKUP) then skip else ResetElectionTimer.

Definition BecomeLeader (ballot : Ballot) : NodeM unit :=
  StopElectionTimer ;;
  role_ ::= LEADER ;;
  current_ballot_ ::= ballot ;;
  i ← gets node_id_;
  leader_id_ ::= i ;;
  StartHeartbeat.

(** ** Phase 1 *)
Definition SendPromise : NodeM unit :=
  s ← gets id;
  if negb (alive_ s) then skip else
  match pending_promise_call_ s with
  | None => skip
  | Some call =>
      emit (RespondPrepare call
        (MkPromiseResponse (highest_promised_ballot_ s) (node_id_ s) true
           (snd <$> entries (accept_log_ s)))) ;;
      pending_promise_call_ ::= None
  end.

Definition HandlePrepare (request : PrepareRequest) (call : Z) : NodeM unit :=
  alive ← gets alive_;
  if negb alive then skip else
  log_line ("<PREPARE, " +:+ ballot_text "," (pr_ballot request) +:+ "> " +:+ nl) ;;
  let incoming := pr_ballot request in
  t ← gets now_;
  last_prepare_received_ ::= t ;;
  s ← gets id;
  let timer_expired := prepare_cooldown_ <=? t - last_leader_msg_received_ s in
  should_demote ←
    (if ballot_gtb incoming (highest_promised_ballot_ s) then
       in_election_ ::= true ;;
       let should_demote := role_ s ==s LEADER in
       when should_demote DemoteToBackup ;;
       highest_promised_ballot_ ::= incoming ;;
       pending_promise_call_ ::= Some call ;;
       when timer_expired SendPromise ;;
       mret should_demote
     else
       emit (RespondPrepare call
         (MkPromiseResponse (current_ballot_ s) (node_id_ s) false [])) ;;
       pending_promise_call_ ::= None ;;
       mret false);
  when should_demote StartElectionTimer.

Definition SendPrepare (new_ballot : Ballot) : NodeM unit :=
  current_ballot_ ::= new_ballot ;;
  promised ← gets highest_promised_ballot_;
  when (ballot_gtb new_ballot promised) (highest_promised_ballot_ ::= new_ballot) ;;
  t ← gets now_;
  last_prepare_received_ ::= t ;;
  in_election_ ::= true ;;
  s ← gets id;
  log_line ("<ACK, " +:+ ballot_text "," new_ballot +:+ ", " +:+ AcceptLogToString (accept_log_ s)
            +:+ "> " +:+ nl) ;;
  to_cluster (λ p, SendPrepareTo p (MkPrepareRequest new_ballot (node_id_ s))).

Definition OnElectionTimeout : NodeM unit :=
  s ← gets id;
  if (role_ s ==s LEADER) || negb (alive_ s) then skip else
  let should_send_prepare := prepare_cooldown_ <=? now_ s - last_prepare_received_ s in
  let new_ballot := MkBallot (counter (current_ballot_ s) + 1) (node_id_ s) in
  when should_send_prepare
    (waiting_for_promises_ ::= true ;; promises_received_ ::= {[node_id_ s]}) ;;
  when (bool_decide (is_Some (pending_promise_call_ s))) SendPromise ;;
  when should_send_prepare (SendPrepare new_ballot).

(** ** The deferred NEW-VIEW call *)
Definition RespondAndClearNewViewCallData : NodeM unit :=
  cd ← gets newview_call_data_;
  newview_call_data_ ::= None ;;
  match cd with Some c => emit (RespondNewView c) | None => skip end.

Definition OnNewViewCallFinished (call : Z) : NodeM unit :=
  cd ← gets newview_call_data_;
  when (cd ==s Some call) (newview_call_data_ ::= None).

(** One turn of the timer thread, from the end of its wait: the wait ends
    because the reset flag is up or because the time is over. *)
Definition ElectionTimer_turn : NodeM unit :=
  s ← gets id;
  if negb (timer_running_ s && alive_ s) then skip else
  let timed_out := negb (election_reset_ s) || bootstrapping s in
  election_reset_ ::= false ;;
  when (timed_out && alive_ s)
    (RespondAndClearNewViewCallData ;; OnElectionTimeout).
