(* ===== verification/TwoPhase.v ===== *)
(** * Two-phase commit over the replicated log

    The replies to clients and to the coordinator, the second phase
    ([StartSecondPhase], [ExecuteRepeatedTwoPCEntry]), the handlers of the
    2PC messages and the prepare timeout ([paxos_node.cpp]), and the dispatch
    on the message type of [TwoPCCallData] ([call_data.cpp]). *)
From S2P Require Import Prelude Text Messages Node Ledger.
#[local] Open Scope Z_scope.

(** ** Replies *)
Definition cache_reply (client : string) (r : ClientReply) : NodeM unit :=
  last_reply_per_client_ ::~ (λ m, <[client := r]> m).

Definition SendClientReply (call_data : option SendClientRequestCallData)
    (fallback_request : ClientRequest) (seq_num : Z) (success : bool) : NodeM unit :=
  s ← gets id;
  if negb (alive_ s) then skip else
  let request := match call_data with Some c => cd_request c | None => fallback_request end in
  if rq_client_id request ==s "NO-OP" then skip else
  let this_term := max_seqnum_in_new_view_ s <? seq_num in
  let reply := MkClientReply (current_ballot_ s) (rq_timestamp request) (rq_from_account request)
                 success this_term 0 in
  cache_reply (rq_from_account request) reply ;;
  send_client reply ;;
  match call_data with
  | Some c => when this_term (respond c)
  | None => skip
  end.

Definition SendClientReplyTwoPC (entry : CommitEntry) (seq_num : Z) (success : bool) : NodeM unit :=
  s ← gets id;
  if negb (alive_ s) then skip else
  let request := ce_m entry in
  if rq_client_id request ==s "NO-OP" then skip else
  let reply := MkClientReply (MkBallot (-1) (node_id (current_ballot_ s))) (rq_timestamp request)
                 (rq_from_account request) success (max_seqnum_in_new_view_ s <? seq_num) 0 in
  cache_reply (rq_from_account request) reply ;;
  send_client reply.

Definition coord_reply_type (two_pc_status : string) : string :=
  if two_pc_status ==s "A" then "ABORT"
  else if two_pc_status ==s "P" then "PREPARED"
  else if two_pc_status ==s "C" then "COMMITTED"
  else if two_pc_status ==s "A_PART_COMMIT" then "A_PART_COMMIT"
  else "".

Definition SendReplyToCoordLeader (call_data : option SendClientRequestCallData)
    (fallback_request : ClientRequest) (seq_num : Z) (two_pc_status : string) : NodeM unit :=
  alive ← gets alive_;
  if negb alive then skip else
  let request := match call_data with Some c => cd_request c | None => fallback_request end in
  if rq_client_id request ==s "NO-OP" then skip else
  let reply := MkTwoPCMsg (coord_reply_type two_pc_status) (rq_from_account request)
                 (rq_to_account request) (rq_amount request) request in
  from ← stoiM (rq_from_account request);
  s ← gets id;
  let coord := leader_of_cluster s (shard_of s from) in
  send_to coord (SendTwoPCMsgTo coord reply) ;;
  match call_data with Some c => respond c | None => skip end.

(** ** Phase 2 *)
Definition record_outcome (seqnum : Z) (status : string) : NodeM unit :=
  when (is_phase2_status status)
    (log ← gets accept_log_;
     match log !! seqnum with
     | Some e => when (ae_phase2_result e ==s "")
                   (accept_log_ ::= <[seqnum := upd ae_phase2_result status e]> log)
     | None => skip
     end).

Definition ExecuteRepeatedTwoPCEntry (entry : CommitEntry) : NodeM unit :=
  let two_pc_status := ce_two_pc_status entry in
  let seqnum := ce_seqnum entry in
  from ← stoiM (rq_from_account (ce_m entry));
  to ← stoiM (rq_to_account (ce_m entry));
  record_outcome seqnum two_pc_status ;;
  (if two_pc_status ==s "A_COORD" then
     w ← gets wal_;
     let x := default WalEntry_default (w !! seqnum) in
     wal_erase seqnum ;;
     set_account from (before_value x) ;;
     unlock from
   else if two_pc_status ==s "C_COORD" then unlock from ;; wal_erase seqnum
   else if two_pc_status ==s "C" then unlock to ;; wal_erase seqnum
   else if two_pc_status ==s "A_PART_COMMIT" then
     w ← gets wal_;
     match w !! seqnum with
     | Some x => set_account to (before_value x) ;; wal_erase seqnum
     | None => skip
     end ;;
     unlock to
   else skip) ;;
  role ← gets role_;
  when (role ==s LEADER)
    (if two_pc_status ==s "C_COORD" then SendClientReplyTwoPC entry seqnum true
     else if two_pc_status ==s "C" then SendReplyToCoordLeader None (ce_m entry) seqnum "C"
     else if two_pc_status ==s "A_COORD" then SendClientReplyTwoPC entry seqnum false
     else if two_pc_status ==s "A_PART_COMMIT" then
       SendReplyToCoordLeader None (ce_m entry) seqnum "A_PART_COMMIT"
     else skip).

Definition at_prepares (ts : Z) (g : InFlightTransaction → InFlightTransaction) : NodeM unit :=
  v ← gets in_flight_two_pc_prepares_;
  if vec_in v ts then in_flight_two_pc_prepares_ ::= vec_set v ts (g (vec_get InFlight_default v ts))
  else raise BadIndex.

Definition at_transactions (ts : Z) (g : InFlightTransaction → InFlightTransaction) : NodeM unit :=
  v ← gets in_flight_two_pc_transactions_;
  if vec_in v ts then
    in_flight_two_pc_transactions_ ::= vec_set v ts (g (vec_get InFlight_default v ts))
  else raise BadIndex.

Definition count_phase2 (seq c node : Z) : NodeM unit :=
  accepted_count_two_pc_commit_ ::~ (λ m, count_insert m seq c node).

(** The status of the second-phase entry. *)
Definition phase2_status (abort participant : bool) : string :=
  match abort, participant with
  | true, false => "A_COORD"
  | false, false => "C_COORD"
  | true, true => "A_PART_COMMIT"
  | false, true => "C"
  end.

Definition StartSecondPhase (msg : TwoPCMsg) : NodeM unit :=
  r ← stoiM (rq_to_account (tp_m msg));
  s0 ← gets id;
  let ts := rq_timestamp (tp_m msg) in
  let participant := shard_of s0 r =? cluster_id_ s0 in
  let abort := tp_type msg ==s "ABORT" in
  when (negb participant)
    (at_prepares ts (upd if_completed true) ;;
     let twopc_request := upd tp_type (if abort then "ABORT" else "COMMIT")%string msg in
     at_transactions ts (λ e, upd if_msg twopc_request (upd if_last_send (now_ s0) e)) ;;
     let part := leader_of_cluster s0 (shard_of s0 r) in
     send_to part (SendTwoPCMsgTo part twopc_request)) ;;
  seq_for_ts ← digest_at ts;
  log ← gets accept_log_;
  let old_accept := default AcceptedEntry_default (log !! seq_for_ts) in
  s ← gets id;
  let accept_msg := MkAcceptedEntry (ae_ballot old_accept) (ae_seqnum old_accept) (tp_m msg)
                      (node_id_ s) (phase2_status abort participant) (tp_m msg) 0 "" in
  accept_log_ ::~ (λ m, <[ae_seqnum accept_msg := accept_msg]> m) ;;
  count_phase2 (ae_seqnum old_accept) (counter (ae_ballot old_accept)) (node_id_ s) ;;
  to_cluster (λ p, SendAcceptTo p accept_msg).

Definition HandlePreparedAndAborted (msg : TwoPCMsg) : NodeM unit :=
  from ← stoiM (tp_s msg);
  is_coord ← gets (λ s, shard_of s from =? cluster_id_ s);
  let ts := rq_timestamp (tp_m msg) in
  if is_coord : bool then
    seq_for_ts ← digest_at ts;
    executed ← gets executed_entries_;
    if decide (seq_for_ts ∈ executed) then StartSecondPhase msg
    else prepare_and_aborted_queue_ ::~ (λ q, <[ts := msg]> q)
  else StartSecondPhase msg.

Definition HandleCommittedAndAborted (msg : TwoPCMsg) : NodeM unit :=
  at_transactions (rq_timestamp (tp_m msg)) (upd if_completed true).

(** [TwoPCCallData::Proceed] *)
Definition HandleTwoPCMsg (msg : TwoPCMsg) : NodeM unit :=
  let ty := tp_type msg in
  if (ty ==s "PREPARED") || (ty ==s "ABORT") || (ty ==s "COMMIT") then HandlePreparedAndAborted msg
  else if (ty ==s "COMMITTED") || (ty ==s "A_PART_COMMIT") then HandleCommittedAndAborted msg
  else skip.

(** ** Prepare timeout *)
Definition HandlePreparedTimeout (timestamp : Z) : NodeM unit :=
  seq_for_ts ← digest_at timestamp;
  log ← gets accept_log_;
  v ← gets in_flight_two_pc_prepares_;
  if negb (vec_in v timestamp) then raise BadIndex else
  let m := tp_m (if_msg (vec_get InFlight_default v timestamp)) in
  let acc_entry :=
    upd ae_seqnum seq_for_ts
      (upd ae_two_pc_status "A_COORD"%string
        (upd ae_m m (default AcceptedEntry_default (log !! seq_for_ts)))) in
  i ← gets node_id_;
  accept_log_ ::~ (λ l, <[ae_seqnum acc_entry := acc_entry]> l) ;;
  count_phase2 (ae_seqnum acc_entry) (counter (ae_ballot acc_entry)) i ;;
  to_cluster (λ p, SendAcceptTo p acc_entry).

Definition prepare_timeout : Z := 1000.

(** What [TransactionRetryLoop] does with slot [i] of the prepare table. *)
Definition retry_slot (i : Z) : NodeM unit :=
  s ← gets id;
  let entry := vec_get InFlight_default (in_flight_two_pc_prepares_ s) i in
  if if_sent entry && (negb (if_last_send entry =? 0)) && negb (if_completed entry)
     && (prepare_timeout <=? now_ s - if_last_send entry) then
    let m := tp_m (if_msg entry) in
    if if_retries entry =? 0 then
      at_prepares i (λ e, upd if_last_send (now_ s) (upd if_retries 1 e)) ;;
      r ← stoiM (rq_to_account m);
      let part := leader_of_cluster s (shard_of s r) in
      send_to part (SendClientRequestTo part m)
    else
      at_prepares i (upd if_completed true) ;;
      HandlePreparedTimeout (rq_timestamp m)
  else skip.

(** One pass of the loop; a slot never written has [sent = false]. *)
Definition TransactionRetryLoop_turn : NodeM unit :=
  v ← gets in_flight_two_pc_prepares_;
  for_each (fst <$> entries (vec_slots v)) retry_slot.
