(* ===== verification/Replication.v ===== *)
(** * Replication: Accept, acknowledgement, Commit, in-order execution

    [HandlePropose] and [FillAcceptAck] at a backup, [HandleAccept] and
    [CommitEntry] at the leader, [HandleCommit] at a backup, and the loop
    [SequentiallyExecuteCommittedEntries] both share ([paxos_node.cpp]). *)
From S2P Require Import Prelude Text Messages Node Ledger Elections TwoPhase.
#[local] Open Scope Z_scope.

(** ** A backup accepts *)
Definition FillAcceptAck (id : Z) (entry : AcceptedEntry) (ack : Ack) : Ack :=
  let status := ae_two_pc_status entry in
  let base := MkAck (ae_ballot entry) id (ack_accepted ack) (ae_seqnum entry)
                (ack_phase ack) (ack_status ack) in
  if is_phase2_status status then upd ack_status status (upd ack_phase 2 base)
  else if is_phase1_status status then upd ack_status status base
  else base.

Definition HandlePropose (request : AcceptedEntry) : NodeM Ack :=
  s0 ← gets id;
  if negb (alive_ s0) then mret Ack_default else
  if negb (ae_new_leader request =? 0) then
    let c := cluster_of (divisor_ s0) (ae_new_leader request) in
    cluster_leaders_ ::~ (λ m, <[c := ae_new_leader request]> m) ;;
    mret Ack_default
  else
  log_line ("<ACCEPT, " +:+ ballot_text "," (ae_ballot request) +:+ ", "
            +:+ to_string (ae_seqnum request) +:+ " " +:+ request_text (ae_request request)
            +:+ "> " +:+ nl) ;;
  let b := ae_ballot request in
  let reply := MkAck b 0 false 0 0 "" in
  when (negb (role_ s0 ==s BACKUP) && ballot_gtb b (current_ballot_ s0))
    (DemoteToBackup ;; SetNewLeader (node_id b) (counter b) ;; StartElectionTimer) ;;
  promised ← gets highest_promised_ballot_;
  if ballot_ltb b promised then mret reply else
  when (ballot_gtb b promised)
    (highest_promised_ballot_ ::= b ;; SetNewLeader (node_id b) (counter b)) ;;
  log ← gets accept_log_;
  when (log !! ae_seqnum request ==s None)
    (accept_log_ ::= <[ae_seqnum request := request]> log) ;;
  pending_entries_ ::~ (λ m, <[ae_seqnum request := request]> m) ;;
  ResetElectionTimer ;;
  i ← gets node_id_;
  mret (upd ack_accepted true (FillAcceptAck i request reply)).

(** The notice a new leader sends to the other clusters. *)
Definition InformClustersOfElection : NodeM unit :=
  s ← gets id;
  let entry := MkAcceptedEntry Ballot_default 0 ClientRequest_default 0 ""
                 ClientRequest_default (node_id_ s) "" in
  for_each (elements (peer_stubs_ s)) (λ p,
    if p =? node_id_ s then skip
    else if negb (outside_cluster s p) then skip
    else emit (SendAcceptTo p entry)).

(** ** In-order execution *)
Definition take_call (seq : Z) : NodeM (option SendClientRequestCallData) :=
  s ← gets id;
  if max_seqnum_in_new_view_ s <? seq then
    match pending_client_calls_ s !! seq with
    | Some c =>
        pending_client_calls_ ::~ delete seq ;;
        pending_entries_ ::~ delete seq ;;
        mret (Some c)
    | None => mret None
    end
  else mret None.

Definition take_queued (ts : Z) : NodeM (option TwoPCMsg) :=
  q ← gets prepare_and_aborted_queue_;
  match q !! ts with
  | Some m => prepare_and_aborted_queue_ ::= delete ts q ;; mret (Some m)
  | None => mret None
  end.

(** The leader's answer after executing an entry. *)
Definition answer_executed (entry : CommitEntry) (status : string) (success : bool) : NodeM unit :=
  let seq := ce_seqnum entry in
  let request := ce_request entry in
  call_data ← take_call seq;
  if bool_decide (is_Some call_data) && negb (is_phase1_status status) then
    SendClientReply call_data request seq success
  else if (status ==s "A") || (status ==s "P") then
    SendReplyToCoordLeader call_data request seq status
  else if status ==s "COORD" then
    match call_data with Some c => respond c | None => skip end ;;
    cached ← take_queued (rq_timestamp request);
    match cached with Some m => StartSecondPhase m | None => skip end
  else if negb (rq_client_id request ==s "NO-OP") then
    SendClientReply None request seq success
  else match call_data with
       | Some _ => SendClientReply call_data request seq success
       | None => skip
       end.

(** One turn of the loop; [false] when there is no next entry. *)
Definition execute_next : NodeM bool :=
  s ← gets id;
  let next_seq := last_executed_seq_ s + 1 in
  match entries_to_commit_ s !! next_seq with
  | None => mret false
  | Some it =>
      last_executed_seq_ ::= next_seq ;;
      success ← ExecuteTransaction (ce_request it) (ce_seqnum it) (ce_two_pc_status it);
      log ← gets accept_log_;
      let p2 := match log !! ce_seqnum it with Some e => ae_phase2_result e | None => "" end in
      when (is_phase2_status p2)
        (ExecuteRepeatedTwoPCEntry
           (MkCommitEntry Ballot_default (ce_seqnum it) ClientRequest_default p2 (ce_request it) "")) ;;
      role ← gets role_;
      (if role ==s LEADER then answer_executed it (ce_two_pc_status it) success
       else pending_entries_ ::~ delete (ce_seqnum it)) ;;
      mret true
  end.

(** The loop; [false] when the fuel is spent before the loop breaks. *)
Fixpoint execute_loop (fuel : nat) : NodeM bool :=
  match fuel with
  | O => mret false
  | S fuel =>
      more ← execute_next;
      if more : bool then execute_loop fuel else mret true
  end.

Definition SequentiallyExecuteCommittedEntries : NodeM unit :=
  fuel ← gets (λ s, S (size (entries_to_commit_ s)));
  execute_loop fuel ;; skip.

(** ** The leader commits *)
Definition BroadcastCommit (entry : CommitEntry) : NodeM unit :=
  to_cluster (λ p, SendCommitTo p entry).

Definition commit_of (e : AcceptedEntry) (status : string) : CommitEntry :=
  MkCommitEntry (ae_ballot e) (ae_seqnum e) (ae_request e) status (ae_m e) "".

Definition insert_commit (seq : Z) (entry : CommitEntry) : NodeM unit :=
  m ← gets entries_to_commit_;
  when (m !! seq ==s None) (entries_to_commit_ ::= <[seq := entry]> m).

(** [CommitEntry(ack)]; the message type has the name, so the handler is [Commit_entry]. *)
Definition Commit_entry (ack : Ack) : NodeM unit :=
  let seqnum := ack_seqnum ack in
  pending ← gets pending_entries_;
  e ← match pending !! seqnum with Some e => mret e | None => log_at seqnum end;
  let entry := commit_of e (ack_status ack) in
  insert_commit seqnum entry ;;
  BroadcastCommit entry ;;
  last ← gets last_executed_seq_;
  if last + 1 =? seqnum then SequentiallyExecuteCommittedEntries
  else if ack_phase ack =? 2 then ExecuteRepeatedTwoPCEntry entry
  else skip.

Definition quorum_reached (s : PaxosNode) (m : gmap Z (gmap Z (gset Z))) (seq c : Z) : bool :=
  Z.of_nat (size (count_in m seq c)) =? f_ s + 1.

Definition HandleAccept (ack : Ack) : NodeM unit :=
  s ← gets id;
  if negb (alive_ s) then skip else
  if negb (ack_accepted ack) then skip else
  if negb (role_ s ==s LEADER) then skip else
  let seq := ack_seqnum ack in
  let c := counter (ack_ballot ack) in
  let logged := accept_log_ s !! seq in
  match logged with
  | Some e => log_line ("<ACCEPTED, " +:+ ballot_text ", " (ack_ballot ack) +:+ ", "
                +:+ to_string seq +:+ ", " +:+ request_text (ae_request e) +:+ ", "
                +:+ to_string (ack_node_id ack) +:+ "> " +:+ nl)
  | None => skip
  end ;;
  should_commit ←
    (if bool_decide (is_Some logged) && (ack_phase ack =? 2) then
       let counts := count_insert (accepted_count_two_pc_commit_ s) seq c (ack_node_id ack) in
       accepted_count_two_pc_commit_ ::= counts ;;
       mret (quorum_reached s counts seq c)
     else if negb (ack_phase ack =? 2) then
       let counts := count_insert (accepted_count_ s) seq c (ack_node_id ack) in
       accepted_count_ ::= counts ;;
       let condition_q := quorum_reached s counts seq c in
       mret ((condition_q && (entries_to_commit_ s !! seq ==s None)) ||
             ((seq <=? max_seqnum_in_new_view_ s) && condition_q))
     else mret false);
  when should_commit (Commit_entry ack).

(** ** A backup commits *)
Definition HandleCommit (request : CommitEntry) : NodeM unit :=
  s0 ← gets id;
  if negb (alive_ s0) then skip else
  log_line ("<COMMIT, " +:+ ballot_text "," (ce_ballot request) +:+ ", "
            +:+ to_string (ce_seqnum request) +:+ " " +:+ request_text (ce_request request)
            +:+ "> " +:+ nl) ;;
  when (role_ s0 ==s BACKUP) ResetElectionTimer ;;
  insert_commit (ce_seqnum request) request ;;
  s ← gets id;
  if is_phase2_status (ce_two_pc_status request) then ExecuteRepeatedTwoPCEntry request
  else if (last_executed_seq_ s + 1 =? ce_seqnum request)
          && negb (bool_decide (ce_seqnum request ∈ executed_entries_ s)) then
    SequentiallyExecuteCommittedEntries
  else skip.
