(* ===== verification/Requests.v ===== *)
(** * Client requests at a replica

    [HandleClientRequest] and [ProcessClientRequest] ([paxos_node.cpp]):
    queuing during an election, forwarding to the leader, the duplicate
    checks, read-only requests, the account locks, the 2PC prepare, and the
    proposal of a new log entry. [ProcessClientRequest] is cut where the
    source has its early returns; each part says whether it returned. *)
From S2P Require Import Prelude Text Messages Node Ledger Elections TwoPhase.
#[local] Open Scope Z_scope.

Abbreviation Call := SendClientRequestCallData.

Definition enqueue (request : ClientRequest) (call_data : Call) : NodeM unit :=
  queued_client_requests_ ::~ (λ q, q ++ [(request, call_data)]).

(** Not the leader: forward the request. *)
Definition forward_request (request : ClientRequest) (call_data : Call) : NodeM unit :=
  s ← gets id;
  if leader_id_ s =? -1 then skip
  else if leader_id_ s =? node_id_ s then raise Aborted
  else
    send_to (leader_id_ s) (SendClientRequestTo (leader_id_ s) request) ;;
    respond call_data.

(** The cached reply of the client is for this timestamp. *)
Definition answered (s : PaxosNode) (request : ClientRequest) : bool :=
  match last_reply_per_client_ s !! rq_from_account request with
  | Some r => cr_timestamp r =? rq_timestamp request
  | None => false
  end.

Definition seen_ts (s : PaxosNode) (request : ClientRequest) : bool :=
  bool_decide (rq_timestamp request ∈ pending_or_completed_ts_ s).

Definition process_read_only (request : ClientRequest) (call_data : Call) : NodeM unit :=
  i ← stoiM (rq_from_account request);
  balance ← account_at i;
  s ← gets id;
  let ts := rq_timestamp request in
  let reply := MkClientReply (current_ballot_ s) ts (rq_from_account request) true true balance in
  if decide (ts ∈ handled_ro_requests_ s) then respond call_data
  else
    cache_reply (rq_from_account request) reply ;;
    handled_ro_requests_ ::~ (λ h, {[ts]} ∪ h) ;;
    send_client reply ;;
    respond call_data.

(** The coordinator's side of the PREPARE. *)
Definition send_prepare (request : ClientRequest) (r : Z) : NodeM unit :=
  s ← gets id;
  let part := leader_of_cluster s (shard_of s r) in
  let twopc_request := upd rq_from_node (node_id_ s) (upd rq_two_pc_msg "PREPARE"%string request) in
  let msg_2pc := MkTwoPCMsg "" "" "" 0 twopc_request in
  at_prepares (rq_timestamp request)
    (λ e, upd if_sent true (upd if_last_send (now_ s) (upd if_msg msg_2pc e))) ;;
  send_to part (SendClientRequestTo part twopc_request).

(** What the lock phase decided: the request was rejected, or it goes on as an
    intra-shard transfer, as the coordinator's half, or as the participant's
    half with or without its lock. *)
Inductive Admission :=
  | Rejected
  | IntraShard
  | Coordinator
  | Participant (abort : bool).
#[export] Instance Admission_eq_dec : EqDecision Admission.
Proof. solve_decision. Defined.

Definition lock_client (request : ClientRequest) (s r : Z) : NodeM Admission :=
  intra ← gets (λ n, shard_of n s =? shard_of n r);
  got_s ← try_lock s;
  if negb got_s then mret Rejected
  else if intra : bool then
    got_r ← try_lock r;
    if negb got_r then unlock s ;; mret Rejected else mret IntraShard
  else
    already_pending ← gets (λ n, seen_ts n request);
    when (negb already_pending) (send_prepare request r) ;;
    mret Coordinator.

Definition lock_participant (request : ClientRequest) (s r : Z) : NodeM Admission :=
  n ← gets id;
  when (negb (rq_from_node request =? leader_of_cluster n (shard_of n s)))
    (cluster_leaders_ ::~ (λ m, <[shard_of n s := rq_from_node request]> m)) ;;
  got_r ← try_lock r;
  mret (Participant (negb got_r)).

Definition admission_status (a : Admission) : string :=
  match a with
  | Participant true => "A"
  | Participant false => "P"
  | Coordinator => "COORD"
  | IntraShard | Rejected => ""
  end.

(** The second copy of the request carried by the entries whose phase 2 needs it. *)
Definition admission_m (a : Admission) (request : ClientRequest) : ClientRequest :=
  match a with
  | Participant false | Coordinator => request
  | _ => ClientRequest_default
  end.

(** From the atomic claim of the timestamp on. *)
Definition propose (request : ClientRequest) (call_data : Call) (a : Admission) : NodeM unit :=
  let ts := rq_timestamp request in
  claimed ← gets (λ n, negb (seen_ts n request));
  if negb claimed then respond call_data else
  pending_or_completed_ts_ ::~ (λ p, {[ts]} ∪ p) ;;
  last_seqnum_ ::~ (λ n, n + 1) ;;
  s ← gets id;
  let seqnum := last_seqnum_ s in
  let accept_msg := MkAcceptedEntry (current_ballot_ s) seqnum request (node_id_ s)
                      (admission_status a) (admission_m a request) 0 "" in
  pending_entries_ ::~ (λ m, <[seqnum := accept_msg]> m) ;;
  pending_client_calls_ ::~ (λ m, <[seqnum := call_data]> m) ;;
  accepted_count_ ::~ (λ m, count_insert m seqnum (counter (current_ballot_ s)) (node_id_ s)) ;;
  accept_log_ ::~ (λ m, <[seqnum := accept_msg]> m) ;;
  log_line ("<ACCEPTED, " +:+ ballot_text ", " (current_ballot_ s) +:+ ", " +:+ to_string seqnum
            +:+ ", " +:+ request_text request +:+ ", " +:+ to_string (node_id_ s) +:+ "> " +:+ nl) ;;
  digest_to_seqnum_ ::~ (λ m, <[ts := seqnum]> m) ;;
  to_cluster (λ p, SendAcceptTo p accept_msg).

Definition ProcessClientRequest (request : ClientRequest) (call_data : Call) : NodeM unit :=
  if rq_from_account request ==s "" then respond call_data else
  n ← gets id;
  if negb (role_ n ==s LEADER) then forward_request request call_data
  else if answered n request then respond call_data
  else if seen_ts n request then respond call_data
  else if rq_read_only request then process_read_only request call_data
  else
    s ← stoiM (rq_from_account request);
    r ← stoiM (rq_to_account request);
    a ← (if rq_two_pc_msg request ==s "PREPARE" then lock_participant request s r
         else lock_client request s r);
    if a ==s Rejected then respond call_data else propose request call_data a.

Definition HandleClientRequest (request : ClientRequest) (call_data : Call) : NodeM unit :=
  alive ← gets alive_;
  if negb alive then respond call_data else
  log_line ("<REQUEST, " +:+ request_text request +:+ ", " +:+ to_string (rq_timestamp request)
            +:+ ", " +:+ rq_from_account request +:+ "> " +:+ nl) ;;
  s ← gets id;
  if bootstrapping s && first_txn_received_ s then
    first_txn_received_ ::= false ;;
    enqueue request call_data ;;
    StartElectionTimer
  else if in_election_ s || ((leader_id_ s =? -1) && (role_ s ==s BACKUP)) then
    enqueue request call_data
  else ProcessClientRequest request call_data.
