(* ===== verification/NewView.v ===== *)
(** * Becoming leader: merge, gap filling, NEW-VIEW

    [HandlePromise] at a candidate with everything it triggers at quorum —
    [MergeAcceptLogsFromPromises], [FillMissingNoOps], [BecomeLeader],
    [SendNewView], [InformClustersOfElection], [OnElectionComplete] — and
    [HandleNewView] at a backup ([paxos_node.cpp]).

    [received_promise_logs_] is an [unordered_map]: C++ fixes no order for the
    loop over it. The model walks it in the order of [map_to_list]; the
    theorems about the merge are stated for every list of logs. *)
From S2P Require Import Prelude Text Messages Node Ledger Elections TwoPhase Replication Requests.
#[local] Open Scope Z_scope.

(** ** Merging *)
Definition is_decided (e : AcceptedEntry) : bool :=
  negb (ae_phase2_result e ==s "") || is_phase2_status (ae_two_pc_status e).

(** Which of the two copies stays, before the outcome is carried over. *)
Definition merge_pick (cur : option AcceptedEntry) (accepted : AcceptedEntry) : AcceptedEntry :=
  match cur with
  | None => accepted
  | Some c =>
      let cur_decided := is_decided c in
      let inc_decided := is_decided accepted in
      let higher_ballot := ballot_gtb (ae_ballot accepted) (ae_ballot c) in
      if inc_decided && negb cur_decided then accepted
      else if cur_decided && negb inc_decided then c
      else if higher_ballot then accepted
      else c
  end.

Definition carry_outcome (accepted winner : AcceptedEntry) : AcceptedEntry :=
  if ae_phase2_result winner ==s "" then
    if negb (ae_phase2_result accepted ==s "") then
      upd ae_phase2_result (ae_phase2_result accepted) winner
    else if is_phase2_status (ae_two_pc_status winner) then
      upd ae_phase2_result (ae_two_pc_status winner) winner
    else winner
  else winner.

Definition merge_entry (accepted : AcceptedEntry) (log : gmap Z AcceptedEntry) :
    gmap Z AcceptedEntry :=
  let seq := ae_seqnum accepted in
  <[seq := carry_outcome accepted (merge_pick (log !! seq) accepted)]> log.

(** The nested loop: the merged log and the highest sequence number seen. *)
Fixpoint merge_entries (l : list AcceptedEntry) (log : gmap Z AcceptedEntry) (max_seqnum : Z) :
    gmap Z AcceptedEntry * Z :=
  match l with
  | [] => (log, max_seqnum)
  | e :: l =>
      merge_entries l (merge_entry e log)
        (if max_seqnum <? ae_seqnum e then ae_seqnum e else max_seqnum)
  end.

(** [accept_log_.empty() ? 0 : accept_log_.rbegin()->first] *)
Definition last_key {A} (m : gmap Z A) : Z :=
  match list.last (entries m) with Some p => p.1 | None => 0 end.

(** Seeding of the duplicate-detection state from one inherited entry. *)
Definition seed_entry (seq : Z) (entry : AcceptedEntry) : NodeM unit :=
  let req := ae_request entry in
  if rq_client_id req ==s "NO-OP" then skip else
  digest_to_seqnum_ ::~ (λ m, <[rq_timestamp req := seq]> m) ;;
  let p1 := ae_two_pc_status entry in
  if ((p1 ==s "COORD") || (p1 ==s "P")) && (ae_phase2_result entry ==s "") then skip
  else pending_or_completed_ts_ ::~ (λ p, {[rq_timestamp req]} ∪ p).

Definition MergeAcceptLogsFromPromises : NodeM unit :=
  s ← gets id;
  let incoming := concat (snd <$> map_to_list (received_promise_logs_ s)) in
  let '(log, max_seqnum) := merge_entries incoming (accept_log_ s) (last_key (accept_log_ s)) in
  accept_log_ ::= log ;;
  last_seqnum_ ::= max_seqnum ;;
  received_promise_logs_ ::= ∅ ;;
  for_each (entries log) (λ p, seed_entry p.1 p.2).

(** ** Gap filling *)
Definition noop_request : ClientRequest := MkClientRequest "NO-OP" 0 "" "" 0 false "" 0.
Definition noop_entry (b : Ballot) (id seq : Z) : AcceptedEntry :=
  MkAcceptedEntry b seq noop_request id "" ClientRequest_default 0 "".

Definition fill_gap (b : Ballot) (id : Z) (log : gmap Z AcceptedEntry) (seq : Z) :
    gmap Z AcceptedEntry :=
  match log !! seq with
  | Some _ => log
  | None => <[seq := noop_entry b id seq]> log
  end.

Definition fill_gaps (b : Ballot) (id max_seq : Z) (log : gmap Z AcceptedEntry) :
    gmap Z AcceptedEntry :=
  foldl (fill_gap b id) log (seqZ 1 max_seq).

Definition FillMissingNoOps : NodeM unit :=
  s ← gets id;
  accept_log_ ::= fill_gaps (current_ballot_ s) (node_id_ s) (last_seqnum_ s) (accept_log_ s).

(** ** NEW-VIEW *)

(** The entries of the log in sequence order, up to [last_seqnum_]. *)
Definition view_entries (s : PaxosNode) : list AcceptedEntry :=
  omap (λ seq, accept_log_ s !! seq) (seqZ 1 (last_seqnum_ s)).

(** The sequence numbers present, each counted as accepted by the node itself. *)
Definition self_accept (s : PaxosNode) : gmap Z (gmap Z (gset Z)) :=
  foldl (λ m seq,
    match accept_log_ s !! seq with
    | Some _ => count_insert m seq (counter (current_ballot_ s)) (node_id_ s)
    | None => m
    end) (accepted_count_ s) (seqZ 1 (last_seqnum_ s)).

Definition SendNewView_to (peer : Z) : NodeM unit :=
  s ← gets id;
  if outside_cluster s peer then skip else
  let request := MkNewViewRequest (current_ballot_ s) (view_entries s) in
  accepted_count_ ::= self_accept s ;;
  if peer =? node_id_ s then
    log_line ("<NEW-VIEW, " +:+ ballot_text "," (current_ballot_ s) +:+ ","
              +:+ AcceptLogToString (accept_log_ s) +:+ "> " +:+ nl) ;;
    new_view_logs_ ::~ (λ l, l ++ [request])
  else
    max_seqnum_in_new_view_ ::= last_seqnum_ s ;;
    emit (SendNewViewTo peer request).

Definition SendNewView : NodeM unit :=
  s ← gets id;
  if negb (role_ s ==s LEADER) || negb (alive_ s) then skip
  else for_each (elements (peer_stubs_ s)) SendNewView_to.

Definition OnElectionComplete : NodeM unit :=
  in_election_ ::= false ;;
  reconcile_wal_elected ;;
  s ← gets id;
  if leader_id_ s =? -1 then skip
  else
    queued_client_requests_ ::= [] ;;
    for_each (queued_client_requests_ s) (λ q, ProcessClientRequest q.1 q.2).

(** ** The candidate collects promises *)
Definition record_promise (reply : PromiseResponse) : NodeM bool :=
  s ← gets id;
  if (role_ s ==s LEADER) || negb (waiting_for_promises_ s) then mret false
  else if decide (ps_node_id reply ∈ promises_received_ s) then mret false
  else
    let received := {[ps_node_id reply]} ∪ promises_received_ s in
    promises_received_ ::= received ;;
    received_promise_logs_ ::~ (λ m, <[ps_node_id reply := ps_accept_log reply]> m) ;;
    let quorum := f_ s + 1 <=? Z.of_nat (size received) in
    when quorum (waiting_for_promises_ ::= false) ;;
    mret quorum.

Definition HandlePromise (reply : PromiseResponse) : NodeM unit :=
  s0 ← gets id;
  if negb (alive_ s0) then skip else
  log_line ("<ACK, " +:+ ballot_text ", " (ps_ballot reply) +:+ ", "
            +:+ AcceptLogToString (accept_log_ s0) +:+ "> " +:+ nl) ;;
  if negb (ps_promised reply) then skip else
  quorum_reached ← record_promise reply;
  s ← gets id;
  when quorum_reached
    (MergeAcceptLogsFromPromises ;;
     FillMissingNoOps ;;
     BecomeLeader (current_ballot_ s) ;;
     SendNewView ;;
     InformClustersOfElection ;;
     OnElectionComplete).

(** ** A backup adopts the new view *)
Definition adopt_entry (log : gmap Z AcceptedEntry) (entry : AcceptedEntry) : gmap Z AcceptedEntry :=
  match log !! ae_seqnum entry with
  | None => <[ae_seqnum entry := entry]> log
  | Some e =>
      if counter (ae_ballot e) <? counter (ae_ballot entry) then <[ae_seqnum entry := entry]> log
      else log
  end.

Definition newview_ack (s : PaxosNode) (entry : AcceptedEntry) : Ack :=
  let status := ae_two_pc_status entry in
  let base := MkAck (current_ballot_ s) (node_id_ s) true (ae_seqnum entry) 0 "" in
  if is_phase2_status status then upd ack_status status (upd ack_phase 2 base)
  else if is_phase1_status status then upd ack_status status base
  else base.

Definition HandleNewView (request : NewViewRequest) (call : Z) : NodeM unit :=
  s0 ← gets id;
  if negb (alive_ s0) then skip else
  log_line ("<NEW-VIEW, " +:+ ballot_text "," (nv_ballot request) +:+ ","
            +:+ AcceptLogToString (accept_log_ s0) +:+ "> " +:+ nl) ;;
  new_view_logs_ ::~ (λ l, l ++ [request]) ;;
  let b := nv_ballot request in
  when (role_ s0 ==s BACKUP) ResetElectionTimer ;;
  s1 ← gets id;
  if (role_ s1 ==s LEADER) && negb (ballot_gtb b (current_ballot_ s1)) then
    emit (RespondNewView call)
  else
  when (role_ s1 ==s LEADER)
    (DemoteToBackup ;; SetNewLeader (node_id b) (counter b) ;; StartElectionTimer) ;;
  role ← gets role_;
  when (role ==s BACKUP)
    (SetNewLeader (node_id b) (counter b) ;;
     waiting_for_promises_ ::= false ;;
     OnElectionComplete) ;;
  accept_log_ ::~ (λ log, foldl adopt_entry log (nv_accept_log request)) ;;
  match list.last (nv_accept_log request) with
  | None => emit (RespondNewView call)
  | Some e =>
      newview_call_data_ ::= Some call ;;
      in_new_view_ ::= true ;;
      max_seqnum_in_new_view_ ::= ae_seqnum e
  end ;;
  s ← gets id;
  for_each (nv_accept_log request) (λ entry,
    send_to (leader_id_ s) (SendAcceptAckTo (leader_id_ s) (newview_ack s entry))).
