(* ===== verification/Control.v ===== *)
(** * Control plane: liveness updates, reset, move-on, inspection

    [kill], [revive], [HandleSetAlive], [ResetNode], [HandleMoveOn] and
    [HandleSendNodeInfo] ([paxos_node.cpp]): how the test driver pauses,
    fails, revives, resets and inspects a node. *)
From S2P Require Import Prelude Text Messages Node Ledger Elections TwoPhase.
#[local] Open Scope Z_scope.

Definition kill : NodeM unit :=
  alive_ ::= false ;;
  role ← gets role_;
  if role ==s BACKUP then StopElectionTimer else DemoteToBackup.

Definition revive : NodeM unit := alive_ ::= true.

(** The members [ResetNode] sets back; the duplicate-detection sets, the queue
    of client requests, the held locks and the timer flags are not among them. *)
Definition ResetNode : NodeM unit :=
  StopHeartbeat ;;
  s ← gets id;
  role_ ::= BACKUP ;;
  current_ballot_ ::= MkBallot 0 (node_id_ s) ;;
  highest_promised_ballot_ ::= Ballot_default ;;
  leader_id_ ::= -1 ;;
  waiting_for_promises_ ::= false ;;
  promises_received_ ::= ∅ ;;
  new_view_logs_ ::= [] ;;
  newview_acks_ ::= ∅ ;;
  in_election_ ::= true ;;
  accept_log_ ::= ∅ ;;
  last_seqnum_ ::= 0 ;;
  last_executed_seq_ ::= 0 ;;
  max_seqnum_in_new_view_ ::= 0 ;;
  accepted_count_ ::= ∅ ;;
  entries_to_commit_ ::= ∅ ;;
  pending_entries_ ::= ∅ ;;
  finish_pending_calls ;;
  when kPrintLog (print_log_ ::= ""%string) ;;
  handled_ro_requests_ ::= ∅ ;;
  first_txn_received_ ::= true ;;
  executed_entries_ ::= ∅ ;;
  executed_two_pc_ ::= ∅ ;;
  modified_accounts_ ::= ∅ ;;
  accepted_count_two_pc_commit_ ::= ∅ ;;
  digest_to_seqnum_ ::= ∅ ;;
  wal_ ::= ∅ ;;
  reset_in_flights ;;
  cluster_leaders_ ::~ (λ m, cluster_leaders_init (divisor_ s) (num_clusters_ s) ∪ m) ;;
  accounts_ ::~ (λ a i, if (1 <=? i) && (i <=? 9000) then initial_balance else a i).

Definition apply_reshard (l : list (Z * Z)) (m : gmap Z Z) : gmap Z Z :=
  foldl (λ m p, <[p.1 := p.2]> m) m l.

Definition HandleSetAlive (request : AliveUpdateRequest) : NodeM bool :=
  s0 ← gets id;
  let was_alive := alive_ s0 in
  when (au_prompt_pause request) (alive_before_prompt_ ::= was_alive) ;;
  if au_reshard request then
    shard_map_ ::~ apply_reshard (au_shard_map request) ;; mret true
  else
  when (au_reset_state request) ResetNode ;;
  s1 ← gets id;
  if au_kill_leader request then
    let was_leader := role_ s1 ==s LEADER in
    kill ;;
    when was_leader (leader_id_ ::= -1) ;;
    alive_before_prompt_ ::= false ;;
    mret true
  else if au_recover request then revive ;; mret true
  else
    (if negb (au_prompt_pause request) && au_is_alive request && negb (alive_before_prompt_ s1) then
       DemoteToBackup ;; leader_id_ ::= -1 ;; revive
     else if au_is_alive request && negb was_alive then revive
     else if negb (au_is_alive request) && was_alive then
       RespondAndClearNewViewCallData ;; kill
     else skip) ;;
    mret true.

(** One call of [HandleMoveOn]: its entry is looked up with [operator[]]. *)
Definition move_on_call (seqnum : Z) : NodeM unit :=
  m ← gets pending_entries_;
  let '(e, m') := subscript AcceptedEntry_default m seqnum in
  pending_entries_ ::= m' ;;
  let req := ae_request e in
  f ← stoiM (rq_from_account req);
  t ← stoiM (rq_to_account req);
  intra ← gets (λ s, shard_of s f =? shard_of s t);
  when intra (unlock f ;; unlock t) ;;
  pending_client_calls_ ::~ delete seqnum.

Definition HandleMoveOn : NodeM bool :=
  calls ← gets pending_client_calls_;
  for_each (map_to_list calls) (λ p, respond p.2) ;;
  for_each (map_to_list calls) (λ p, move_on_call p.1) ;;
  queued ← gets queued_client_requests_;
  for_each queued (λ q, respond q.2) ;;
  queued_client_requests_ ::= [] ;;
  reset_in_flights ;;
  mret true.

(** The one-letter status of a sequence number. *)
Definition seq_status (s : PaxosNode) (seq : Z) : string :=
  if bool_decide (seq ∈ executed_entries_ s) then "E"
  else if bool_decide (is_Some (entries_to_commit_ s !! seq)) then "C"
  else if bool_decide (is_Some (accept_log_ s !! seq)) then "A"
  else "X".

(** [modified_accounts_] is a [std::set]: it is listed in increasing order. *)
Definition db_dump (s : PaxosNode) : list (string * Z) :=
  (λ i, (to_string i, accounts_ s i)) <$> merge_sort Z.le (elements (modified_accounts_ s)).

Definition HandleSendNodeInfo (request : InfoRequest) (s : PaxosNode) : NodeInfo :=
  if in_print_log request then
    MkNodeInfo (if kPrintLog then print_log_ s
                else "(PrintLog compiled out: PAXOS_BENCHMARK build)" +:+ nl) [] "" []
  else if in_print_db request then MkNodeInfo "" (db_dump s) "" []
  else if in_print_status request then MkNodeInfo "" [] (seq_status s (in_seqnum request)) []
  else if in_print_newview request then MkNodeInfo "" [] "" (new_view_logs_ s)
  else MkNodeInfo "" [] "" [].
