(* ===== verification/Machine.v ===== *)
(** * The node as a machine

    One [Event] per entry point of a node: the server-side calls of
    [call_data.cpp] ([...CallData::Proceed]), the answers its own calls
    receive, and one turn of each of its threads. [handle] calls
    the handler of an event; [step] runs one event to its end, at the time the event
    reads; [reachable] is any sequence of steps from the constructor, with any
    messages, whoever sent them.

    A step is a whole handler: the handlers of the source run on several
    threads and serialise on the node's mutexes, and the model takes each as
    atomic. *)
From S2P Require Import Prelude Text Messages Node Ledger Elections TwoPhase Replication Requests.
From S2P Require Import NewView Control.
#[local] Open Scope Z_scope.

Inductive Event :=
  | EPrepare (r : PrepareRequest) (call : Z)
  | EPromise (r : PromiseResponse)
  | EAccept (e : AcceptedEntry)
  | EAccepted (a : Ack)
  | ECommit (c : CommitEntry)
  | ENewView (v : NewViewRequest) (call : Z)
  | ENewViewFinished (call : Z)
  | EClientRequest (r : ClientRequest) (call : Z)
  | ETwoPC (m : TwoPCMsg)
  | EHeartbeat (h : HeartbeatRequest)
  | ESetAlive (u : AliveUpdateRequest)
  | EMoveOn
  | EElectionTimer
  | EHeartbeatLoop
  | ERetryLoop.

Definition handle (e : Event) : NodeM unit :=
  match e with
  | EPrepare r call => HandlePrepare r call
  | EPromise r => HandlePromise r
  | EAccept e => HandlePropose e ;; skip
  | EAccepted a => HandleAccept a
  | ECommit c => HandleCommit c
  | ENewView v call => HandleNewView v call
  | ENewViewFinished call => OnNewViewCallFinished call
  | EClientRequest r call => HandleClientRequest r (MkCall call r)
  | ETwoPC m => HandleTwoPCMsg m
  | EHeartbeat h => HandleHeartbeat h
  | ESetAlive u => HandleSetAlive u ;; skip
  | EMoveOn => HandleMoveOn ;; skip
  | EElectionTimer => ElectionTimer_turn
  | EHeartbeatLoop => HeartbeatLoop_turn
  | ERetryLoop => TransactionRetryLoop_turn
  end.

Definition run_at (t : Z) (e : Event) : NodeM unit := now_ ::= t ;; handle e.

Inductive step (s s' : PaxosNode) : Prop :=
  | step_event (t : Z) (e : Event) : run_at t e s = Ok (tt, s') → step s s'.

Definition reachable (s0 s : PaxosNode) : Prop := rtc step s0 s.

(** ** Executing a trace *)
Fixpoint run_trace (l : list (Z * Event)) (s : PaxosNode) : option PaxosNode :=
  match l with
  | [] => Some s
  | (t, e) :: l =>
      match run_at t e s with Ok (_, s') => run_trace l s' | Fault _ => None end
  end.

Lemma run_trace_reachable l s s' : run_trace l s = Some s' → reachable s s'.
Proof.
  revert s. induction l as [|[t e] l IH]; intros s; simpl.
  - intros [= ->]. apply rtc_refl.
  - destruct (run_at t e s) as [[[] s1]|] eqn:E; [|done]. intros H.
    eapply rtc_l; [|by apply IH]. by apply (step_event _ _ t e).
Qed.

(** A node of the small deployment is elected and serves its first request. *)
Definition small_trace : list (Z * Event) :=
  [(5000, EClientRequest (transfer 1 "1" "2" 4) 7);
   (6000, EElectionTimer);
   (6001, EPromise (MkPromiseResponse (MkBallot 1 1) 2 true []))].
