(* ===== verification/CallData.v ===== *)
(** * The server-side calls

    The objects of [call_data.cpp] that serve one RPC each. An object is
    created, asks the service for a request, is handed one by the completion
    queue, answers it at once or leaves it to the node to answer later, and is
    deleted when the completion queue reports the answer as sent. The model
    keeps the objects in a store of their own, so that answering twice and
    touching a deleted object are faults.

    Each class below is its [Proceed], with the constructor it runs for the
    next request. The pollers ([HandleRpcs]) are the events of [server_step].
    The [Finish] of the source publishes the object to the other pollers. Where
    it is the last thing a [Proceed] does, the model takes the [Proceed] as one
    event. [MoveOnCallData] writes its status after [Finish]: there the write is
    an event of its own, [Tail], and the completion of the call may come first.
    A constructor is atomic: only that of [MoveOnCallData] still writes a member
    (its [status_]) after it has asked the service for a request, a race that is
    not modelled. The handlers of the node do not touch a call they have
    answered, so their own statements after an answer are not events. *)
From S2P Require Import Prelude Text Messages Node Ledger Elections TwoPhase Replication Requests.
From S2P Require Import NewView Control Machine.
#[local] Open Scope Z_scope.

Inductive CallStatus := CREATE | PROCESS | FINISH.
Inductive CallKind :=
  | KPrepare | KAccept | KCommit | KNewView | KClientRequest | KAcceptAck | KHeartbeat
  | KAliveUpdate | KNodeInfo | KMoveOn | KTwoPC | KSubmit.
#[export] Instance CallStatus_eq_dec : EqDecision CallStatus.
Proof. solve_decision. Defined.
#[export] Instance CallKind_eq_dec : EqDecision CallKind.
Proof. solve_decision. Defined.

(** The request of a call, with the kind of call it arrives on. *)
Inductive RpcRequest :=
  | RqPrepare (r : PrepareRequest)
  | RqAccept (e : AcceptedEntry)
  | RqCommit (e : CommitEntry)
  | RqNewView (v : NewViewRequest)
  | RqClientRequest (r : ClientRequest)
  | RqAcceptAck (a : Ack)
  | RqHeartbeat (h : HeartbeatRequest)
  | RqAliveUpdate (u : AliveUpdateRequest)
  | RqNodeInfo (q : InfoRequest)
  | RqMoveOn (client : string)
  | RqTwoPC (m : TwoPCMsg)
  | RqSubmit (r : ClientRequest).
Definition rpc_kind (r : RpcRequest) : CallKind :=
  match r with
  | RqPrepare _ => KPrepare | RqAccept _ => KAccept | RqCommit _ => KCommit
  | RqNewView _ => KNewView | RqClientRequest _ => KClientRequest | RqAcceptAck _ => KAcceptAck
  | RqHeartbeat _ => KHeartbeat | RqAliveUpdate _ => KAliveUpdate | RqNodeInfo _ => KNodeInfo
  | RqMoveOn _ => KMoveOn | RqTwoPC _ => KTwoPC
  | RqSubmit _ => KSubmit
  end.

(** The request an object has before it is handed one. *)
Definition empty_request (k : CallKind) : RpcRequest :=
  match k with
  | KPrepare => RqPrepare (MkPrepareRequest Ballot_default 0)
  | KAccept => RqAccept AcceptedEntry_default
  | KCommit =>
      RqCommit (MkCommitEntry Ballot_default 0 ClientRequest_default "" ClientRequest_default "")
  | KNewView => RqNewView (MkNewViewRequest Ballot_default [])
  | KClientRequest => RqClientRequest ClientRequest_default
  | KAcceptAck => RqAcceptAck Ack_default
  | KHeartbeat => RqHeartbeat (MkHeartbeatRequest Ballot_default 0)
  | KAliveUpdate => RqAliveUpdate (MkAliveUpdateRequest false false false false false false [])
  | KNodeInfo => RqNodeInfo (MkInfoRequest false false false false 0)
  | KMoveOn => RqMoveOn ""
  | KTwoPC => RqTwoPC TwoPCMsg_default
  | KSubmit => RqSubmit ClientRequest_default
  end.

(** What [Finish] sends. *)
Inductive RpcReply :=
  | RpPromise (p : PromiseResponse)
  | RpAck (a : Ack)
  | RpTransactionAck (accepted : bool)
  | RpNodeInfo (i : NodeInfo)
  | RpEmpty.

Record CallObject := MkCallObject {
  co_request : RpcRequest;
  co_status : CallStatus;
  co_finished : bool }.
#[export] Instance rebuild_CallObject : Rebuild CallObject := λ o,
  MkCallObject (co_request o) (co_status o) (co_finished o).
#[export] Instance upd_co_request : Upd co_request := ltac:(derive_upd).
#[export] Instance upd_co_status : Upd co_status := ltac:(derive_upd).
#[export] Instance upd_co_finished : Upd co_finished := ltac:(derive_upd).

Definition co_kind (o : CallObject) : CallKind := rpc_kind (co_request o).

(** A node with its call objects: those that asked for a request and have none
    yet, those whose answer is on its way, those whose [Proceed] has still to
    write the status after [Finish], the answers given, and the calls the node
    has started itself. *)
Record Server := MkServer {
  sv_node : PaxosNode;
  sv_calls : gmap Z CallObject;
  sv_next : Z;
  sv_listening : gset Z;
  sv_completing : gset Z;
  sv_tails : gset Z;
  sv_replies : list (Z * RpcReply);
  sv_sent : list Output }.
#[export] Instance rebuild_Server : Rebuild Server := λ s,
  MkServer (sv_node s) (sv_calls s) (sv_next s) (sv_listening s) (sv_completing s) (sv_tails s)
    (sv_replies s) (sv_sent s).
#[export] Instance upd_sv_node : Upd sv_node := ltac:(derive_upd).
#[export] Instance upd_sv_calls : Upd sv_calls := ltac:(derive_upd).
#[export] Instance upd_sv_next : Upd sv_next := ltac:(derive_upd).
#[export] Instance upd_sv_listening : Upd sv_listening := ltac:(derive_upd).
#[export] Instance upd_sv_completing : Upd sv_completing := ltac:(derive_upd).
#[export] Instance upd_sv_tails : Upd sv_tails := ltac:(derive_upd).
#[export] Instance upd_sv_replies : Upd sv_replies := ltac:(derive_upd).
#[export] Instance upd_sv_sent : Upd sv_sent := ltac:(derive_upd).

Abbreviation ServerM := (M Server).

(** ** One object *)
Definition call_at (c : Z) : ServerM CallObject :=
  m ← gets sv_calls;
  match m !! c with Some o => mret o | None => raise UseAfterFree end.
Definition set_call (c : Z) (g : CallObject → CallObject) : ServerM unit :=
  o ← call_at c; sv_calls ::~ <[c := g o]>.

(** [service_->Request...(..., this)] *)
Definition listen (c : Z) : ServerM unit := sv_listening ::~ (λ l, {[c]} ∪ l).

(** [responder_.Finish(reply, ..., this)] *)
Definition hand_over (c : Z) (r : RpcReply) : ServerM unit :=
  o ← call_at c;
  if co_finished o then raise DoubleFinish else
  set_call c (upd co_finished true) ;;
  sv_completing ::~ (λ l, {[c]} ∪ l) ;;
  sv_replies ::~ (λ l, l ++ [(c, r)]).

(** [status_ = FINISH; responder_.Finish(reply, ..., this)] *)
Definition finish (c : Z) (r : RpcReply) : ServerM unit :=
  set_call c (upd co_status FINISH) ;; hand_over c r.

(** [delete this] *)
Definition delete_call (c : Z) : ServerM unit :=
  call_at c ;; sv_calls ::~ delete c.

(** [SendClientRequestCallData] and [MoveOnCallData] ask for their request in
    the constructor and stay in [CREATE]; the others run [Proceed] there. *)
Definition asks_in_constructor (k : CallKind) : bool :=
  match k with KClientRequest | KMoveOn => true | _ => false end.

(** The branch of [Proceed] for [CREATE], in the classes that have it. *)
Definition start (c : Z) : ServerM unit := set_call c (upd co_status PROCESS) ;; listen c.

(** [new ...CallData(service_, cq_, paxos_node_)] *)
Definition new_call (k : CallKind) : ServerM unit :=
  c ← gets sv_next;
  sv_next ::= c + 1 ;;
  sv_calls ::~ <[c := MkCallObject (empty_request k) CREATE false]> ;;
  if asks_in_constructor k then listen c else start c.

(** ** Running the node *)

(** [Respond] of the class of the call. *)
Definition answer (o : Output) : ServerM unit :=
  match o with
  | RespondPrepare c p => finish c (RpPromise p)
  | RespondNewView c => finish c (RpAck Ack_default)
  | RespondClient c => finish c (RpTransactionAck false)
  | _ => sv_sent ::~ (λ l, l ++ [o])
  end.

(** A handler of the node runs; the calls it answers are finished and the calls
    it starts are sent. Both are read off the output tape, which starts empty. *)
Definition on_node {A} (m : NodeM A) : ServerM A := λ s,
  match m (upd outbox_ [] (sv_node s)) with
  | Ok (a, n) => (for_each (outbox_ n) answer ;; mret a) (upd sv_node (upd outbox_ [] n) s)
  | Fault f => Fault f
  end.

(** ** The classes *)
Definition PrepareCallData_Proceed (request : PrepareRequest) (c : Z) : ServerM unit :=
  o ← call_at c;
  match co_status o with
  | CREATE => start c
  | PROCESS => new_call KPrepare ;; on_node (HandlePrepare request c)
  | FINISH => delete_call c
  end.

Definition AcceptCallData_Proceed (request : AcceptedEntry) (c : Z) : ServerM unit :=
  o ← call_at c;
  match co_status o with
  | CREATE => start c
  | PROCESS =>
      new_call KAccept ;;
      reply ← on_node (HandlePropose request);
      finish c (RpAck reply)
  | FINISH => delete_call c
  end.

Definition CommitCallData_Proceed (request : CommitEntry) (c : Z) : ServerM unit :=
  o ← call_at c;
  match co_status o with
  | CREATE => start c
  | PROCESS =>
      new_call KCommit ;;
      on_node (HandleCommit request) ;;
      finish c (RpAck Ack_default)
  | FINISH => delete_call c
  end.

Definition NewViewCallData_Proceed (request : NewViewRequest) (c : Z) : ServerM unit :=
  o ← call_at c;
  match co_status o with
  | CREATE => start c
  | PROCESS => new_call KNewView ;; on_node (HandleNewView request c)
  | FINISH => on_node (OnNewViewCallFinished c) ;; delete_call c
  end.

Definition SendClientRequestCallData_Proceed (request : ClientRequest) (c : Z) : ServerM unit :=
  o ← call_at c;
  match co_status o with
  | CREATE =>
      set_call c (upd co_status PROCESS) ;;
      new_call KClientRequest ;;
      on_node (HandleClientRequest request (MkCall c request))
  | PROCESS => skip
  | FINISH => delete_call c
  end.

Definition ReceiveAcceptAckCallData_Proceed (request : Ack) (c : Z) : ServerM unit :=
  o ← call_at c;
  match co_status o with
  | CREATE => start c
  | PROCESS => new_call KAcceptAck ;; on_node (HandleAccept request) ;; finish c RpEmpty
  | FINISH => delete_call c
  end.

Definition HeartbeatCallData_Proceed (request : HeartbeatRequest) (c : Z) : ServerM unit :=
  o ← call_at c;
  match co_status o with
  | CREATE => start c
  | PROCESS => new_call KHeartbeat ;; on_node (HandleHeartbeat request) ;; finish c RpEmpty
  | FINISH => delete_call c
  end.

Definition AliveUpdateCallData_Proceed (request : AliveUpdateRequest) (c : Z) : ServerM unit :=
  o ← call_at c;
  match co_status o with
  | CREATE => start c
  | PROCESS =>
      new_call KAliveUpdate ;;
      accepted ← on_node (HandleSetAlive request);
      finish c (RpTransactionAck accepted)
  | FINISH => delete_call c
  end.

Definition GetNodeInfoCallData_Proceed (request : InfoRequest) (c : Z) : ServerM unit :=
  o ← call_at c;
  match co_status o with
  | CREATE => start c
  | PROCESS =>
      new_call KNodeInfo ;;
      info ← on_node (gets (HandleSendNodeInfo request));
      finish c (RpNodeInfo info)
  | FINISH => delete_call c
  end.

(** Any status but [CREATE] deletes the object. [Finish] comes before
    [status_ = FINISH], which is left to [Tail]. *)
Definition MoveOnCallData_Proceed (c : Z) : ServerM unit :=
  o ← call_at c;
  match co_status o with
  | CREATE =>
      set_call c (upd co_status PROCESS) ;;
      new_call KMoveOn ;;
      accepted ← on_node HandleMoveOn;
      hand_over c (RpTransactionAck accepted) ;;
      sv_tails ::~ (λ l, {[c]} ∪ l)
  | _ => delete_call c
  end.

Definition TwoPCCallData_Proceed (request : TwoPCMsg) (c : Z) : ServerM unit :=
  o ← call_at c;
  match co_status o with
  | CREATE => start c
  | PROCESS => new_call KTwoPC ;; on_node (HandleTwoPCMsg request) ;; finish c RpEmpty
  | FINISH => delete_call c
  end.

(** A placeholder: no object of this class is ever created, so none listens. *)
Definition SubmitTransactionCallData_Proceed (c : Z) : ServerM unit :=
  o ← call_at c;
  match co_status o with
  | CREATE => start c
  | PROCESS => new_call KSubmit ;; finish c (RpTransactionAck true)
  | FINISH => delete_call c
  end.

(** The virtual call of the pollers. *)
Definition Proceed (c : Z) : ServerM unit :=
  o ← call_at c;
  match co_request o with
  | RqPrepare r => PrepareCallData_Proceed r c
  | RqAccept e => AcceptCallData_Proceed e c
  | RqCommit e => CommitCallData_Proceed e c
  | RqNewView v => NewViewCallData_Proceed v c
  | RqClientRequest r => SendClientRequestCallData_Proceed r c
  | RqAcceptAck a => ReceiveAcceptAckCallData_Proceed a c
  | RqHeartbeat h => HeartbeatCallData_Proceed h c
  | RqAliveUpdate u => AliveUpdateCallData_Proceed u c
  | RqNodeInfo q => GetNodeInfoCallData_Proceed q c
  | RqMoveOn _ => MoveOnCallData_Proceed c
  | RqTwoPC m => TwoPCCallData_Proceed m c
  | RqSubmit _ => SubmitTransactionCallData_Proceed c
  end.

(** ** The client side of a node: the answers to its own calls *)
Definition PrepareClientCallData_OnComplete (ok : bool) (reply : PromiseResponse) : NodeM unit :=
  when ok (HandlePromise reply).
Definition AcceptClientCallData_OnComplete (ok : bool) (reply : Ack) : NodeM unit :=
  when ok (HandleAccept reply).

(** ** The event loop *)
Inductive ServerEvent :=
  (** a request is matched with an object that waits for one *)
  | Arrive (c : Z) (r : RpcRequest)
  (** the answer of an object has been sent ([ok]), or could not be *)
  | Sent (c : Z) (ok : bool)
  (** the poller that answered a [MoveOn] goes on to [status_ = FINISH] *)
  | Tail (c : Z)
  (** the answer to a call of the node's own *)
  | PrepareDone (ok : bool) (r : PromiseResponse)
  | AcceptDone (ok : bool) (a : Ack)
  (** a turn of one of the node's threads *)
  | TimerTurn
  | HeartbeatTurn
  | RetryTurn.

(** What the completion queues can deliver. *)
Definition deliverable (s : Server) (e : ServerEvent) : Prop :=
  match e with
  | Arrive c r =>
      c ∈ sv_listening s ∧ option_map co_kind (sv_calls s !! c) = Some (rpc_kind r)
  | Sent c _ => c ∈ sv_completing s
  | Tail c => c ∈ sv_tails s
  | _ => True
  end.
#[export] Instance deliverable_dec s e : Decision (deliverable s e).
Proof. destruct e; cbn; apply _. Defined.

(** The same, when no poller sees an answer as sent before the one that gave it
    has ended its [Proceed]. *)
Definition in_time (s : Server) (e : ServerEvent) : Prop :=
  deliverable s e ∧ match e with Sent c _ => c ∉ sv_tails s | _ => True end.
#[export] Instance in_time_dec s e : Decision (in_time s e).
Proof. destruct e; cbn; apply _. Defined.

Definition server_event (e : ServerEvent) : ServerM unit :=
  match e with
  | Arrive c r =>
      sv_listening ::~ (λ l, l ∖ {[c]}) ;;
      set_call c (upd co_request r) ;;
      Proceed c
  | Sent c ok => sv_completing ::~ (λ l, l ∖ {[c]}) ;; when ok (Proceed c)
  | Tail c => sv_tails ::~ (λ l, l ∖ {[c]}) ;; set_call c (upd co_status FINISH)
  | PrepareDone ok r => on_node (PrepareClientCallData_OnComplete ok r)
  | AcceptDone ok a => on_node (AcceptClientCallData_OnComplete ok a)
  | TimerTurn => on_node ElectionTimer_turn
  | HeartbeatTurn => on_node HeartbeatLoop_turn
  | RetryTurn => on_node TransactionRetryLoop_turn
  end.

Definition server_step (t : Z) (e : ServerEvent) : ServerM unit :=
  sv_node ::~ upd now_ t ;; server_event e.

(** [Run]: three objects of every kind. *)
Definition all_kinds : list CallKind :=
  [KPrepare; KAccept; KCommit; KNewView; KClientRequest; KAcceptAck; KHeartbeat; KAliveUpdate;
   KNodeInfo; KMoveOn; KTwoPC].
Definition init_handlers : nat := 3.
Definition Run (n : PaxosNode) : res (unit * Server) :=
  for_each (concat (repeat all_kinds init_handlers)) new_call
    (MkServer (upd outbox_ [] n) ∅ 0 ∅ ∅ ∅ [] []).

(** Running events, leaving out those that [may] not happen. *)
Fixpoint serve (may : Server → ServerEvent → Prop) `{∀ s e, Decision (may s e)}
    (l : list (Z * ServerEvent)) (s : Server) : res (unit * Server) :=
  match l with
  | [] => Ok (tt, s)
  | (t, e) :: l =>
      if decide (may s e) then
        match server_step t e s with Ok (_, s') => serve may l s' | Fault f => Fault f end
      else serve may l s
  end.
