(* ===== verification/ElectionProofs.v ===== *)
(** * Elections: promises, demotion and leadership

    What the phase-1 handlers guarantee about the promised ballot, the promise
    that is sent, and the state of a node that steps down. *)
From S2P Require Import Prelude Text Messages Node Ledger Elections.
#[local] Open Scope Z_scope.

(** ** Frames *)
Ltac unfold_ledger_ops :=
  unfold log_at, digest_at, wal_account, undo_delta, set_account, account_at, unlock, try_lock,
    wal_erase, wal_write, mark_executed, mark_modified, stoiM, emit, respond, log_line,
    send_to, send_client, to_cluster, subscript in *.

Ltac keeps_by d := unfold d; unfold_ledger_ops; solve_keeps.

Section frames.
Context {T : Type} (p : PaxosNode → T).
(** The fields written by the WAL loop of a demotion. *)
Hypothesis p_log : ∀ s v, p (upd accept_log_ v s) = p s.
Hypothesis p_acc : ∀ s v, p (upd accounts_ v s) = p s.
Hypothesis p_wal : ∀ s v, p (upd wal_ v s) = p s.
Hypothesis p_locks : ∀ s v, p (upd balance_locks_ v s) = p s.

Lemma reconcile_wal_demoted_keeps : respects (keeps p) reconcile_wal_demoted.
Proof using p_acc p_locks p_log p_wal.
  unfold reconcile_wal_demoted, reconcile_demoted. unfold_ledger_ops.
  solve_respects_with ltac:(unfold keeps; auto).
Qed.

Lemma reconcile_wal_elected_keeps : respects (keeps p) reconcile_wal_elected.
Proof using p_acc p_locks p_log p_wal.
  unfold reconcile_wal_elected, reconcile_elected. unfold_ledger_ops.
  solve_respects_with ltac:(unfold keeps; auto).
Qed.
End frames.

#[export] Hint Extern 2 (respects (keeps _) reconcile_wal_demoted) =>
  (apply reconcile_wal_demoted_keeps; reflexivity) : respects.
#[export] Hint Extern 2 (respects (keeps _) reconcile_wal_elected) =>
  (apply reconcile_wal_elected_keeps; reflexivity) : respects.

Ltac demote_keeps :=
  unfold DemoteToBackup, StopHeartbeat, finish_pending_calls, reset_in_flights;
  unfold_ledger_ops; solve_keeps.

Lemma Demote_keeps_promised : respects (keeps highest_promised_ballot_) DemoteToBackup.
Proof. demote_keeps. Qed.
Lemma Demote_keeps_current : respects (keeps current_ballot_) DemoteToBackup.
Proof. demote_keeps. Qed.
Lemma Demote_keeps_id : respects (keeps node_id_) DemoteToBackup.
Proof. demote_keeps. Qed.
Lemma Demote_keeps_alive : respects (keeps alive_) DemoteToBackup.
Proof. demote_keeps. Qed.
#[export] Hint Resolve Demote_keeps_promised Demote_keeps_current Demote_keeps_id
  Demote_keeps_alive : respects.

(** The state in which the WAL loop of a demotion starts. *)
Definition stepped_down (s : PaxosNode) : PaxosNode :=
  let calls := (λ p, RespondClient (cd_id p.2)) <$> map_to_list (pending_client_calls_ s) in
  let v := in_flight_two_pc_prepares_ s in
  upd in_flight_two_pc_transactions_ (vec_clear (in_flight_two_pc_transactions_ s))
   (upd in_flight_two_pc_prepares_ (MkVec (vec_size v) (reset_in_flight <$> vec_slots v))
    (upd pending_client_calls_ ∅
     (sent calls
      (upd pending_entries_ ∅
       (upd entries_to_commit_ ∅
        (upd accepted_count_ ∅
         (upd newview_quorum_reached_ false
          (upd newview_acks_ ∅
           (upd waiting_for_promises_ false
            (upd leader_id_ (-1)
             (upd role_ BACKUP
              (upd heartbeat_running_ false s)))))))))))).

Lemma DemoteToBackup_eq s : DemoteToBackup s = reconcile_wal_demoted (stepped_down s).
Proof.
  unfold DemoteToBackup, StopHeartbeat, finish_pending_calls, reset_in_flights.
  run_goal. simp_upd. rewrite respond_all_eq. cbn beta iota. unfold stepped_down, sent. simp_upd.
  reflexivity.
Qed.

Lemma Demote_after {T} (p : PaxosNode → T) s s' :
  respects (keeps p) reconcile_wal_demoted →
  DemoteToBackup s = Ok (tt, s') → p s' = p (stepped_down s).
Proof. rewrite DemoteToBackup_eq. intros Hp H. by apply Hp in H. Qed.

(** Stepping down gives up every claim of the old term. Whatever the
    write-ahead log holds, a demotion that completes leaves a backup without a
    known leader, without a running heartbeat or candidacy, with no vote
    counts, no pending entries, no uncommitted buffer and no client call left
    open, and with its promised ballot unchanged. *)
Theorem DemoteToBackup_clears (s s' : PaxosNode) :
  DemoteToBackup s = Ok (tt, s') →
  role_ s' = BACKUP ∧ leader_id_ s' = -1 ∧ waiting_for_promises_ s' = false ∧
  heartbeat_running_ s' = false ∧ accepted_count_ s' = ∅ ∧ entries_to_commit_ s' = ∅ ∧
  pending_entries_ s' = ∅ ∧ pending_client_calls_ s' = ∅ ∧
  highest_promised_ballot_ s' = highest_promised_ballot_ s.
Proof.
  intros H. split_and!;
    match goal with |- ?p s' = _ => rewrite (Demote_after p s s'); eauto with respects end.
Qed.

(** ** Phase 1 at a backup *)
Definition logged (l : string) (s : PaxosNode) : PaxosNode := upd print_log_ (print_log_ s +:+ l) s.

Definition prepare_line (b : Ballot) : string := "<PREPARE, " +:+ ballot_text "," b +:+ "> " +:+ nl.

(** [HandlePrepare] at a live backup, on every branch. A ballot above the
    promised one is promised at once, with the whole accept log in the reply,
    when the leader has been silent for the cooldown, and is kept for the
    timeout otherwise; any other ballot is refused with the current ballot.
    Nothing else of the node changes. *)
Theorem HandlePrepare_at_backup (r : PrepareRequest) (call : Z) (s : PaxosNode) :
  alive_ s = true → role_ s = BACKUP →
  let s1 := upd last_prepare_received_ (now_ s) (logged (prepare_line (pr_ballot r)) s) in
  HandlePrepare r call s = Ok (tt,
    if ballot_gtb (pr_ballot r) (highest_promised_ballot_ s) then
      let s2 := upd highest_promised_ballot_ (pr_ballot r) (upd in_election_ true s1) in
      if prepare_cooldown_ <=? now_ s - last_leader_msg_received_ s then
        upd pending_promise_call_ None
          (sent [RespondPrepare call (MkPromiseResponse (pr_ballot r) (node_id_ s) true
                   (snd <$> entries (accept_log_ s)))] s2)
      else upd pending_promise_call_ (Some call) s2
    else
      upd pending_promise_call_ None
        (sent [RespondPrepare call (MkPromiseResponse (current_ballot_ s) (node_id_ s) false [])] s1)).
Proof.
  intros Ha Hr. destruct s; simpl in Ha, Hr; subst.
  unfold HandlePrepare, SendPromise, StartElectionTimer. run_goal. cbn.
  destruct (ballot_gtb _ _); [|reflexivity].
  cbn. by destruct (prepare_cooldown_ <=? _).
Qed.


(** ** The theorems on a small deployment *)

(** A leader with a pending client call and an executed first phase. *)
Definition small_old_leader : PaxosNode :=
  upd role_ LEADER (upd leader_id_ 1 (upd heartbeat_running_ true
    (upd pending_client_calls_ {[1 := MkCall 7 (transfer 1 "1" "3" 4)]}
      (upd wal_ {[1 := MkWalEntry 10 6]} (upd accept_log_
        {[1 := MkAcceptedEntry (MkBallot 1 1) 1 (transfer 1 "1" "3" 4) 1 "COORD"
                 (transfer 1 "1" "3" 4) 0 "A_COORD"]} (small_node 1)))))).

Lemma DemoteToBackup_clears_witness :
  ∃ s', DemoteToBackup small_old_leader = Ok (tt, s') ∧ role_ s' = BACKUP.
Proof.
  assert (value (DemoteToBackup small_old_leader) = Some tt) as (s' & H)%value_Ok
    by (vm_compute; reflexivity).
  exists s'. split; [done|]. exact (proj1 (DemoteToBackup_clears small_old_leader s' H)).
Defined.

Lemma HandlePrepare_at_backup_witness :
  ∃ s', HandlePrepare (MkPrepareRequest (MkBallot 1 2) 2) 7 (small_node 1) = Ok (tt, s').
Proof.
  eexists. exact (HandlePrepare_at_backup (MkPrepareRequest (MkBallot 1 2) 2) 7 (small_node 1)
                    eq_refl eq_refl).
Defined.
