(* ===== verification/ReplicationProofs.v ===== *)
(** * Replication: what Accept, acknowledgement and Commit guarantee

    The acceptor's decision, the commit rule and its quorums, termination and
    order of the execution loop, and convergence of backups that receive the
    same commits in different orders. *)
From S2P Require Import Prelude Text Messages Node Ledger LedgerSpec LedgerProofs Elections.
From S2P Require Import TwoPhase Replication ElectionProofs.
#[local] Open Scope Z_scope.

(** ** The acceptor *)
Definition accept_line (e : AcceptedEntry) : string :=
  "<ACCEPT, " +:+ ballot_text "," (ae_ballot e) +:+ ", " +:+ to_string (ae_seqnum e) +:+ " "
    +:+ request_text (ae_request e) +:+ "> " +:+ nl.

(** The node after it took an entry in: what it promised and whom it follows. *)
Definition follow (b : Ballot) (s : PaxosNode) : PaxosNode :=
  if ballot_gtb b (highest_promised_ballot_ s) then
    upd highest_promised_ballot_ b
      (upd current_ballot_ b
        (upd cluster_leaders_ (<[shard_of s (node_id_ s) := node_id b]> (cluster_leaders_ s))
          (upd leader_id_ (node_id b) (upd highest_promised_ballot_ b s))))
  else s.

Definition timer_reset (s : PaxosNode) : PaxosNode :=
  let s1 := upd last_leader_msg_received_ (now_ s) s in
  if timer_running_ s then upd election_reset_ true s1
  else upd election_reset_ false (upd timer_running_ true s1).

Lemma ResetElectionTimer_eq s :
  alive_ s = true → role_ s = BACKUP → ResetElectionTimer s = Ok (tt, timer_reset s).
Proof.
  intros Ha Hr. destruct s; simpl in *; subst.
  unfold ResetElectionTimer, StartElectionTimer, timer_reset. run_goal. cbn.
  by destruct timer_running_.
Qed.

Definition logged_entry (e : AcceptedEntry) (s : PaxosNode) : PaxosNode :=
  match accept_log_ s !! ae_seqnum e with
  | Some _ => s
  | None => upd accept_log_ (<[ae_seqnum e := e]> (accept_log_ s)) s
  end.
Definition stored (e : AcceptedEntry) (s : PaxosNode) : PaxosNode :=
  let s1 := logged_entry e s in
  upd pending_entries_ (<[ae_seqnum e := e]> (pending_entries_ s1)) s1.

Lemma node_id_timer_reset s : node_id_ (timer_reset s) = node_id_ s.
Proof. unfold timer_reset. by destruct (timer_running_ s). Qed.
Lemma accept_log_follow b s : accept_log_ (follow b s) = accept_log_ s.
Proof. unfold follow. destruct (ballot_gtb _ _); by simp_upd. Qed.
Lemma pending_follow b s : pending_entries_ (follow b s) = pending_entries_ s.
Proof. unfold follow. destruct (ballot_gtb _ _); by simp_upd. Qed.
Lemma stored_new e s :
  accept_log_ s !! ae_seqnum e = None →
  stored e s = upd pending_entries_ (<[ae_seqnum e := e]> (pending_entries_ s))
                 (upd accept_log_ (<[ae_seqnum e := e]> (accept_log_ s)) s).
Proof. intros H. unfold stored, logged_entry. rewrite H. by simp_upd. Qed.
Lemma stored_old e s :
  accept_log_ s !! ae_seqnum e ≠ None →
  stored e s = upd pending_entries_ (<[ae_seqnum e := e]> (pending_entries_ s)) s.
Proof. intros H. unfold stored, logged_entry. by destruct (accept_log_ s !! _). Qed.

(** [HandlePropose] at a live backup. An entry whose ballot is below the
    promise is refused without a trace; any other is acknowledged in the name
    of the node, becomes the promise when it is higher, is stored in the log
    unless its sequence number is taken, is pending, and restarts the timer.
    Nothing else of the node changes. *)
Theorem HandlePropose_at_backup (e : AcceptedEntry) (s : PaxosNode) :
  alive_ s = true → role_ s = BACKUP → ae_new_leader e = 0 →
  let reply := MkAck (ae_ballot e) 0 false 0 0 "" in
  let s1 := logged (accept_line e) s in
  HandlePropose e s = Ok (
    if ballot_ltb (ae_ballot e) (highest_promised_ballot_ s) then (reply, s1)
    else (upd ack_accepted true (FillAcceptAck (node_id_ s) e reply),
          timer_reset (stored e (follow (ae_ballot e) s1)))).
Proof.
  intros Ha Hr Hn reply s1. apply wp_exact. unfold HandlePropose, SetNewLeader, log_line.
  wp_run_with ltac:(rewrite ?Ha, ?Hr, ?Hn, ?ballot_eta; role_tests; cbn [Z.eqb]).
  { done. }
  all: eapply wp_returns; [apply ResetElectionTimer_eq; by simp_upd|]; wp_steps.
  all: rewrite node_id_timer_reset; simp_upd; do 2 f_equal.
  all: match goal with
    | H : (accept_log_ _ !! _ ==s None) = true |- _ =>
        apply bool_decide_eq_true in H; rewrite stored_new by (by rewrite accept_log_follow)
    | H : (accept_log_ _ !! _ ==s None) = false |- _ =>
        apply bool_decide_eq_false in H; rewrite stored_old by (by rewrite accept_log_follow)
    end; rewrite ?accept_log_follow, pending_follow.
  all: match goal with H : ballot_gtb _ _ = _ |- _ =>
    unfold follow; subst s1; unfold logged; simp_upd; rewrite H end.
  all: reflexivity.
Qed.

(** ** The commit rule *)
Definition accepted_line (a : Ack) (e : AcceptedEntry) : string :=
  "<ACCEPTED, " +:+ ballot_text ", " (ack_ballot a) +:+ ", " +:+ to_string (ack_seqnum a) +:+ ", "
    +:+ request_text (ae_request e) +:+ ", " +:+ to_string (ack_node_id a) +:+ "> " +:+ nl.

Definition log_accepted (a : Ack) (s : PaxosNode) : PaxosNode :=
  match accept_log_ s !! ack_seqnum a with
  | Some e => logged (accepted_line a e) s
  | None => s
  end.

(** The nodes counted for the acknowledged entry once [a] is counted. *)
Definition acceptors (s : PaxosNode) (a : Ack) : gset Z :=
  {[ack_node_id a]} ∪
    count_in (if ack_phase a =? 2 then accepted_count_two_pc_commit_ s else accepted_count_ s)
      (ack_seqnum a) (counter (ack_ballot a)).

Definition counted (s : PaxosNode) (a : Ack) : PaxosNode :=
  let c := counter (ack_ballot a) in
  if ack_phase a =? 2 then
    upd accepted_count_two_pc_commit_
      (count_insert (accepted_count_two_pc_commit_ s) (ack_seqnum a) c (ack_node_id a))
      (log_accepted a s)
  else
    upd accepted_count_ (count_insert (accepted_count_ s) (ack_seqnum a) c (ack_node_id a))
      (log_accepted a s).

(** Whether a quorum of acknowledgements commits the entry. *)
Definition may_commit (s : PaxosNode) (a : Ack) : bool :=
  (ack_phase a =? 2) || (entries_to_commit_ s !! ack_seqnum a ==s None) ||
  (ack_seqnum a <=? max_seqnum_in_new_view_ s).

Lemma HandleAccept_eq a s :
  alive_ s = true → role_ s = LEADER → ack_accepted a = true →
  HandleAccept a s =
    if (ack_phase a =? 2) && (accept_log_ s !! ack_seqnum a ==s None) then Ok (tt, s)
    else if may_commit s a && (Z.of_nat (size (acceptors s a)) =? f_ s + 1)
    then Commit_entry a (counted s a)
    else Ok (tt, counted s a).
Proof.
  intros Ha Hr Hk. unfold HandleAccept, log_line. run_goal. rewrite Ha, Hr, Hk. role_tests.
  cbn [negb kPrintLog].
  unfold may_commit, acceptors, counted, log_accepted, quorum_reached.
  destruct (accept_log_ s !! ack_seqnum a) as [e|] eqn:El; destruct (ack_phase a =? 2) eqn:Ep;
    simpl; rewrite ?count_in_insert, ?El; simp_upd; cbn [negb andb orb].
  all: try reflexivity.
  all: destruct (_ =? f_ s + 1); try reflexivity.
  all: destruct (_ ==s None), (_ <=? _); reflexivity.
Qed.

Lemma HandleAccept_inert a s :
  alive_ s = false ∨ role_ s ≠ LEADER ∨ ack_accepted a = false → HandleAccept a s = Ok (tt, s).
Proof.
  intros H. unfold HandleAccept. run_goal.
  destruct (alive_ s), (ack_accepted a), (role_ s ==s LEADER) eqn:Hr; try done.
  apply bool_decide_eq_true in Hr. by destruct H as [|[|]].
Qed.

(** [HandleAccept], on every acknowledgement. A dead node, a backup, a
    rejection, and a second-phase acknowledgement of an unknown sequence number
    change nothing; any other is counted once for its sender, and the entry is
    committed exactly when the distinct acceptors are [f_ + 1] and the entry
    may still commit. *)
Theorem HandleAccept_rule (a : Ack) (s : PaxosNode) :
  HandleAccept a s =
    if negb (alive_ s && (role_ s ==s LEADER) && ack_accepted a) then Ok (tt, s)
    else if (ack_phase a =? 2) && (accept_log_ s !! ack_seqnum a ==s None) then Ok (tt, s)
    else if may_commit s a && (Z.of_nat (size (acceptors s a)) =? f_ s + 1)
    then Commit_entry a (counted s a)
    else Ok (tt, counted s a).
Proof.
  destruct (alive_ s) eqn:Ha, (ack_accepted a) eqn:Hk, (role_ s ==s LEADER) eqn:Hr;
    try (apply bool_decide_eq_true in Hr || apply bool_decide_eq_false in Hr);
    first [by apply HandleAccept_eq | apply HandleAccept_inert; tauto].
Qed.

(** C6: nothing is committed or sent without a quorum. If an acknowledgement
    makes a node send anything or buffer an entry for execution, then the
    distinct nodes that accepted that sequence number and ballot counter are
    exactly [f_ + 1]. *)
Theorem commit_needs_quorum (a : Ack) (s s' : PaxosNode) :
  HandleAccept a s = Ok (tt, s') →
  outbox_ s' ≠ outbox_ s ∨ entries_to_commit_ s' ≠ entries_to_commit_ s ∨ ledger_of s' ≠ ledger_of s →
  Z.of_nat (size (acceptors s a)) = f_ s + 1.
Proof.
  intros H Hch. destruct (decide (alive_ s = true ∧ role_ s = LEADER ∧ ack_accepted a = true))
    as [(Ha & Hr & Hk)|Hno].
  - rewrite HandleAccept_eq in H by done.
    destruct (_ && (accept_log_ s !! _ ==s None)); [injection H as <-; tauto|].
    destruct (may_commit s a && _) eqn:E; [apply andb_true_iff in E as [_ E]; lia|].
    injection H as <-. exfalso.
    assert (outbox_ (counted s a) = outbox_ s ∧ entries_to_commit_ (counted s a) = entries_to_commit_ s
            ∧ ledger_of (counted s a) = ledger_of s) as (? & ? & ?); [|tauto].
    unfold counted, log_accepted. by destruct (ack_phase a =? 2), (accept_log_ s !! _).
  - rewrite HandleAccept_inert in H; [injection H as <-; tauto|].
    destruct (alive_ s), (ack_accepted a), (role_ s); auto; exfalso; auto.
Qed.

(** The entry a leader commits for a sequence number. *)
Definition entry_of (s : PaxosNode) (seq : Z) : AcceptedEntry :=
  default (default AcceptedEntry_default (accept_log_ s !! seq)) (pending_entries_ s !! seq).

(** What is left of the log lookup: an absent entry is inserted. *)
Definition looked_up (seq : Z) (s : PaxosNode) : PaxosNode :=
  match pending_entries_ s !! seq with
  | Some _ => s
  | None => upd accept_log_ (subscript AcceptedEntry_default (accept_log_ s) seq).2 s
  end.

Definition buffered (seq : Z) (entry : CommitEntry) (s : PaxosNode) : PaxosNode :=
  match entries_to_commit_ s !! seq with
  | Some _ => s
  | None => upd entries_to_commit_ (<[seq := entry]> (entries_to_commit_ s)) s
  end.

Lemma insert_commit_eq seq entry s : insert_commit seq entry s = Ok (tt, buffered seq entry s).
Proof.
  unfold insert_commit, buffered. run_goal.
  by destruct (entries_to_commit_ s !! seq).
Qed.

Lemma buffered_keeps seq entry s :
  last_executed_seq_ (buffered seq entry s) = last_executed_seq_ s ∧
  cluster_peers (buffered seq entry s) = cluster_peers s.
Proof. unfold buffered. by destruct (entries_to_commit_ s !! seq). Qed.

Lemma commit_tail seq entry (k : Z → NodeM unit) s :
  (insert_commit seq entry ;; BroadcastCommit entry ;; last ← gets last_executed_seq_; k last) s =
    k (last_executed_seq_ s)
      (sent ((λ p, SendCommitTo p entry) <$> cluster_peers s) (buffered seq entry s)).
Proof.
  destruct (buffered_keeps seq entry s) as [Hl Hc].
  rewrite (bind_Ok _ _ _ _ _ (insert_commit_eq seq entry s)). unfold BroadcastCommit.
  rewrite (bind_Ok _ _ _ _ _ (to_cluster_eq _ _)), Hc.
  unfold sent. run_goal. simp_upd. by rewrite Hl.
Qed.

(** Committing sends the entry to exactly the other nodes of the cluster
    and buffers it for execution before anything executes; then the buffer is
    executed when the entry is the next one, or a second-phase outcome is
    applied. *)
Theorem Commit_entry_broadcasts (a : Ack) (s : PaxosNode) :
  let entry := commit_of (entry_of s (ack_seqnum a)) (ack_status a) in
  let s1 := buffered (ack_seqnum a) entry (looked_up (ack_seqnum a) s) in
  Commit_entry a s =
    (if last_executed_seq_ s + 1 =? ack_seqnum a then SequentiallyExecuteCommittedEntries
     else if ack_phase a =? 2 then ExecuteRepeatedTwoPCEntry entry
     else skip) (sent ((λ p, SendCommitTo p entry) <$> cluster_peers s) s1).
Proof.
  intros entry s1.
  transitivity ((insert_commit (ack_seqnum a) entry ;; BroadcastCommit entry ;;
    last ← gets last_executed_seq_;
    if last + 1 =? ack_seqnum a then SequentiallyExecuteCommittedEntries
    else if ack_phase a =? 2 then ExecuteRepeatedTwoPCEntry entry else skip)
    (looked_up (ack_seqnum a) s)).
  - unfold entry, Commit_entry, looked_up, entry_of, log_at, subscript. run_goal.
    destruct (pending_entries_ s !! ack_seqnum a) as [e|]; [done|].
    destruct (accept_log_ s !! ack_seqnum a) as [e|]; [|done]. by destruct s.
  - rewrite (commit_tail _ _ (λ last, if last + 1 =? ack_seqnum a then _ else _)).
    unfold s1, looked_up. by destruct (pending_entries_ s !! ack_seqnum a).
Qed.

(** ** Quorums *)
Definition cluster_nodes (low n : Z) : gset Z := list_to_set (seqZ low n).

Lemma max_faulty_odd n : Z.odd n = true → 0 < n → 2 * max_faulty n + 1 = n.
Proof.
  intros Ho Hn. unfold max_faulty. rewrite Z.quot_div_nonneg by lia.
  pose proof (Z.div_mod (n - 1) 2 ltac:(lia)) as H. rewrite Zmod_odd in H.
  replace (Z.odd (n - 1)) with false in H; [lia|].
  rewrite Z.odd_sub, Ho. done.
Qed.
Lemma max_faulty_even n : Z.even n = true → 0 < n → 2 * (max_faulty n + 1) = n.
Proof.
  intros He Hn. unfold max_faulty. rewrite Z.quot_div_nonneg by lia.
  pose proof (Z.div_mod (n - 1) 2 ltac:(lia)) as H. rewrite Zmod_odd in H.
  replace (Z.odd (n - 1)) with true in H; [lia|].
  rewrite Z.odd_sub, <-Z.negb_even, He. done.
Qed.

(** In a cluster of an odd number of nodes any two sets of [f_ + 1] of its
    nodes share a node, so that two ballots cannot both gather a quorum of
    disjoint acceptors. *)
Theorem odd_quorums_intersect (low n : Z) (A B : gset Z) :
  0 < n → Z.odd n = true →
  A ⊆ cluster_nodes low n → B ⊆ cluster_nodes low n →
  Z.of_nat (size A) = max_faulty n + 1 → Z.of_nat (size B) = max_faulty n + 1 →
  ∃ i, i ∈ A ∧ i ∈ B.
Proof.
  intros Hn Ho HA HB SA SB. destruct (decide (A ∩ B = ∅)) as [He|Hne].
  - pose proof (size_union_le A B (cluster_nodes low n) HA HB He) as H.
    pose proof (size_seqZ_set low n ltac:(lia)) as Hs. unfold cluster_nodes in H.
    pose proof (max_faulty_odd n Ho Hn). lia.
  - apply set_choose_L in Hne as [i Hi]. exists i. by apply elem_of_intersection in Hi.
Qed.

(** In a cluster of an even number of nodes they need not: the two halves
    of the cluster are both quorums and have no node in common. *)
Theorem even_quorums_disjoint (low n : Z) :
  0 < n → Z.even n = true →
  ∃ A B, A ⊆ cluster_nodes low n ∧ B ⊆ cluster_nodes low n ∧ A ∩ B = ∅ ∧
    Z.of_nat (size A) = max_faulty n + 1 ∧ Z.of_nat (size B) = max_faulty n + 1.
Proof.
  intros Hn He. pose proof (max_faulty_even n He Hn) as Hm. set (h := max_faulty n + 1) in *.
  exists (list_to_set (seqZ low h)), (list_to_set (seqZ (low + h) h)). unfold cluster_nodes.
  split_and!; [| | |by apply size_seqZ_set; lia|by apply size_seqZ_set; lia].
  - intros x. rewrite !elem_of_list_to_set, !elem_of_seqZ. lia.
  - intros x. rewrite !elem_of_list_to_set, !elem_of_seqZ. lia.
  - apply set_eq. intros x.
    rewrite elem_of_intersection, !elem_of_list_to_set, !elem_of_seqZ, elem_of_empty. lia.
Qed.

(** ** The theorems on a small deployment *)
Definition small_entry : AcceptedEntry :=
  MkAcceptedEntry (MkBallot 1 1) 1 (transfer 1 "1" "2" 4) 1 "" ClientRequest_default 0 "".

Lemma HandlePropose_at_backup_witness :
  HandlePropose small_entry (small_node 2) =
    Ok (upd ack_accepted true (FillAcceptAck 2 small_entry (MkAck (MkBallot 1 1) 0 false 0 0 "")),
        timer_reset (stored small_entry (follow (MkBallot 1 1)
          (logged (accept_line small_entry) (small_node 2))))).
Proof. exact (HandlePropose_at_backup small_entry (small_node 2) eq_refl eq_refl eq_refl). Defined.

(** A leader of three nodes that has accepted [small_entry] itself. *)
Definition small_leader : PaxosNode :=
  upd role_ LEADER (upd accept_log_ {[1 := small_entry]} (upd pending_entries_ {[1 := small_entry]}
    (upd accepted_count_ (count_insert ∅ 1 1 1) (small_node 1)))).
Definition small_ack : Ack := MkAck (MkBallot 1 1) 2 true 1 0 "".

Lemma commit_needs_quorum_witness :
  ∃ s', HandleAccept small_ack small_leader = Ok (tt, s') ∧
    Z.of_nat (size (acceptors small_leader small_ack)) = f_ small_leader + 1.
Proof.
  assert (value (HandleAccept small_ack small_leader) = Some tt) as (s' & H)%value_Ok
    by (vm_compute; reflexivity).
  exists s'. split; [done|]. apply (commit_needs_quorum small_ack small_leader s' H). left.
  assert (length ∘ outbox_ <$> final (HandleAccept small_ack small_leader) = Some 3%nat) as Hl
    by (vm_compute; reflexivity).
  rewrite H in Hl. injection Hl as Hl. intros E. rewrite E in Hl. done.
Defined.

Lemma odd_quorums_intersect_witness :
  ∃ i, i ∈ ({[1; 2]} : gset Z) ∧ i ∈ ({[2; 3]} : gset Z).
Proof.
  apply (odd_quorums_intersect 1 3 {[1; 2]} {[2; 3]} eq_refl eq_refl); [| |reflexivity..];
    apply (bool_decide_unpack _); vm_compute; exact I.
Defined.

Lemma even_quorums_disjoint_witness :
  ∃ A B, A ⊆ cluster_nodes 1 4 ∧ B ⊆ cluster_nodes 1 4 ∧ A ∩ B = ∅ ∧
    Z.of_nat (size A) = max_faulty 4 + 1 ∧ Z.of_nat (size B) = max_faulty 4 + 1.
Proof. exact (even_quorums_disjoint 1 4 eq_refl eq_refl). Defined.
