(* ===== verification/TwoPhaseProofs.v ===== *)
(** * Two-phase commit: the second phase of a cross-shard transfer

    What [ExecuteRepeatedTwoPCEntry] does to the ledger, the locks and the log,
    that an abort undoes a first phase that took effect, and what a commit
    changes in the two clusters together. *)
From S2P Require Import Prelude Text Messages Node Ledger LedgerSpec LedgerProofs Elections.
From S2P Require Import TwoPhase ElectionProofs.
#[local] Open Scope Z_scope.

(** ** The second phase on the ledger *)
Definition wal_before (l : Ledger) (q : Z) : Z :=
  before_value (default WalEntry_default (l_wal l !! q)).

Definition settle (status : string) (q from to : Z) (l : Ledger) : Ledger :=
  let erased := delete q (l_wal l) in
  if status ==s "A_COORD" then
    MkLedger (<[from := wal_before l q]> (l_accounts l)) erased (l_executed l) (l_modified l)
  else if (status ==s "C_COORD") || (status ==s "C") then
    MkLedger (l_accounts l) erased (l_executed l) (l_modified l)
  else if status ==s "A_PART_COMMIT" then
    match l_wal l !! q with
    | Some w => MkLedger (<[to := before_value w]> (l_accounts l)) erased (l_executed l) (l_modified l)
    | None => l
    end
  else l.

Definition settle_locks (status : string) (from to : Z) (locks : gset Z) : gset Z :=
  if (status ==s "A_COORD") || (status ==s "C_COORD") then locks ∖ {[from]}
  else if (status ==s "C") || (status ==s "A_PART_COMMIT") then locks ∖ {[to]}
  else locks.

(** The part of a node the second phase may change besides its log. *)
Definition books (s : PaxosNode) : Ledger * gset Z := (ledger_of s, balance_locks_ s).

Lemma SendClientReplyTwoPC_books e q b : respects (keeps books) (SendClientReplyTwoPC e q b).
Proof. unfold SendClientReplyTwoPC, cache_reply. unfold_ledger_ops. solve_keeps. Qed.
Lemma SendReplyToCoordLeader_books c r q st : respects (keeps books) (SendReplyToCoordLeader c r q st).
Proof. unfold SendReplyToCoordLeader. unfold_ledger_ops. solve_keeps. Qed.
Lemma record_outcome_books q st : respects (keeps books) (record_outcome q st).
Proof. unfold record_outcome. unfold_ledger_ops. solve_keeps. Qed.
#[export] Hint Resolve SendClientReplyTwoPC_books SendReplyToCoordLeader_books record_outcome_books
  : respects.

Lemma ExecuteRepeated_books e s f t :
  names (ce_m e) f t →
  wp any_fault (ExecuteRepeatedTwoPCEntry e) s (λ _ s', books s' =
    (settle (ce_two_pc_status e) (ce_seqnum e) f t (ledger_of s),
     settle_locks (ce_two_pc_status e) f t (balance_locks_ s))).
Proof.
  intros (Hf & Ht & Vf & Vt). unfold ExecuteRepeatedTwoPCEntry.
  apply wp_bind. eapply wp_returns; [by apply stoiM_ok|].
  apply wp_bind. eapply wp_returns; [by apply stoiM_ok|]. cbv zeta.
  wp_step. apply (wp_keeps _ books); [done|auto with respects|]. intros ? s1 E.
  unfold set_account, unlock, wal_erase. rewrite Vf, Vt.
  assert (ledger_of s = ledger_of s1 ∧ balance_locks_ s = balance_locks_ s1) as [-> ->]
    by (unfold books in E; split; congruence).
  clear E s. unfold settle, settle_locks, wal_before. cbn [l_wal l_accounts l_executed l_modified ledger_of].
  wp_steps; cbn [orb].
  all: repeat (wp_over books; wp_steps).
  all: unfold books, ledger_of in *; simp_upd; done.
Qed.

(** The log after the outcome [status] of number [q] has been recorded: the first
    outcome of an entry stays. *)
Definition with_outcome (status : string) (q : Z) (log : gmap Z AcceptedEntry) : gmap Z AcceptedEntry :=
  if is_phase2_status status then
    match log !! q with
    | Some e => if ae_phase2_result e ==s "" then <[q := upd ae_phase2_result status e]> log else log
    | None => log
    end
  else log.

Lemma ExecuteRepeated_log e s :
  wp any_fault (ExecuteRepeatedTwoPCEntry e) s (λ _ s',
    accept_log_ s' = with_outcome (ce_two_pc_status e) (ce_seqnum e) (accept_log_ s)).
Proof.
  unfold ExecuteRepeatedTwoPCEntry.
  unfold stoiM. do 2 (apply wp_bind; wp_over accept_log_). cbv zeta. apply wp_bind.
  apply wp_mono with (Q := λ _ s1,
    accept_log_ s1 = with_outcome (ce_two_pc_status e) (ce_seqnum e) (accept_log_ s)).
  - intros _ s1 E. unfold SendClientReplyTwoPC, SendReplyToCoordLeader, cache_reply. unfold_ledger_ops.
    wp_over accept_log_. congruence.
  - match goal with |- wp _ _ ?u _ => assert (accept_log_ s = accept_log_ u) as -> by congruence end.
    unfold record_outcome, with_outcome. wp_steps.
    all: by repeat match goal with H : ?b = _ |- context [if ?b then _ else _] => rewrite H end.
Qed.

(** C14: what the second phase does, for every status. [A_COORD] writes the
    logged old balance of the sender back, [A_PART_COMMIT] that of the receiver
    if its log entry is there, the commits keep the balances; each erases the
    log entry and releases exactly the account its side had locked. The outcome
    is recorded with the accepted entry of that number, if there is one and it
    has none yet; no other entry of the log changes. *)
Theorem second_phase_settles (e : CommitEntry) (s s' : PaxosNode) (f t : Z) :
  names (ce_m e) f t → ExecuteRepeatedTwoPCEntry e s = Ok (tt, s') →
  ledger_of s' = settle (ce_two_pc_status e) (ce_seqnum e) f t (ledger_of s) ∧
  balance_locks_ s' = settle_locks (ce_two_pc_status e) f t (balance_locks_ s) ∧
  accept_log_ s' = with_outcome (ce_two_pc_status e) (ce_seqnum e) (accept_log_ s).
Proof.
  intros Hn H. pose proof (wp_Ok _ _ _ _ _ _ H (ExecuteRepeated_books e s f t Hn)) as Hb.
  pose proof (wp_Ok _ _ _ _ _ _ H (ExecuteRepeated_log e s)) as Hl.
  cbn beta in Hb, Hl. unfold books in Hb. injection Hb as H1 H2. by split_and!.
Qed.

(** ** Both phases of a cross-shard transfer *)

(** The two sides of the protocol and their statuses. *)
Definition first_phase (participant : bool) : string := if participant then "P" else "COORD".
Definition aborted (participant : bool) : string :=
  if participant then "A_PART_COMMIT" else "A_COORD".
Definition committed (participant : bool) : string := if participant then "C" else "C_COORD".
Definition own_account (participant : bool) (from to : Z) : Z := if participant then to else from.

(** [r] is a transfer between the shards of two accounts. *)
Definition cross_shard (s : PaxosNode) (r : ClientRequest) (f t : Z) : Prop :=
  names r f t ∧ shard_of s f ≠ shard_of s t ∧ rq_client_id r ≠ "NO-OP"%string.

Lemma first_phase_ledger (p : bool) r q s s1 b f t :
  cross_shard s r f t → ExecuteTransaction r q (first_phase p) s = Ok (b, s1) →
  b = (rq_amount r <=? accounts_ s f) ∧
  ledger_of s1 = l_mark q
    (if b then l_effect q (if p then Credit f t (rq_amount r) else Debit f (rq_amount r)) (ledger_of s)
     else ledger_of s).
Proof.
  intros (Hn & Hx & Hno). rewrite (ExecuteTransaction_eq _ _ _ _ _ _ Hn).
  assert (command s r (first_phase p) f t =
    if p then Credit f t (rq_amount r) else Debit f (rq_amount r)) as Hc.
  { unfold command, classify. rewrite (bool_decide_eq_false_2 _ Hno).
    rewrite (proj2 (Z.eqb_neq (shard_of s t) (shard_of s f))) by congruence. by destruct p. }
  intros [= <- <-]. unfold executed_node. rewrite Hc, ledger_of_with_ledger.
  unfold ledger_apply, affordable. destruct p; simpl;
    destruct (rq_amount r <=? accounts_ s f); done.
Qed.

Lemma settle_aborted p q f t l w :
  l_wal l !! q = Some w →
  settle (aborted p) q f t l =
    MkLedger (<[own_account p f t := before_value w]> (l_accounts l)) (delete q (l_wal l))
      (l_executed l) (l_modified l).
Proof.
  intros H. unfold settle, wal_before. destruct p; simpl; rewrite H; reflexivity.
Qed.
Lemma settle_committed p q f t l :
  settle (committed p) q f t l =
    MkLedger (l_accounts l) (delete q (l_wal l)) (l_executed l) (l_modified l).
Proof. by destruct p. Qed.
Lemma settle_locks_aborted p f t k : settle_locks (aborted p) f t k = k ∖ {[own_account p f t]}.
Proof. by destruct p. Qed.

(** The first phase of either side, when it takes effect. *)
Lemma first_effect (p : bool) q f t a l :
  l_mark q (l_effect q (if p then Credit f t a else Debit f a) l) =
    let i : Z := own_account p f t in
    let v : Z := l_accounts l i + (if p then a else - a) in
    MkLedger (<[i := v]> (l_accounts l)) (<[q := MkWalEntry (l_accounts l i) v]> (l_wal l))
      ({[q]} ∪ l_executed l) ({[i]} ∪ l_modified l).
Proof. by destruct p. Qed.

(** C13: an abort undoes a first phase that took effect, on either side. After a
    cross-shard entry has executed in its first phase with result [true], from a
    write-ahead log without its number, and its abort has been applied, every
    balance is what it was, the write-ahead log is what it was, and the account
    that was locked is free. A first phase that was refused wrote no log entry,
    and its abort is not covered: see [repeated_abort_zeroes]. *)
Theorem abort_undoes_first_phase (p : bool) (r : ClientRequest) (e : CommitEntry) (q f t : Z)
    (s s1 s2 : PaxosNode) :
  cross_shard s r f t → wal_ s !! q = None →
  ExecuteTransaction r q (first_phase p) s = Ok (true, s1) →
  ce_m e = r → ce_seqnum e = q → ce_two_pc_status e = aborted p →
  ExecuteRepeatedTwoPCEntry e s1 = Ok (tt, s2) →
  (∀ i, accounts_ s2 i = accounts_ s i) ∧ wal_ s2 = wal_ s ∧
  (own_account p f t ∉ balance_locks_ s2) ∧ q ∈ executed_entries_ s2.
Proof.
  intros Hx Hw H1 Hm Hq Hst H2. destruct (Hx) as (Hn & _ & _).
  destruct (first_phase_ledger p r q s s1 true f t Hx H1) as [_ Hl].
  rewrite <-Hm in Hn. pose proof (wp_Ok _ _ _ _ _ _ H2 (ExecuteRepeated_books e s1 f t Hn)) as Hb.
  cbn beta in Hb. rewrite Hst, Hq, Hl, first_effect in Hb. cbv zeta in Hb.
  erewrite settle_aborted in Hb by (apply lookup_insert_eq).
  rewrite settle_locks_aborted in Hb. unfold books, ledger_of in Hb. simpl in Hb.
  injection Hb as Ha Hw2 He _ Hlk. rewrite Ha, Hw2, He, Hlk.
  rewrite delete_insert_eq, (delete_id (wal_ s)) by done.
  split_and!; [|done|set_solver|set_solver].
  intros i. destruct (decide (own_account p f t = i)) as [<-|Hi];
    rewrite ?fn_lookup_insert, ?fn_lookup_insert_ne by done; done.
Qed.

(** C12: what a committed transfer does to the total. Running the first phase
    and its commit at the coordinator [s] and at the participant [u] changes the
    sum of the two ledgers by the amount credited less the amount debited: it is
    conserved when both executions took effect or both refused, and otherwise
    moves by the amount: the commit does not depend on either. *)
Theorem commit_changes_total (r : ClientRequest) (ec ep : CommitEntry) (qc qp f t : Z)
    (s s1 s2 u u1 u2 : PaxosNode) (debited credited : bool) :
  cross_shard s r f t → cross_shard u r f t →
  ExecuteTransaction r qc (first_phase false) s = Ok (debited, s1) →
  ExecuteTransaction r qp (first_phase true) u = Ok (credited, u1) →
  ce_m ec = r → ce_two_pc_status ec = committed false → ExecuteRepeatedTwoPCEntry ec s1 = Ok (tt, s2) →
  ce_m ep = r → ce_two_pc_status ep = committed true → ExecuteRepeatedTwoPCEntry ep u1 = Ok (tt, u2) →
  total (accounts_ s2) + total (accounts_ u2) =
    total (accounts_ s) + total (accounts_ u)
      + (if credited then rq_amount r else 0) - (if debited then rq_amount r else 0).
Proof.
  intros Hxs Hxu H1 H2 Mc Sc H3 Mp Sp H4. destruct (Hxs) as (Hn & _ & _).
  assert (valid_index f = true ∧ valid_index t = true) as [Vf Vt] by (by destruct Hn as (_ & _ & ? & ?)).
  destruct (first_phase_ledger false _ _ _ _ _ _ _ Hxs H1) as [_ Hl1].
  destruct (first_phase_ledger true _ _ _ _ _ _ _ Hxu H2) as [_ Hl2].
  assert (accounts_ s2 = accounts_ s1) as ->.
  { assert (names (ce_m ec) f t) as Hn' by (by rewrite Mc).
    pose proof (wp_Ok _ _ _ _ _ _ H3 (ExecuteRepeated_books ec s1 f t Hn')) as Hb.
    cbn beta in Hb. rewrite Sc, settle_committed in Hb. by injection Hb. }
  assert (accounts_ u2 = accounts_ u1) as ->.
  { assert (names (ce_m ep) f t) as Hn' by (by rewrite Mp).
    pose proof (wp_Ok _ _ _ _ _ _ H4 (ExecuteRepeated_books ep u1 f t Hn')) as Hb.
    cbn beta in Hb. rewrite Sp, settle_committed in Hb. by injection Hb. }
  apply (f_equal l_accounts) in Hl1, Hl2. simpl in Hl1, Hl2. rewrite Hl1, Hl2.
  change (accounts_ s) with (l_accounts (ledger_of s)). change (accounts_ u) with (l_accounts (ledger_of u)).
  destruct debited, credited; simpl; rewrite ?total_insert by done; lia.
Qed.

(** An abort applied twice is not idempotent. When the write-ahead log has
    no entry for the sequence number, as after a first abort, [A_COORD] writes
    zero to the sender's account. *)
Theorem repeated_abort_zeroes (e : CommitEntry) (s s' : PaxosNode) (f t : Z) :
  names (ce_m e) f t → ce_two_pc_status e = "A_COORD"%string → wal_ s !! ce_seqnum e = None →
  ExecuteRepeatedTwoPCEntry e s = Ok (tt, s') → accounts_ s' f = 0.
Proof.
  intros Hn Hst Hw H. pose proof (wp_Ok _ _ _ _ _ _ H (ExecuteRepeated_books e s f t Hn)) as Hb.
  cbn beta in Hb. rewrite Hst in Hb. unfold books, ledger_of, settle, wal_before in Hb. simpl in Hb.
  injection Hb as Ha _ _ _. rewrite Ha, Hw. simpl. by rewrite fn_lookup_insert.
Qed.

(** ** Starting the second phase *)
Definition second_phase_entry (msg : TwoPCMsg) (s : PaxosNode) (r : Z) : AcceptedEntry :=
  let old := default AcceptedEntry_default
    (accept_log_ s !! default 0 (digest_to_seqnum_ s !! rq_timestamp (tp_m msg))) in
  MkAcceptedEntry (ae_ballot old) (ae_seqnum old) (tp_m msg) (node_id_ s)
    (phase2_status (tp_type msg ==s "ABORT") (shard_of s r =? cluster_id_ s)) (tp_m msg) 0 "".

(** C20: the second phase proposes the outcome the message names. The leader of
    the coordinating cluster forwards [ABORT] for an [ABORT] message and
    [COMMIT] for any other to the leader of the receiver's cluster, the leader
    of the participating cluster forwards nothing; both then propose the
    outcome entry, at the sequence number and ballot of the first phase, to
    exactly the other nodes of their cluster, record it in their log, and
    leave balances and locks alone. *)
Theorem StartSecondPhase_proposes (msg : TwoPCMsg) (s s' : PaxosNode) (r : Z) :
  stoi (rq_to_account (tp_m msg)) = inr r → StartSecondPhase msg s = Ok (tt, s') →
  let entry := second_phase_entry msg s r in
  let part := leader_of_cluster s (shard_of s r) in
  let order := upd tp_type (if tp_type msg ==s "ABORT" then "ABORT" else "COMMIT")%string msg in
  accept_log_ s' !! ae_seqnum entry = Some entry ∧
  outbox_ s' = outbox_ s
    ++ (if shard_of s r =? cluster_id_ s then [] else [SendTwoPCMsgTo part order])
    ++ ((λ p, SendAcceptTo p entry) <$> cluster_peers s) ∧
  books s' = books s.
Proof.
  intros Hr H entry part order.
  refine (wp_Ok any_fault _ s tt s' (λ _ s', _) H _). clear H s'. unfold StartSecondPhase.
  apply wp_bind. eapply wp_returns; [by apply stoiM_ok|].
  unfold at_prepares, at_transactions, send_to, emit, digest_at, count_phase2.
  wp_steps; try done.
  all: match goal with |- wp _ (to_cluster ?mk) ?t _ =>
         eapply wp_returns; [apply (to_cluster_eq mk t)|] end.
  all: match goal with H : subscript 0 _ _ = (?q, _) |- _ =>
         pose proof (f_equal fst H) as Hq; rewrite subscript_fst in Hq; simpl in Hq end.
  all: subst entry part order; unfold second_phase_entry, sent, books, ledger_of in *; simp_upd.
  all: rewrite Hq; split_and!; [apply lookup_insert_eq | | done].
  all: match goal with
       | H : negb _ = true |- _ => apply negb_true_iff in H; rewrite H
       | H : negb _ = false |- _ => apply negb_false_iff in H; rewrite H
       end; by rewrite <-?app_assoc.
Qed.

(** ** The theorems on a small deployment *)

(** A coordinator that has logged a transfer its sender cannot pay, and the
    answer of the participant. *)
Definition underfunded : ClientRequest := transfer 7 "1" "3" 50.
Definition underfunded_coordinator : PaxosNode :=
  upd role_ LEADER
    (upd digest_to_seqnum_ {[7 := 1]}
      (upd accept_log_
        {[1 := MkAcceptedEntry (MkBallot 1 1) 1 underfunded 1 "COORD" underfunded 0 ""]}
        (small_node 1))).
Definition prepared : TwoPCMsg := MkTwoPCMsg "PREPARED" "1" "3" 50 underfunded.

Definition small_transfer : ClientRequest := transfer 1 "1" "3" 4.
Definition outcome_entry (q : Z) (st : string) : CommitEntry :=
  MkCommitEntry Ballot_default q small_transfer st small_transfer "".

Lemma small_names : names small_transfer 1 3.
Proof. split_and!; reflexivity. Qed.
Lemma small_cross id : cross_shard (small_node id) small_transfer 1 3.
Proof. split; [exact small_names|]. split; done. Qed.

Lemma small_two_phases id q st1 st2 b :
  value ((b ← ExecuteTransaction small_transfer q st1;
          ExecuteRepeatedTwoPCEntry (outcome_entry q st2) ;; mret b) (small_node id)) = Some b →
  ∃ s1 s2, ExecuteTransaction small_transfer q st1 (small_node id) = Ok (b, s1) ∧
    ExecuteRepeatedTwoPCEntry (outcome_entry q st2) s1 = Ok (tt, s2).
Proof.
  intros (s & (b' & s1 & H1 & ([] & s2 & H2 & [= <- <-])%bind_Ok_inv)%bind_Ok_inv)%value_Ok. eauto.
Qed.

Definition small_participant : PaxosNode :=
  upd accept_log_
    {[1 := MkAcceptedEntry (MkBallot 1 4) 1 small_transfer 4 "P" small_transfer 0 ""]} (small_node 4).

Lemma second_phase_settles_witness :
  ∃ s', ExecuteRepeatedTwoPCEntry (outcome_entry 1 "C") small_participant = Ok (tt, s') ∧
    ledger_of s' = settle "C" 1 1 3 (ledger_of small_participant) ∧
    accept_log_ s' !! 1 =
      Some (MkAcceptedEntry (MkBallot 1 4) 1 small_transfer 4 "P" small_transfer 0 "C").
Proof.
  assert (value (ExecuteRepeatedTwoPCEntry (outcome_entry 1 "C") small_participant) = Some tt)
    as (s' & H)%value_Ok by (vm_compute; reflexivity).
  exists s'. split; [done|].
  destruct (second_phase_settles (outcome_entry 1 "C") small_participant s' 1 3 small_names H) as (H1 & _ & H2).
  split; [exact H1|]. rewrite H2. vm_compute. reflexivity.
Defined.

Lemma abort_undoes_first_phase_witness :
  ∃ s2, ∀ i, accounts_ s2 i = accounts_ (small_node 1) i.
Proof.
  destruct (small_two_phases 1 1 "COORD" "A_COORD" true) as (s1 & s2 & H1 & H2);
    [vm_compute; reflexivity|].
  exists s2. exact (proj1 (abort_undoes_first_phase false small_transfer (outcome_entry 1 "A_COORD")
    1 1 3 (small_node 1) s1 s2 (small_cross 1) eq_refl H1 eq_refl eq_refl eq_refl H2)).
Defined.

Lemma commit_changes_total_witness :
  ∃ s2 u2, total (accounts_ s2) + total (accounts_ u2) =
    total (accounts_ (small_node 1)) + total (accounts_ (small_node 4)) + 4 - 4.
Proof.
  destruct (small_two_phases 1 1 "COORD" "C_COORD" true) as (s1 & s2 & H1 & H2);
    [vm_compute; reflexivity|].
  destruct (small_two_phases 4 6 "P" "C" true) as (u1 & u2 & H3 & H4); [vm_compute; reflexivity|].
  exists s2, u2. exact (commit_changes_total small_transfer (outcome_entry 1 "C_COORD")
    (outcome_entry 6 "C") 1 6 1 3 (small_node 1) s1 s2 (small_node 4) u1 u2 true true
    (small_cross 1) (small_cross 4) H1 H3 eq_refl eq_refl H2 eq_refl eq_refl H4).
Defined.

Lemma repeated_abort_zeroes_witness :
  ∃ s', ExecuteRepeatedTwoPCEntry (outcome_entry 1 "A_COORD") (small_node 1) = Ok (tt, s') ∧
    accounts_ (small_node 1) 1 = 10 ∧ accounts_ s' 1 = 0.
Proof.
  assert (value (ExecuteRepeatedTwoPCEntry (outcome_entry 1 "A_COORD") (small_node 1)) = Some tt)
    as (s' & H)%value_Ok by (vm_compute; reflexivity).
  exists s'. split_and!; [done|done|].
  exact (repeated_abort_zeroes (outcome_entry 1 "A_COORD") (small_node 1) s' 1 3 small_names
           eq_refl eq_refl H).
Defined.

Lemma StartSecondPhase_proposes_witness :
  ∃ s', StartSecondPhase prepared underfunded_coordinator = Ok (tt, s') ∧
    accept_log_ s' !! 1 = Some (second_phase_entry prepared underfunded_coordinator 3).
Proof.
  assert (value (StartSecondPhase prepared underfunded_coordinator) = Some tt)
    as (s' & H)%value_Ok by (vm_compute; reflexivity).
  exists s'. split; [done|].
  exact (proj1 (StartSecondPhase_proposes prepared underfunded_coordinator s' 3 eq_refl H)).
Defined.
