(* ===== verification/ExecutionProofs.v ===== *)
(** * In-order execution

    [SequentiallyExecuteCommittedEntries]: its fuel is always enough, it stops
    at the first gap, at a backup it executes exactly the contiguous run of
    committed entries through [ExecuteTransaction], each followed by the second
    phase its log entry carries ([replay]), and backups that receive the same
    first-phase commits in different orders end with the same ledger. The phases
    of one transaction do not commute. *)
From S2P Require Import Prelude Text Messages Node Ledger LedgerSpec LedgerProofs Elections.
From S2P Require Import TwoPhase Replication ElectionProofs ReplicationProofs TwoPhaseProofs.
#[local] Open Scope Z_scope.

(** ** What the loop is driven by *)
Definition progress (s : PaxosNode) : gmap Z CommitEntry * Z :=
  (entries_to_commit_ s, last_executed_seq_ s).

Lemma ExecuteTransaction_progress r q st : respects (keeps progress) (ExecuteTransaction r q st).
Proof. unfold ExecuteTransaction. unfold_ledger_ops. solve_keeps. Qed.
Lemma ExecuteRepeated_progress e : respects (keeps progress) (ExecuteRepeatedTwoPCEntry e).
Proof.
  unfold ExecuteRepeatedTwoPCEntry, record_outcome, SendClientReplyTwoPC, SendReplyToCoordLeader,
    cache_reply. unfold_ledger_ops. solve_keeps.
Qed.
Lemma StartSecondPhase_progress m : respects (keeps progress) (StartSecondPhase m).
Proof.
  unfold StartSecondPhase, at_prepares, at_transactions, count_phase2. unfold_ledger_ops. solve_keeps.
Qed.
#[export] Hint Resolve ExecuteTransaction_progress ExecuteRepeated_progress StartSecondPhase_progress
  : respects.
Lemma answer_executed_progress e st b : respects (keeps progress) (answer_executed e st b).
Proof.
  unfold answer_executed, take_call, take_queued, SendClientReply, SendReplyToCoordLeader, cache_reply.
  unfold_ledger_ops. solve_keeps.
Qed.
#[export] Hint Resolve answer_executed_progress : respects.

(** One turn: nothing at a gap, otherwise one sequence number further. *)
Lemma execute_next_progress s b s' :
  execute_next s = Ok (b, s') →
  if b then is_Some (entries_to_commit_ s !! (last_executed_seq_ s + 1)) ∧
            progress s' = (entries_to_commit_ s, last_executed_seq_ s + 1)
  else entries_to_commit_ s !! (last_executed_seq_ s + 1) = None ∧ s' = s.
Proof.
  intros H. refine (wp_Ok any_fault execute_next s b s' (λ b s', if b : bool then _ else _) H _).
  unfold execute_next. wp_steps; [|done].
  all: repeat (wp_over progress; wp_steps).
  all: unfold progress in *; simp_upd; split; [done|]; congruence.
Qed.

(** ** Termination *)

(** The committed sequence numbers still ahead. *)
Definition ahead (m : gmap Z CommitEntry) (last : Z) : gset Z := filter (λ k, last < k) (dom m).

Lemma ahead_step m last :
  is_Some (m !! (last + 1)) → size (ahead m last) = S (size (ahead m (last + 1))).
Proof.
  intros Hs. unfold ahead.
  assert (filter (λ k, last < k) (dom m) = {[last + 1]} ∪ filter (λ k, last + 1 < k) (dom m)) as ->.
  { apply set_eq. intros x. rewrite elem_of_union, elem_of_singleton, !elem_of_filter.
    split; [intros [H1 H2] | intros [->|[H1 H2]]].
    - destruct (decide (x = last + 1)); [by left|right; split; [lia|done]].
    - split; [lia|]. by apply elem_of_dom.
    - split; [lia|done]. }
  rewrite size_union, size_singleton; [done|].
  intros x ->%elem_of_singleton [H _]%elem_of_filter. lia.
Qed.

Lemma ahead_le m last : (size (ahead m last) ≤ size m)%nat.
Proof. rewrite <-size_dom. apply subseteq_size. intros x [_ H]%elem_of_filter. done. Qed.

Definition stops_at_gap (s s' : PaxosNode) : Prop :=
  entries_to_commit_ s' = entries_to_commit_ s ∧
  last_executed_seq_ s ≤ last_executed_seq_ s' ∧
  (∀ k, last_executed_seq_ s < k ≤ last_executed_seq_ s' → is_Some (entries_to_commit_ s !! k)) ∧
  entries_to_commit_ s !! (last_executed_seq_ s' + 1) = None.

Lemma execute_loop_enough n s b s' :
  (size (ahead (entries_to_commit_ s) (last_executed_seq_ s)) < n)%nat →
  execute_loop n s = Ok (b, s') → b = true ∧ stops_at_gap s s'.
Proof.
  revert s. induction n as [|n IH]; intros s Hn H; [lia|]. simpl in H.
  apply bind_Ok_inv in H as (more & s1 & H1 & H2). apply execute_next_progress in H1.
  destruct more.
  - destruct H1 as [Hs Hp]. injection Hp as Hm Hl.
    pose proof (ahead_step _ _ Hs) as Ha.
    destruct (IH s1) as (-> & E1 & E2 & E3 & E4); [rewrite Hm, Hl; lia | done |].
    rewrite Hm, Hl in *. split; [done|]. split_and!; [done | lia | | done].
    intros k Hk. destruct (decide (k = last_executed_seq_ s + 1)) as [->|]; [done|].
    apply E3. lia.
  - destruct H1 as [Hnone ->]. injection H2 as <- <-. split; [done|].
    split_and!; [done | lia | intros k Hk; lia | done].
Qed.

(** C16: the execution loop terminates by itself: with the fuel it is given,
    one more than the number of buffered entries, it never runs out. *)
Theorem execution_fuel_suffices (s : PaxosNode) (b : bool) (s' : PaxosNode) :
  execute_loop (S (size (entries_to_commit_ s))) s = Ok (b, s') → b = true.
Proof.
  intros H. apply execute_loop_enough in H as [H _]; [done|].
  pose proof (ahead_le (entries_to_commit_ s) (last_executed_seq_ s)). lia.
Qed.

Lemma Sequentially_loop s s' :
  SequentiallyExecuteCommittedEntries s = Ok (tt, s') →
  ∃ b, execute_loop (S (size (entries_to_commit_ s))) s = Ok (b, s').
Proof.
  unfold SequentiallyExecuteCommittedEntries. run_goal.
  destruct (execute_loop _ s) as [[b s1]|]; [|done]. intros [= <-]. eauto.
Qed.

(** Execution is in order and without gaps: it advances through
    consecutive committed sequence numbers and stops exactly at the first one
    that is not committed. *)
Theorem execution_stops_at_gap (s s' : PaxosNode) :
  SequentiallyExecuteCommittedEntries s = Ok (tt, s') →
  entries_to_commit_ s' = entries_to_commit_ s ∧
  last_executed_seq_ s ≤ last_executed_seq_ s' ∧
  (∀ k, last_executed_seq_ s < k ≤ last_executed_seq_ s' → is_Some (entries_to_commit_ s !! k)) ∧
  entries_to_commit_ s !! (last_executed_seq_ s' + 1) = None.
Proof.
  intros [b H]%Sequentially_loop. apply execute_loop_enough in H as [_ H]; [exact H|].
  pose proof (ahead_le (entries_to_commit_ s) (last_executed_seq_ s)). lia.
Qed.

(** ** A backup executes the run *)

(** The contiguous run of committed entries after [last]. *)
Definition run_entry (c : CommitEntry) : Entry :=
  MkEntry (ce_request c) (ce_seqnum c) (ce_two_pc_status c).
Fixpoint run_from (n : nat) (m : gmap Z CommitEntry) (last : Z) : list Entry :=
  match n with
  | O => []
  | S n =>
      match m !! (last + 1) with
      | Some c => run_entry c :: run_from n m (last + 1)
      | None => []
      end
  end.

Lemma run_from_enough n n' m last :
  (size (ahead m last) ≤ n)%nat → (size (ahead m last) ≤ n')%nat → run_from n m last = run_from n' m last.
Proof.
  revert n' last. induction n as [|n IH]; intros n' last Hn Hn'.
  - destruct n' as [|n']; [done|]. simpl. destruct (m !! (last + 1)) eqn:E; [|done].
    rewrite ahead_step in Hn by eauto. lia.
  - destruct (m !! (last + 1)) eqn:E.
    + rewrite ahead_step in Hn, Hn' by eauto. destruct n' as [|n']; [lia|].
      simpl. rewrite E. f_equal. apply IH; lia.
    + destruct n'; simpl; by rewrite E.
Qed.

Definition committed_run (m : gmap Z CommitEntry) (last : Z) : list Entry := run_from (size m) m last.

Lemma committed_run_gap m last : m !! (last + 1) = None → committed_run m last = [].
Proof. intros H. unfold committed_run. destruct (size m); simpl; [done|]. by rewrite H. Qed.

Lemma committed_run_step m last c :
  m !! (last + 1) = Some c →
  committed_run m last = run_entry c :: committed_run m (last + 1).
Proof.
  intros H. unfold committed_run. pose proof (ahead_le m last).
  rewrite (run_from_enough (size m) (S (size m))) by lia. simpl. by rewrite H.
Qed.

(** *** The reference execution

    The outcome recorded for a number, and the run of entries executed with
    [ExecuteTransaction], each settled at once with the outcome [o] gives for
    its number if that is one of the second phase. *)
Definition outcome_in (log : gmap Z AcceptedEntry) (q : Z) : string :=
  match log !! q with Some e => ae_phase2_result e | None => "" end.

Definition settle_executed (p2 : string) (e : Entry) : NodeM unit :=
  when (is_phase2_status p2)
    (ExecuteRepeatedTwoPCEntry
       (MkCommitEntry Ballot_default (en_seq e) ClientRequest_default p2 (en_request e) "")).

Definition replay_entry (o : Z → string) (e : Entry) : NodeM bool :=
  b ← ExecuteTransaction (en_request e) (en_seq e) (en_status e);
  settle_executed (o (en_seq e)) e ;;
  mret b.

Fixpoint replay (o : Z → string) (l : list Entry) : NodeM (list bool) :=
  match l with
  | [] => mret []
  | e :: l =>
      b ← replay_entry o e;
      bs ← replay o l;
      mret (b :: bs)
  end.

(** Without outcomes it is the execution of the first phase alone. *)
Definition undecided (o : Z → string) : Prop := ∀ q, is_phase2_status (o q) = false.
Definition no_outcomes (s : PaxosNode) : Prop :=
  ∀ q e, accept_log_ s !! q = Some e → is_phase2_status (ae_phase2_result e) = false.

Lemma no_outcomes_undecided s : no_outcomes s → undecided (outcome_in (accept_log_ s)).
Proof. intros H q. unfold outcome_in. destruct (accept_log_ s !! q) eqn:E; [by eapply H|done]. Qed.

Lemma replay_undecided o l s : undecided o → replay o l s = execute_all l s.
Proof.
  intros Ho. revert s. induction l as [|e l IH]; intros s; [done|].
  cbn [replay execute_all]. unfold replay_entry, settle_executed. rewrite Ho. unfold mbind, M_bind.
  destruct (ExecuteTransaction _ _ _ s) as [[b s1]|]; [|done]. cbn. by rewrite IH.
Qed.

(** *** Computations that do the same at nodes that do not lead *)
Definition aligned (s1 s2 : PaxosNode) : Prop :=
  replicas_agree s1 s2 ∧ role_ s1 ≠ LEADER ∧ role_ s2 ≠ LEADER.

Definition alike {A} (m : NodeM A) : Prop := ∀ s1 s2, aligned s1 s2 →
  match m s1, m s2 with
  | Ok (a1, t1), Ok (a2, t2) => a1 = a2 ∧ aligned t1 t2
  | Fault f1, Fault f2 => f1 = f2
  | _, _ => False
  end.

Lemma alike_ret {A} (a : A) : alike (mret a).
Proof. by intros s1 s2. Qed.
Lemma alike_raise {A} f : alike (raise (A:=A) f).
Proof. by intros s1 s2. Qed.
Lemma alike_bind {A B} (m : NodeM A) (k : A → NodeM B) :
  alike m → (∀ a, alike (k a)) → alike (m ≫= k).
Proof.
  intros Hm Hk s1 s2 H. specialize (Hm s1 s2 H). unfold mbind, M_bind.
  destruct (m s1) as [[a1 t1]|], (m s2) as [[a2 t2]|]; try done. destruct Hm as [-> Ht]. by apply Hk.
Qed.
Lemma alike_modify g : (∀ s1 s2, aligned s1 s2 → aligned (g s1) (g s2)) → alike (modify g).
Proof. intros H s1 s2 Hs. split; [done|]. by apply H. Qed.
Lemma alike_gets {A} (g : PaxosNode → A) :
  (∀ s1 s2, aligned s1 s2 → g s1 = g s2) → alike (gets g).
Proof. intros H s1 s2 Hs. split; [by apply H|done]. Qed.
Lemma alike_leader (m : NodeM unit) : alike (role ← gets role_; when (role ==s LEADER) m).
Proof.
  intros s1 s2 (H & R1 & R2). run_goal.
  by rewrite (bool_decide_eq_false_2 _ R1), (bool_decide_eq_false_2 _ R2).
Qed.

Ltac aligned_leaf := intros ? ? ([[= ? ? ? ?] ?] & ? & ?); unfold shard_of; simp_upd;
  first [congruence | unfold aligned, replicas_agree, ledger_of; simp_upd; split_and!; congruence].
Ltac solve_alike :=
  repeat first
    [ progress intros
    | apply alike_ret | apply alike_raise | apply alike_leader
    | apply alike_bind
    | apply alike_modify; aligned_leaf
    | apply alike_gets; aligned_leaf
    | match goal with |- alike (match ?x with _ => _ end) => destruct x end ].

Lemma ExecuteTransaction_alike r q st : alike (ExecuteTransaction r q st).
Proof.
  unfold ExecuteTransaction, mark_executed, mark_modified, wal_write, account_at, set_account,
    unlock, stoiM, when, skip. solve_alike.
Qed.

Lemma record_outcome_agree q st s :
  ∃ s', record_outcome q st s = Ok (tt, s') ∧ replicas_agree s s' ∧ role_ s' = role_ s.
Proof.
  apply wp_total. unfold record_outcome. wp_steps.
  all: split; [|done]; unfold replicas_agree, ledger_of; by simp_upd.
Qed.
Lemma record_outcome_alike q st : alike (record_outcome q st).
Proof.
  intros s1 s2 (H & R1 & R2).
  destruct (record_outcome_agree q st s1) as (t1 & -> & A1 & E1).
  destruct (record_outcome_agree q st s2) as (t2 & -> & A2 & E2).
  split; [done|]. rewrite <-E1 in R1. rewrite <-E2 in R2. split; [|done]. by rewrite <-A1, <-A2.
Qed.

Lemma ExecuteRepeated_alike e : alike (ExecuteRepeatedTwoPCEntry e).
Proof.
  unfold ExecuteRepeatedTwoPCEntry, set_account, unlock, wal_erase, stoiM, skip.
  repeat first [apply record_outcome_alike | progress solve_alike].
Qed.

(** *** One turn, and the loop *)
Lemma ExecuteTransaction_frame r q st :
  respects (keeps (λ s, (progress s, accept_log_ s, role_ s, alive_ s))) (ExecuteTransaction r q st).
Proof. unfold ExecuteTransaction. unfold_ledger_ops. solve_keeps. Qed.

Lemma settle_executed_frame p2 e :
  respects (keeps (λ s, (progress s, role_ s, alive_ s))) (settle_executed p2 e).
Proof.
  unfold settle_executed, ExecuteRepeatedTwoPCEntry, record_outcome, SendClientReplyTwoPC,
    SendReplyToCoordLeader, cache_reply. unfold_ledger_ops. solve_keeps.
Qed.

(** An outcome that is there is not recorded again. *)
Lemma settle_executed_log e s s' :
  settle_executed (outcome_in (accept_log_ s) (en_seq e)) e s = Ok (tt, s') →
  accept_log_ s' = accept_log_ s.
Proof.
  unfold settle_executed. destruct (is_phase2_status _) eqn:Hp; [|by intros [= <-]]. cbn [when]. intros H.
  pose proof (wp_Ok _ _ _ _ _ _ H (ExecuteRepeated_log _ s)) as ->. unfold with_outcome. simpl.
  rewrite Hp. unfold outcome_in in *. destruct (accept_log_ s !! en_seq e) as [x|]; [|done].
  rewrite bool_decide_eq_false_2; [done|]. by intros E; rewrite E in Hp.
Qed.

Lemma settle_executed_agree p2 e t s :
  replicas_agree t s → role_ t ≠ LEADER ∨ is_phase2_status p2 = false → role_ s ≠ LEADER →
  same_outcome (settle_executed p2 e t) (settle_executed p2 e s).
Proof.
  intros Hag Ht Hs. unfold settle_executed. destruct (is_phase2_status p2); cbn [when]; [|by split].
  destruct Ht as [Ht|]; [|done].
  pose proof (ExecuteRepeated_alike (MkCommitEntry Ballot_default (en_seq e) ClientRequest_default p2
    (en_request e) "") t s ltac:(done)) as H.
  unfold same_outcome. destruct (ExecuteRepeatedTwoPCEntry _ t) as [[]|], (ExecuteRepeatedTwoPCEntry _ s) as [[]|];
    try done. by destruct H as (-> & H & _).
Qed.

(** One turn at a backup is one [ExecuteTransaction] and its outcome. *)
Lemma execute_next_backup s c :
  role_ s = BACKUP → entries_to_commit_ s !! (last_executed_seq_ s + 1) = Some c →
  execute_next s =
    (ExecuteTransaction (ce_request c) (ce_seqnum c) (ce_two_pc_status c) ;;
     settle_executed (outcome_in (accept_log_ s) (ce_seqnum c)) (run_entry c) ;;
     pending_entries_ ::~ delete (ce_seqnum c) ;; mret true)
      (upd last_executed_seq_ (last_executed_seq_ s + 1) s).
Proof.
  intros Hr Hc. unfold execute_next. run_goal. rewrite Hc. run_goal.
  set (s1 := upd last_executed_seq_ _ s).
  destruct (ExecuteTransaction _ _ _ s1) as [[b s2]|] eqn:E; [|done].
  apply ExecuteTransaction_frame in E. unfold keeps in E. injection E as _ _ Hlog Hrole _.
  unfold s1 in *. simp_upd. rewrite <-Hlog.
  change (match accept_log_ s2 !! ce_seqnum c with Some e => ae_phase2_result e | None => ""%string end)
    with (outcome_in (accept_log_ s2) (ce_seqnum c)).
  change (if is_phase2_status (outcome_in (accept_log_ s2) (ce_seqnum c)) then _ else _)
    with (settle_executed (outcome_in (accept_log_ s2) (ce_seqnum c)) (run_entry c)).
  destruct (settle_executed _ _ s2) as [[[] s3]|] eqn:E; [|done].
  apply settle_executed_frame in E. unfold keeps in E. injection E as _ _ Hr3 _.
  rewrite Hr3, Hrole, Hr. by role_tests.
Qed.

(** A turn at the backup [s] against the same entry replayed at [t]. *)
Definition turn_outcome (s t : PaxosNode) (r x : res (bool * PaxosNode)) : Prop :=
  match r, x with
  | Ok (_, t'), Ok (more, s') =>
      more = true ∧ replicas_agree t' s' ∧ role_ t' = role_ t ∧
      progress s' = (entries_to_commit_ s, last_executed_seq_ s + 1) ∧
      role_ s' = role_ s ∧ alive_ s' = alive_ s ∧ accept_log_ s' = accept_log_ s
  | Fault f, Fault g => f = g
  | _, _ => False
  end.

Lemma execute_next_replays s t c :
  let o := outcome_in (accept_log_ s) in
  role_ s = BACKUP → role_ t ≠ LEADER ∨ undecided o → replicas_agree t s →
  entries_to_commit_ s !! (last_executed_seq_ s + 1) = Some c →
  turn_outcome s t (replay_entry o (run_entry c) t) (execute_next s).
Proof.
  intros o Hr Ho Hag Hc. rewrite (execute_next_backup s c Hr Hc). fold o.
  pose proof (ExecuteTransaction_same_outcome (ce_request c) (ce_seqnum c) (ce_two_pc_status c) t
    (upd last_executed_seq_ (last_executed_seq_ s + 1) s) ltac:(by destruct Hag)) as Hs.
  unfold replay_entry, mbind, M_bind. cbn [run_entry en_seq en_request en_status].
  destruct (ExecuteTransaction _ _ _ t) as [[b t1]|f] eqn:Et,
    (ExecuteTransaction _ _ _ (upd _ _ s)) as [[b' s1]|f'] eqn:E; try done.
  destruct Hs as [-> Hag1].
  apply ExecuteTransaction_frame in E, Et. unfold keeps, progress in E, Et. simp_upd.
  injection E as Hm Hl Hlog Hrole Halive. injection Et as _ _ _ Hrt _.
  pose proof (settle_executed_agree (o (ce_seqnum c)) (run_entry c) t1 s1 Hag1) as Hs.
  pose proof (settle_executed_log (run_entry c) s1) as Hkeep. rewrite Hlog in Hkeep. fold o in Hkeep.
  change (en_seq (run_entry c)) with (ce_seqnum c) in Hkeep. unfold same_outcome in Hs.
  destruct (settle_executed _ _ t1) as [[[] t2]|] eqn:Et2, (settle_executed _ _ s1) as [[[] s2]|] eqn:E2.
  all: specialize (Hs ltac:(rewrite Hrt; destruct Ho; auto) ltac:(congruence)); try done.
  specialize (Hkeep s2 eq_refl).
  apply settle_executed_frame in E2 as F2, Et2. unfold keeps, progress in F2, Et2.
  injection F2 as ? ? ? ?. injection Et2 as _ _ ? _. destruct Hs as [_ Hag2].
  simpl. unfold progress. simp_upd. split_and!; congruence.
Qed.

Definition run_outcome (s : PaxosNode) (r : res (list bool * PaxosNode)) (x : res (bool * PaxosNode)) :
    Prop :=
  match r, x with
  | Ok (bs, t), Ok (b, s') =>
      b = true ∧ replicas_agree t s' ∧
      progress s' = (entries_to_commit_ s, last_executed_seq_ s + Z.of_nat (length bs)) ∧
      role_ s' = role_ s ∧ alive_ s' = alive_ s ∧ accept_log_ s' = accept_log_ s
  | Fault f, Fault g => f = g
  | _, _ => False
  end.

Lemma execute_loop_replays n s t :
  role_ s = BACKUP → role_ t ≠ LEADER ∨ undecided (outcome_in (accept_log_ s)) → replicas_agree t s →
  (size (ahead (entries_to_commit_ s) (last_executed_seq_ s)) < n)%nat →
  run_outcome s
    (replay (outcome_in (accept_log_ s)) (committed_run (entries_to_commit_ s) (last_executed_seq_ s)) t)
    (execute_loop n s).
Proof.
  revert s t. induction n as [|n IH]; intros s t Hr Ho Hag Hn; [lia|]. simpl.
  destruct (entries_to_commit_ s !! (last_executed_seq_ s + 1)) as [c|] eqn:Hc.
  2: { rewrite (committed_run_gap _ _ Hc). unfold execute_next. unfold mbind, M_bind. run_goal.
       rewrite Hc. simpl. split_and!; [done|done| |done..]. unfold progress. f_equal. lia. }
  rewrite (committed_run_step _ _ _ Hc). cbn [replay].
  pose proof (execute_next_replays s t c Hr Ho Hag Hc) as Ht. cbv zeta in Ht.
  unfold mbind, M_bind, mret, M_ret, turn_outcome in *.
  destruct (replay_entry _ _ t) as [[b t1]|f], (execute_next s) as [[more s1]|f']; try done.
  destruct Ht as (-> & Hag1 & Rt & [= Hm Hl] & Rs & As & Ls).
  pose proof (ahead_step _ _ (mk_is_Some _ _ Hc)) as Ha.
  specialize (IH s1 t1). rewrite Hm, Hl, Rs, Rt, Ls in IH. specialize (IH Hr Ho Hag1 ltac:(lia)).
  unfold run_outcome in *.
  destruct (replay _ _ t1) as [[bs t2]|], (execute_loop n s1) as [[b2 s2]|]; try done.
  destruct IH as (-> & H1 & H2 & H3 & H4 & H5). split_and!; try congruence.
  rewrite H2, Hm, Hl. simpl. f_equal. lia.
Qed.

(** With no outcomes in the log the run is that of [execute_all], from a node
    in any role. *)
Lemma execute_loop_backup n s t :
  role_ s = BACKUP → no_outcomes s → replicas_agree t s →
  (size (ahead (entries_to_commit_ s) (last_executed_seq_ s)) < n)%nat →
  run_outcome s (execute_all (committed_run (entries_to_commit_ s) (last_executed_seq_ s)) t)
    (execute_loop n s).
Proof.
  intros Hr Hno%no_outcomes_undecided Hag Hn. rewrite <-(replay_undecided _ _ _ Hno).
  apply execute_loop_replays; auto.
Qed.

(** C15: a backup is a replica of the ledger. Executing its committed buffer
    succeeds or stops exactly as replaying the contiguous run of its entries
    does from any backup [t] with the same ledger and shard map: each entry goes
    through [ExecuteTransaction], and is settled at once when the log of the
    backup has a second-phase outcome for its number. The backup ends with the
    ledger of the replay, has advanced by the length of the run, and has kept
    the buffer and the log. *)
Theorem backup_executes_run (s t : PaxosNode) :
  role_ s = BACKUP → role_ t = BACKUP → replicas_agree t s →
  match replay (outcome_in (accept_log_ s))
          (committed_run (entries_to_commit_ s) (last_executed_seq_ s)) t with
  | Ok (bs, t') => ∃ s', SequentiallyExecuteCommittedEntries s = Ok (tt, s') ∧ replicas_agree t' s' ∧
      entries_to_commit_ s' = entries_to_commit_ s ∧ accept_log_ s' = accept_log_ s ∧
      last_executed_seq_ s' = last_executed_seq_ s + Z.of_nat (length bs)
  | Fault f => SequentiallyExecuteCommittedEntries s = Fault f
  end.
Proof.
  intros Hr Ht Hag. pose proof (ahead_le (entries_to_commit_ s) (last_executed_seq_ s)).
  pose proof (execute_loop_replays (S (size (entries_to_commit_ s))) s t Hr
    ltac:(left; by rewrite Ht) Hag ltac:(lia)) as H1.
  unfold SequentiallyExecuteCommittedEntries. run_goal. unfold run_outcome in H1.
  destruct (replay _ _ t) as [[bs t']|], (execute_loop _ s) as [[b s']|]; try done.
  - destruct H1 as (_ & Ha & Hp & _ & _ & Hl). injection Hp as ? ?. by exists s'.
  - by subst.
Qed.

(** ** Commits in any order *)
Lemma replay_app o l1 l2 s :
  replay o (l1 ++ l2) s =
    (bs1 ← replay o l1; bs2 ← replay o l2; mret (bs1 ++ bs2)) s.
Proof.
  revert s. induction l1 as [|e l1 IH]; intros s.
  - simpl. unfold mbind, M_bind, mret, M_ret. by destruct (replay o l2 s) as [[]|].
  - cbn [app replay]. unfold mbind, M_bind in *.
    destruct (replay_entry o e s) as [[b s1]|]; [|done]. rewrite IH.
    destruct (replay o l1 s1) as [[bs s2]|]; [|done]. unfold mret, M_ret.
    by destruct (replay o l2 s2) as [[]|].
Qed.

Lemma replay_length o l s bs t : replay o l s = Ok (bs, t) → length bs = length l.
Proof.
  revert s bs t. induction l as [|e l IH]; intros s bs t; simpl; [by intros [= <- _]|].
  intros (b & s1 & _ & (bs1 & s2 & H & [= <- _])%bind_Ok_inv)%bind_Ok_inv.
  simpl. f_equal. eauto.
Qed.

Lemma replay_role o l s bs t : replay o l s = Ok (bs, t) → role_ t = role_ s.
Proof.
  assert (∀ e, respects (keeps role_) (replay_entry o e)) as He.
  { intros e. unfold replay_entry, settle_executed, ExecuteTransaction, ExecuteRepeatedTwoPCEntry,
      record_outcome, SendClientReplyTwoPC, SendReplyToCoordLeader, cache_reply.
    unfold_ledger_ops. solve_keeps. }
  assert (respects (keeps role_) (replay o l)) as H; [|apply H].
  induction l as [|e l IH]; cbn [replay]; [apply respects_ret; apply _|].
  apply respects_bind; [apply _|apply He|]. intros b.
  apply respects_bind; [apply _|apply IH|]. intros. apply respects_ret. apply _.
Qed.

(** A larger buffer continues the run of a smaller one. *)
Lemma committed_run_mono m m' a :
  m ⊆ m' →
  committed_run m' a =
    committed_run m a ++ committed_run m' (a + Z.of_nat (length (committed_run m a))).
Proof.
  intros Hm. remember (size (ahead m a)) as n eqn:Hn. revert a Hn.
  induction n as [|n IH]; intros a Hn; destruct (m !! (a + 1)) as [c|] eqn:Hc.
  - rewrite ahead_step in Hn by eauto. lia.
  - rewrite (committed_run_gap _ _ Hc). simpl. f_equal. lia.
  - rewrite ahead_step in Hn by eauto. rewrite (committed_run_step m _ _ Hc).
    rewrite (committed_run_step m' a c) by (by eapply lookup_weaken).
    simpl. f_equal. rewrite (IH (a + 1)) at 1 by lia. do 2 f_equal. lia.
  - rewrite (committed_run_gap _ _ Hc). simpl. f_equal. lia.
Qed.

Lemma committed_run_present m a k :
  a < k ≤ a + Z.of_nat (length (committed_run m a)) → is_Some (m !! k).
Proof.
  remember (size (ahead m a)) as n eqn:Hn. revert a Hn.
  induction n as [|n IH]; intros a Hn Hk; destruct (m !! (a + 1)) as [c|] eqn:Hc.
  - rewrite ahead_step in Hn by eauto. lia.
  - rewrite (committed_run_gap _ _ Hc) in Hk. simpl in Hk. lia.
  - rewrite ahead_step in Hn by eauto. rewrite (committed_run_step m _ _ Hc) in Hk. simpl in Hk.
    destruct (decide (k = a + 1)) as [->|]; [by rewrite Hc|]. apply (IH (a + 1)); lia.
  - rewrite (committed_run_gap _ _ Hc) in Hk. simpl in Hk. lia.
Qed.

Lemma committed_run_end m a :
  m !! (a + Z.of_nat (length (committed_run m a)) + 1) = None.
Proof.
  remember (size (ahead m a)) as n eqn:Hn. revert a Hn.
  induction n as [|n IH]; intros a Hn; destruct (m !! (a + 1)) as [c|] eqn:Hc.
  - rewrite ahead_step in Hn by eauto. lia.
  - rewrite (committed_run_gap _ _ Hc). simpl. by rewrite Z.add_0_r.
  - rewrite ahead_step in Hn by eauto. rewrite (committed_run_step m _ _ Hc). simpl.
    rewrite <-(IH (a + 1)) by lia. f_equal. lia.
  - rewrite (committed_run_gap _ _ Hc). simpl. by rewrite Z.add_0_r.
Qed.

(** Below the log is [log] throughout, and [o] its outcomes. *)
Section commits.
Variable log : gmap Z AcceptedEntry.
Let o : Z → string := outcome_in log.

(** A backup that has executed all it can of the commits [m], from [s0]. *)
Record caught_up (s0 : PaxosNode) (m : gmap Z CommitEntry) (s : PaxosNode) : Prop := {
  cu_backup : role_ s = BACKUP;
  cu_alive : alive_ s = true;
  cu_log : accept_log_ s = log;
  cu_entries : entries_to_commit_ s = m;
  cu_keys : ∀ k c, m !! k = Some c → ce_seqnum c = k;
  cu_last : last_executed_seq_ s = Z.of_nat (length (committed_run m 0));
  cu_executed : ∀ k, k ∈ executed_entries_ s → 0 < k ≤ last_executed_seq_ s;
  cu_ledger : ∃ bs t, replay o (committed_run m 0) s0 = Ok (bs, t) ∧ replicas_agree t s }.

Definition commit_line (c : CommitEntry) : string :=
  "<COMMIT, " +:+ ballot_text "," (ce_ballot c) +:+ ", " +:+ to_string (ce_seqnum c) +:+ " "
    +:+ request_text (ce_request c) +:+ "> " +:+ nl.

(** A backup's state when it starts to execute a commit. *)
Definition received (c : CommitEntry) (s : PaxosNode) : PaxosNode :=
  buffered (ce_seqnum c) c (timer_reset (logged (commit_line c) s)).

Lemma received_frame c s :
  ∃ p, p = received c s ∧ role_ p = role_ s ∧ alive_ p = alive_ s ∧ accept_log_ p = accept_log_ s ∧
    last_executed_seq_ p = last_executed_seq_ s ∧ ledger_of p = ledger_of s ∧
    shard_map_ p = shard_map_ s ∧
    entries_to_commit_ p =
      match entries_to_commit_ s !! ce_seqnum c with
      | Some _ => entries_to_commit_ s
      | None => <[ce_seqnum c := c]> (entries_to_commit_ s)
      end.
Proof.
  eexists. split; [done|]. unfold received, buffered, timer_reset, logged. simp_upd.
  destruct (timer_running_ s); simp_upd;
    destruct (entries_to_commit_ s !! ce_seqnum c) eqn:E; simp_upd; rewrite ?E;
    split_and!; reflexivity.
Qed.

Lemma HandleCommit_backup c s :
  role_ s = BACKUP → alive_ s = true → is_phase2_status (ce_two_pc_status c) = false →
  HandleCommit c s =
    (if (last_executed_seq_ s + 1 =? ce_seqnum c)
        && negb (bool_decide (ce_seqnum c ∈ executed_entries_ s))
     then SequentiallyExecuteCommittedEntries else skip) (received c s).
Proof.
  intros Hr Ha Hp. destruct (received_frame c s) as (p & Ep & _ & _ & _ & Hl & Hg & _).
  apply (f_equal l_executed) in Hg. simpl in Hg.
  unfold HandleCommit. rewrite Hp.
  rewrite (bind_Ok _ _ _ _ _ (eq_refl : gets id s = Ok (s, s))). rewrite Ha, Hr. role_tests.
  cbn [negb when]. rewrite (bind_Ok _ _ _ _ _ (log_line_eq _ _)).
  change (upd print_log_ (print_log_ s +:+ _) s) with (logged (commit_line c) s).
  rewrite (bind_Ok _ _ _ _ _ (ResetElectionTimer_eq (logged (commit_line c) s) Ha Hr)).
  rewrite (bind_Ok _ _ _ _ _ (insert_commit_eq _ _ _)). cbv zeta.
  change (buffered _ _ _) with (received c s).
  rewrite (bind_Ok _ _ _ _ _ (eq_refl : gets id (received c s) = Ok (received c s, received c s))).
  by rewrite <-Ep, Hl, Hg.
Qed.

Lemma replay_entry_executed e s b s1 k :
  replay_entry o e s = Ok (b, s1) → k ∈ executed_entries_ s1 → k ∈ executed_entries_ s ∨ k = en_seq e.
Proof.
  unfold replay_entry. intros (b1 & s2 & H & ([] & s3 & H3 & [= _ <-])%bind_Ok_inv)%bind_Ok_inv Hk.
  assert (respects (keeps executed_entries_) (settle_executed (o (en_seq e)) e)) as Hs.
  { unfold settle_executed, ExecuteRepeatedTwoPCEntry, record_outcome, SendClientReplyTwoPC,
      SendReplyToCoordLeader, cache_reply. unfold_ledger_ops. solve_keeps. }
  rewrite (Hs _ _ _ H3) in Hk.
  refine (wp_Ok any_fault _ _ _ _ (λ _ s', k ∈ executed_entries_ s' → _) H _ Hk). clear.
  unfold ExecuteTransaction. unfold_ledger_ops.
  wp_steps; try done; rewrite ?elem_of_union, ?elem_of_singleton; tauto.
Qed.

Lemma replay_executed l s bs t k :
  replay o l s = Ok (bs, t) → k ∈ executed_entries_ t →
  k ∈ executed_entries_ s ∨ k ∈ en_seq <$> l.
Proof.
  revert s bs. induction l as [|e l IH]; intros s bs; simpl; [by intros [= _ <-]; left|].
  intros (b & s1 & H1 & (bs1 & s2 & H2 & [= _ <-])%bind_Ok_inv)%bind_Ok_inv Hk.
  rewrite elem_of_cons. destruct (IH _ _ H2 Hk) as [Hk1|]; [|tauto].
  destruct (replay_entry_executed _ _ _ _ _ H1 Hk1); tauto.
Qed.

Lemma committed_run_seqs m a k :
  (∀ k c, m !! k = Some c → ce_seqnum c = k) → k ∈ en_seq <$> committed_run m a →
  a < k ≤ a + Z.of_nat (length (committed_run m a)).
Proof.
  intros Hk. remember (size (ahead m a)) as n eqn:Hn. revert a Hn.
  induction n as [|n IH]; intros a Hn; destruct (m !! (a + 1)) as [c|] eqn:Hc.
  - rewrite ahead_step in Hn by eauto. lia.
  - rewrite (committed_run_gap _ _ Hc). by intros ?%elem_of_nil.
  - rewrite ahead_step in Hn by eauto. rewrite (committed_run_step m _ _ Hc). simpl.
    rewrite elem_of_cons. apply Hk in Hc as Hq. simpl in Hq. intros [->|H]; [lia|].
    apply IH in H; lia.
  - rewrite (committed_run_gap _ _ Hc). by intros ?%elem_of_nil.
Qed.

Lemma caught_up_intro s0 m s bs t :
  role_ s = BACKUP → alive_ s = true → accept_log_ s = log → entries_to_commit_ s = m →
  (∀ k c, m !! k = Some c → ce_seqnum c = k) → (∀ k, k ∈ executed_entries_ s0 → False) →
  last_executed_seq_ s = Z.of_nat (length bs) →
  replay o (committed_run m 0) s0 = Ok (bs, t) → replicas_agree t s → caught_up s0 m s.
Proof.
  intros Hr Ha Hno He Hkeys Hs0 Hl Hall Hag. rewrite (replay_length _ _ _ _ _ Hall) in Hl.
  constructor; try done; [|eauto].
  intros k Hk. destruct Hag as [Hag _]. apply (f_equal l_executed) in Hag. simpl in Hag.
  rewrite <-Hag in Hk. rewrite Hl.
  destruct (replay_executed _ _ _ _ _ Hall Hk) as [Hin|Hin]; [by apply Hs0 in Hin|].
  apply committed_run_seqs in Hin; [lia|done].
Qed.

(** What a commit that was not known does to the run. *)
Lemma run_after_insert s0 m c bs0 t0 bs t :
  m !! ce_seqnum c = None →
  replay o (committed_run m 0) s0 = Ok (bs0, t0) →
  replay o (committed_run (<[ce_seqnum c := c]> m) 0) s0 = Ok (bs, t) →
  ∃ bs2, bs = bs0 ++ bs2 ∧
    replay o (committed_run (<[ce_seqnum c := c]> m) (Z.of_nat (length bs0))) t0 = Ok (bs2, t).
Proof.
  intros Hnew H0 H.
  rewrite (committed_run_mono m), Z.add_0_l, replay_app in H by (by apply insert_subseteq).
  rewrite (bind_Ok _ _ _ _ _ H0), <-(replay_length _ _ _ _ _ H0) in H.
  apply bind_Ok_inv in H as (bs2 & u & Hu & [= <- <-]). eauto.
Qed.

Lemma HandleCommit_step s0 m s c bs t :
  role_ s0 = BACKUP → caught_up s0 m s → is_phase2_status (ce_two_pc_status c) = false →
  m !! ce_seqnum c = None →
  (∀ k, k ∈ executed_entries_ s0 → False) →
  replay o (committed_run (<[ce_seqnum c := c]> m) 0) s0 = Ok (bs, t) →
  ∃ s', HandleCommit c s = Ok (tt, s') ∧ caught_up s0 (<[ce_seqnum c := c]> m) s'.
Proof.
  intros Hr0 [Hr Ha Hno He Hkeys Hl Hex (bs0 & t0 & Ht0 & Hag)] Hp Hnew Hs0 Hrun.
  set (m' := <[ce_seqnum c := c]> m) in *.
  destruct (received_frame c s) as (p & Ep & Pr & Pa & Plog & Pl & Pg & Ps & Pe).
  rewrite He, Hnew in Pe. fold m' in Pe.
  assert (∀ k d, m' !! k = Some d → ce_seqnum d = k) as Hkeys'.
  { intros k d. unfold m'. rewrite lookup_insert_Some. intros [[<- <-]|[_ ?]]; eauto. }
  rewrite Hno in Plog.
  assert (replicas_agree t0 p) as Hagp.
  { destruct Hag as [Hag1 Hag2]. split; [by rewrite Pg | by rewrite Ps]. }
  rewrite (HandleCommit_backup c s Hr Ha Hp), <-Ep.
  assert (ce_seqnum c ∉ executed_entries_ s) as Hnex.
  { intros Hin. apply Hex in Hin. rewrite Hl in Hin.
    destruct (committed_run_present m 0 (ce_seqnum c)) as [? H]; [lia|]. by rewrite Hnew in H. }
  rewrite (bool_decide_eq_false_2 _ Hnex), andb_true_r.
  destruct (run_after_insert _ _ _ _ _ _ _ Hnew Ht0 Hrun) as (bs2 & -> & Hu).
  rewrite (replay_length _ _ _ _ _ Ht0), <-Hl in Hu. fold m' in Hu, Hrun.
  assert (last_executed_seq_ s + Z.of_nat (length bs2) = Z.of_nat (length (bs0 ++ bs2))) as Hlen.
  { rewrite length_app, (replay_length _ _ _ _ _ Ht0). lia. }
  destruct (Z.eqb_spec (last_executed_seq_ s + 1) (ce_seqnum c)) as [Hq|Hq].
  - pose proof (execute_loop_replays (S (size (entries_to_commit_ p))) p t0 ltac:(congruence)
      ltac:(left; by rewrite (replay_role _ _ _ _ _ Ht0), Hr0) Hagp
      ltac:(pose proof (ahead_le (entries_to_commit_ p) (last_executed_seq_ p)); lia)) as Hb.
    rewrite Pe, Pl, Plog in Hb. fold o in Hb. rewrite Hu in Hb. unfold run_outcome in Hb.
    unfold SequentiallyExecuteCommittedEntries. run_goal. rewrite Pe.
    destruct (execute_loop _ p) as [[b s']|] eqn:El; [|done].
    destruct Hb as (_ & Hag' & [= E1 E2] & Hr' & Ha' & Hlog').
    exists s'. split; [done|]. apply (caught_up_intro s0 m' s' (bs0 ++ bs2) t); try done; congruence.
  - exists p. split; [done|].
    assert (m' !! (last_executed_seq_ s + 1) = None) as Hgap.
    { unfold m'. rewrite lookup_insert_ne by done.
      pose proof (committed_run_end m 0) as H. by rewrite Z.add_0_l, <-Hl in H. }
    rewrite (committed_run_gap _ _ Hgap) in Hu. injection Hu as <- <-.
    apply (caught_up_intro s0 m' p (bs0 ++ []) t0); try done; try congruence.
    rewrite Pl, <-Hlen. simpl. lia.
Qed.

(** The commits of a list, by sequence number. *)
Definition commits_map (l : list CommitEntry) : gmap Z CommitEntry :=
  list_to_map ((λ c, (ce_seqnum c, c)) <$> l).

Lemma commits_map_None l c : ce_seqnum c ∉ ce_seqnum <$> l → commits_map l !! ce_seqnum c = None.
Proof.
  intros H. apply not_elem_of_list_to_map. by rewrite <-list_fmap_compose.
Qed.

Lemma commits_map_perm l l' : NoDup (ce_seqnum <$> l) → l ≡ₚ l' → commits_map l = commits_map l'.
Proof.
  intros Hd Hp. apply list_to_map_proper; [by rewrite <-list_fmap_compose | by rewrite Hp].
Qed.

Lemma replay_prefix l1 l2 s bs t :
  replay o (l1 ++ l2) s = Ok (bs, t) → ∃ bs1 t1, replay o l1 s = Ok (bs1, t1).
Proof. rewrite replay_app. intros (bs1 & t1 & H & _)%bind_Ok_inv. eauto. Qed.

Lemma commits_map_union c l m :
  ce_seqnum c ∉ ce_seqnum <$> l → Forall (λ c, m !! ce_seqnum c = None) l →
  <[ce_seqnum c := c]> m ⊆ commits_map l ∪ <[ce_seqnum c := c]> m.
Proof.
  intros Hc Hm. apply map_union_subseteq_r, map_disjoint_spec. intros k x y Hx Hy.
  apply lookup_insert_Some in Hy as [[<- _]|[_ Hy]].
  - by rewrite commits_map_None in Hx.
  - apply elem_of_list_to_map_2, list_elem_of_fmap in Hx as (d & [= -> ->] & Hin).
    rewrite list.Forall_forall in Hm. by rewrite Hm in Hy.
Qed.

Lemma HandleCommit_all s0 l m s bs t :
  role_ s0 = BACKUP → (∀ k, k ∈ executed_entries_ s0 → False) →
  caught_up s0 m s → NoDup (ce_seqnum <$> l) → Forall (λ c, m !! ce_seqnum c = None) l →
  Forall (λ c, is_phase2_status (ce_two_pc_status c) = false) l →
  replay o (committed_run (commits_map l ∪ m) 0) s0 = Ok (bs, t) →
  ∃ s', for_each l HandleCommit s = Ok (tt, s') ∧ caught_up s0 (commits_map l ∪ m) s'.
Proof.
  intros Hr0 Hs0. revert m s. induction l as [|c l IH]; intros m s Hc Hd Hm Hp Hrun.
  - exists s. split; [done|]. unfold commits_map. simpl. by rewrite (left_id_L ∅ (∪)).
  - simpl in Hd. apply list.NoDup_cons in Hd as [Hc' Hd].
    apply list.Forall_cons in Hm as [Hm1 Hm]. apply list.Forall_cons in Hp as [Hp1 Hp].
    assert (commits_map (c :: l) ∪ m = commits_map l ∪ <[ce_seqnum c := c]> m) as Heq.
    { unfold commits_map. simpl. rewrite <-insert_union_l.
      apply insert_union_r. by apply commits_map_None. }
    rewrite Heq in *.
    rewrite (committed_run_mono (<[ce_seqnum c := c]> m)) in Hrun; [|by apply commits_map_union].
    destruct (replay_prefix _ _ _ _ _ Hrun) as (bs1 & t1 & H1).
    rewrite <-committed_run_mono in Hrun by (by apply commits_map_union).
    destruct (HandleCommit_step s0 m s c bs1 t1 Hr0 Hc Hp1 Hm1 Hs0 H1) as (s1 & E1 & Hc1).
    destruct (IH _ s1 Hc1 Hd) as (s' & E2 & Hc2); [|done|done|].
    + rewrite list.Forall_forall in Hm |- *. intros d Hin. rewrite lookup_insert_ne; [by apply Hm|].
      intros Heq'. apply Hc'. rewrite Heq'. by apply list_elem_of_fmap_2.
    + exists s'. split; [|done]. simpl. by rewrite (bind_Ok _ _ _ _ _ E1).
Qed.

End commits.

(** C3: backups converge whatever order the network delivers first-phase commits
    in. Take a backup that has executed and buffered nothing, and commits with
    pairwise different numbers and no second-phase status. If replaying the
    contiguous run from 1 in sequence order succeeds, then the backup handles
    the commits in any order, and ends with the ledger of the in-order replay,
    having executed exactly the run and buffered every commit. Commits of the
    second phase are applied when they arrive, and their order does matter: see
    [commit_phases_do_not_commute]. *)
Theorem commit_order_irrelevant (l l' : list CommitEntry) (s t : PaxosNode) (bs : list bool) :
  role_ s = BACKUP → alive_ s = true →
  entries_to_commit_ s = ∅ → last_executed_seq_ s = 0 → executed_entries_ s = ∅ →
  NoDup (ce_seqnum <$> l) → Forall (λ c, is_phase2_status (ce_two_pc_status c) = false) l →
  replay (outcome_in (accept_log_ s)) (committed_run (commits_map l) 0) s = Ok (bs, t) → l ≡ₚ l' →
  ∃ s', for_each l' HandleCommit s = Ok (tt, s') ∧ replicas_agree t s' ∧
    last_executed_seq_ s' = Z.of_nat (length bs) ∧ entries_to_commit_ s' = commits_map l.
Proof.
  intros Hr Ha He Hl Hex Hd Hp Hrun Hperm.
  rewrite (commits_map_perm l l' Hd Hperm) in *. rewrite Hperm in Hd, Hp.
  destruct (HandleCommit_all (accept_log_ s) s l' ∅ s bs t Hr)
    as (s' & E & [_ _ _ He' _ Hl' _ (bs' & t' & Ht' & Hag)]).
  - intros k Hk. rewrite Hex in Hk. by apply elem_of_empty in Hk.
  - constructor; [done..|by intros k c; rewrite lookup_empty|by rewrite Hl|by intros k; rewrite Hex|].
    by exists [], s.
  - done.
  - by apply list.Forall_forall.
  - done.
  - by rewrite (right_id_L ∅ (∪)).
  - rewrite (right_id_L ∅ (∪)) in *. rewrite Hrun in Ht'. injection Ht' as <- <-.
    exists s'. split_and!; [done..| |done]. by rewrite Hl', (replay_length _ _ _ _ _ Hrun).
Qed.

(** ** The theorems on a small deployment *)
Definition small_commit (q : Z) (r : ClientRequest) : CommitEntry :=
  MkCommitEntry (MkBallot 1 1) q r "" ClientRequest_default "".
Definition small_commits : list CommitEntry :=
  [small_commit 1 (transfer 1 "1" "2" 4); small_commit 2 (transfer 2 "2" "1" 9);
   small_commit 4 (transfer 3 "1" "2" 1)].

(** Two commits are buffered, sequence number 3 is missing. *)
Definition small_backup : PaxosNode :=
  upd entries_to_commit_ (commits_map small_commits) (small_node 2).

Lemma small_run_value :
  value (execute_all (committed_run (commits_map small_commits) 0) (small_node 2)) =
    Some [true; true].
Proof. vm_compute. reflexivity. Qed.

(** A backup of the second cluster has the participant's entry of a transfer
    in its log with the outcome that it was aborted, and has not executed it
    yet; a transfer of its own shard follows. *)
Definition decided_commits : list CommitEntry :=
  [MkCommitEntry (MkBallot 1 4) 1 (transfer 1 "1" "3" 4) "P" (transfer 1 "1" "3" 4) "";
   MkCommitEntry (MkBallot 1 4) 2 (transfer 2 "3" "4" 1) "" ClientRequest_default ""].
Definition decided_backup : PaxosNode :=
  upd accept_log_
    {[1 := MkAcceptedEntry (MkBallot 1 4) 1 (transfer 1 "1" "3" 4) 4 "P" (transfer 1 "1" "3" 4) 0
             "A_PART_COMMIT"]}
    (upd entries_to_commit_ (commits_map decided_commits) (small_node 5)).

Lemma execution_fuel_suffices_witness :
  ∃ b s', execute_loop (S (size (entries_to_commit_ small_backup))) small_backup = Ok (b, s') ∧
    b = true.
Proof.
  assert (value (execute_loop (S (size (entries_to_commit_ small_backup))) small_backup) = Some true)
    as (s' & H)%value_Ok by (vm_compute; reflexivity).
  exists true, s'. split; [exact H|]. exact (execution_fuel_suffices small_backup true s' H).
Defined.

Lemma execution_stops_at_gap_witness :
  ∃ s', SequentiallyExecuteCommittedEntries small_backup = Ok (tt, s') ∧
    entries_to_commit_ s' = entries_to_commit_ small_backup.
Proof.
  assert (value (SequentiallyExecuteCommittedEntries small_backup) = Some tt)
    as (s' & H)%value_Ok by (vm_compute; reflexivity).
  exists s'. split; [done|]. exact (proj1 (execution_stops_at_gap small_backup s' H)).
Defined.

Lemma backup_executes_run_witness :
  ∃ s', SequentiallyExecuteCommittedEntries decided_backup = Ok (tt, s') ∧
    last_executed_seq_ s' = 2 ∧ accounts_ s' 3 = 9 ∧ accounts_ s' 4 = 11.
Proof.
  pose proof (backup_executes_run decided_backup (small_node 5) eq_refl eq_refl
    ltac:(split; reflexivity)) as H.
  assert ((λ p, (p.1, accounts_ p.2 3, accounts_ p.2 4)) <$>
    match replay (outcome_in (accept_log_ decided_backup))
      (committed_run (entries_to_commit_ decided_backup) (last_executed_seq_ decided_backup)) (small_node 5)
    with Ok p => Some p | Fault _ => None end = Some ([true; true], 9, 11)) as Hv
    by (vm_compute; reflexivity).
  destruct (replay _ _ _) as [[bs t']|]; [|done]. injection Hv as Hb H3 H4.
  destruct H as (s' & H1 & [[=] _] & _ & _ & H2). rewrite Hb in H2.
  exists s'. split_and!; [exact H1|exact H2|congruence..].
Defined.

Lemma commit_order_irrelevant_witness :
  ∃ s' t, for_each (rev small_commits) HandleCommit (small_node 2) = Ok (tt, s') ∧
    execute_all (committed_run (commits_map small_commits) 0) (small_node 2) = Ok ([true; true], t) ∧
    replicas_agree t s'.
Proof.
  destruct (value_Ok _ _ small_run_value) as (t & Ht).
  destruct (commit_order_irrelevant small_commits (rev small_commits) (small_node 2) t [true; true]
    eq_refl eq_refl eq_refl eq_refl eq_refl) as (s' & H1 & H2 & _ & _).
  - apply (bool_decide_eq_true_1 (NoDup (ce_seqnum <$> small_commits))). vm_compute. reflexivity.
  - by repeat constructor.
  - rewrite replay_undecided by done. exact Ht.
  - apply Permutation_rev.
  - by exists s', t.
Defined.

(** The COMMITs of the two phases do not commute. A backup of the participating
    cluster that gets the first phase and then the second credits the receiver;
    when the second overtakes the first it takes its place in the buffer, is
    executed there as a command without effect, and the receiver is never
    credited. *)
Definition phase_commit (st : string) : CommitEntry :=
  MkCommitEntry (MkBallot 1 4) 1 (transfer 1 "1" "3" 4) st (transfer 1 "1" "3" 4) "".

Theorem commit_phases_do_not_commute :
  ∃ s1 s2, for_each [phase_commit "P"; phase_commit "C"] HandleCommit (small_node 5) = Ok (tt, s1) ∧
    for_each [phase_commit "C"; phase_commit "P"] HandleCommit (small_node 5) = Ok (tt, s2) ∧
    last_executed_seq_ s1 = 1 ∧ last_executed_seq_ s2 = 1 ∧
    accounts_ s1 3 = 14 ∧ accounts_ s2 3 = 10.
Proof.
  assert (∀ l q a, (λ s, (last_executed_seq_ s, accounts_ s 3)) <$>
      final (for_each l HandleCommit (small_node 5)) = Some (q, a) →
    ∃ s, for_each l HandleCommit (small_node 5) = Ok (tt, s) ∧ last_executed_seq_ s = q ∧ accounts_ s 3 = a)
    as H.
  { intros l q a. destruct (for_each l _ _) as [[[] s]|]; [|done]. intros [= <- <-]. eauto. }
  destruct (H [phase_commit "P"; phase_commit "C"] 1 14) as (s1 & ? & ? & ?); [by vm_compute|].
  destruct (H [phase_commit "C"; phase_commit "P"] 1 10) as (s2 & ? & ? & ?); [by vm_compute|].
  by exists s1, s2.
Qed.
