(* ===== verification/NewViewProofs.v ===== *)
(** * The new view: merge, gap filling, election by quorum

    What the log of a new leader is: for every sequence number the entry that
    must win among all copies it has seen, no gap, no outcome lost, and the
    highest number known. *)
From S2P Require Import Prelude Text Messages Node Ledger LedgerSpec LedgerProofs Elections.
From S2P Require Import TwoPhase Replication Requests NewView ElectionProofs.
#[local] Open Scope Z_scope.

(** ** The winner among the copies of one entry *)

(** The two entries differ at most in the recorded outcome. *)
Definition same_value (e1 e2 : AcceptedEntry) : Prop :=
  upd ae_phase2_result ""%string e1 = upd ae_phase2_result ""%string e2.

(** [w] is a copy among [cs] that no other copy beats: a decided copy beats an
    undecided one, and of two equally decided copies the higher ballot wins; an
    outcome known to any copy is known to [w]. *)
Definition winner_of (cs : list AcceptedEntry) (w : AcceptedEntry) : Prop :=
  (∃ c, c ∈ cs ∧ same_value w c) ∧
  (∀ c, c ∈ cs → is_decided c = true → is_decided w = true) ∧
  (∀ c, c ∈ cs → is_decided c = is_decided w → ballot_le (ae_ballot c) (ae_ballot w)) ∧
  (∀ c, c ∈ cs → ae_phase2_result c ≠ ""%string → ae_phase2_result w ≠ ""%string).

Lemma same_value_refl e : same_value e e.
Proof. done. Qed.
Lemma same_value_upd v e : same_value (upd ae_phase2_result v e) e.
Proof. by destruct e. Qed.
Lemma same_value_trans e1 e2 e3 : same_value e1 e2 → same_value e2 e3 → same_value e1 e3.
Proof. unfold same_value. congruence. Qed.

Lemma carry_value a w : same_value (carry_outcome a w) w.
Proof. unfold carry_outcome. repeat case_match; auto using same_value_refl, same_value_upd. Qed.
Lemma carry_ballot a w : ae_ballot (carry_outcome a w) = ae_ballot w.
Proof. unfold carry_outcome. repeat case_match; by simp_upd. Qed.

Lemma is_decided_upd v e :
  is_decided (upd ae_phase2_result v e) =
    negb (v ==s ""%string) || is_phase2_status (ae_two_pc_status e).
Proof. unfold is_decided. by simp_upd. Qed.

(** Carrying an outcome never changes whether the winner is decided. *)
Lemma carry_decided a w :
  (is_decided a = true → is_decided w = true) → is_decided (carry_outcome a w) = is_decided w.
Proof.
  intros Ha. unfold carry_outcome.
  destruct (ae_phase2_result w ==s "") eqn:Ew; [|done].
  destruct (negb (ae_phase2_result a ==s "")) eqn:Ea.
  - rewrite is_decided_upd, Ea. simpl. symmetry. apply Ha. unfold is_decided. by rewrite Ea.
  - destruct (is_phase2_status (ae_two_pc_status w)) eqn:Es; [|done].
    rewrite is_decided_upd, Es, orb_true_r. unfold is_decided. by rewrite Es, orb_true_r.
Qed.

Lemma phase2_status_nonempty st : is_phase2_status st = true → st ≠ ""%string.
Proof. by intros H ->. Qed.

Lemma carry_outcome_known a w :
  ae_phase2_result w ≠ "" ∨ ae_phase2_result a ≠ "" ∨ is_decided w = true →
  ae_phase2_result (carry_outcome a w) ≠ "".
Proof.
  unfold carry_outcome, is_decided. intros H.
  destruct (decide (ae_phase2_result w = "")) as [Hw|Hw];
    [rewrite (bool_decide_eq_true_2 _ Hw) in * | by rewrite (bool_decide_eq_false_2 _ Hw)].
  destruct (decide (ae_phase2_result a = "")) as [Ha|Ha];
    [rewrite (bool_decide_eq_true_2 _ Ha) | by rewrite (bool_decide_eq_false_2 _ Ha)].
  destruct H as [H|[H|H]]; [done..|]. simpl in *. rewrite H. simp_upd.
  by apply phase2_status_nonempty.
Qed.

Lemma winner_single e : winner_of [e] e.
Proof.
  split_and!; [exists e; split; [by left|done]|..]; intros c ->%list_elem_of_singleton; done.
Qed.

Lemma winner_first a : winner_of [a] (carry_outcome a a).
Proof.
  split_and!.
  - exists a. split; [by left|apply carry_value].
  - intros c ->%list_elem_of_singleton. by rewrite carry_decided.
  - intros c ->%list_elem_of_singleton. rewrite carry_ballot. intros _. reflexivity.
  - intros c ->%list_elem_of_singleton H. apply carry_outcome_known. by left.
Qed.

Lemma winner_step cs w a :
  winner_of cs w → winner_of (cs ++ [a]) (carry_outcome a (merge_pick (Some w) a)).
Proof.
  intros ((c0 & Hc0 & Hv0) & Hd & Hb & Ho).
  assert (∀ c, c ∈ cs ++ [a] ↔ c ∈ cs ∨ c = a) as Hin.
  { intros c. by rewrite elem_of_app, list_elem_of_singleton. }
  set (p := merge_pick (Some w) a).
  assert (p = a ∧ (is_decided w = true → is_decided a = true) ∧
            (is_decided a = is_decided w → ballot_le (ae_ballot w) (ae_ballot a)) ∨
          p = w ∧ (is_decided a = true → is_decided w = true) ∧
            (is_decided a = is_decided w → ballot_le (ae_ballot a) (ae_ballot w))) as Hp.
  { unfold p, merge_pick.
    destruct (is_decided a), (is_decided w); simpl;
      [| by left; split_and! | by right; split_and! |];
      (destruct (ballot_gtb (ae_ballot a) (ae_ballot w)) eqn:E;
       [left; apply ballot_gtb_spec in E | right; apply ballot_gtb_false in E]; split_and!; try done;
       intros _; by left). }
  assert (is_decided a = true → is_decided p = true) as Hda.
  { destruct Hp as [(-> & _)|(-> & H & _)]; [done|apply H]. }
  split_and!.
  - destruct Hp as [(-> & _)|(-> & _)].
    + exists a. rewrite Hin. split; [by right|apply carry_value].
    + exists c0. rewrite Hin. split; [by left|]. eapply same_value_trans; [apply carry_value|done].
  - intros c [Hc| ->]%Hin H; rewrite carry_decided by done; [|by apply Hda].
    apply Hd in H; [|done]. by destruct Hp as [(-> & H1 & _)|(-> & _)]; [apply H1|].
  - intros c Hc. rewrite carry_decided, carry_ballot by done. intros He. apply Hin in Hc.
    destruct Hp as [(-> & H1 & H2)|(-> & H1 & H2)], Hc as [Hc| ->];
      [| reflexivity | by apply Hb | by apply H2].
    destruct (is_decided w) eqn:Ew.
    + assert (is_decided a = true) as Ha by (by apply H1).
      etrans; [apply Hb; [done|congruence]|]. apply H2. congruence.
    + destruct (is_decided c) eqn:Ec; [by apply Hd in Ec|].
      etrans; [by apply Hb|]. apply H2. congruence.
  - intros c [Hc| ->]%Hin H; apply carry_outcome_known; [|tauto].
    destruct Hp as [(-> & H1 & _)|(-> & _)]; [|left; by eapply Ho].
    destruct (decide (ae_phase2_result a = "")) as [Ea|]; [|tauto].
    right; right. apply H1. unfold is_decided. rewrite bool_decide_eq_false_2; [done|by eapply Ho].
Qed.

(** ** The merged log *)

(** All copies of entry [q]: the one in the log and those of the promises. *)
Definition copies (log : gmap Z AcceptedEntry) (l : list AcceptedEntry) (q : Z) :
    list AcceptedEntry :=
  option_list (log !! q) ++ filter (λ e, ae_seqnum e = q) l.

Lemma copies_cons log a l q :
  copies log (a :: l) q =
    option_list (log !! q) ++ (if decide (ae_seqnum a = q) then [a] else [])
      ++ filter (λ e, ae_seqnum e = q) l.
Proof. unfold copies. rewrite filter_cons. by case_decide. Qed.

(** What is known of a merged log relative to the copies seen so far. *)
Definition merged_from (cs : Z → list AcceptedEntry) (log : gmap Z AcceptedEntry) : Prop :=
  ∀ q, match log !! q with Some w => winner_of (cs q) w | None => cs q = [] end.

Lemma merge_entry_step cs a log :
  merged_from cs log →
  merged_from (λ q, cs q ++ if decide (ae_seqnum a = q) then [a] else []) (merge_entry a log).
Proof.
  intros H q. unfold merge_entry. specialize (H q).
  destruct (decide (ae_seqnum a = q)) as [<-|Hq].
  - rewrite lookup_insert_eq. destruct (log !! ae_seqnum a) as [w|].
    + by apply winner_step.
    + rewrite H. apply winner_first.
  - by rewrite lookup_insert_ne, app_nil_r.
Qed.

Lemma merge_entries_from cs l log m :
  merged_from cs log →
  merged_from (λ q, cs q ++ filter (λ e, ae_seqnum e = q) l) (merge_entries l log m).1.
Proof.
  revert cs log m. induction l as [|a l IH]; intros cs log m H; simpl.
  - intros q. rewrite app_nil_r. apply H.
  - intros q. specialize (IH _ _ (if m <? ae_seqnum a then ae_seqnum a else m)
                             (merge_entry_step cs a log H) q). simpl in IH.
    rewrite filter_cons. rewrite <-app_assoc in IH. by case_decide.
Qed.

(** Merging picks the right copy of every entry. Whatever log the
    candidate has and whatever logs the promises carry, in whatever order they
    are walked, every sequence number that occurs in any of them is in the
    merged log with a copy that no other copy beats: a decided copy wins over
    undecided ones, of equally decided copies the highest ballot wins, and a
    second-phase outcome known to any copy is known to the merged entry.
    Nothing else is in the merged log. *)
Theorem merge_picks_winner (l : list AcceptedEntry) (log : gmap Z AcceptedEntry) (m q : Z) :
  match (merge_entries l log m).1 !! q with
  | Some w => winner_of (copies log l q) w
  | None => copies log l q = []
  end.
Proof.
  refine (merge_entries_from (λ q, option_list (log !! q)) l log m _ q).
  intros k. destruct (log !! k) as [e|]; [|done]. apply winner_single.
Qed.

Lemma merge_entries_max l log m : (merge_entries l log m).2 = foldr Z.max m (ae_seqnum <$> l).
Proof.
  revert log m. induction l as [|a l IH]; intros log m; [done|]. simpl. rewrite IH.
  assert (∀ x l, foldr Z.max (Z.max m x) l = Z.max x (foldr Z.max m l)) as Hf.
  { intros x k. induction k as [|y k IHk]; simpl; [lia|]. rewrite IHk. lia. }
  rewrite <-Hf. f_equal. destruct (Z.ltb_spec m (ae_seqnum a)); lia.
Qed.

(** ** Gap filling *)
Lemma fill_gap_lookup b id log x q :
  fill_gap b id log x !! q =
    match log !! q with
    | Some e => Some e
    | None => if decide (x = q) then Some (noop_entry b id x) else None
    end.
Proof.
  unfold fill_gap. destruct (log !! x) eqn:E.
  - destruct (log !! q) eqn:Eq; [done|]. case_decide; [by subst; rewrite Eq in E|done].
  - rewrite lookup_insert. destruct (decide (x = q)) as [->|]; [by rewrite E|].
    by destruct (log !! q).
Qed.

Lemma fill_list_lookup b id l log q :
  foldl (fill_gap b id) log l !! q =
    match log !! q with
    | Some e => Some e
    | None => if decide (q ∈ l) then Some (noop_entry b id q) else None
    end.
Proof.
  revert log. induction l as [|x l IH]; intros log; simpl.
  - by destruct (log !! q).
  - rewrite IH, fill_gap_lookup. destruct (log !! q); [done|].
    pose proof (elem_of_cons l q x) as Hc.
    destruct (decide (x = q)) as [->|Hx], (decide (q ∈ l)), (decide (q ∈ _ :: l)); naive_solver.
Qed.

Lemma elem_of_range {A} (q n : Z) (x : A) :
  (if decide (q ∈ seqZ 1 n) then Some x else None) = if (1 <=? q) && (q <=? n) then Some x else None.
Proof.
  destruct (decide (q ∈ seqZ 1 n)) as [H|H]; rewrite elem_of_seqZ in H;
    destruct (Z.leb_spec 1 q), (Z.leb_spec q n); try done; exfalso; lia.
Qed.

(** Gap filling adds exactly the missing entries. Every number from 1 to
    the highest one that had no entry gets a NO-OP of the new ballot, every
    entry that was there stays as it was, and nothing else is added. *)
Theorem fill_gaps_lookup (b : Ballot) (id n q : Z) (log : gmap Z AcceptedEntry) :
  fill_gaps b id n log !! q =
    match log !! q with
    | Some e => Some e
    | None => if (1 <=? q) && (q <=? n) then Some (noop_entry b id q) else None
    end.
Proof.
  unfold fill_gaps. rewrite fill_list_lookup. destruct (log !! q); [done|]. apply elem_of_range.
Qed.

(** ** The log of a new leader *)
Lemma sorted_last {A} (l : list (Z * A)) p q :
  StronglySorted key_le l → list.last l = Some p → q ∈ l → q.1 ≤ p.1.
Proof.
  induction l as [|x l IH]; intros Hs Hl Hq; [done|].
  apply StronglySorted_inv in Hs as [Hs Hx]. rewrite list.Forall_forall in Hx.
  destruct l as [|y l].
  - simpl in Hl. injection Hl as ->. apply list_elem_of_singleton in Hq as ->. lia.
  - rewrite last_cons_cons in Hl. apply elem_of_cons in Hq as [->|Hq]; [|by apply IH].
    apply (Hx p). by apply last_Some_elem_of.
Qed.

Lemma last_key_max {A} (m : gmap Z A) k x : m !! k = Some x → k ≤ last_key m.
Proof.
  intros H. apply elem_of_entries in H. unfold last_key.
  destruct (list.last (entries m)) as [p|] eqn:E.
  - exact (sorted_last _ _ _ (entries_sorted m) E H).
  - apply last_None in E. rewrite E in H. by apply elem_of_nil in H.
Qed.

Lemma foldr_max_le m l x : x ∈ l ∨ x ≤ m → x ≤ foldr Z.max m l.
Proof.
  induction l as [|y l IH]; simpl; [intros [?%elem_of_nil|?]; [done|lia]|].
  intros [[->|H]%elem_of_cons|H]; [lia | |]; (etrans; [apply IH; tauto|lia]).
Qed.

(** The copies a candidate merges. *)
Definition promised_entries (s : PaxosNode) : list AcceptedEntry :=
  concat (snd <$> map_to_list (received_promise_logs_ s)).

Definition highest_known (s : PaxosNode) : Z :=
  foldr Z.max (last_key (accept_log_ s)) (ae_seqnum <$> promised_entries s).

Lemma copies_known s q e :
  e ∈ copies (accept_log_ s) (promised_entries s) q → q ≤ highest_known s.
Proof.
  unfold copies, highest_known. rewrite elem_of_app. intros [H|H]; apply foldr_max_le.
  - right. destruct (accept_log_ s !! q) as [e'|] eqn:E; [|by apply elem_of_nil in H].
    by eapply last_key_max.
  - left. apply list_elem_of_filter in H as [<- H]. by apply list_elem_of_fmap_2.
Qed.

(** What [MergeAcceptLogsFromPromises] leaves for [FillMissingNoOps]. *)
Lemma Merge_result s :
  wp no_fault MergeAcceptLogsFromPromises s (λ _ s',
    accept_log_ s' = (merge_entries (promised_entries s) (accept_log_ s) (last_key (accept_log_ s))).1 ∧
    last_seqnum_ s' = highest_known s ∧
    current_ballot_ s' = current_ballot_ s ∧ node_id_ s' = node_id_ s).
Proof.
  unfold MergeAcceptLogsFromPromises. wp_step. wp_step. cbv zeta.
  fold (promised_entries s).
  pose proof (merge_entries_max (promised_entries s) (accept_log_ s) (last_key (accept_log_ s))) as Hm.
  fold (highest_known s) in Hm.
  destruct (merge_entries _ _ _) as [log mx]. simpl in Hm. subst mx. wp_steps.
  apply (wp_keeps _ (λ t, (accept_log_ t, last_seqnum_ t, current_ballot_ t, node_id_ t))).
  - unfold seed_entry. solve_faults.
  - unfold seed_entry. solve_keeps.
  - intros ? s' E. simp_upd. injection E as -> -> -> ->. done.
Qed.

(** C8: the log a new leader takes over. After merging the promises and
    filling the gaps, [last_seqnum_] is the highest number known to the
    candidate or to any promise; every number from 1 to it has an entry; an
    entry with a known copy is the copy that wins, an entry without one is a
    NO-OP of the new ballot; and no entry is above [last_seqnum_]. *)
Theorem new_leader_log (s s' : PaxosNode) :
  (MergeAcceptLogsFromPromises ;; FillMissingNoOps) s = Ok (tt, s') →
  last_seqnum_ s' = highest_known s ∧
  (∀ q, 1 ≤ q ≤ last_seqnum_ s' → is_Some (accept_log_ s' !! q)) ∧
  (∀ q e, accept_log_ s' !! q = Some e → q ≤ last_seqnum_ s' ∧
     (winner_of (copies (accept_log_ s) (promised_entries s) q) e ∨
      copies (accept_log_ s) (promised_entries s) q = [] ∧
        e = noop_entry (current_ballot_ s) (node_id_ s) q)) ∧
  (∀ q, copies (accept_log_ s) (promised_entries s) q ≠ [] → is_Some (accept_log_ s' !! q)).
Proof.
  intros H. refine (wp_Ok no_fault _ s tt s' (λ _ s', _) H _). clear H. apply wp_bind.
  eapply wp_mono; [|apply Merge_result]. intros ? s1 (Hlog & Hlast & Hb & Hi). cbn beta.
  unfold FillMissingNoOps. wp_steps. rewrite Hlog, Hlast, Hb, Hi.
  set (log := (merge_entries _ _ _).1).
  assert (∀ q, match log !! q with
    | Some w => winner_of (copies (accept_log_ s) (promised_entries s) q) w
    | None => copies (accept_log_ s) (promised_entries s) q = [] end) as Hw.
  { intros q. refine (merge_entries_from (λ q, option_list (accept_log_ s !! q)) _ _ _ _ q).
    intros k. destruct (accept_log_ s !! k) as [e|]; [|done]. apply winner_single. }
  split; [done|].
  assert (∀ q, fill_gaps (current_ballot_ s) (node_id_ s) (highest_known s) log !! q =
    match log !! q with Some e => Some e
    | None => if (1 <=? q) && (q <=? highest_known s)
              then Some (noop_entry (current_ballot_ s) (node_id_ s) q) else None end) as Hf.
  { intros q. unfold fill_gaps. rewrite fill_list_lookup. destruct (log !! q); [done|].
    apply elem_of_range. }
  split_and!; intros q.
  - intros Hq. rewrite Hf. destruct (log !! q); [by eauto|].
    rewrite (proj2 (Z.leb_le 1 q)), (proj2 (Z.leb_le q _)) by lia. by eauto.
  - intros e. rewrite Hf. specialize (Hw q). destruct (log !! q) as [w|].
    + intros [= <-]. split; [|by left]. destruct Hw as ((c & Hc & _) & _). by eapply copies_known.
    + destruct (Z.leb_spec 1 q), (Z.leb_spec q (highest_known s)); try done.
      intros [= <-]. split; [lia|by right].
  - intros Hne. rewrite Hf. specialize (Hw q). destruct (log !! q); [by eauto|done].
Qed.

(** ** Executing a filled gap

    A NO-OP carries no account: [ExecuteTransaction] parses the empty string
    before it looks for the NO-OP marker. *)

(** C38: a filled gap stops every node that executes it. When the next entry to
    execute is the NO-OP of a new leader, execution ends in the exception of
    [std::stoi]. *)
Theorem noop_stops_execution (s : PaxosNode) (c : CommitEntry) :
  entries_to_commit_ s !! (last_executed_seq_ s + 1) = Some c → ce_request c = noop_request →
  SequentiallyExecuteCommittedEntries s = Fault InvalidArgument.
Proof.
  intros Hc Hn. unfold SequentiallyExecuteCommittedEntries. run_goal. cbn [execute_loop].
  assert (execute_next s = Fault InvalidArgument) as He.
  { unfold execute_next. run_goal. rewrite Hc. run_goal.
    rewrite ExecuteTransaction_fault with (e := InvalidArgument); [done|].
    left. by rewrite Hn. }
  by rewrite (bind_Fault _ _ _ _ He).
Qed.

(** ** The theorems on a small deployment *)
Definition small_copy (c id q : Z) (st p2 : string) : AcceptedEntry :=
  MkAcceptedEntry (MkBallot c id) q (transfer q "1" "3" 4) id st ClientRequest_default 0 p2.

(** A candidate that knows entry 1, and a promise that knows 1, decided, and 3. *)
Definition small_merging : PaxosNode :=
  upd received_promise_logs_ {[2 := [small_copy 1 2 1 "C_COORD" "C_COORD"; small_copy 2 2 3 "" ""]]}
    (upd accept_log_ {[1 := small_copy 4 1 1 "COORD" ""]} (small_node 1)).

Lemma new_leader_log_witness :
  ∃ s', (MergeAcceptLogsFromPromises ;; FillMissingNoOps) small_merging = Ok (tt, s') ∧
    last_seqnum_ s' = 3 ∧ is_Some (accept_log_ s' !! 2).
Proof.
  assert (value ((MergeAcceptLogsFromPromises ;; FillMissingNoOps) small_merging) = Some tt)
    as (s' & H)%value_Ok by (vm_compute; reflexivity).
  destruct (new_leader_log small_merging s' H) as (H1 & H2 & _ & _).
  assert (last_seqnum_ s' = 3) as H3 by (rewrite H1; vm_compute; reflexivity).
  exists s'. split_and!; [done..|]. apply H2. rewrite H3. done.
Defined.

Lemma noop_stops_execution_witness :
  SequentiallyExecuteCommittedEntries
    (upd entries_to_commit_ {[1 := MkCommitEntry (MkBallot 1 1) 1 noop_request "" ClientRequest_default ""]}
       (small_node 2)) = Fault InvalidArgument.
Proof. by eapply noop_stops_execution. Defined.
