(* ===== verification/RequestProofs.v ===== *)
(** * Client requests: duplicates, locks, proposals

    A duplicate touches nothing, a rejected request leaves every lock as it
    was, and a fresh request is given the next sequence number and proposed to
    exactly the cluster. *)
From S2P Require Import Prelude Text Messages Node Ledger LedgerSpec LedgerProofs Elections.
From S2P Require Import TwoPhase Requests ElectionProofs.
#[local] Open Scope Z_scope.

(** A request the leader has to lock and propose. *)
Record fresh_transfer (s : PaxosNode) (r : ClientRequest) (f t : Z) : Prop := {
  ft_leader : role_ s = LEADER;
  ft_from : rq_from_account r ≠ ""%string;
  ft_answered : answered s r = false;
  ft_seen : seen_ts s r = false;
  ft_write : rq_read_only r = false;
  ft_client : rq_two_pc_msg r ≠ "PREPARE"%string;
  ft_names : names r f t }.

(** A duplicate is inert. A request the leader has already answered, or
    whose timestamp is pending or completed, is acknowledged and changes
    nothing else: no lock is taken, no entry proposed. *)
Theorem duplicate_is_inert (r : ClientRequest) (c : SendClientRequestCallData) (s : PaxosNode) :
  role_ s = LEADER → answered s r || seen_ts s r = true →
  ProcessClientRequest r c s = Ok (tt, sent [RespondClient (cd_id c)] s).
Proof.
  intros Hr Hd. unfold ProcessClientRequest. destruct (rq_from_account r ==s ""); [done|].
  run_goal. rewrite Hr. role_tests. cbn [negb].
  destruct (answered s r); [done|]. simpl in Hd. by rewrite Hd.
Qed.

(** The request once the early returns are behind it. *)
Lemma Process_fresh r c s f t :
  fresh_transfer s r f t →
  ProcessClientRequest r c s =
    (a ← lock_client r f t; if a ==s Rejected then respond c else propose r c a) s.
Proof.
  intros [Hr Hf Ha Hs Hro Hp (Nf & Nt & _)]. unfold ProcessClientRequest.
  rewrite (bool_decide_eq_false_2 _ Hf), (bool_decide_eq_false_2 _ Hp).
  rewrite (bind_Ok _ _ _ _ _ (eq_refl : gets id s = Ok (s, s))).
  rewrite Hr, Ha, Hs, Hro. role_tests. cbn [negb].
  rewrite (bind_Ok _ _ _ _ _ (stoiM_ok _ _ _ Nf)).
  by rewrite (bind_Ok _ _ _ _ _ (stoiM_ok _ _ _ Nt)).
Qed.

Definition holding (l : gset Z) (s : PaxosNode) : PaxosNode := upd balance_locks_ l s.
Lemma holding_same s : holding (balance_locks_ s) s = s.
Proof. by destruct s. Qed.

Lemma lock_client_eq r f t s :
  names r f t →
  lock_client r f t s =
    if decide (f ∈ balance_locks_ s) then Ok (Rejected, s)
    else if shard_of s f =? shard_of s t then
      if decide (t ∈ {[f]} ∪ balance_locks_ s)
      then Ok (Rejected, s)
      else Ok (IntraShard, holding ({[t]} ∪ ({[f]} ∪ balance_locks_ s)) s)
    else (when (negb (seen_ts s r)) (send_prepare r t) ;; mret Coordinator)
           (holding ({[f]} ∪ balance_locks_ s) s).
Proof.
  intros (_ & _ & Vf & Vt). unfold lock_client.
  rewrite (bind_Ok _ _ _ _ _ (eq_refl : gets (λ n, shard_of n f =? shard_of n t) s = Ok (_, s))).
  unfold mbind at 1, M_bind at 1. rewrite (try_lock_eq f s Vf).
  destruct (decide (f ∈ balance_locks_ s)) as [Hin|Hnin]; [done|]. cbn [negb].
  change (upd balance_locks_ ?l s) with (holding l s).
  destruct (shard_of s f =? shard_of s t); [|done].
  unfold mbind at 1, M_bind at 1. rewrite (try_lock_eq t _ Vt). unfold holding. simp_upd.
  destruct (decide (t ∈ _)); [|done]. cbn [negb].
  rewrite (bind_Ok _ _ _ _ _ (unlock_eq f _ Vf)). simp_upd.
  replace (({[f]} ∪ balance_locks_ s) ∖ {[f]}) with (balance_locks_ s) by set_solver.
  by destruct s.
Qed.

(** What [propose] writes: the next sequence number, the entry in the log, the
    pending table and the leader's own vote, and one Accept per cluster peer. *)
Definition proposal (s : PaxosNode) (r : ClientRequest) (a : Admission) : AcceptedEntry :=
  MkAcceptedEntry (current_ballot_ s) (last_seqnum_ s + 1) r (node_id_ s)
    (admission_status a) (admission_m a r) 0 "".

Record proposed (r : ClientRequest) (c : SendClientRequestCallData) (a : Admission)
    (s s' : PaxosNode) : Prop := {
  pr_seqnum : last_seqnum_ s' = last_seqnum_ s + 1;
  pr_log : accept_log_ s' = <[last_seqnum_ s + 1 := proposal s r a]> (accept_log_ s);
  pr_pending : pending_entries_ s' = <[last_seqnum_ s + 1 := proposal s r a]> (pending_entries_ s);
  pr_call : pending_client_calls_ s' !! (last_seqnum_ s + 1) = Some c;
  pr_vote : node_id_ s ∈ count_in (accepted_count_ s') (last_seqnum_ s + 1)
                           (counter (current_ballot_ s));
  pr_claimed : rq_timestamp r ∈ pending_or_completed_ts_ s';
  pr_digest : digest_to_seqnum_ s' !! rq_timestamp r = Some (last_seqnum_ s + 1);
  pr_sent : outbox_ s' =
    outbox_ s ++ ((λ p, SendAcceptTo p (proposal s r a)) <$> cluster_peers s);
  pr_accounts : accounts_ s' = accounts_ s;
  pr_locks : balance_locks_ s' = balance_locks_ s;
  pr_leaders : cluster_leaders_ s' = cluster_leaders_ s }.

Lemma propose_proposed r c a s :
  seen_ts s r = false → wp no_fault (propose r c a) s (λ _ s', proposed r c a s s').
Proof.
  intros Hs. unfold propose, log_line.
  wp_run_with ltac:(rewrite ?Hs). all: try discriminate.
  eapply wp_returns; [apply to_cluster_eq|].
  split; unfold sent; simp_upd; try reflexivity; try apply lookup_insert_eq; [|set_solver].
  rewrite count_in_insert. set_solver.
Qed.

(** A request that cannot have its locks is refused without a trace. When
    the sender's account is locked, or the receiver's is (in the same shard),
    or a client pays itself, the leader acknowledges the call and keeps no
    lock, no timestamp, no sequence number and no log entry. *)
Theorem rejected_request_is_inert (r : ClientRequest) (c : SendClientRequestCallData)
    (s : PaxosNode) (f t : Z) :
  fresh_transfer s r f t →
  (f ∈ balance_locks_ s ∨ (shard_of s f = shard_of s t ∧ (t ∈ balance_locks_ s ∨ f = t))) →
  ProcessClientRequest r c s = Ok (tt, sent [RespondClient (cd_id c)] s).
Proof.
  intros Hf Hl. rewrite (Process_fresh r c s f t Hf).
  enough (lock_client r f t s = Ok (Rejected, s)) as Hrej.
  { by rewrite (bind_Ok _ _ _ _ _ Hrej), bool_decide_eq_true_2 by done. }
  rewrite (lock_client_eq r f t s (ft_names _ _ _ _ Hf)).
  case_decide as Hin; [done|]. destruct Hl as [|[Hsh Ht]]; [done|].
  rewrite Hsh, Z.eqb_refl, decide_True by set_solver. done.
Qed.

(** C17: a fresh intra-shard request on free accounts is proposed: both
    accounts are locked, the request takes the next sequence number under the
    leader's ballot, enters the log and the pending table with the leader's
    own vote and its call, its timestamp is claimed, and an Accept of exactly
    that entry goes to each other node of the cluster and to nobody else. No
    balance changes. *)
Theorem intra_shard_request_is_proposed (r : ClientRequest) (c : SendClientRequestCallData)
    (s : PaxosNode) (f t : Z) :
  fresh_transfer s r f t → shard_of s f = shard_of s t →
  f ∉ balance_locks_ s → t ∉ balance_locks_ s → f ≠ t →
  ∃ s', ProcessClientRequest r c s = Ok (tt, s') ∧
    proposed r c IntraShard (holding ({[t]} ∪ ({[f]} ∪ balance_locks_ s)) s) s'.
Proof.
  intros Hf Hsh Hnf Hnt Hne. rewrite (Process_fresh r c s f t Hf).
  assert (lock_client r f t s = Ok (IntraShard, holding ({[t]} ∪ ({[f]} ∪ balance_locks_ s)) s))
    as Hl.
  { rewrite (lock_client_eq r f t s (ft_names _ _ _ _ Hf)), decide_False by done.
    by rewrite Hsh, Z.eqb_refl, decide_False by set_solver. }
  rewrite (bind_Ok _ _ _ _ _ Hl), bool_decide_eq_false_2 by done.
  apply wp_total, propose_proposed. exact (ft_seen _ _ _ _ Hf).
Qed.

(** The PREPARE of a cross-shard transfer, and the bookkeeping of its timeout. *)
Definition prepare_request (s : PaxosNode) (r : ClientRequest) : ClientRequest :=
  upd rq_from_node (node_id_ s) (upd rq_two_pc_msg "PREPARE"%string r).

Definition prepare_noted (s : PaxosNode) (r : ClientRequest) : PaxosNode :=
  let v := in_flight_two_pc_prepares_ s in
  let msg := MkTwoPCMsg "" "" "" 0 (prepare_request s r) in
  upd in_flight_two_pc_prepares_
    (vec_set v (rq_timestamp r)
      (upd if_sent true (upd if_last_send (now_ s)
        (upd if_msg msg (vec_get InFlight_default v (rq_timestamp r)))))) s.

Lemma send_prepare_eq r t s :
  vec_in (in_flight_two_pc_prepares_ s) (rq_timestamp r) = true →
  leader_of_cluster s (shard_of s t) ∈ peer_stubs_ s →
  send_prepare r t s =
    Ok (tt, sent [SendClientRequestTo (leader_of_cluster s (shard_of s t)) (prepare_request s r)]
              (prepare_noted s r)).
Proof.
  intros Hv Hp. unfold send_prepare, at_prepares. run_goal. rewrite Hv. run_goal.
  by apply send_to_eq.
Qed.

(** C18: a fresh cross-shard request on a free sender's account starts two-phase
    commit. The sender's account is locked, not the receiver's; a PREPARE
    carrying the request and the name of this node goes to the leader of the
    receiver's cluster, and is noted for the timeout; and the coordinator's
    entry, marked [COORD], is proposed in the own cluster. *)
Theorem cross_shard_request_prepares (r : ClientRequest) (c : SendClientRequestCallData)
    (s : PaxosNode) (f t : Z) :
  fresh_transfer s r f t → shard_of s f ≠ shard_of s t → f ∉ balance_locks_ s →
  vec_in (in_flight_two_pc_prepares_ s) (rq_timestamp r) = true →
  leader_of_cluster s (shard_of s t) ∈ peer_stubs_ s →
  let prepare := SendClientRequestTo (leader_of_cluster s (shard_of s t)) (prepare_request s r) in
  ∃ s', ProcessClientRequest r c s = Ok (tt, s') ∧
    proposed r c Coordinator
      (sent [prepare] (prepare_noted (holding ({[f]} ∪ balance_locks_ s) s) r)) s'.
Proof.
  intros Hf Hsh Hnf Hv Hp prepare. rewrite (Process_fresh r c s f t Hf).
  assert (lock_client r f t s = Ok (Coordinator,
    sent [prepare] (prepare_noted (holding ({[f]} ∪ balance_locks_ s) s) r))) as Hl.
  { rewrite (lock_client_eq r f t s (ft_names _ _ _ _ Hf)), decide_False by done.
    rewrite (proj2 (Z.eqb_neq _ _) Hsh).
    change (seen_ts s r) with (seen_ts (holding ({[f]} ∪ balance_locks_ s) s) r).
    rewrite (ft_seen _ _ _ _ Hf : seen_ts (holding _ s) r = false). cbn [negb when].
    by rewrite (bind_Ok _ _ _ _ _ (send_prepare_eq r t (holding ({[f]} ∪ balance_locks_ s) s) Hv Hp)). }
  rewrite (bind_Ok _ _ _ _ _ Hl), bool_decide_eq_false_2 by done.
  apply wp_total, propose_proposed. exact (ft_seen _ _ _ _ Hf).
Qed.

(** A PREPARE at the leader of the receiver's cluster. *)
Record fresh_prepare (s : PaxosNode) (r : ClientRequest) (f t : Z) : Prop := {
  fp_leader : role_ s = LEADER;
  fp_from : rq_from_account r ≠ ""%string;
  fp_answered : answered s r = false;
  fp_seen : seen_ts s r = false;
  fp_write : rq_read_only r = false;
  fp_client : rq_two_pc_msg r = "PREPARE"%string;
  fp_names : names r f t }.

(** The sender of a PREPARE is taken to lead the sender's cluster. *)
Definition leader_learnt (s : PaxosNode) (r : ClientRequest) (f : Z) : PaxosNode :=
  if rq_from_node r =? leader_of_cluster s (shard_of s f) then s
  else upd cluster_leaders_ (<[shard_of s f := rq_from_node r]> (cluster_leaders_ s)) s.

Lemma lock_participant_eq r f t s :
  valid_index t = true →
  lock_participant r f t s =
    Ok (if decide (t ∈ balance_locks_ s) then (Participant true, leader_learnt s r f)
        else (Participant false, holding ({[t]} ∪ balance_locks_ s) (leader_learnt s r f))).
Proof.
  intros Vt. unfold lock_participant, leader_learnt. run_goal.
  destruct (rq_from_node r =? _); cbn [negb]; run_goal; rewrite (try_lock_eq t _ Vt); simp_upd;
    by case_decide.
Qed.

(** C19: the participant answers a PREPARE that is new to it, at the leader of
    its cluster, through its own log. The receiver's
    account is locked when it is free and the entry is marked [P]; when the
    account is taken the entry is marked [A], no lock is taken, and either way
    the entry is proposed in the participant's cluster, and the sender is
    recorded as leader of the coordinating cluster. *)
Theorem prepare_is_proposed (r : ClientRequest) (c : SendClientRequestCallData)
    (s : PaxosNode) (f t : Z) :
  fresh_prepare s r f t →
  ∃ s', ProcessClientRequest r c s = Ok (tt, s') ∧
    leader_of_cluster s' (shard_of s f) = rq_from_node r ∧
    if decide (t ∈ balance_locks_ s)
    then proposed r c (Participant true) (leader_learnt s r f) s'
    else proposed r c (Participant false) (holding ({[t]} ∪ balance_locks_ s) (leader_learnt s r f)) s'.
Proof.
  intros [Hr Hf Ha Hs Hro Hp (Nf & Nt & _ & Vt)]. unfold ProcessClientRequest.
  rewrite (bool_decide_eq_false_2 _ Hf), (bool_decide_eq_true_2 _ Hp).
  rewrite (bind_Ok _ _ _ _ _ (eq_refl : gets id s = Ok (s, s))).
  rewrite Hr, Ha, Hs, Hro. role_tests. cbn [negb].
  rewrite (bind_Ok _ _ _ _ _ (stoiM_ok _ _ _ Nf)), (bind_Ok _ _ _ _ _ (stoiM_ok _ _ _ Nt)).
  assert (leader_of_cluster (leader_learnt s r f) (shard_of s f) = rq_from_node r) as Hl.
  { unfold leader_learnt. destruct (Z.eqb_spec (rq_from_node r) (leader_of_cluster s (shard_of s f)));
      [done|]. unfold leader_of_cluster. simp_upd. by rewrite lookup_insert_eq. }
  assert (∀ b t', seen_ts t' r = false → leader_of_cluster t' (shard_of s f) = rq_from_node r →
    wp no_fault (propose r c (Participant b)) t' (λ _ s',
      leader_of_cluster s' (shard_of s f) = rq_from_node r ∧ proposed r c (Participant b) t' s')) as Hgo.
  { intros b t' Ht Hlt. eapply wp_mono; [|by apply propose_proposed].
    intros ? s' Hpr. split; [|done]. unfold leader_of_cluster in *.
    by rewrite (pr_leaders _ _ _ _ _ Hpr). }
  assert (seen_ts (leader_learnt s r f) r = false) as Hs' by (unfold leader_learnt; by case_match).
  unfold mbind, M_bind. rewrite (lock_participant_eq r f t s Vt).
  case_decide; rewrite bool_decide_eq_false_2 by done; by apply wp_total, Hgo.
Qed.

(** ** The theorems at work *)
Definition leading : PaxosNode := upd role_ LEADER (upd leader_id_ 1 (small_node 1)).
Definition call_of (r : ClientRequest) : SendClientRequestCallData := MkCall 9 r.
Definition local_transfer : ClientRequest := transfer 3 "1" "2" 4.
Definition remote_transfer : ClientRequest := transfer 4 "1" "3" 4.

Lemma leading_fresh (r : ClientRequest) (f t : Z) :
  rq_from_account r ≠ ""%string → rq_read_only r = false → rq_two_pc_msg r ≠ "PREPARE"%string →
  names r f t → fresh_transfer leading r f t.
Proof. intros. split; try done; by unfold seen_ts, leading. Qed.

Lemma duplicate_is_inert_witness :
  ProcessClientRequest local_transfer (call_of local_transfer)
    (upd pending_or_completed_ts_ {[3]} leading)
  = Ok (tt, sent [RespondClient 9] (upd pending_or_completed_ts_ {[3]} leading)).
Proof. apply (duplicate_is_inert local_transfer (call_of local_transfer)); [done|reflexivity]. Defined.

Lemma rejected_request_is_inert_witness :
  ProcessClientRequest local_transfer (call_of local_transfer) (holding {[2]} leading)
  = Ok (tt, sent [RespondClient 9] (holding {[2]} leading)).
Proof.
  apply (rejected_request_is_inert local_transfer (call_of local_transfer) _ 1 2).
  - split; try done; by unfold seen_ts, leading.
  - right. split; [reflexivity|]. left. by apply (bool_decide_unpack _).
Defined.

Lemma intra_shard_request_is_proposed_witness :
  ∃ s', ProcessClientRequest local_transfer (call_of local_transfer) leading = Ok (tt, s') ∧
    proposed local_transfer (call_of local_transfer) IntraShard
      (holding ({[2]} ∪ ({[1]} ∪ ∅)) leading) s'.
Proof.
  apply (intra_shard_request_is_proposed local_transfer (call_of local_transfer) leading 1 2).
  - by apply leading_fresh.
  - reflexivity.
  - by apply (bool_decide_unpack _).
  - by apply (bool_decide_unpack _).
  - lia.
Defined.

Lemma cross_shard_request_prepares_witness :
  ∃ s', ProcessClientRequest remote_transfer (call_of remote_transfer) leading = Ok (tt, s') ∧
    proposed remote_transfer (call_of remote_transfer) Coordinator
      (sent [SendClientRequestTo 4 (prepare_request leading remote_transfer)]
        (prepare_noted (holding ({[1]} ∪ ∅) leading) remote_transfer)) s'.
Proof.
  apply (cross_shard_request_prepares remote_transfer (call_of remote_transfer) leading 1 3).
  - by apply leading_fresh.
  - by vm_compute.
  - by apply (bool_decide_unpack _).
  - reflexivity.
  - apply (bool_decide_unpack _). by vm_compute.
Defined.

Lemma prepare_is_proposed_witness :
  let s := upd role_ LEADER (upd leader_id_ 4 (small_node 4)) in
  let r := upd rq_from_node 2 (upd rq_two_pc_msg "PREPARE"%string remote_transfer) in
  ∃ s', ProcessClientRequest r (call_of r) s = Ok (tt, s') ∧
    leader_of_cluster s' 1 = 2 ∧
    proposed r (call_of r) (Participant false) (holding ({[3]} ∪ ∅) (leader_learnt s r 1)) s'.
Proof.
  intros s r. apply (prepare_is_proposed r (call_of r) s 1 3).
  split; try done; by unfold seen_ts.
Defined.
