(* ===== verification/Frames.v ===== *)
(** * Frames: what does not touch the term, what cannot abort

    The term of a node is its role, the leader it follows and its ballots. Most
    handlers leave it alone, and only one of them can call [std::abort]; the
    lemmas of this file say so, as hints for the proofs of [Safety] and
    [Promises]. *)
From S2P Require Import Prelude Text Messages Node Ledger Elections TwoPhase Replication Requests.
From S2P Require Import NewView Control ElectionProofs Machine.
#[local] Open Scope Z_scope.

(** ** The term *)
Definition term (s : PaxosNode) : Z * Role * Z * Ballot * Ballot * bool :=
  (node_id_ s, role_ s, leader_id_ s, current_ballot_ s, highest_promised_ballot_ s,
   waiting_for_promises_ s).

(** Most of the program does not touch it. *)
Ltac term_frame := unfold_ledger_ops; solve_keeps.

Lemma StartElectionTimer_term : respects (keeps term) StartElectionTimer.
Proof. unfold StartElectionTimer. term_frame. Qed.
#[export] Hint Resolve StartElectionTimer_term : respects.
Lemma ResetElectionTimer_term : respects (keeps term) ResetElectionTimer.
Proof. unfold ResetElectionTimer. term_frame. Qed.
#[export] Hint Resolve ResetElectionTimer_term : respects.
Lemma StopElectionTimer_term : respects (keeps term) StopElectionTimer.
Proof. unfold StopElectionTimer. term_frame. Qed.
#[export] Hint Resolve StopElectionTimer_term : respects.
Lemma SendPromise_term : respects (keeps term) SendPromise.
Proof. unfold SendPromise. term_frame. Qed.
#[export] Hint Resolve SendPromise_term : respects.
Lemma RespondAndClearNewViewCallData_term : respects (keeps term) RespondAndClearNewViewCallData.
Proof. unfold RespondAndClearNewViewCallData. term_frame. Qed.
#[export] Hint Resolve RespondAndClearNewViewCallData_term : respects.
Lemma reconcile_wal_demoted_term : respects (keeps term) reconcile_wal_demoted.
Proof. unfold reconcile_wal_demoted, reconcile_demoted. term_frame. Qed.
#[export] Hint Resolve reconcile_wal_demoted_term : respects.
Lemma reconcile_wal_elected_term : respects (keeps term) reconcile_wal_elected.
Proof. unfold reconcile_wal_elected, reconcile_elected. term_frame. Qed.
#[export] Hint Resolve reconcile_wal_elected_term : respects.
Lemma ExecuteTransaction_term r q st : respects (keeps term) (ExecuteTransaction r q st).
Proof. unfold ExecuteTransaction. term_frame. Qed.
#[export] Hint Resolve ExecuteTransaction_term : respects.
Lemma SendClientReply_term c r q b : respects (keeps term) (SendClientReply c r q b).
Proof. unfold SendClientReply, cache_reply. term_frame. Qed.
#[export] Hint Resolve SendClientReply_term : respects.
Lemma SendClientReplyTwoPC_term e q b : respects (keeps term) (SendClientReplyTwoPC e q b).
Proof. unfold SendClientReplyTwoPC, cache_reply. term_frame. Qed.
#[export] Hint Resolve SendClientReplyTwoPC_term : respects.
Lemma SendReplyToCoordLeader_term c r q st : respects (keeps term) (SendReplyToCoordLeader c r q st).
Proof. unfold SendReplyToCoordLeader. term_frame. Qed.
#[export] Hint Resolve SendReplyToCoordLeader_term : respects.
Lemma ExecuteRepeatedTwoPCEntry_term e : respects (keeps term) (ExecuteRepeatedTwoPCEntry e).
Proof. unfold ExecuteRepeatedTwoPCEntry, record_outcome. term_frame. Qed.
#[export] Hint Resolve ExecuteRepeatedTwoPCEntry_term : respects.
Lemma StartSecondPhase_term m : respects (keeps term) (StartSecondPhase m).
Proof. unfold StartSecondPhase, at_prepares, at_transactions, count_phase2. term_frame. Qed.
#[export] Hint Resolve StartSecondPhase_term : respects.
Lemma HandleTwoPCMsg_term m : respects (keeps term) (HandleTwoPCMsg m).
Proof. unfold HandleTwoPCMsg, HandlePreparedAndAborted, HandleCommittedAndAborted, at_transactions. term_frame. Qed.
#[export] Hint Resolve HandleTwoPCMsg_term : respects.
Lemma TransactionRetryLoop_turn_term : respects (keeps term) TransactionRetryLoop_turn.
Proof. unfold TransactionRetryLoop_turn, retry_slot, HandlePreparedTimeout, at_prepares, count_phase2. term_frame. Qed.
#[export] Hint Resolve TransactionRetryLoop_turn_term : respects.
Lemma answer_executed_term e st b : respects (keeps term) (answer_executed e st b).
Proof. unfold answer_executed, take_call, take_queued. term_frame. Qed.
#[export] Hint Resolve answer_executed_term : respects.
Lemma execute_next_term : respects (keeps term) execute_next.
Proof. unfold execute_next. term_frame. Qed.
#[export] Hint Resolve execute_next_term : respects.
Lemma execute_loop_term n : respects (keeps term) (execute_loop n).
Proof. induction n; simpl; term_frame. Qed.
#[export] Hint Resolve execute_loop_term : respects.
Lemma SequentiallyExecuteCommittedEntries_term : respects (keeps term) SequentiallyExecuteCommittedEntries.
Proof. unfold SequentiallyExecuteCommittedEntries. term_frame. Qed.
#[export] Hint Resolve SequentiallyExecuteCommittedEntries_term : respects.
Lemma HandleAccept_term a : respects (keeps term) (HandleAccept a).
Proof. unfold HandleAccept, Commit_entry, BroadcastCommit, insert_commit. term_frame. Qed.
#[export] Hint Resolve HandleAccept_term : respects.
Lemma HandleCommit_term c : respects (keeps term) (HandleCommit c).
Proof. unfold HandleCommit, insert_commit. term_frame. Qed.
#[export] Hint Resolve HandleCommit_term : respects.
Lemma HandleMoveOn_term : respects (keeps term) HandleMoveOn.
Proof. unfold HandleMoveOn, move_on_call, reset_in_flights. term_frame. Qed.
#[export] Hint Resolve HandleMoveOn_term : respects.
Lemma HeartbeatLoop_turn_term : respects (keeps term) HeartbeatLoop_turn.
Proof. unfold HeartbeatLoop_turn. term_frame. Qed.
#[export] Hint Resolve HeartbeatLoop_turn_term : respects.
Lemma HandleHeartbeat_term h : respects (keeps term) (HandleHeartbeat h).
Proof. unfold HandleHeartbeat. term_frame. Qed.
#[export] Hint Resolve HandleHeartbeat_term : respects.
Lemma OnNewViewCallFinished_term c : respects (keeps term) (OnNewViewCallFinished c).
Proof. unfold OnNewViewCallFinished. term_frame. Qed.
#[export] Hint Resolve OnNewViewCallFinished_term : respects.
Lemma MergeAcceptLogsFromPromises_term : respects (keeps term) MergeAcceptLogsFromPromises.
Proof. unfold MergeAcceptLogsFromPromises, seed_entry. term_frame. Qed.
#[export] Hint Resolve MergeAcceptLogsFromPromises_term : respects.
Lemma FillMissingNoOps_term : respects (keeps term) FillMissingNoOps.
Proof. unfold FillMissingNoOps. term_frame. Qed.
#[export] Hint Resolve FillMissingNoOps_term : respects.
Lemma SendNewView_term : respects (keeps term) SendNewView.
Proof. unfold SendNewView, SendNewView_to. term_frame. Qed.
#[export] Hint Resolve SendNewView_term : respects.
Lemma InformClustersOfElection_term : respects (keeps term) InformClustersOfElection.
Proof. unfold InformClustersOfElection. term_frame. Qed.
#[export] Hint Resolve InformClustersOfElection_term : respects.

Lemma ProcessClientRequest_term r c : respects (keeps term) (ProcessClientRequest r c).
Proof.
  unfold ProcessClientRequest, forward_request, process_read_only, cache_reply, propose,
    lock_client, lock_participant, send_prepare, at_prepares. term_frame.
Qed.
#[export] Hint Resolve ProcessClientRequest_term : respects.
Lemma HandleClientRequest_term r c : respects (keeps term) (HandleClientRequest r c).
Proof. unfold HandleClientRequest, enqueue. term_frame. Qed.
Lemma OnElectionComplete_term : respects (keeps term) OnElectionComplete.
Proof. unfold OnElectionComplete. term_frame. Qed.
#[export] Hint Resolve HandleClientRequest_term OnElectionComplete_term : respects.

(** ** The call to [std::abort]

    [forward_request] is its only source; nothing else can end in it. The two
    faults of the call objects are not the node's own either. *)
Definition no_abort : fault → Prop := λ f,
  f ≠ Aborted ∧ f ≠ UseAfterFree ∧ f ≠ DoubleFinish.

Lemma stoi_no_abort str f : stoi str = inl f → no_abort f.
Proof.
  unfold stoi. intros H. repeat (case_match; simplify_eq/=; try done).
Qed.
Lemma stoiM_no_abort str : faults no_abort (stoiM (S:=PaxosNode) str).
Proof.
  unfold stoiM. intros s f. destruct (stoi str) eqn:E; [|done].
  intros [= <-]. by eapply stoi_no_abort.
Qed.
#[export] Hint Resolve stoiM_no_abort : faults.

Ltac unfold_ledger_ops' :=
  unfold log_at, digest_at, wal_account, undo_delta, set_account, account_at, unlock, try_lock,
    wal_erase, wal_write, mark_executed, mark_modified, emit, respond, log_line,
    send_to, send_client, to_cluster, subscript in *.
Ltac abort_frame := unfold_ledger_ops'; solve_faults.

Lemma StartElectionTimer_no_abort : faults no_abort StartElectionTimer.
Proof. unfold StartElectionTimer. abort_frame. Qed.
#[export] Hint Resolve StartElectionTimer_no_abort : faults.
Lemma ResetElectionTimer_no_abort : faults no_abort ResetElectionTimer.
Proof. unfold ResetElectionTimer. abort_frame. Qed.
#[export] Hint Resolve ResetElectionTimer_no_abort : faults.
Lemma StopElectionTimer_no_abort : faults no_abort StopElectionTimer.
Proof. unfold StopElectionTimer. abort_frame. Qed.
#[export] Hint Resolve StopElectionTimer_no_abort : faults.
Lemma SendPromise_no_abort : faults no_abort SendPromise.
Proof. unfold SendPromise. abort_frame. Qed.
#[export] Hint Resolve SendPromise_no_abort : faults.
Lemma RespondAndClearNewViewCallData_no_abort : faults no_abort RespondAndClearNewViewCallData.
Proof. unfold RespondAndClearNewViewCallData. abort_frame. Qed.
#[export] Hint Resolve RespondAndClearNewViewCallData_no_abort : faults.
Lemma reconcile_wal_demoted_no_abort : faults no_abort reconcile_wal_demoted.
Proof. unfold reconcile_wal_demoted, reconcile_demoted. abort_frame. Qed.
#[export] Hint Resolve reconcile_wal_demoted_no_abort : faults.
Lemma reconcile_wal_elected_no_abort : faults no_abort reconcile_wal_elected.
Proof. unfold reconcile_wal_elected, reconcile_elected. abort_frame. Qed.
#[export] Hint Resolve reconcile_wal_elected_no_abort : faults.
Lemma ExecuteTransaction_no_abort r q st : faults no_abort (ExecuteTransaction r q st).
Proof. unfold ExecuteTransaction. abort_frame. Qed.
#[export] Hint Resolve ExecuteTransaction_no_abort : faults.
Lemma SendClientReply_no_abort c r q b : faults no_abort (SendClientReply c r q b).
Proof. unfold SendClientReply, cache_reply. abort_frame. Qed.
#[export] Hint Resolve SendClientReply_no_abort : faults.
Lemma SendClientReplyTwoPC_no_abort e q b : faults no_abort (SendClientReplyTwoPC e q b).
Proof. unfold SendClientReplyTwoPC, cache_reply. abort_frame. Qed.
#[export] Hint Resolve SendClientReplyTwoPC_no_abort : faults.
Lemma SendReplyToCoordLeader_no_abort c r q st : faults no_abort (SendReplyToCoordLeader c r q st).
Proof. unfold SendReplyToCoordLeader. abort_frame. Qed.
#[export] Hint Resolve SendReplyToCoordLeader_no_abort : faults.
Lemma ExecuteRepeatedTwoPCEntry_no_abort e : faults no_abort (ExecuteRepeatedTwoPCEntry e).
Proof. unfold ExecuteRepeatedTwoPCEntry, record_outcome. abort_frame. Qed.
#[export] Hint Resolve ExecuteRepeatedTwoPCEntry_no_abort : faults.
Lemma StartSecondPhase_no_abort m : faults no_abort (StartSecondPhase m).
Proof. unfold StartSecondPhase, at_prepares, at_transactions, count_phase2. abort_frame. Qed.
#[export] Hint Resolve StartSecondPhase_no_abort : faults.
Lemma HandleTwoPCMsg_no_abort m : faults no_abort (HandleTwoPCMsg m).
Proof. unfold HandleTwoPCMsg, HandlePreparedAndAborted, HandleCommittedAndAborted, at_transactions. abort_frame. Qed.
#[export] Hint Resolve HandleTwoPCMsg_no_abort : faults.
Lemma TransactionRetryLoop_turn_no_abort : faults no_abort TransactionRetryLoop_turn.
Proof. unfold TransactionRetryLoop_turn, retry_slot, HandlePreparedTimeout, at_prepares, count_phase2. abort_frame. Qed.
#[export] Hint Resolve TransactionRetryLoop_turn_no_abort : faults.
Lemma answer_executed_no_abort e st b : faults no_abort (answer_executed e st b).
Proof. unfold answer_executed, take_call, take_queued. abort_frame. Qed.
#[export] Hint Resolve answer_executed_no_abort : faults.
Lemma execute_next_no_abort : faults no_abort execute_next.
Proof. unfold execute_next. abort_frame. Qed.
#[export] Hint Resolve execute_next_no_abort : faults.
Lemma execute_loop_no_abort n : faults no_abort (execute_loop n).
Proof. induction n; simpl; abort_frame. Qed.
#[export] Hint Resolve execute_loop_no_abort : faults.
Lemma SequentiallyExecuteCommittedEntries_no_abort : faults no_abort SequentiallyExecuteCommittedEntries.
Proof. unfold SequentiallyExecuteCommittedEntries. abort_frame. Qed.
#[export] Hint Resolve SequentiallyExecuteCommittedEntries_no_abort : faults.
Lemma HandleAccept_no_abort a : faults no_abort (HandleAccept a).
Proof. unfold HandleAccept, Commit_entry, BroadcastCommit, insert_commit. abort_frame. Qed.
#[export] Hint Resolve HandleAccept_no_abort : faults.
Lemma HandleCommit_no_abort c : faults no_abort (HandleCommit c).
Proof. unfold HandleCommit, insert_commit. abort_frame. Qed.
#[export] Hint Resolve HandleCommit_no_abort : faults.
Lemma HandleMoveOn_no_abort : faults no_abort HandleMoveOn.
Proof. unfold HandleMoveOn, move_on_call, reset_in_flights. abort_frame. Qed.
#[export] Hint Resolve HandleMoveOn_no_abort : faults.
Lemma HeartbeatLoop_turn_no_abort : faults no_abort HeartbeatLoop_turn.
Proof. unfold HeartbeatLoop_turn. abort_frame. Qed.
#[export] Hint Resolve HeartbeatLoop_turn_no_abort : faults.
Lemma HandleHeartbeat_no_abort h : faults no_abort (HandleHeartbeat h).
Proof. unfold HandleHeartbeat. abort_frame. Qed.
#[export] Hint Resolve HandleHeartbeat_no_abort : faults.
Lemma OnNewViewCallFinished_no_abort c : faults no_abort (OnNewViewCallFinished c).
Proof. unfold OnNewViewCallFinished. abort_frame. Qed.
#[export] Hint Resolve OnNewViewCallFinished_no_abort : faults.
Lemma MergeAcceptLogsFromPromises_no_abort : faults no_abort MergeAcceptLogsFromPromises.
Proof. unfold MergeAcceptLogsFromPromises, seed_entry. abort_frame. Qed.
#[export] Hint Resolve MergeAcceptLogsFromPromises_no_abort : faults.
Lemma FillMissingNoOps_no_abort : faults no_abort FillMissingNoOps.
Proof. unfold FillMissingNoOps. abort_frame. Qed.
#[export] Hint Resolve FillMissingNoOps_no_abort : faults.
Lemma SendNewView_no_abort : faults no_abort SendNewView.
Proof. unfold SendNewView, SendNewView_to. abort_frame. Qed.
#[export] Hint Resolve SendNewView_no_abort : faults.
Lemma InformClustersOfElection_no_abort : faults no_abort InformClustersOfElection.
Proof. unfold InformClustersOfElection. abort_frame. Qed.
#[export] Hint Resolve InformClustersOfElection_no_abort : faults.
