(* ===== verification/Calls.v ===== *)
(** * Calls: every call is answered at most once

    A call that reaches the node is an object the node owns: it is answered, or
    kept ([pending_promise_call_], [newview_call_data_], the queue, the calls
    of the pending entries) until a later step answers it. gRPC forbids a
    second answer. The file accounts for the calls the way a linear resource is
    accounted for: [calls s] is the multiset of the calls a node holds or has
    answered, [uses h m P] says that [m], handed the calls [h], neither copies
    one nor makes one up, and hands back those of [P]. *)
From stdpp Require Import gmultiset.
From S2P Require Import Prelude Text Messages Node Ledger Elections TwoPhase Replication Requests.
From S2P Require Import NewView Control ElectionProofs Machine.
#[local] Open Scope Z_scope.

(** The call an output answers. *)
Definition response (o : Output) : option Z :=
  match o with
  | RespondPrepare c _ | RespondNewView c | RespondClient c => Some c
  | _ => None
  end.
Definition responses (l : list Output) : list Z := omap response l.

Definition bag (l : list Z) : gmultiset Z := list_to_set_disj l.
Definition one (c : option Z) : gmultiset Z := bag (option_list c).

Definition queued_ids (q : list (ClientRequest * SendClientRequestCallData)) : list Z :=
  (λ p, cd_id p.2) <$> q.
Definition pending_ids (m : gmap Z SendClientRequestCallData) : list Z :=
  (λ p, cd_id p.2) <$> map_to_list m.

(** The members that hold calls, and the answers given. *)
Definition call_state (s : PaxosNode) :=
  (pending_promise_call_ s, newview_call_data_ s, queued_client_requests_ s,
   pending_client_calls_ s, responses (outbox_ s)).

Definition calls_of (c : option Z * option Z * list (ClientRequest * SendClientRequestCallData)
    * gmap Z SendClientRequestCallData * list Z) : gmultiset Z :=
  let '(p, v, q, m, a) := c in
  one p ⊎ one v ⊎ bag (queued_ids q) ⊎ bag (pending_ids m) ⊎ bag a.
Definition calls (s : PaxosNode) : gmultiset Z := calls_of (call_state s).

Lemma calls_keeps s s' : call_state s' = call_state s → calls s' = calls s.
Proof. unfold calls. by intros ->. Qed.

(** ** Multisets of lists *)
Lemma bag_nil : bag [] = ∅.
Proof. done. Qed.
Lemma bag_cons x l : bag (x :: l) = {[+ x +]} ⊎ bag l.
Proof. done. Qed.
Lemma bag_app l1 l2 : bag (l1 ++ l2) = bag l1 ⊎ bag l2.
Proof. apply list_to_set_disj_app. Qed.
Lemma one_Some c : one (Some c) = {[+ c +]}.
Proof. unfold one, bag. simpl. multiset_solver. Qed.
Lemma one_None : one None = ∅.
Proof. done. Qed.
Lemma bag_NoDup l l' : bag l ⊆ bag l' → NoDup l' → NoDup l.
Proof.
  revert l'. induction l as [|x l IH]; intros l' Hs Hn; [constructor|].
  assert (x ∈ bag l') as Hx%elem_of_list_to_set_disj by (rewrite bag_cons in Hs; multiset_solver).
  apply list_elem_of_split in Hx as (k1 & k2 & ->).
  apply list.NoDup_app in Hn as (N1 & Nd & N2). apply list.NoDup_cons in N2 as [Nx N2].
  assert (bag l ⊆ bag (k1 ++ k2)) as Hl.
  { rewrite bag_app in *. rewrite !bag_cons in Hs. multiset_solver. }
  constructor.
  - intros Hx. apply elem_of_list_to_set_disj in Hx. fold (bag l) in Hx.
    assert (x ∈ bag (k1 ++ k2)) as [?|?]%elem_of_list_to_set_disj%list.elem_of_app
      by multiset_solver; [|done].
    apply (Nd x); [done|left].
  - apply (IH (k1 ++ k2)); [done|]. apply list.NoDup_app. split_and!; [done| |done].
    intros y Hy Hy'. apply (Nd y); [done|by right].
Qed.

Lemma pending_ids_insert m k c :
  bag (pending_ids (<[k := c]> m)) ⊆ bag (pending_ids m) ⊎ {[+ cd_id c +]}.
Proof.
  destruct (m !! k) as [d|] eqn:E.
  - assert (pending_ids m ≡ₚ cd_id d :: pending_ids (delete k m)) as Hm.
    { unfold pending_ids. by rewrite <-(map_to_list_delete m k d E). }
    assert (pending_ids (<[k := c]> m) ≡ₚ cd_id c :: pending_ids (delete k m)) as Hi.
    { unfold pending_ids. rewrite <-insert_delete_eq, map_to_list_insert by apply lookup_delete_eq.
      done. }
    unfold bag. rewrite Hm, Hi. simpl. multiset_solver.
  - assert (pending_ids (<[k := c]> m) ≡ₚ cd_id c :: pending_ids m) as Hi.
    { unfold pending_ids. by rewrite map_to_list_insert. }
    unfold bag. rewrite Hi. simpl. multiset_solver.
Qed.
Lemma pending_ids_delete m k :
  bag (pending_ids (delete k m)) ⊎ one (cd_id <$> m !! k) ⊆ bag (pending_ids m).
Proof.
  destruct (m !! k) as [d|] eqn:E; simpl.
  - assert (pending_ids m ≡ₚ cd_id d :: pending_ids (delete k m)) as Hm.
    { unfold pending_ids. by rewrite <-(map_to_list_delete m k d E). }
    rewrite one_Some. unfold bag. rewrite Hm. simpl. multiset_solver.
  - rewrite delete_id by done. rewrite one_None. multiset_solver.
Qed.

(** ** The accounting of a computation *)
Definition uses {A} (h : gmultiset Z) (m : NodeM A) (P : A → gmultiset Z) : Prop :=
  ∀ s a s', m s = Ok (a, s') → calls s' ⊎ P a ⊆ calls s ⊎ h.

Lemma uses_keeps {A} h (m : NodeM A) : respects (keeps call_state) m → uses h m (λ _, h).
Proof. intros H s a s' E. by rewrite (calls_keeps s s' (H _ _ _ E)). Qed.
Lemma uses_drop {A} h h' (m : NodeM A) P P' :
  uses h m P → h ⊆ h' → (∀ a, P' a ⊆ P a) → uses h' m P'.
Proof.
  intros H Hh HP s a s' E. specialize (H s a s' E). specialize (HP a).
  etrans; [apply (gmultiset_disj_union_mono _ _ _ _ (reflexivity _) HP)|].
  etrans; [exact H|]. by apply gmultiset_disj_union_mono.
Qed.
Lemma uses_bind {A B} h (m : NodeM A) P (k : A → NodeM B) Q :
  uses h m P → (∀ a, uses (P a) (k a) Q) → uses h (m ≫= k) Q.
Proof.
  intros Hm Hk s b s'' E. apply bind_Ok_inv in E as (a & s' & E1 & E2).
  specialize (Hm _ _ _ E1). specialize (Hk a _ _ _ E2). by etrans.
Qed.
Lemma uses_wp {A} h (m : NodeM A) P s (Q : A → PaxosNode → Prop) :
  uses h m P → (∀ a s', calls s' ⊎ P a ⊆ calls s ⊎ h → Q a s') → wp any_fault m s Q.
Proof. intros H HQ. unfold wp. destruct (m s) as [[a s']|] eqn:E; [|done]. apply HQ, (H _ _ _ E). Qed.
Lemma uses_intro {A} h (m : NodeM A) P :
  (∀ s, wp any_fault m s (λ a s', calls s' ⊎ P a ⊆ calls s ⊎ h)) → uses h m P.
Proof. intros H s a s' E. exact (wp_Ok _ _ _ _ _ _ E (H s)). Qed.
Lemma uses_ret {A} h (a : A) P : P a ⊆ h → uses h (mret a) P.
Proof. intros H s a' s' [= -> ->]. by apply gmultiset_disj_union_mono. Qed.
Lemma uses_for_each {X} (l : list X) (g : X → Z) body :
  (∀ x, uses {[+ g x +]} (body x) (λ _, ∅)) →
  uses (bag (g <$> l)) (for_each l body) (λ _, ∅).
Proof.
  intros Hb. induction l as [|x l IH]; [by apply uses_ret|]. rewrite fmap_cons, bag_cons.
  apply (uses_bind _ _ (λ _, bag (g <$> l))); [|intros []; exact IH].
  intros s a s' E. specialize (Hb x _ _ _ E). cbn beta in *.
  generalize dependent (calls s). generalize (calls s') (bag (g <$> l)). clear.
  intros M' D M H. multiset_solver.
Qed.

(** ** What does not touch a call *)
Lemma emit_silent o : response o = None → respects (keeps call_state) (emit o).
Proof.
  intros Ho. unfold emit. apply respects_modify. intros s. unfold keeps, call_state, responses.
  simp_upd. rewrite omap_app. simpl. by rewrite Ho, app_nil_r.
Qed.
#[export] Hint Extern 1 (respects (keeps call_state) (emit _)) =>
  (apply emit_silent; reflexivity) : respects.
Lemma send_to_silent p o : response o = None → respects (keeps call_state) (send_to p o).
Proof. intros Ho. unfold send_to. pose proof (emit_silent o Ho). solve_keeps. Qed.
#[export] Hint Extern 1 (respects (keeps call_state) (send_to _ _)) =>
  (apply send_to_silent; reflexivity) : respects.
Lemma send_client_silent r : respects (keeps call_state) (send_client r).
Proof. unfold send_client. solve_keeps. Qed.
Lemma to_cluster_silent mk :
  (∀ p, response (mk p) = None) → respects (keeps call_state) (to_cluster mk).
Proof. intros Hm. unfold to_cluster. pose proof (λ p, emit_silent _ (Hm p)). solve_keeps. Qed.
#[export] Hint Extern 1 (respects (keeps call_state) (to_cluster _)) =>
  (apply to_cluster_silent; reflexivity) : respects.
#[export] Hint Resolve send_client_silent : respects.

Ltac quiet :=
  unfold log_at, digest_at, set_account, account_at, unlock, try_lock, wal_erase, wal_write,
    mark_executed, mark_modified, stoiM, log_line, subscript in *;
  solve_keeps.

Lemma StartElectionTimer_calls : respects (keeps call_state) StartElectionTimer.
Proof. unfold StartElectionTimer. quiet. Qed.
#[export] Hint Resolve StartElectionTimer_calls : respects.
Lemma ResetElectionTimer_calls : respects (keeps call_state) ResetElectionTimer.
Proof. unfold ResetElectionTimer. quiet. Qed.
Lemma StopElectionTimer_calls : respects (keeps call_state) StopElectionTimer.
Proof. unfold StopElectionTimer. quiet. Qed.
Lemma SetNewLeader_calls i c : respects (keeps call_state) (SetNewLeader i c).
Proof. unfold SetNewLeader. quiet. Qed.
#[export] Hint Resolve ResetElectionTimer_calls StopElectionTimer_calls SetNewLeader_calls : respects.
Lemma ExecuteTransaction_calls r q st : respects (keeps call_state) (ExecuteTransaction r q st).
Proof. unfold ExecuteTransaction. quiet. Qed.
Lemma SendClientReplyTwoPC_calls e q b : respects (keeps call_state) (SendClientReplyTwoPC e q b).
Proof. unfold SendClientReplyTwoPC, cache_reply. quiet. Qed.
Lemma SendReply_None_calls r q st :
  respects (keeps call_state) (SendReplyToCoordLeader None r q st).
Proof. unfold SendReplyToCoordLeader. quiet. Qed.
Lemma StartSecondPhase_calls m : respects (keeps call_state) (StartSecondPhase m).
Proof. unfold StartSecondPhase, at_prepares, at_transactions, count_phase2. quiet. Qed.
#[export] Hint Resolve ExecuteTransaction_calls SendClientReplyTwoPC_calls SendReply_None_calls
  StartSecondPhase_calls : respects.
Lemma ExecuteRepeatedTwoPCEntry_calls e :
  respects (keeps call_state) (ExecuteRepeatedTwoPCEntry e).
Proof. unfold ExecuteRepeatedTwoPCEntry, record_outcome. quiet. Qed.
#[export] Hint Resolve ExecuteRepeatedTwoPCEntry_calls : respects.
Lemma HandleTwoPCMsg_calls m : respects (keeps call_state) (HandleTwoPCMsg m).
Proof.
  unfold HandleTwoPCMsg, HandlePreparedAndAborted, HandleCommittedAndAborted, at_transactions. quiet.
Qed.
Lemma TransactionRetryLoop_turn_calls : respects (keeps call_state) TransactionRetryLoop_turn.
Proof.
  unfold TransactionRetryLoop_turn, retry_slot, HandlePreparedTimeout, at_prepares, count_phase2.
  quiet.
Qed.
Lemma view_change_calls :
  respects (keeps call_state) MergeAcceptLogsFromPromises ∧
  respects (keeps call_state) FillMissingNoOps ∧
  respects (keeps call_state) SendNewView ∧
  respects (keeps call_state) InformClustersOfElection.
Proof.
  unfold MergeAcceptLogsFromPromises, seed_entry, FillMissingNoOps, SendNewView, SendNewView_to,
    InformClustersOfElection. split_and!; quiet.
Qed.
Lemma BecomeLeader_calls b : respects (keeps call_state) (BecomeLeader b).
Proof. unfold BecomeLeader, StartHeartbeat, StopHeartbeat. quiet. Qed.
#[export] Hint Resolve BecomeLeader_calls : respects.
Lemma SendPrepare_calls b : respects (keeps call_state) (SendPrepare b).
Proof. unfold SendPrepare. quiet. Qed.
#[export] Hint Resolve SendPrepare_calls : respects.
Lemma HeartbeatLoop_turn_calls : respects (keeps call_state) HeartbeatLoop_turn.
Proof. unfold HeartbeatLoop_turn. quiet. Qed.
Lemma HandleHeartbeat_calls h : respects (keeps call_state) (HandleHeartbeat h).
Proof. unfold HandleHeartbeat. quiet. Qed.

(** ** What moves a call *)
Lemma uses_quiet {A} h (m : NodeM A) : respects (keeps call_state) m → uses h m (λ _, ∅).
Proof. intros H. eapply uses_drop; [by apply uses_keeps|done|]. intros a. multiset_solver. Qed.
Lemma uses_skip_over {A B} h (m : NodeM A) (k : A → NodeM B) Q :
  respects (keeps call_state) m → (∀ a, uses h (k a) Q) → uses h (m ≫= k) Q.
Proof. intros Hm Hk. by apply (uses_bind _ _ (λ _, h)); [apply uses_keeps|]. Qed.
Lemma uses_when h b (m : NodeM unit) : uses h m (λ _, ∅) → uses h (when b m) (λ _, ∅).
Proof. intros H. destruct b; [done|]. apply uses_quiet, respects_skip, _. Qed.
Lemma uses_none {A} (m : NodeM A) P h : uses ∅ m P → uses h m P.
Proof. intros H. eapply uses_drop; [exact H|multiset_solver|done]. Qed.

Lemma uses_frame_over {A B} h (m : NodeM A) (k : A → NodeM B) Q :
  uses ∅ m (λ _, ∅) → (∀ a, uses h (k a) Q) → uses h (m ≫= k) Q.
Proof.
  intros Hm Hk. apply (uses_bind _ _ (λ _, h)); [|done]. intros s a s' E.
  specialize (Hm s a s' E). cbn beta in *.
  generalize dependent (calls s). generalize (calls s'). clear. intros. multiset_solver.
Qed.

Create HintDb uses discriminated.
(** Computations that move calls are taken by their lemma, the others are
    stepped over. *)
Ltac solve_uses :=
  repeat first
    [ progress intros
    | solve [eauto 2 with uses]
    | solve [apply uses_none; eauto 2 with uses]
    | lazymatch goal with
      | |- uses _ (_ ≫= _) _ => apply uses_skip_over; [solve [quiet]|]
      | |- uses _ (match ?x with _ => _ end) _ => destruct x eqn:?
      | |- _ => solve [apply uses_quiet; quiet]
      end
    | apply uses_when
    | match goal with
      | |- uses _ ((match ?x with _ => _ end) ≫= _) _ => destruct x eqn:?
      end
    | lazymatch goal with
      | |- uses _ (_ ≫= _) _ =>
          apply uses_frame_over; [solve [solve_uses]|]
      end
    | lazymatch goal with |- uses _ (_ ≫= _) _ => apply (uses_bind _ _ (λ _, ∅)) end ].

(** The accounts of a state after some assignments. *)
Ltac account :=
  unfold calls, calls_of, call_state, sent, responses in *; simp_upd;
  rewrite ?omap_app; cbn [omap list_omap response option_list];
  repeat match goal with
  | H : pending_promise_call_ _ = _ |- _ => rewrite H
  | H : newview_call_data_ _ = _ |- _ => rewrite H
  | H : queued_client_requests_ _ = _ |- _ => rewrite H
  end;
  unfold queued_ids; rewrite ?fmap_app; cbn [fmap list_fmap snd];
  rewrite ?bag_app, ?bag_cons, ?bag_nil, ?one_Some, ?one_None;
  multiset_solver.

Lemma respond_uses c : uses {[+ cd_id c +]} (respond c) (λ _, ∅).
Proof. apply uses_intro. intros s. unfold respond, emit. wp_steps. account. Qed.
#[export] Hint Resolve respond_uses : uses.
Lemma SendClientReply_uses c r q b :
  uses (one (cd_id <$> c)) (SendClientReply c r q b) (λ _, ∅).
Proof.
  unfold SendClientReply, cache_reply. destruct c; cbn [fmap option_fmap option_map]; rewrite ?one_Some; solve_uses.
Qed.
Lemma SendReplyToCoordLeader_uses c r q st :
  uses (one (cd_id <$> c)) (SendReplyToCoordLeader c r q st) (λ _, ∅).
Proof.
  unfold SendReplyToCoordLeader. destruct c; cbn [fmap option_fmap option_map]; rewrite ?one_Some; solve_uses.
Qed.
#[export] Hint Resolve SendClientReply_uses SendReplyToCoordLeader_uses : uses.
Lemma take_call_uses q : uses ∅ (take_call q) (λ c, one (cd_id <$> c)).
Proof.
  apply uses_intro. intros s. unfold take_call. wp_steps; [|account..].
  pose proof (pending_ids_delete (pending_client_calls_ s) q) as Hd.
  match goal with H : pending_client_calls_ s !! q = _ |- _ => rewrite H in Hd end.
  cbn [fmap option_fmap option_map] in *. rewrite ?one_Some in *. account.
Qed.
#[export] Hint Resolve take_call_uses : uses.

