(* ===== verification/CallProofs.v ===== *)
(** * Calls: the handlers answer every call at most once

    The accounting of [Calls], handler by handler, and the theorem about the
    traces of a node. *)
From stdpp Require Import gmultiset.
From S2P Require Import Prelude Text Messages Node Ledger Elections TwoPhase Replication Requests.
From S2P Require Import NewView Control ElectionProofs Machine Calls.
#[local] Open Scope Z_scope.

(** ** The handlers *)
Lemma answer_executed_uses e st b : uses ∅ (answer_executed e st b) (λ _, ∅).
Proof.
  unfold answer_executed. apply (uses_bind _ _ _ _ _ (take_call_uses _)). intros [c|]; cbn [fmap
    option_fmap option_map bool_decide]; rewrite ?one_Some, ?one_None; [|solve_uses].
  pose proof (SendClientReply_uses (Some c)) as H1. pose proof (SendReplyToCoordLeader_uses (Some c)) as H2.
  cbn [fmap option_fmap option_map] in H1, H2. rewrite one_Some in H1, H2.
  unfold take_queued. solve_uses.
Qed.
#[export] Hint Resolve answer_executed_uses : uses.
Lemma execute_next_uses : uses ∅ execute_next (λ _, ∅).
Proof. unfold execute_next. solve_uses. Qed.
#[export] Hint Resolve execute_next_uses : uses.
Lemma execute_loop_uses n : uses ∅ (execute_loop n) (λ _, ∅).
Proof. induction n; simpl; solve_uses. Qed.
#[export] Hint Resolve execute_loop_uses : uses.
Lemma SequentiallyExecute_uses : uses ∅ SequentiallyExecuteCommittedEntries (λ _, ∅).
Proof. unfold SequentiallyExecuteCommittedEntries. solve_uses. Qed.
#[export] Hint Resolve SequentiallyExecute_uses : uses.
Lemma Commit_entry_uses a : uses ∅ (Commit_entry a) (λ _, ∅).
Proof. unfold Commit_entry, BroadcastCommit, insert_commit. solve_uses. Qed.
#[export] Hint Resolve Commit_entry_uses : uses.
Lemma HandleAccept_uses a : uses ∅ (HandleAccept a) (λ _, ∅).
Proof. unfold HandleAccept. solve_uses. Qed.
Lemma HandleCommit_uses c : uses ∅ (HandleCommit c) (λ _, ∅).
Proof. unfold HandleCommit, insert_commit. solve_uses. Qed.
#[export] Hint Resolve HandleAccept_uses HandleCommit_uses : uses.

Lemma bag_responses (l : list (Z * SendClientRequestCallData)) :
  omap response ((λ p, RespondClient (cd_id p.2)) <$> l) = (λ p, cd_id p.2) <$> l.
Proof. induction l as [|p l IH]; [done|]. rewrite !fmap_cons. cbn. f_equal. exact IH. Qed.

Lemma finish_pending_calls_uses : uses ∅ finish_pending_calls (λ _, ∅).
Proof.
  apply uses_intro. intros s. unfold finish_pending_calls. wp_steps.
  eapply wp_returns; [apply respond_all_eq|]. wp_steps.
  unfold calls, calls_of, call_state, sent, responses. simp_upd.
  rewrite omap_app, bag_responses, bag_app. unfold pending_ids.
  rewrite map_to_list_empty. cbn [fmap list_fmap]. rewrite bag_nil. multiset_solver.
Qed.
#[export] Hint Resolve finish_pending_calls_uses : uses.
Lemma DemoteToBackup_uses : uses ∅ DemoteToBackup (λ _, ∅).
Proof. unfold DemoteToBackup, StopHeartbeat, reset_in_flights. solve_uses. Qed.
Lemma ResetNode_uses : uses ∅ ResetNode (λ _, ∅).
Proof. unfold ResetNode, StopHeartbeat, reset_in_flights. solve_uses. Qed.
#[export] Hint Resolve DemoteToBackup_uses ResetNode_uses : uses.
#[local] Opaque DemoteToBackup ResetNode.
Lemma HandlePropose_uses e : uses ∅ (HandlePropose e) (λ _, ∅).
Proof. unfold HandlePropose. solve_uses. Qed.

Lemma propose_uses r c a : uses {[+ cd_id c +]} (propose r c a) (λ _, ∅).
Proof.
  unfold propose. solve_uses.
  apply uses_intro. intros s. wp_steps.
  match goal with |- context [<[?k := c]> _] =>
    pose proof (pending_ids_insert (pending_client_calls_ s) k c) end.
  account.
Qed.
#[export] Hint Resolve propose_uses : uses.
Lemma lock_client_calls r f t : respects (keeps call_state) (lock_client r f t).
Proof. unfold lock_client, send_prepare, at_prepares. quiet. Qed.
Lemma lock_participant_calls r f t : respects (keeps call_state) (lock_participant r f t).
Proof. unfold lock_participant. quiet. Qed.
#[export] Hint Resolve lock_client_calls lock_participant_calls : respects.
Lemma forward_request_uses r c : uses {[+ cd_id c +]} (forward_request r c) (λ _, ∅).
Proof. unfold forward_request. solve_uses. Qed.
Lemma process_read_only_uses r c : uses {[+ cd_id c +]} (process_read_only r c) (λ _, ∅).
Proof. unfold process_read_only, cache_reply. solve_uses. Qed.
#[export] Hint Resolve forward_request_uses process_read_only_uses : uses.
Lemma ProcessClientRequest_uses r c : uses {[+ cd_id c +]} (ProcessClientRequest r c) (λ _, ∅).
Proof.
  unfold ProcessClientRequest. solve_uses.
Qed.
#[export] Hint Resolve ProcessClientRequest_uses : uses.

Lemma HandleClientRequest_uses r c : uses {[+ cd_id c +]} (HandleClientRequest r c) (λ _, ∅).
Proof.
  unfold HandleClientRequest, enqueue. solve_uses;
    apply uses_intro; intros s; wp_steps; account.
Qed.

Lemma OnElectionComplete_uses : uses ∅ OnElectionComplete (λ _, ∅).
Proof.
  unfold OnElectionComplete.
  do 2 (apply uses_skip_over; [solve [quiet]|]; intros _).
  apply uses_intro. intros s. do 2 wp_step. wp_step; [wp_step; account|]. do 2 wp_step.
  assert (uses (bag (queued_ids (queued_client_requests_ s)))
    (for_each (queued_client_requests_ s) (λ q, ProcessClientRequest q.1 q.2)) (λ _, ∅)) as Hq.
  { apply (uses_for_each _ (λ p, cd_id p.2)). intros q. apply ProcessClientRequest_uses. }
  eapply uses_wp; [exact Hq|]. intros ? s' H. etrans; [exact H|]. clear H.
  unfold calls, calls_of, call_state. simp_upd. unfold queued_ids. simpl. multiset_solver.
Qed.
#[export] Hint Resolve HandleClientRequest_uses OnElectionComplete_uses : uses.

#[local] Opaque OnElectionComplete ProcessClientRequest.

(** Handlers whose calls are read from the state they assign to. *)
Ltac by_accounts := apply uses_intro; intros s; wp_steps; account.

Lemma SendPromise_uses : uses ∅ SendPromise (λ _, ∅).
Proof. unfold SendPromise, emit. by_accounts. Qed.
Lemma RespondAndClear_uses : uses ∅ RespondAndClearNewViewCallData (λ _, ∅).
Proof. unfold RespondAndClearNewViewCallData, emit. by_accounts. Qed.
Lemma OnNewViewCallFinished_uses c : uses ∅ (OnNewViewCallFinished c) (λ _, ∅).
Proof. unfold OnNewViewCallFinished. by_accounts. Qed.
#[export] Hint Resolve SendPromise_uses RespondAndClear_uses OnNewViewCallFinished_uses : uses.

Lemma hold_promise_uses call : uses {[+ call +]} (pending_promise_call_ ::= Some call) (λ _, ∅).
Proof. by_accounts. Qed.
Lemma drop_promise_uses : uses ∅ (pending_promise_call_ ::= None) (λ _, ∅).
Proof. by_accounts. Qed.
Lemma refuse_promise_uses call r : uses {[+ call +]} (emit (RespondPrepare call r)) (λ _, ∅).
Proof. unfold emit. by_accounts. Qed.
Lemma hold_newview_uses call : uses {[+ call +]} (newview_call_data_ ::= Some call) (λ _, ∅).
Proof. by_accounts. Qed.
Lemma answer_newview_uses call : uses {[+ call +]} (emit (RespondNewView call)) (λ _, ∅).
Proof. unfold emit. by_accounts. Qed.
#[export] Hint Resolve hold_promise_uses drop_promise_uses refuse_promise_uses hold_newview_uses
  answer_newview_uses : uses.

Lemma HandlePrepare_uses r call : uses {[+ call +]} (HandlePrepare r call) (λ _, ∅).
Proof. unfold HandlePrepare. solve_uses. Qed.
Lemma OnElectionTimeout_uses : uses ∅ OnElectionTimeout (λ _, ∅).
Proof. unfold OnElectionTimeout. solve_uses. Qed.
#[export] Hint Resolve OnElectionTimeout_uses : uses.
Lemma ElectionTimer_turn_uses : uses ∅ ElectionTimer_turn (λ _, ∅).
Proof. unfold ElectionTimer_turn. solve_uses. Qed.
Lemma HandlePromise_uses r : uses ∅ (HandlePromise r) (λ _, ∅).
Proof.
  destruct view_change_calls as (H1 & H2 & H3 & H4).
  unfold HandlePromise, record_promise. solve_uses.
Qed.
Lemma HandleNewView_uses v call : uses {[+ call +]} (HandleNewView v call) (λ _, ∅).
Proof. unfold HandleNewView. solve_uses. Qed.
Lemma kill_uses : uses ∅ kill (λ _, ∅).
Proof. unfold kill. solve_uses. Qed.
Lemma revive_calls : respects (keeps call_state) revive.
Proof. unfold revive. quiet. Qed.
#[export] Hint Resolve kill_uses : uses.
#[export] Hint Resolve revive_calls : respects.
Lemma HandleSetAlive_uses u : uses ∅ (HandleSetAlive u) (λ _, ∅).
Proof.
  unfold HandleSetAlive. apply uses_skip_over; [quiet|intros s]. cbv zeta.
  apply uses_skip_over; [quiet|intros _]. destruct (au_reshard u); [solve_uses|].
  apply uses_frame_over; [solve_uses|intros _]. solve_uses.
Qed.

(** [HandleMoveOn] answers the calls first and erases them afterwards. *)
Definition without {X} (l : list (Z * X)) (m : gmap Z SendClientRequestCallData) :=
  foldl (λ m p, delete p.1 m) m l.

Lemma without_lookup {X} (l : list (Z * X)) m k :
  without l m !! k = if decide (k ∈ l.*1) then None else m !! k.
Proof.
  revert m. induction l as [|p l IH]; intros m; cbn; [done|]. fold (without l (delete p.1 m)).
  rewrite IH. case_decide as H1; case_decide as H2; try done.
  - destruct H2. by right.
  - apply list.elem_of_cons in H2 as [->|]; [apply lookup_delete_eq|done].
  - apply lookup_delete_ne. intros E. destruct H2. rewrite <-E. left.
Qed.
Lemma without_all m : without (map_to_list m) m = ∅.
Proof.
  apply map_eq. intros k. rewrite without_lookup, lookup_empty. case_decide as H; [done|].
  apply eq_None_not_Some. intros [c Hc]. apply H. apply list_elem_of_fmap. exists (k, c).
  split; [done|]. by apply elem_of_map_to_list.
Qed.

Lemma move_on_call_erases q s :
  wp any_fault (move_on_call q) s (λ _ s',
    call_state s' = call_state (upd pending_client_calls_ (delete q (pending_client_calls_ s)) s)).
Proof.
  unfold move_on_call, unlock, stoiM. wp_steps; try done.
Qed.
Lemma move_on_calls_erase {X} (l : list (Z * X)) s :
  wp any_fault (for_each l (λ p, move_on_call p.1)) s (λ _ s',
    call_state s' = call_state (upd pending_client_calls_ (without l (pending_client_calls_ s)) s)).
Proof.
  revert s. induction l as [|p l IH]; intros s; cbn [for_each].
  { apply wp_ret. by destruct s. }
  apply wp_bind. eapply wp_mono; [|apply move_on_call_erases].
  intros ? s1 H1. eapply wp_mono; [|apply IH]. intros ? s2 H2.
  unfold call_state in *. simp_upd. injection H1 as E1 E2 E3 E4 E5. rewrite E1, E2, E3, E4, E5 in H2.
  exact H2.
Qed.

Lemma HandleMoveOn_uses : uses ∅ HandleMoveOn (λ _, ∅).
Proof.
  apply uses_intro. intros s. unfold HandleMoveOn. do 3 wp_step.
  eapply wp_returns; [apply respond_all_eq|]. wp_step.
  eapply wp_mono; [|apply move_on_calls_erase]. intros ? s1 H1.
  do 3 wp_step. eapply wp_returns; [apply respond_all_eq|].
  unfold reset_in_flights. wp_steps.
  unfold calls, call_state, sent in *. simp_upd. injection H1 as E1 E2 E3 E4 E5.
  rewrite E1, E2, E3, E4. unfold responses in *. rewrite omap_app, E5, omap_app.
  assert (∀ l : list (ClientRequest * SendClientRequestCallData),
    omap response ((λ q, RespondClient (cd_id q.2)) <$> l) = queued_ids l) as Hq.
  { intros l. induction l as [|q l IH]; [done|]. rewrite fmap_cons. cbn. f_equal. exact IH. }
  rewrite without_all, bag_responses, Hq. unfold calls_of.
  rewrite !bag_app. unfold pending_ids. rewrite map_to_list_empty. cbn [fmap list_fmap].
  unfold queued_ids at 1. cbn [fmap list_fmap]. rewrite !bag_nil.
  multiset_solver.
Qed.
#[export] Hint Resolve HandleMoveOn_uses HandlePrepare_uses HandlePromise_uses HandleNewView_uses
  HandleSetAlive_uses HandlePropose_uses ElectionTimer_turn_uses : uses.
#[export] Hint Resolve HeartbeatLoop_turn_calls HandleHeartbeat_calls HandleTwoPCMsg_calls
  TransactionRetryLoop_turn_calls : respects.

(** ** The traces of a node *)

(** The call an event brings with it. *)
Definition event_call (e : Event) : option Z :=
  match e with
  | EPrepare _ c | ENewView _ c | EClientRequest _ c => Some c
  | _ => None
  end.

Lemma handle_uses e : uses (one (event_call e)) (handle e) (λ _, ∅).
Proof.
  destruct e; cbn [handle event_call]; rewrite ?one_Some, ?one_None; solve_uses.
Qed.
Lemma run_at_uses t e : uses (one (event_call e)) (run_at t e) (λ _, ∅).
Proof. unfold run_at. apply uses_skip_over; [quiet|]. intros _. apply handle_uses. Qed.

Lemma run_trace_calls l s s' :
  run_trace l s = Some s' → calls s' ⊆ calls s ⊎ bag (omap event_call l.*2).
Proof.
  revert s. induction l as [|[t e] l IH]; intros s; cbn [run_trace].
  { intros [= ->]. change (bag (omap event_call ([] : list (Z * Event)).*2)) with (∅ : gmultiset Z).
    multiset_solver. }
  destruct (run_at t e s) as [[[] s1]|] eqn:E; [|done].
  intros H1%IH. apply run_at_uses in E.
  assert (bag (omap event_call ((t, e) :: l).*2) = one (event_call e) ⊎ bag (omap event_call l.*2))
    as ->.
  { rewrite fmap_cons. cbn [omap list_omap snd]. destruct (event_call e).
    - by rewrite one_Some.
    - rewrite one_None. multiset_solver. }
  generalize dependent (bag (omap event_call l.*2)). generalize dependent (one (event_call e)).
  generalize dependent (calls s1). generalize (calls s) (calls s'). clear. intros. multiset_solver.
Qed.

(** The calls a node holds without having answered them. *)
Definition held (s : PaxosNode) : list Z :=
  option_list (pending_promise_call_ s) ++ option_list (newview_call_data_ s)
    ++ queued_ids (queued_client_requests_ s) ++ pending_ids (pending_client_calls_ s).

Lemma calls_held s : calls s = bag (responses (outbox_ s) ++ held s).
Proof.
  unfold calls, calls_of, call_state, held, one. rewrite !bag_app.
  generalize (bag (responses (outbox_ s))) (bag (option_list (pending_promise_call_ s)))
    (bag (option_list (newview_call_data_ s))) (bag (queued_ids (queued_client_requests_ s)))
    (bag (pending_ids (pending_client_calls_ s))). clear. intros. multiset_solver.
Qed.

Lemma run_trace_app l1 l2 s : run_trace (l1 ++ l2) s = s1 ← run_trace l1 s; run_trace l2 s1.
Proof.
  revert s. induction l1 as [|[t e] l1 IH]; intros s; [done|]. cbn [run_trace app].
  destruct (run_at t e s) as [[? s1]|]; [apply IH|done].
Qed.

(** C22: no call is answered twice, nor after it was given up. Let a node run
    through any trace from its construction on, whose calls are pairwise
    different objects. Every answer is to a call the node received, no call is
    answered more than once, and a call the node still holds has not been
    answered and is held in one place only. A call that at some point the node
    neither holds nor has answered is never held or answered again. (A node may
    give a call up without answering it; nothing is said of how often.) *)
Theorem calls_answered_once (id : Z) (peers : gset Z) (clients : gset string)
    (shards : gmap Z Z) (k now : Z) (l1 l2 : list (Z * Event)) (s1 s : PaxosNode) :
  run_trace l1 (PaxosNode_init id peers clients shards k now) = Some s1 → run_trace l2 s1 = Some s →
  NoDup (omap event_call (l1 ++ l2).*2) →
  NoDup (responses (outbox_ s) ++ held s) ∧
  (∀ c, c ∈ responses (outbox_ s) ++ held s → c ∈ omap event_call (l1 ++ l2).*2) ∧
  (∀ c, c ∈ omap event_call l1.*2 → c ∉ responses (outbox_ s1) ++ held s1 →
     c ∉ responses (outbox_ s) ++ held s).
Proof.
  intros H1 H2 Hn.
  assert (run_trace (l1 ++ l2) (PaxosNode_init id peers clients shards k now) = Some s) as H
    by (by rewrite run_trace_app, H1).
  apply run_trace_calls in H. apply run_trace_calls in H2. rewrite !calls_held in H, H2.
  change (bag (responses (outbox_ (PaxosNode_init id peers clients shards k now))
    ++ held (PaxosNode_init id peers clients shards k now))) with (bag [] ⊎ ∅) in H.
  rewrite bag_nil, !(left_id_L ∅ (⊎)) in H.
  assert (∀ c l, c ∈ l ↔ c ∈ bag l) as B by (intros; unfold bag; by rewrite elem_of_list_to_set_disj).
  split_and!; [by eapply bag_NoDup| |].
  - intros c Hc. apply B in Hc. apply B. multiset_solver.
  - intros c Hc Hnot Hs. apply B in Hs. assert (c ∈ bag (omap event_call l2.*2)) as Hc2%B.
    { rewrite B in Hnot. generalize dependent (bag (omap event_call l2.*2)).
      generalize dependent (bag (responses (outbox_ s) ++ held s)).
      generalize dependent (bag (responses (outbox_ s1) ++ held s1)). clear. intros. multiset_solver. }
    rewrite fmap_app, omap_app in Hn. apply list.NoDup_app in Hn as (_ & Hd & _). by apply (Hd c).
Qed.

(** The node is elected and holds the call of its first request; after its
    demotion by a higher PREPARE it has answered it, and the PREPARE as well. *)
Definition demoting : list (Z * Event) := [(6500, EPrepare (MkPrepareRequest (MkBallot 4 3) 3) 8)].

Lemma calls_answered_once_witness :
  ∃ s1 s, run_trace small_trace (small_node 1) = Some s1 ∧ run_trace demoting s1 = Some s ∧
    NoDup (responses (outbox_ s) ++ held s) ∧ held s1 = [7] ∧ responses (outbox_ s) = [7; 8].
Proof.
  assert (held <$> run_trace small_trace (small_node 1) = Some [7]) as H1 by (vm_compute; reflexivity).
  assert (responses ∘ outbox_ <$> run_trace (small_trace ++ demoting) (small_node 1) = Some [7; 8]) as H2
    by (vm_compute; reflexivity).
  rewrite run_trace_app in H2. apply fmap_Some in H1 as (s1 & E1 & H1). rewrite E1 in H2.
  apply fmap_Some in H2 as (s & E2 & H2). exists s1, s. split_and!; [done|exact E2| |done|done].
  refine (proj1 (calls_answered_once 1 _ _ _ 2 5000 small_trace demoting s1 s E1 E2 _)).
  apply (bool_decide_unpack _). by vm_compute.
Defined.
