(* ===== verification/Safety.v ===== *)
(** * Invariants of the reachable states

    What holds of the term of a node in every reachable state, and what the
    [std::abort] of a node takes. *)
From S2P Require Import Prelude Text Messages Node Ledger Elections TwoPhase Replication Requests.
From S2P Require Import NewView Control ElectionProofs Machine Frames.
#[local] Open Scope Z_scope.

(** ** The invariant of the term

    A leader follows itself, and the ballot of a leader or of a candidate is not
    above its promise. *)
Definition term_ok (s : PaxosNode) : Prop :=
  (role_ s = LEADER → leader_id_ s = node_id_ s) ∧
  (role_ s = LEADER → ballot_le (current_ballot_ s) (highest_promised_ballot_ s)) ∧
  (waiting_for_promises_ s = true → ballot_le (current_ballot_ s) (highest_promised_ballot_ s)).

Lemma ballot_gtb_le a b : ballot_gtb a b = true → ballot_le b a.
Proof. rewrite ballot_gtb_spec. by left. Qed.
Lemma ballot_le_gtb a b c : ballot_le a b → ballot_gtb c b = true → ballot_le a c.
Proof. intros H ?%ballot_gtb_le. by etrans. Qed.
Lemma ballot_gtb_false_le a b : ballot_gtb a b = false → ballot_le a b.
Proof. apply ballot_gtb_false. Qed.
Lemma ballot_gtb_contra a b c :
  ballot_le b c → ballot_gtb a c = true → ballot_gtb a b = false → False.
Proof.
  intros H1 H2%ballot_gtb_spec H3%ballot_gtb_false. apply (irreflexivity ballot_lt a).
  unfold ballot_le, ballot_lt in *. destruct H1 as [H1| ->], H3 as [H3| ->]; lia.
Qed.
Lemma ballot_le_refl b : ballot_le b b.
Proof. reflexivity. Qed.

Ltac use_term :=
  repeat match goal with H : term _ = _ |- _ => unfold term in H end;
  unfold term_ok in *; simp_upd; simplify_eq;
  repeat match goal with
  | H : (?x ==s ?y) = true |- _ => apply bool_decide_eq_true in H
  | H : (?x ==s ?y) = false |- _ => apply bool_decide_eq_false in H
  | H : (_ || _) = false |- _ => apply orb_false_iff in H as [? ?]
  | H : (_ && _) = true |- _ => apply andb_true_iff in H as [? ?]
  | H : negb _ = true |- _ => apply negb_true_iff in H
  | H : negb _ = false |- _ => apply negb_false_iff in H
  end; destruct_and?;
  repeat match goal with H : ?f ?x = _ |- context [?f ?x] => rewrite H end.
Ltac solve_term :=
  use_term; split_and!; intros; split_and?; simplify_eq; try done; try lia; try congruence;
  try match goal with H : _ → ?P |- ?P => apply H; congruence end;
  eauto using ballot_le_gtb, ballot_gtb_le, ballot_gtb_false_le, ballot_le_refl.

Lemma term_ok_keeps s s' : term s' = term s → term_ok s → term_ok s'.
Proof. intros H. unfold term in H. unfold term_ok. injection H as -> -> -> -> -> ->. done. Qed.

Lemma wp_Demote s (Q : unit → PaxosNode → Prop) :
  (∀ s', term s' = (node_id_ s, BACKUP, -1, current_ballot_ s, highest_promised_ballot_ s, false) →
     Q tt s') →
  wp any_fault DemoteToBackup s Q.
Proof.
  intros HQ. apply (wp_eq _ _ _ _ _ _ (DemoteToBackup_eq s)).
  apply (wp_keeps _ term); [apply faults_any | auto with respects |].
  intros [] s' Hs'. apply HQ. rewrite Hs'. unfold term, stepped_down, sent. by simp_upd.
Qed.

Lemma wp_Reset F s (Q : unit → PaxosNode → Prop) :
  (∀ s', term s' = (node_id_ s, BACKUP, -1, MkBallot 0 (node_id_ s), Ballot_default, false) →
     Q tt s') →
  wp F ResetNode s Q.
Proof.
  intros HQ. unfold ResetNode, finish_pending_calls, reset_in_flights, StopHeartbeat, respond, emit.
  do 40 (try wp_step; cbv zeta).
  wp_over term. do 40 (try wp_step; cbv zeta).
  apply HQ. unfold term in *. simp_upd. congruence.
Qed.

(** Steps over whatever is known only through the term. *)
Ltac term_step :=
  lazymatch goal with
  | |- wp _ DemoteToBackup _ _ => apply wp_Demote; intros
  | |- wp _ ResetNode _ _ => apply wp_Reset; intros
  | |- wp _ _ _ _ => wp_over term
  end.

(** *** The handlers *)
Lemma term_frame_ok (m : NodeM unit) s :
  respects (keeps term) m → term_ok s → wp any_fault m s (λ _, term_ok).
Proof.
  intros Hk Hok. apply (wp_keeps _ term); [apply faults_any|done|]. intros ? s' Hs'.
  by apply (term_ok_keeps s).
Qed.

Lemma HandlePrepare_ok r call s : term_ok s → wp any_fault (HandlePrepare r call) s (λ _, term_ok).
Proof.
  intros Hok. unfold HandlePrepare. unfold_ledger_ops'. wp_steps; try done.
  all: repeat (term_step; wp_steps).
  all: solve_term.
Qed.

Lemma BecomeLeader_eq b s :
  ∃ s', BecomeLeader b s = Ok (tt, s') ∧
    term s' = (node_id_ s, LEADER, node_id_ s, b, highest_promised_ballot_ s,
               waiting_for_promises_ s).
Proof.
  unfold BecomeLeader, StopElectionTimer, StartHeartbeat, StopHeartbeat. run_goal.
  destruct (timer_running_ s); eexists; (split; [reflexivity|]); unfold term; by simp_upd.
Qed.

Lemma HandlePromise_ok r s : term_ok s → wp any_fault (HandlePromise r) s (λ _, term_ok).
Proof.
  intros Hok. unfold HandlePromise, record_promise. unfold log_line. wp_steps; try done.
  all: try solve [solve_term].
  all: try congruence.
  all: wp_over term; wp_step; wp_over term; wp_step.
  all: match goal with |- wp _ (BecomeLeader ?b) ?t _ =>
    destruct (BecomeLeader_eq b t) as (u & Hu & Ht); apply (wp_eq _ _ (mret tt) _ u); [done|] end.
  all: wp_steps; wp_over term; wp_step; wp_over term; wp_over term.
  all: solve_term.
Qed.

Lemma HandlePropose_ok e s : term_ok s → wp any_fault (HandlePropose e) s (λ _, term_ok).
Proof.
  intros Hok. unfold HandlePropose, SetNewLeader. unfold_ledger_ops'. wp_steps; try done.
  all: repeat (term_step; wp_steps).
  all: try solve [solve_term].
  all: destruct (role_ s) eqn:Hr; try solve [solve_term].
  all: use_term; exfalso.
  all: match goal with H : _ && _ = false |- _ => apply andb_false_iff in H as [H|H] end; try done.
  all: apply (ballot_gtb_contra (ae_ballot e) (current_ballot_ s) (highest_promised_ballot_ s)); tauto.
Qed.

Lemma HandleNewView_ok v call s : term_ok s → wp any_fault (HandleNewView v call) s (λ _, term_ok).
Proof.
  intros Hok. unfold HandleNewView, SetNewLeader. unfold_ledger_ops'. wp_steps; try done.
  all: repeat (term_step; wp_steps).
  all: try solve [solve_term].
Qed.

Lemma ElectionTimer_ok s : term_ok s → wp any_fault ElectionTimer_turn s (λ _, term_ok).
Proof.
  intros Hok. unfold ElectionTimer_turn, OnElectionTimeout, SendPrepare, to_cluster. wp_steps.
  all: repeat (term_step; wp_steps).
  all: try solve [solve_term].
  all: solve_term; apply ballot_gtb_false; congruence.
Qed.

Lemma HandleSetAlive_ok u s : term_ok s → wp any_fault (HandleSetAlive u) s (λ _, term_ok).
Proof.
  intros Hok. unfold HandleSetAlive, kill, revive. wp_steps.
  all: repeat (term_step; wp_steps).
  all: try solve [solve_term].
Qed.

(** *** Every step *)
Lemma step_ok t e s : term_ok s → wp any_fault (run_at t e) s (λ _, term_ok).
Proof.
  intros Hok. unfold run_at. wp_steps.
  assert (term_ok (upd now_ t s)) as Hok' by (unfold term_ok in *; by simp_upd).
  destruct e; cbn [handle].
  all: try (apply term_frame_ok; [solve [auto with respects] | done]).
  - by apply HandlePrepare_ok.
  - by apply HandlePromise_ok.
  - apply wp_bind. eapply wp_mono; [|by apply HandlePropose_ok]. by intros.
  - by apply HandleNewView_ok.
  - apply wp_bind. eapply wp_mono; [|by apply HandleSetAlive_ok]. by intros.
  - apply wp_bind. apply (wp_keeps _ term); [apply faults_any | auto with respects |].
    intros ? s' Hs'. by apply (term_ok_keeps (upd now_ t s)).
  - by apply ElectionTimer_ok.
Qed.

Lemma init_term_ok id peers clients shards n now :
  term_ok (PaxosNode_init id peers clients shards n now).
Proof. unfold term_ok. simpl. by split_and!. Qed.

Lemma reachable_term_ok s0 s : term_ok s0 → reachable s0 s → term_ok s.
Proof.
  intros H0 Hr. induction Hr as [s|s1 s2 s3 [t e He] _ IH]; [done|].
  apply IH. exact (wp_Ok _ _ _ _ _ _ He (step_ok t e s1 H0)).
Qed.

(** C9: in every state a node can reach from its constructor, whatever
    messages from whomever, timers and control requests it handles, a leader
    follows itself, and a leader's or candidate's ballot is not above the ballot
    the node itself has promised. Of a backup nothing is claimed: it can follow
    itself. *)
Theorem term_invariant (id : Z) (peers : gset Z) (clients : gset string) (shards : gmap Z Z)
    (n now : Z) (s : PaxosNode) :
  reachable (PaxosNode_init id peers clients shards n now) s →
  (role_ s = LEADER → leader_id_ s = node_id_ s) ∧
  (role_ s = LEADER ∨ waiting_for_promises_ s = true →
     ballot_le (current_ballot_ s) (highest_promised_ballot_ s)).
Proof.
  intros Hr.
  destruct (reachable_term_ok _ _ (init_term_ok id peers clients shards n now) Hr)
    as (H1 & H2 & H3).
  split; [done|]. by intros [?|?]; auto.
Qed.

(** ** The call to [std::abort]

    [forward_request] aborts at a backup that takes itself for the leader. *)
Definition follows_itself (s : PaxosNode) : Prop := role_ s = BACKUP ∧ leader_id_ s = node_id_ s.

Lemma ProcessClientRequest_safe r c s :
  ¬ follows_itself s → wp no_abort (ProcessClientRequest r c) s (λ _ s', term s' = term s).
Proof.
  unfold follows_itself. intros Hb. unfold ProcessClientRequest.
  wp_step; [wp_over term; done|]. wp_step; wp_step.
  destruct (role_ s) eqn:Hr;
    [change (negb (LEADER ==s LEADER)) with false | change (negb (BACKUP ==s LEADER)) with true];
    cbv iota.
  - unfold process_read_only, cache_reply, propose, lock_client, lock_participant, send_prepare,
      at_prepares. unfold_ledger_ops'.
    apply (wp_keeps _ term); [solve_faults | unfold stoiM; solve_keeps | done].
  - unfold forward_request. wp_steps; try done.
    + exfalso. apply Hb. split; [done|]. by apply Z.eqb_eq.
    + unfold_ledger_ops'. wp_steps; done.
Qed.

Lemma follows_itself_keeps s s' : term s' = term s → ¬ follows_itself s → ¬ follows_itself s'.
Proof. intros H. unfold term in H. unfold follows_itself. by injection H as -> -> -> _ _ _. Qed.

Lemma OnElectionComplete_safe s :
  ¬ follows_itself s → wp no_abort OnElectionComplete s (λ _ _, True).
Proof.
  intros Hok. unfold OnElectionComplete. wp_steps.
  apply (wp_keeps _ term); [auto with faults | auto with respects |]. intros ? s1 E.
  wp_steps; [done|].
  apply (wp_for_each _ _ _ _ (λ t, term t = term s)); [|done|done].
  intros [r c] t ? Ht. eapply wp_mono; [|apply ProcessClientRequest_safe].
  - intros ? s' Hs'. by rewrite Hs'.
  - by apply (follows_itself_keeps s).
Qed.

Lemma HandleClientRequest_safe r c s :
  ¬ follows_itself s → wp no_abort (HandleClientRequest r c) s (λ _ _, True).
Proof.
  intros Hok. unfold HandleClientRequest, enqueue. unfold_ledger_ops'. wp_steps; try done.
  all: try (wp_over term; done).
  all: eapply wp_mono; [|apply ProcessClientRequest_safe; by apply (follows_itself_keeps s)]; done.
Qed.

Lemma DemoteToBackup_no_abort : faults no_abort DemoteToBackup.
Proof. unfold DemoteToBackup, StopHeartbeat, finish_pending_calls, reset_in_flights. abort_frame. Qed.
#[export] Hint Resolve DemoteToBackup_no_abort : faults.
Lemma HandlePrepare_no_abort r c : faults no_abort (HandlePrepare r c).
Proof. unfold HandlePrepare. abort_frame. Qed.
Lemma HandlePropose_no_abort e : faults no_abort (HandlePropose e).
Proof. unfold HandlePropose, SetNewLeader. abort_frame. Qed.
Lemma ElectionTimer_no_abort : faults no_abort ElectionTimer_turn.
Proof. unfold ElectionTimer_turn, OnElectionTimeout, SendPrepare. abort_frame. Qed.
Lemma HandleSetAlive_no_abort u : faults no_abort (HandleSetAlive u).
Proof.
  unfold HandleSetAlive, kill, revive, ResetNode, StopHeartbeat, finish_pending_calls,
    reset_in_flights. abort_frame.
Qed.
#[export] Hint Resolve HandlePrepare_no_abort HandlePropose_no_abort ElectionTimer_no_abort
  HandleSetAlive_no_abort : faults.

Lemma HandlePromise_safe r s : wp no_abort (HandlePromise r) s (λ _ _, True).
Proof.
  unfold HandlePromise, record_promise. unfold log_line. wp_steps; try done.
  all: try congruence.
  all: wp_over term; wp_step; wp_over term; wp_step.
  all: match goal with |- wp _ (BecomeLeader ?b) ?t _ =>
    destruct (BecomeLeader_eq b t) as (u & Hu & Ht); apply (wp_eq _ _ (mret tt) _ u); [done|] end.
  all: wp_steps; wp_over term; wp_step; wp_over term.
  all: eapply wp_mono; [|apply OnElectionComplete_safe]; [done|].
  all: intros [Hr _]; use_term; congruence.
Qed.

Lemma HandleNewView_safe v call s :
  node_id (nv_ballot v) ≠ node_id_ s → wp no_abort (HandleNewView v call) s (λ _ _, True).
Proof.
  intros Hid. unfold HandleNewView, SetNewLeader. unfold_ledger_ops'. wp_steps; try done.
  all: repeat (lazymatch goal with
    | |- wp _ OnElectionComplete _ _ =>
        eapply wp_mono; [|apply OnElectionComplete_safe; unfold follows_itself; use_term; intros [? ?]; congruence];
        cbn beta; intros
    | |- wp _ DemoteToBackup _ _ =>
        apply (wp_keeps _ node_id_); [auto with faults|auto with respects|intros ? ? ?; cbn beta]
    | |- wp _ (ResetElectionTimer) _ _ => wp_over term
    | |- wp _ (for_each _ _) _ _ => apply (wp_keeps _ term); [solve_faults|solve_keeps|done]
    | |- wp _ StartElectionTimer _ _ => wp_over term
    end; wp_steps; try done).
Qed.

(** What the state or the event must be for the process to abort. *)
Definition abort_cause (e : Event) (s : PaxosNode) : Prop :=
  match e with
  | EClientRequest _ _ => follows_itself s
  | ENewView v _ => node_id (nv_ballot v) = node_id_ s
  | _ => False
  end.

(** The [std::abort] of the forwarding branch of [ProcessClientRequest] has
    two causes only: a client request at a backup that follows itself, and a
    NEW-VIEW under a ballot with the node's own number. *)
Theorem abort_needs_own_ballot (t : Z) (s : PaxosNode) (e : Event) :
  run_at t e s = Fault Aborted → abort_cause e s.
Proof.
  assert (∀ (m : NodeM unit), faults no_abort m → m (upd now_ t s) = Fault Aborted → False) as Hf
    by (intros m H E; by destruct (H _ _ E)).
  assert (∀ (m : NodeM unit) Q, wp no_abort m (upd now_ t s) Q → m (upd now_ t s) = Fault Aborted → False) as Hw
    by (intros m Q H E; unfold wp in H; rewrite E in H; by destruct H).
  intros H. change (handle e (upd now_ t s) = Fault Aborted) in H.
  destruct e; cbn [abort_cause handle] in *;
    try (eapply Hf; [|exact H]; solve [auto with faults | apply faults_bind; [auto with faults|intros; apply faults_ret]]).
  - eapply Hw; [apply HandlePromise_safe|exact H].
  - destruct (decide (node_id (nv_ballot v) = node_id_ s)) as [|Hn]; [done|]. exfalso.
    eapply Hw; [apply HandleNewView_safe; exact Hn|exact H].
  - destruct (decide (role_ s = BACKUP ∧ leader_id_ s = node_id_ s)) as [|Hn]; [done|]. exfalso.
    eapply Hw; [apply HandleClientRequest_safe; exact Hn|exact H].
Qed.

(** ** The theorems on a small deployment *)
Lemma small_trace_runs :
  ∃ s, run_trace small_trace (small_node 1) = Some s ∧ reachable (small_node 1) s ∧ role_ s = LEADER.
Proof.
  destruct (run_trace small_trace (small_node 1)) as [s|] eqn:E.
  - exists s. split; [done|]. split.
    + by apply (run_trace_reachable small_trace).
    + assert (role_ <$> run_trace small_trace (small_node 1) = Some LEADER) as H
        by (vm_compute; reflexivity).
      rewrite E in H. by injection H.
  - assert (is_Some (run_trace small_trace (small_node 1))) as [s H] by (vm_compute; eauto).
    by rewrite E in H.
Qed.
Lemma term_invariant_witness :
  ∃ s, reachable (small_node 1) s ∧ role_ s = LEADER ∧ leader_id_ s = node_id_ s.
Proof.
  destruct small_trace_runs as (s & _ & Hs & Hr). exists s. split_and!; [done..|].
  by apply (term_invariant 1 (list_to_set [1; 2; 3; 4; 5; 6]) {["A"%string]} small_shards 2 5000 s Hs).
Defined.
