(* ===== verification/Promises.v ===== *)
(** * Promises and elections

    Which events can lower the promised ballot, and that only a quorum of
    distinct answers turns a backup into a leader. *)
From S2P Require Import Prelude Text Messages Node Ledger Elections TwoPhase Replication Requests.
From S2P Require Import NewView Control ElectionProofs Machine Frames Safety.
#[local] Open Scope Z_scope.

(** ** Promises are never lowered *)
Definition promised_le : relation PaxosNode := λ s s',
  ballot_le (highest_promised_ballot_ s) (highest_promised_ballot_ s').

#[export] Instance ballot_le_dec : RelDecision ballot_le.
Proof. intros a b. refine (cast_if (decide (ballot_geb b a = true))); by rewrite <- ballot_geb_spec. Defined.

(** What an event needs to lower the promise: a NEW-VIEW with a lower ballot, a
    reset, or an ACCEPT below the promise of a leader that leads with a ballot
    below its promise. *)
Definition can_lower (s : PaxosNode) (e : Event) : Prop :=
  match e with
  | ENewView v _ => ¬ ballot_le (highest_promised_ballot_ s) (nv_ballot v)
  | ESetAlive u => au_reset_state u = true
  | EAccept a =>
      role_ s = LEADER ∧ ballot_gtb (ae_ballot a) (current_ballot_ s) = true ∧
      ¬ ballot_le (highest_promised_ballot_ s) (ae_ballot a)
  | _ => False
  end.

#[export] Instance can_lower_dec s e : Decision (can_lower s e).
Proof. destruct e; cbn [can_lower]; apply _. Defined.

Ltac promise_step :=
  lazymatch goal with
  | |- wp _ DemoteToBackup _ _ =>
      apply (wp_keeps _ highest_promised_ballot_);
        [solve_faults | auto with respects | intros ? ? ?]
  | |- wp _ _ _ _ => wp_over term
  end.
Ltac solve_promise :=
  unfold promised_le; use_term; rewrite ?ballot_eta;
  eauto using ballot_le_gtb, ballot_gtb_le, ballot_gtb_false_le, ballot_le_refl.

Lemma term_frame_promise {A} (m : NodeM A) s :
  respects (keeps term) m → wp any_fault m s (λ _ s', promised_le s s').
Proof.
  intros Hk. apply (wp_keeps _ term); [done..|]. intros ? s' Hs'. unfold promised_le.
  unfold term in Hs'. injection Hs' as _ _ _ _ -> _. reflexivity.
Qed.

Lemma HandlePrepare_promise r call s :
  wp any_fault (HandlePrepare r call) s (λ _ s', promised_le s s').
Proof.
  unfold HandlePrepare. unfold_ledger_ops'. wp_steps; try done.
  all: repeat (promise_step; wp_steps).
  all: try solve [solve_promise].
Qed.

Lemma HandlePromise_promise r s : wp any_fault (HandlePromise r) s (λ _ s', promised_le s s').
Proof.
  unfold HandlePromise, record_promise, BecomeLeader, StartHeartbeat, StopHeartbeat.
  unfold log_line. wp_steps; try done.
  all: repeat (promise_step; wp_steps).
  all: try solve [solve_promise].
Qed.

Lemma HandlePropose_promise e s :
  ¬ can_lower s (EAccept e) → wp any_fault (HandlePropose e) s (λ _ s', promised_le s s').
Proof.
  intros Hok. unfold HandlePropose, SetNewLeader. unfold_ledger_ops'. wp_steps; try done.
  all: repeat (promise_step; wp_steps).
  all: try solve [solve_promise].
  all: assert (ballot_le (highest_promised_ballot_ s) (ae_ballot e)) by
    (destruct (decide (ballot_le (highest_promised_ballot_ s) (ae_ballot e))); [done|]; exfalso; apply Hok; cbn [can_lower];
     destruct (role_ s) eqn:Hr; use_term; try done; split_and!; done).
  all: solve_promise.
Qed.

Lemma HandleNewView_promise v call s :
  ballot_le (highest_promised_ballot_ s) (nv_ballot v) →
  wp any_fault (HandleNewView v call) s (λ _ s', promised_le s s').
Proof.
  intros Hok. unfold HandleNewView, SetNewLeader. unfold_ledger_ops'. wp_steps; try done.
  all: repeat (promise_step; wp_steps).
  all: solve_promise.
Qed.

Lemma ElectionTimer_promise s : wp any_fault ElectionTimer_turn s (λ _ s', promised_le s s').
Proof.
  unfold ElectionTimer_turn, OnElectionTimeout, SendPrepare, to_cluster. wp_steps.
  all: repeat (promise_step; wp_steps).
  all: try solve [solve_promise].
  all: solve_promise; apply ballot_gtb_le; congruence.
Qed.

Lemma HandleSetAlive_promise u s :
  au_reset_state u = false → wp any_fault (HandleSetAlive u) s (λ _ s', promised_le s s').
Proof.
  intros Hu. unfold HandleSetAlive, kill, revive. rewrite Hu. wp_steps.
  all: repeat (promise_step; wp_steps).
  all: solve_promise.
Qed.

(** C7: when a promise can be taken back. An event that leaves a node with a
    lower promised ballot is one of three: a NEW-VIEW with a ballot below the
    promise, a reset, or an ACCEPT that demotes a leader whose own ballot is
    below its promise, and that is itself below it. PREPAREs, ACCEPTs at
    backups, acknowledgements, COMMITs, promises, timers, heartbeats and client
    requests never lower it. *)
Theorem promise_lowered_only_by (t : Z) (e : Event) (s s' : PaxosNode) :
  run_at t e s = Ok (tt, s') →
  ¬ ballot_le (highest_promised_ballot_ s) (highest_promised_ballot_ s') → can_lower s e.
Proof.
  intros Hr Hl. destruct (decide (can_lower s e)) as [|He]; [done|]. exfalso. apply Hl.
  change (promised_le s s').
  assert (wp any_fault (handle e) (upd now_ t s) (λ _ s', promised_le (upd now_ t s) s')) as H.
  { destruct e; cbn [handle] in *;
      try (apply term_frame_promise; solve [auto with respects]).
    - apply HandlePrepare_promise.
    - apply HandlePromise_promise.
    - apply wp_bind. eapply wp_mono; [|by apply HandlePropose_promise]. by intros.
    - apply HandleNewView_promise. by destruct (decide (ballot_le (highest_promised_ballot_ s) (nv_ballot v))).
    - apply wp_bind. eapply wp_mono; [|apply HandleSetAlive_promise]; [by intros|].
      cbn [can_lower] in He. by destruct (au_reset_state u).
    - apply wp_bind. eapply wp_mono; [|apply term_frame_promise; auto with respects]. by intros.
    - apply ElectionTimer_promise. }
  exact (wp_Ok _ _ _ _ _ _ Hr H).
Qed.

(** ** Elections need a quorum *)

(** C11: only a quorum of distinct answers makes a leader. If handling a
    promise turns a backup into a leader, then the node was a live candidate,
    the promise was positive and from a node it had not recorded, the nodes it
    has recorded, with this one, are at least [f_ + 1], and the node leads with
    the ballot it had. The ballot the promise was given for is not compared with
    that of the candidacy. *)
Theorem election_needs_quorum (r : PromiseResponse) (s s' : PaxosNode) :
  HandlePromise r s = Ok (tt, s') → role_ s = BACKUP → role_ s' = LEADER →
  alive_ s = true ∧ waiting_for_promises_ s = true ∧ ps_promised r = true ∧
  (ps_node_id r ∉ promises_received_ s) ∧
  (f_ s + 1 ≤ Z.of_nat (size ({[ps_node_id r]} ∪ promises_received_ s))) ∧
  current_ballot_ s' = current_ballot_ s ∧ leader_id_ s' = node_id_ s'.
Proof.
  intros H Hr.
  refine (wp_Ok any_fault _ s tt s' (λ _ s', role_ s' = LEADER → _) H _). clear H.
  unfold HandlePromise, record_promise. unfold log_line. wp_steps; try congruence.
  wp_over term. wp_step. wp_over term. wp_step.
  match goal with |- wp _ (BecomeLeader ?b) ?t _ =>
    destruct (BecomeLeader_eq b t) as (u & Hu & Ht); eapply wp_returns; [exact Hu|] end.
  wp_steps. wp_over term. wp_step. wp_over term.
  apply (wp_keeps _ term); [apply faults_any | auto with respects |]. intros ? v Hv _.
  use_term. split_and!; try done; try lia; try congruence.
Qed.

(** ** The theorems on a small deployment *)
(** A NEW-VIEW with a lower ballot does lower the promise. *)
Definition promised_node : PaxosNode := upd highest_promised_ballot_ (MkBallot 5 3) (small_node 2).
Definition stale_view : Event := ENewView (MkNewViewRequest (MkBallot 1 1) []) 7.

Lemma promise_lowered_only_by_witness :
  ∃ s', run_at 6000 stale_view promised_node = Ok (tt, s') ∧
    highest_promised_ballot_ s' = MkBallot 1 1 ∧ can_lower promised_node stale_view.
Proof.
  assert (highest_promised_ballot_ <$> final (run_at 6000 stale_view promised_node) = Some (MkBallot 1 1)) as H
    by (vm_compute; reflexivity).
  destruct (run_at 6000 stale_view promised_node) as [[[] s']|f] eqn:E; [|done].
  injection H as H. exists s'. split_and!; [done..|].
  apply (promise_lowered_only_by 6000 stale_view promised_node s' E). rewrite H.
  apply (bool_decide_eq_false_1 (ballot_le _ _)). vm_compute. reflexivity.
Defined.

(** The first node of the small deployment, asking for promises. *)
Definition small_candidate : PaxosNode :=
  default (small_node 1) (run_trace (take 2 small_trace) (small_node 1)).
Definition small_promise : PromiseResponse := MkPromiseResponse (MkBallot 1 1) 2 true [].

Lemma election_needs_quorum_witness :
  ∃ s', HandlePromise small_promise small_candidate = Ok (tt, s') ∧ role_ s' = LEADER ∧
    f_ small_candidate + 1 ≤
      Z.of_nat (size ({[ps_node_id small_promise]} ∪ promises_received_ small_candidate)).
Proof.
  assert (value (HandlePromise small_promise small_candidate) = Some tt) as (s' & H)%value_Ok
    by (vm_compute; reflexivity).
  assert (role_ <$> final (HandlePromise small_promise small_candidate) = Some LEADER) as Hr
    by (vm_compute; reflexivity).
  rewrite H in Hr. injection Hr as Hr. exists s'. split_and!; [done..|].
  refine (proj1 (proj2 (proj2 (proj2 (proj2
    (election_needs_quorum small_promise small_candidate s' H _ Hr)))))).
  vm_compute. reflexivity.
Defined.

(** ** A leader with another node's ballot

    [HandlePropose] does not end a candidacy: a candidate that has accepted an
    entry of a higher ballot still counts the promises for its own, and
    [HandlePromise] makes it leader with [current_ballot_], by then the ballot
    of the other node. *)
Definition overtaken_trace : list (Z * Event) :=
  take 2 small_trace ++
  [(6001, EAccept (MkAcceptedEntry (MkBallot 5 2) 1 (transfer 9 "1" "2" 1) 2 ""
                     ClientRequest_default 0 ""));
   (6002, EPromise small_promise)].

(** Two nodes can lead with one ballot. There is a reachable state of node
    1 in which it is leader with a ballot that node 2 has drawn. *)
Theorem leader_with_foreign_ballot :
  ∃ s, reachable (small_node 1) s ∧ role_ s = LEADER ∧ node_id_ s = 1 ∧
    current_ballot_ s = MkBallot 5 2.
Proof.
  assert ((λ s, (role_ s, node_id_ s, current_ballot_ s)) <$> run_trace overtaken_trace (small_node 1)
          = Some (LEADER, 1, MkBallot 5 2)) as H by (vm_compute; reflexivity).
  destruct (run_trace overtaken_trace (small_node 1)) as [s|] eqn:E; [|done].
  injection H as H1 H2 H3. exists s. split_and!; [|done..].
  by apply (run_trace_reachable overtaken_trace).
Qed.
