(* ===== verification/CallDataProofs.v ===== *)
(** * The server-side calls: no answer twice, no use after deletion

    The node's own accounting ([CallProofs]) says that it never answers a call
    twice. Here it is carried to the call objects: every [Finish] of a server
    hits a live object that has not been finished, every [Proceed] a live one,
    and an object of each kind is always waiting for the next request. The one
    write after a [Finish] needs its poller to be in time; without that it
    touches a deleted object ([move_on_use_after_free]). *)
From stdpp Require Import gmultiset.
From S2P Require Import Prelude Text Messages Node Ledger Elections TwoPhase Replication Requests.
From S2P Require Import NewView Control ElectionProofs Machine CallData Frames Calls CallProofs.
#[local] Open Scope Z_scope.

(** ** The faults of the node are not those of its call objects *)
Definition call_safe : fault → Prop := λ f, f ≠ UseAfterFree ∧ f ≠ DoubleFinish.

Lemma no_abort_safe {A} (m : NodeM A) : faults no_abort m → faults call_safe m.
Proof. intros H s f E. by destruct (H s f E). Qed.

Ltac safe_frame := unfold_ledger_ops'; repeat first
  [ progress intros
  | solve [eauto 2 with faults]
  | solve [apply no_abort_safe; eauto 2 with faults]
  | lazymatch goal with
    | |- faults _ (_ ≫= _) => apply faults_bind
    | |- faults _ (when _ _) => apply faults_when
    | |- faults _ (match ?x with _ => _ end) => destruct x eqn:?
    | |- faults _ (for_each _ _) => apply faults_for_each
    | |- faults _ (gets _) => apply faults_gets
    | |- faults _ (modify _) => apply faults_modify
    | |- faults _ (emit _) => apply faults_modify
    | |- faults _ (mret _) => apply faults_ret
    | |- faults _ skip => apply faults_ret
    | |- faults _ (raise _) => apply faults_raise; done
    end ].

Lemma ProcessClientRequest_call_safe r c : faults call_safe (ProcessClientRequest r c).
Proof.
  unfold ProcessClientRequest, forward_request, process_read_only, cache_reply, propose,
    lock_client, lock_participant, send_prepare, at_prepares. safe_frame.
Qed.
#[export] Hint Resolve ProcessClientRequest_call_safe : faults.
Lemma HandleClientRequest_call_safe r c : faults call_safe (HandleClientRequest r c).
Proof. unfold HandleClientRequest, enqueue. safe_frame. Qed.
Lemma OnElectionComplete_call_safe : faults call_safe OnElectionComplete.
Proof. unfold OnElectionComplete. safe_frame. Qed.
Lemma DemoteToBackup_call_safe : faults call_safe DemoteToBackup.
Proof. unfold DemoteToBackup, StopHeartbeat, finish_pending_calls, reset_in_flights. safe_frame. Qed.
#[export] Hint Resolve HandleClientRequest_call_safe OnElectionComplete_call_safe
  DemoteToBackup_call_safe : faults.
Lemma HandlePromise_call_safe r : faults call_safe (HandlePromise r).
Proof. unfold HandlePromise, record_promise, BecomeLeader, StartHeartbeat, StopHeartbeat. safe_frame. Qed.
Lemma HandleNewView_call_safe v c : faults call_safe (HandleNewView v c).
Proof. unfold HandleNewView, SetNewLeader. safe_frame. Qed.
Lemma HandlePrepare_call_safe r c : faults call_safe (HandlePrepare r c).
Proof. unfold HandlePrepare. safe_frame. Qed.
Lemma HandlePropose_call_safe e : faults call_safe (HandlePropose e).
Proof. unfold HandlePropose, SetNewLeader. safe_frame. Qed.
Lemma ElectionTimer_call_safe : faults call_safe ElectionTimer_turn.
Proof. unfold ElectionTimer_turn, OnElectionTimeout, SendPrepare. safe_frame. Qed.
Lemma HandleSetAlive_call_safe u : faults call_safe (HandleSetAlive u).
Proof.
  unfold HandleSetAlive, kill, revive, ResetNode, StopHeartbeat, finish_pending_calls,
    reset_in_flights. safe_frame.
Qed.

(** ** The invariant of a server

    [ok n todo s]: the calls [todo] are in the hands of the running handler;
    they and the calls the node holds are different, live and unanswered; the
    waiting objects wait in the status their class expects, [n k] of each kind;
    the objects on their way out are finished, and have the status for it or a
    poller that is about to write it; and nothing was answered twice. *)
Definition waiting_status (k : CallKind) : CallStatus :=
  if asks_in_constructor k then CREATE else PROCESS.
Definition kind_at (s : Server) (c : Z) : option CallKind := co_kind <$> sv_calls s !! c.
Definition listeners (s : Server) (k : CallKind) : gset Z :=
  filter (λ c, kind_at s c = Some k) (sv_listening s).

Definition in_hands (todo : list Z) (s : Server) : list Z := todo ++ held (sv_node s).

Record ok (n : CallKind → nat) (todo : list Z) (s : Server) : Prop := {
  so_tape : outbox_ (sv_node s) = [];
  so_nodup : NoDup (in_hands todo s);
  so_live : ∀ c, c ∈ in_hands todo s →
    c ∉ sv_listening s ∧ ∃ o, sv_calls s !! c = Some o ∧ co_finished o = false ∧ co_status o = PROCESS;
  so_listening : ∀ c, c ∈ sv_listening s →
    ∃ o, sv_calls s !! c = Some o ∧ co_finished o = false ∧ co_status o = waiting_status (co_kind o);
  so_completing : ∀ c, c ∈ sv_completing s →
    ∃ o, sv_calls s !! c = Some o ∧ co_finished o = true ∧ (co_status o = FINISH ∨ c ∈ sv_tails s);
  so_tails : sv_tails s ⊆ sv_completing s;
  so_bound : ∀ c o, sv_calls s !! c = Some o → c < sv_next s;
  so_replied : NoDup (sv_replies s).*1;
  so_replies : ∀ c, c ∈ (sv_replies s).*1 →
    c < sv_next s ∧ ∀ o, sv_calls s !! c = Some o → co_finished o = true;
  so_kinds : ∀ k, size (listeners s k) = n k }.

Lemma call_at_eq s c o : sv_calls s !! c = Some o → call_at c s = Ok (o, s).
Proof. intros H. unfold call_at. run_goal. by rewrite H. Qed.
Lemma set_call_eq s c o g :
  sv_calls s !! c = Some o → set_call c g s = Ok (tt, upd sv_calls (<[c := g o]> (sv_calls s)) s).
Proof. intros H. unfold set_call. by rewrite (bind_Ok _ _ _ _ _ (call_at_eq s c o H)). Qed.

(** Writing an object that is not waiting leaves the waiting ones alone. *)
Lemma listeners_write s s' k :
  sv_listening s' = sv_listening s →
  (∀ c, c ∈ sv_listening s → kind_at s' c = kind_at s c) → listeners s' k = listeners s k.
Proof.
  intros HL HK. unfold listeners. rewrite HL. apply set_eq. intros c. rewrite !elem_of_filter.
  split; intros [H1 H2]; (split; [|done]); by rewrite HK in * by done.
Qed.

(** The object [c], written as [o], and its answer on the way. *)
Definition handed_over (c : Z) (r : RpcReply) (o : CallObject) (s : Server) : Server :=
  upd sv_replies (sv_replies s ++ [(c, r)])
    (upd sv_completing ({[c]} ∪ sv_completing s)
      (upd sv_calls (<[c := upd co_finished true o]> (sv_calls s)) s)).

Lemma hand_over_eq c r s o :
  sv_calls s !! c = Some o → co_finished o = false →
  hand_over c r s = Ok (tt, handed_over c r o s).
Proof.
  intros H Hf. unfold hand_over. rewrite (bind_Ok _ _ _ _ _ (call_at_eq s c o H)), Hf.
  by rewrite (bind_Ok _ _ _ _ _ (set_call_eq s c o _ H)).
Qed.
Lemma finish_eq c r s o :
  sv_calls s !! c = Some o → co_finished o = false →
  finish c r s = Ok (tt, handed_over c r (upd co_status FINISH o) s).
Proof.
  intros H Hf. unfold finish. rewrite (bind_Ok _ _ _ _ _ (set_call_eq s c o _ H)).
  rewrite (hand_over_eq c r _ (upd co_status FINISH o)) by (simp_upd; by rewrite ?lookup_insert_eq).
  unfold handed_over. simp_upd. by rewrite insert_insert_eq.
Qed.

(** Handing over a call in the hands of the handler: its status is [FINISH], or
    is left to the tail of this [Proceed], which then is one of [T]. *)
Lemma handed_over_ok n c todo r u (T : gset Z) s :
  ok n (c :: todo) s → T ⊆ {[c]} → co_status u = FINISH ∨ c ∈ T →
  ok n todo (upd sv_tails (T ∪ sv_tails s) (handed_over c r u s)).
Proof.
  intros [Ht Hn Hl Hli Hco Hta Hb Hr1 Hr2 Hk] HT Hu.
  destruct (Hl c) as (Hc & o & Ho & Hf & Hst); [by left|].
  apply list.NoDup_cons in Hn as [Hcn Hn]. unfold handed_over, in_hands in *.
  split; unfold in_hands; simp_upd; try done.
  - intros d Hd. destruct (Hl d) as (? & o' & ? & ? & ?); [by right|]. split; [done|].
    exists o'. by rewrite lookup_insert_ne by (intros ->; done).
  - intros d Hd. destruct (Hli d Hd) as (o' & ? & ? & ?). exists o'.
    by rewrite lookup_insert_ne by (intros ->; done).
  - intros d [->%elem_of_singleton|Hd]%elem_of_union.
    + rewrite lookup_insert_eq. eexists. split_and!; [done..|]. simp_upd.
      destruct Hu as [Hu|Hu]; [by left|right; by apply elem_of_union_l].
    + destruct (Hco d Hd) as (o' & H1 & H2 & H3). exists o'.
      rewrite lookup_insert_ne by (intros ->; congruence). split_and!; [done..|].
      destruct H3; [by left|right; by apply elem_of_union_r].
  - clear -HT Hta. set_solver.
  - intros d o'. destruct (decide (c = d)) as [->|].
    + intros _. by apply (Hb d o).
    + rewrite lookup_insert_ne by done. apply Hb.
  - rewrite fmap_app. apply list.NoDup_app. split_and!; [done| |apply NoDup_singleton].
    intros d Hd ->%list_elem_of_singleton. destruct (Hr2 c Hd) as [_ H]. specialize (H o Ho). congruence.
  - intros d. rewrite fmap_app. intros [Hd| ->%list_elem_of_singleton]%list.elem_of_app.
    + destruct (Hr2 d Hd) as [? H]. split; [done|]. intros o'.
      destruct (decide (c = d)) as [->|]; [rewrite lookup_insert_eq; by intros [= <-]|].
      rewrite lookup_insert_ne by done. apply H.
    + split; [by apply (Hb c o)|]. intros o'. rewrite lookup_insert_eq. by intros [= <-].
  - intros k. rewrite <-(Hk k). f_equal. apply listeners_write; [done|].
    intros d Hd. unfold kind_at. simp_upd. rewrite lookup_insert_ne; [done|]. by intros ->.
Qed.

Lemma finish_ok n c todo r s :
  ok n (c :: todo) s → wp call_safe (finish c r) s (λ _, ok n todo).
Proof.
  intros H. destruct (so_live _ _ _ H c) as (_ & o & Ho & Hf & _); [by left|].
  eapply wp_returns; [by apply finish_eq|].
  pose proof (handed_over_ok n c todo r (upd co_status FINISH o) ∅ s H (empty_subseteq _) (or_introl eq_refl)) as H'.
  rewrite (left_id_L ∅ (∪)) in H'. by destruct s.
Qed.

(** The end of the [Proceed] of a [MoveOn] call. *)
Lemma hand_over_ok n c todo r s :
  ok n (c :: todo) s →
  wp call_safe (hand_over c r ;; sv_tails ::~ (λ l, {[c]} ∪ l)) s (λ _, ok n todo).
Proof.
  intros H. destruct (so_live _ _ _ H c) as (_ & o & Ho & Hf & _); [by left|].
  apply wp_bind. eapply wp_returns; [by apply hand_over_eq|]. apply wp_modify. cbn beta.
  exact (handed_over_ok n c todo r o {[c]} s H (reflexivity _) (or_intror (proj2 (elem_of_singleton c c) eq_refl))).
Qed.

(** A write of the node that leaves the calls it holds alone, or of the sent
    list, does not matter. *)
Lemma ok_frame n todo s s' :
  outbox_ (sv_node s') = [] → held (sv_node s') = held (sv_node s) →
  sv_calls s' = sv_calls s → sv_next s' = sv_next s → sv_listening s' = sv_listening s →
  sv_completing s' = sv_completing s → sv_tails s' = sv_tails s → sv_replies s' = sv_replies s →
  ok n todo s → ok n todo s'.
Proof.
  intros H1 H2 H3 H4 H5 H6 H7 H8 [Ht Hn Hl Hli Hco Hta Hb Hr1 Hr2 Hk].
  unfold in_hands in *. split; unfold in_hands; rewrite ?H2, ?H3, ?H4, ?H5, ?H6, ?H7, ?H8; try done.
  intros k. rewrite <-(Hk k). f_equal. apply listeners_write; [done|].
  intros. unfold kind_at. by rewrite H3.
Qed.

Lemma answers_ok n todo os s :
  ok n (responses os ++ todo) s → wp call_safe (for_each os answer) s (λ _, ok n todo).
Proof.
  revert s. induction os as [|o os IH]; intros s H; cbn [for_each]; [done|].
  apply wp_bind. eapply wp_mono; [intros ? s'; apply IH|].
  unfold responses in *. cbn [omap list_omap] in H.
  destruct o; cbn [answer response] in *; try (apply finish_ok; exact H);
    apply wp_modify; cbn beta; eapply ok_frame; try exact H; try reflexivity; apply H.
Qed.

(** A handler of the node, handed the calls [h]. *)
Lemma on_node_ok {A} n (h : option Z) todo (m : NodeM A) s :
  faults call_safe m → uses (one h) m (λ _, ∅) → ok n (option_list h ++ todo) s →
  wp call_safe (on_node m) s (λ _, ok n todo).
Proof.
  intros Hf Hu H. unfold on_node, wp at 1.
  destruct (m (upd outbox_ [] (sv_node s))) as [[a nd]|f] eqn:E; [|by eapply Hf].
  apply Hu in E. rewrite !calls_held, (right_id_L ∅ (⊎)) in E.
  change (responses (outbox_ (upd outbox_ [] (sv_node s)))) with (@nil Z) in E.
  change (held (upd outbox_ [] (sv_node s))) with (held (sv_node s)) in E. cbn [app] in E.
  change (wp call_safe (for_each (outbox_ nd) answer ;; mret a)
    (upd sv_node (upd outbox_ [] nd) s) (λ _, ok n todo)).
  apply wp_bind. eapply wp_mono; [intros ? s' Hs'; apply wp_ret, Hs'|]. apply answers_ok.
  assert (bag (responses (outbox_ nd) ++ todo ++ held nd)
          ⊆ bag (option_list h ++ todo ++ held (sv_node s))) as Hb.
  { unfold one in E. rewrite !bag_app in *. generalize dependent (bag (held nd)).
    generalize (bag todo) (bag (held (sv_node s))) (bag (responses (outbox_ nd)))
      (bag (option_list h)). clear. intros. multiset_solver. }
  destruct H as [Ht Hn Hl Hli Hco Hta Hbo Hr1 Hr2 Hk]. unfold in_hands in *.
  rewrite <-app_assoc in Hn.
  split; unfold in_hands; simp_upd; try done.
  - rewrite <-app_assoc. by eapply bag_NoDup.
  - intros c Hc. apply Hl. rewrite <-app_assoc in *.
    apply elem_of_list_to_set_disj in Hc. apply elem_of_list_to_set_disj. unfold bag in Hb.
    multiset_solver.
Qed.

(** ** The constructor of the next object *)
Definition bump (k : CallKind) (n : CallKind → nat) : CallKind → nat :=
  λ k', if decide (k = k') then S (n k') else n k'.

Lemma rpc_kind_empty k : rpc_kind (empty_request k) = k.
Proof. by destruct k. Qed.

Definition with_listener (k : CallKind) (s : Server) : Server :=
  let c := sv_next s in
  upd sv_listening ({[c]} ∪ sv_listening s)
    (upd sv_calls (<[c := MkCallObject (empty_request k) (waiting_status k) false]> (sv_calls s))
      (upd sv_next (c + 1) s)).

Lemma new_call_eq k s : new_call k s = Ok (tt, with_listener k s).
Proof.
  unfold new_call, with_listener, waiting_status. run_goal. simp_upd.
  destruct (asks_in_constructor k); [reflexivity|]. unfold start.
  rewrite (bind_Ok _ _ _ tt _ (set_call_eq _ _ _ _ (lookup_insert_eq _ _ _))).
  unfold listen. run_goal. simp_upd. rewrite insert_insert_eq. by destruct s.
Qed.

Lemma listeners_add k k' s s' c :
  c ∉ sv_listening s → sv_listening s' = {[c]} ∪ sv_listening s → kind_at s' c = Some k →
  (∀ d, d ∈ sv_listening s → kind_at s' d = kind_at s d) →
  size (listeners s' k') = bump k (λ k, size (listeners s k)) k'.
Proof.
  intros Hc HL Hk Hd. unfold bump.
  assert (∀ d, d ∈ listeners s' k' ↔ (d = c ∧ k = k') ∨ d ∈ listeners s k') as HE.
  { intros d. unfold listeners. rewrite !elem_of_filter, HL, elem_of_union, elem_of_singleton.
    split.
    - intros [H [->|H']]; [left; split; congruence|right]. by rewrite Hd in H by done.
    - intros [[-> ->]|[H H']]; [by auto|]. rewrite Hd by done. auto. }
  case_decide as Hkk.
  - subst k'. replace (listeners s' k) with ({[c]} ∪ listeners s k) by set_solver.
    rewrite size_union, size_singleton; [done|]. unfold listeners. set_solver.
  - by replace (listeners s' k') with (listeners s k') by set_solver.
Qed.

Lemma ok_fresh n todo s : ok n todo s → sv_calls s !! sv_next s = None.
Proof. intros H. apply eq_None_not_Some. intros [o Ho]. apply (so_bound _ _ _ H) in Ho. lia. Qed.

Lemma new_call_ok n todo k s : ok n todo s → ok (bump k n) todo (with_listener k s).
Proof.
  intros H. pose proof (ok_fresh _ _ _ H) as Hfr. destruct H as [Ht Hn Hl Hli Hco Hta Hb Hr1 Hr2 Hk].
  assert (∀ c o, sv_calls s !! c = Some o → sv_next s ≠ c) as Hne.
  { intros c o Ho <-. congruence. }
  assert (sv_next s ∉ sv_listening s) as Hnl.
  { intros Hc. destruct (Hli _ Hc) as (o & Ho & _). congruence. }
  unfold with_listener, in_hands in *. split; unfold in_hands; simp_upd; try done.
  - intros c Hc. destruct (Hl c Hc) as (Hcl & o & Ho & Hrest). split.
    + pose proof (Hne c o Ho). set_solver.
    + exists o. by rewrite lookup_insert_ne by eauto.
  - intros c [->%elem_of_singleton|Hc]%elem_of_union.
    + rewrite lookup_insert_eq. eexists. split_and!; [done..|].
      unfold co_kind. simpl. by rewrite rpc_kind_empty.
    + destruct (Hli c Hc) as (o & Ho & Hrest). exists o. by rewrite lookup_insert_ne by eauto.
  - intros c Hc. destruct (Hco c Hc) as (o & Ho & Hrest). exists o.
    by rewrite lookup_insert_ne by eauto.
  - intros c o. destruct (decide (sv_next s = c)) as [->|]; [lia|].
    rewrite lookup_insert_ne by done. intros Ho%Hb. lia.
  - intros c Hc. destruct (Hr2 c Hc) as [Hlt Ho]. split; [lia|]. intros o.
    rewrite lookup_insert_ne by lia. apply Ho.
  - intros k'. rewrite (listeners_add k k' s _ (sv_next s)); simp_upd; try done.
    + unfold bump. by rewrite (Hk k').
    + unfold kind_at. simp_upd. rewrite lookup_insert_eq. simpl. unfold co_kind. simpl.
      by rewrite rpc_kind_empty.
    + intros d Hd. destruct (Hli d Hd) as (o & Ho & _). unfold kind_at. simp_upd.
      by rewrite lookup_insert_ne by eauto.
Qed.

(** ** A request arrives *)
Definition handed (c : Z) (r : RpcRequest) (st : CallStatus) (s : Server) : Server :=
  upd sv_calls (<[c := MkCallObject r st false]> (sv_calls s))
    (upd sv_listening (sv_listening s ∖ {[c]}) s).

Lemma handed_ok n c r s :
  ok (bump (rpc_kind r) n) [] s → c ∈ sv_listening s → kind_at s c = Some (rpc_kind r) →
  ok n [c] (handed c r PROCESS s).
Proof.
  intros [Ht Hn Hl Hli Hco Hta Hb Hr1 Hr2 Hk] Hc Hkc. unfold in_hands in *.
  destruct (Hli c Hc) as (oc & Hoc & Hfc & _).
  assert (c ∉ held (sv_node s)) as Hch by (intros Hh; by destruct (Hl c Hh)).
  unfold handed. split; unfold in_hands; simp_upd; try done.
  - by constructor.
  - intros d [->|Hd]%list.elem_of_cons.
    + split; [set_solver|]. rewrite lookup_insert_eq. by eexists.
    + destruct (Hl d Hd) as (Hdl & o & Ho & Hrest). split; [set_solver|]. exists o.
      by rewrite lookup_insert_ne by (intros ->; done).
  - intros d [Hd Hdc]%elem_of_difference. destruct (Hli d Hd) as (o & Ho & Hrest). exists o.
    by rewrite lookup_insert_ne by set_solver.
  - intros d Hd. destruct (Hco d Hd) as (o & Ho & Hf & Hrest). exists o.
    by rewrite lookup_insert_ne by (intros ->; congruence).
  - intros d o. destruct (decide (c = d)) as [->|]; [intros _; by apply (Hb d oc)|].
    rewrite lookup_insert_ne by done. apply Hb.
  - intros d Hd. destruct (Hr2 d Hd) as [Hlt Ho]. split; [done|]. intros o.
    rewrite lookup_insert_ne; [apply Ho|]. intros ->. specialize (Ho oc Hoc). congruence.
  - intros k. specialize (Hk k).
    rewrite (listeners_add (rpc_kind r) k (handed c r PROCESS s) s c) in Hk; unfold handed.
    + unfold bump in Hk. unfold listeners in *. case_decide; [by injection Hk|exact Hk].
    + simp_upd. set_solver.
    + simp_upd. apply set_eq. intros d. destruct (decide (d = c)); set_solver.
    + done.
    + simp_upd. intros d Hd. unfold kind_at. simp_upd. by rewrite lookup_insert_ne by set_solver.
Qed.

Lemma ok_ext n n' todo s : (∀ k, n k = n' k) → ok n todo s → ok n' todo s.
Proof. intros HE []. split; try done. intros k. by rewrite <-HE. Qed.

Definition unbump (k : CallKind) (n : CallKind → nat) : CallKind → nat :=
  λ k', if decide (k = k') then pred (n k') else n k'.
Lemma bump_unbump n k k' : n k ≠ O → bump k (unbump k n) k' = n k'.
Proof. intros H. unfold bump, unbump. case_decide; [subst; lia|done]. Qed.

Lemma Arrive_handed c r s o :
  sv_calls s !! c = Some o → co_finished o = false →
  server_event (Arrive c r) s = Proceed c (handed c r (co_status o) s).
Proof.
  intros Ho Hf. unfold server_event, handed.
  set (s1 := upd sv_listening (sv_listening s ∖ {[c]}) s).
  rewrite (bind_Ok _ _ _ tt s1 eq_refl).
  rewrite (bind_Ok _ _ _ tt _ (set_call_eq s1 c o _ Ho)). subst s1. simp_upd.
  destruct o as [q st f]. cbn in Hf. by subst f.
Qed.

Lemma handed_at c r st s : sv_calls (handed c r st s) !! c = Some (MkCallObject r st false).
Proof. unfold handed. simp_upd. apply lookup_insert_eq. Qed.
Lemma handed_process c r s :
  set_call c (upd co_status PROCESS) (handed c r CREATE s) = Ok (tt, handed c r PROCESS s).
Proof.
  rewrite (set_call_eq _ c _ _ (handed_at c r CREATE s)). unfold handed. simp_upd.
  rewrite insert_insert_eq. by destruct s.
Qed.

(** Serving at once, and leaving the answer to the node. *)
Lemma serve_now_ok {A} n k c (m : NodeM A) (reply : A → RpcReply) s :
  faults call_safe m → uses ∅ m (λ _, ∅) → ok n [c] s →
  wp call_safe (new_call k ;; a ← on_node m; finish c (reply a)) s (λ _, ok (bump k n) []).
Proof.
  intros Hf Hu H. apply wp_bind. eapply wp_returns; [apply new_call_eq|].
  apply wp_bind. eapply wp_mono; [intros a s' Hs'; apply finish_ok, Hs'|].
  by apply (on_node_ok _ None); [| |apply new_call_ok].
Qed.
Lemma serve_plain_ok n k c reply s :
  ok n [c] s → wp call_safe (new_call k ;; finish c reply) s (λ _, ok (bump k n) []).
Proof.
  intros H. apply wp_bind. eapply wp_returns; [apply new_call_eq|]. by apply finish_ok, new_call_ok.
Qed.
Lemma serve_move_on_ok n c s :
  faults call_safe HandleMoveOn → uses ∅ HandleMoveOn (λ _, ∅) → ok n [c] s →
  wp call_safe (new_call KMoveOn ;; a ← on_node HandleMoveOn;
    hand_over c (RpTransactionAck a) ;; sv_tails ::~ (λ l, {[c]} ∪ l)) s (λ _, ok (bump KMoveOn n) []).
Proof.
  intros Hf Hu H. apply wp_bind. eapply wp_returns; [apply new_call_eq|].
  apply wp_bind. eapply wp_mono; [intros a s' Hs'; apply hand_over_ok, Hs'|].
  by apply (on_node_ok _ None); [| |apply new_call_ok].
Qed.
Lemma serve_later_ok n k c (m : NodeM unit) s :
  faults call_safe m → uses {[+ c +]} m (λ _, ∅) → ok n [c] s →
  wp call_safe (new_call k ;; on_node m) s (λ _, ok (bump k n) []).
Proof.
  intros Hf Hu H. apply wp_bind. eapply wp_returns; [apply new_call_eq|].
  apply (on_node_ok _ (Some c)); [done|by rewrite one_Some|by apply new_call_ok].
Qed.

#[export] Hint Resolve HandlePrepare_call_safe HandleNewView_call_safe HandlePropose_call_safe
  HandlePromise_call_safe ElectionTimer_call_safe HandleSetAlive_call_safe : faults.
Ltac node_facts := first
  [ solve [eauto 2 with faults] | solve [apply no_abort_safe; eauto 2 with faults]
  | apply faults_gets | solve [solve_uses] | done ].

Lemma Arrive_ok n c r s :
  ok n [] s → deliverable s (Arrive c r) →
  wp call_safe (server_event (Arrive c r)) s (λ _, ok n []).
Proof.
  intros H [Hc Hk]. destruct (so_listening _ _ _ H c Hc) as (o & Ho & Hf & Hst).
  assert (kind_at s c = Some (rpc_kind r)) as Hka by exact Hk.
  assert (n (rpc_kind r) ≠ O) as Hn0.
  { rewrite <-(so_kinds _ _ _ H). apply size_non_empty_iff. set_unfold.
    intros HE. by apply (HE c). }
  rewrite Ho in Hk. injection Hk as Hk. rewrite Hk in Hst.
  assert (ok (unbump (rpc_kind r) n) [c] (handed c r PROCESS s)) as Hh.
  { apply handed_ok; [|done|done]. eapply ok_ext; [|exact H]. intros k. by rewrite bump_unbump. }
  eapply wp_eq; [by apply (Arrive_handed c r s o)|]. rewrite Hst. clear Hst Hk Ho Hf o.
  apply (wp_mono _ _ _ (λ _, ok (bump (rpc_kind r) (unbump (rpc_kind r) n)) []));
    [intros ? s'; apply ok_ext; intros k; by apply bump_unbump|].
  unfold Proceed. apply wp_bind. eapply wp_returns; [apply call_at_eq, handed_at|].
  destruct r; cbn [co_request rpc_kind waiting_status asks_in_constructor] in *;
  match goal with |- wp _ (?f _ c) _ _ => unfold f | |- wp _ (?f c) _ _ => unfold f end;
  apply wp_bind; (eapply wp_returns; [apply call_at_eq, handed_at|]); cbn [co_status];
  try (apply wp_bind; eapply wp_returns; [apply handed_process|]).
  all: lazymatch goal with
    | |- wp _ (new_call KMoveOn ;; _) _ _ => apply serve_move_on_ok; [| |exact Hh]; node_facts
    | |- _ => first
        [ eapply serve_later_ok; [| |exact Hh]; node_facts
        | apply serve_now_ok; [| |exact Hh]; node_facts
        | by apply serve_plain_ok ]
    end.
Qed.

(** ** An answer has been sent *)
Lemma delete_ok n c o s :
  ok n [] s → sv_calls s !! c = Some o → co_finished o = true → c ∉ sv_completing s →
  wp call_safe (delete_call c) s (λ _, ok n []).
Proof.
  intros [Ht Hn Hl Hli Hco Hta Hb Hr1 Hr2 Hk] Ho Hf Hc. unfold delete_call. apply wp_bind.
  eapply wp_returns; [by apply call_at_eq|]. apply wp_modify. cbn beta.
  assert (∀ d o', sv_calls s !! d = Some o' → co_finished o' = false → c ≠ d) as Hne.
  { intros d o' Hd Hfd <-. congruence. }
  unfold in_hands in *. split; unfold in_hands; simp_upd; try done.
  - intros d Hd. destruct (Hl d Hd) as (? & o' & ? & ? & ?). split; [done|]. exists o'.
    by rewrite lookup_delete_ne by eauto.
  - intros d Hd. destruct (Hli d Hd) as (o' & ? & ? & ?). exists o'.
    by rewrite lookup_delete_ne by eauto.
  - intros d Hd. destruct (Hco d Hd) as (o' & Hrest). exists o'.
    by rewrite lookup_delete_ne by (intros ->; done).
  - intros d o' [_ Hd]%lookup_delete_Some. by apply (Hb d o').
  - intros d Hd. destruct (Hr2 d Hd) as [? Hd']. split; [done|].
    intros o' [_ Ho']%lookup_delete_Some. by apply Hd'.
  - intros k. rewrite <-(Hk k). f_equal. apply listeners_write; [done|]. intros d Hd.
    destruct (Hli d Hd) as (o' & Hd' & Hfd & _). unfold kind_at. simp_upd.
    by rewrite lookup_delete_ne by eauto.
Qed.

Lemma no_tape (nd : PaxosNode) : outbox_ nd = [] → upd outbox_ [] nd = nd.
Proof. intros H. rewrite <-H. by destruct nd. Qed.

Lemma new_view_forgotten n c o s :
  ok n [] s → sv_calls s !! c = Some o → co_finished o = true →
  on_node (OnNewViewCallFinished c) s = Ok (tt, s).
Proof.
  intros H Ho Hf. unfold on_node. rewrite (no_tape _ (so_tape _ _ _ H)).
  assert (OnNewViewCallFinished c (sv_node s) = Ok (tt, sv_node s)) as ->.
  { unfold OnNewViewCallFinished. run_goal. rewrite bool_decide_eq_false_2; [done|]. intros Hcd.
    destruct (so_live _ _ _ H c) as (_ & o' & Ho' & Hf' & _); [|congruence].
    unfold in_hands, held. rewrite Hcd. set_solver. }
  rewrite (no_tape _ (so_tape _ _ _ H)), (so_tape _ _ _ H). by destruct s.
Qed.

Lemma Sent_ok n c b s :
  ok n [] s → in_time s (Sent c b) → wp call_safe (server_event (Sent c b)) s (λ _, ok n []).
Proof.
  intros H [Hc Htail]. cbn in Hc. unfold server_event. apply wp_bind, wp_modify. cbn beta.
  set (s1 := upd sv_completing (sv_completing s ∖ {[c]}) s).
  assert (ok n [] s1) as H1.
  { destruct H as [Ht Hn Hl Hli Hco Hta Hb Hr1 Hr2 Hk]. subst s1. split; simp_upd; try done.
    - intros d Hd. apply Hco. set_solver.
    - clear -Hta Htail. set_solver. }
  destruct (so_completing _ _ _ H c Hc) as (o & Ho & Hf & [Hst|]); [|done].
  change (sv_calls s1 !! c = Some o) in Ho.
  assert (c ∉ sv_completing s1) as Hnc by (subst s1; simp_upd; set_solver).
  destruct b; [|exact H1]. cbn [when]. unfold Proceed. apply wp_bind.
  eapply wp_returns; [by apply call_at_eq|].
  destruct (co_request o);
    match goal with |- wp _ (?f _ c) _ _ => unfold f | |- wp _ (?f c) _ _ => unfold f end;
    apply wp_bind; (eapply wp_returns; [by apply call_at_eq|]); rewrite Hst;
    try (apply wp_bind; eapply wp_returns; [by eapply new_view_forgotten|]);
    by eapply delete_ok.
Qed.

(** ** The status of a [MoveOn] call is written *)
Lemma Tail_ok n c s :
  ok n [] s → c ∈ sv_tails s → wp call_safe (server_event (Tail c)) s (λ _, ok n []).
Proof.
  intros [Ht Hn Hl Hli Hco Hta Hb Hr1 Hr2 Hk] Hc. unfold server_event. apply wp_bind, wp_modify. cbn beta.
  destruct (Hco c (Hta c Hc)) as (o & Ho & Hf & _).
  eapply wp_returns; [apply (set_call_eq _ c o); by simp_upd|].
  assert (∀ d o', sv_calls s !! d = Some o' → co_finished o' = false → c ≠ d) as Hne.
  { intros d o' Hd Hfd <-. congruence. }
  unfold in_hands in *. split; unfold in_hands; simp_upd; try done.
  - intros d Hd. destruct (Hl d Hd) as (? & o' & ? & ? & ?). split; [done|]. exists o'.
    by rewrite lookup_insert_ne by eauto.
  - intros d Hd. destruct (Hli d Hd) as (o' & ? & ? & ?). exists o'.
    by rewrite lookup_insert_ne by eauto.
  - intros d Hd. destruct (decide (c = d)) as [<-|Hcd].
    + rewrite lookup_insert_eq. eexists. split_and!; [done|exact Hf|by left].
    + destruct (Hco d Hd) as (o' & ? & ? & Hs). exists o'. rewrite lookup_insert_ne by done.
      split_and!; [done..|]. destruct Hs; [by left|right; set_solver].
  - clear -Hta. set_solver.
  - intros d o'. destruct (decide (c = d)) as [<-|]; [intros _; by apply (Hb c o)|].
    rewrite lookup_insert_ne by done. apply Hb.
  - intros d Hd. destruct (Hr2 d Hd) as [? Hd']. split; [done|]. intros o'.
    destruct (decide (c = d)) as [<-|]; [rewrite lookup_insert_eq; by intros [= <-]|].
    rewrite lookup_insert_ne by done. apply Hd'.
  - intros k. rewrite <-(Hk k). f_equal. apply listeners_write; [done|]. intros d Hd.
    destruct (Hli d Hd) as (o' & Hd' & Hfd & _). unfold kind_at. simp_upd.
    by rewrite lookup_insert_ne by eauto.
Qed.

(** ** Every event *)
Lemma server_step_ok n t e s :
  ok n [] s → in_time s e → wp call_safe (server_step t e) s (λ _, ok n []).
Proof.
  intros H Hd. unfold server_step. apply wp_bind, wp_modify. cbn beta.
  assert (ok n [] (upd sv_node (upd now_ t (sv_node s)) s)) as H1.
  { eapply ok_frame; [..|exact H]; try reflexivity. exact (so_tape _ _ _ H). }
  destruct e; cbn [server_event].
  - apply Arrive_ok; [done|apply Hd].
  - by apply Sent_ok.
  - apply Tail_ok; [done|apply Hd].
  - apply (on_node_ok _ None []); [|rewrite one_None|done];
      unfold PrepareClientCallData_OnComplete; destruct ok0; cbn [when];
      first [apply uses_quiet, respects_skip, _ | apply faults_ret | node_facts].
  - apply (on_node_ok _ None []); [|rewrite one_None|done];
      unfold AcceptClientCallData_OnComplete; destruct ok0; cbn [when];
      first [apply uses_quiet, respects_skip, _ | apply faults_ret | node_facts].
  - apply (on_node_ok _ None []); [| rewrite one_None |done]; node_facts.
  - apply (on_node_ok _ None []); [| rewrite one_None |done]; node_facts.
  - apply (on_node_ok _ None []); [| rewrite one_None |done]; node_facts.
Qed.

Lemma serve_ok n l s : ok n [] s → wp call_safe (serve in_time l) s (λ _, ok n []).
Proof.
  revert s. induction l as [|[t e] l IH]; intros s H; [done|]. unfold wp. cbn [serve].
  case_decide as Hd; [|by apply IH]. pose proof (server_step_ok n t e s H Hd) as Hs.
  unfold wp in Hs. destruct (server_step t e s) as [[[] s']|f]; [|done]. by apply IH.
Qed.

(** ** From the start of the server *)
Lemma new_calls_ok l n s :
  ok n [] s → ∃ s', for_each l new_call s = Ok (tt, s') ∧ ok (foldl (λ n k, bump k n) n l) [] s'.
Proof.
  revert n s. induction l as [|k l IH]; intros n s H; cbn [for_each foldl]; [by eauto|].
  rewrite (bind_Ok _ _ _ tt _ (new_call_eq k s)). by apply IH, new_call_ok.
Qed.

Definition waiting_objects (k : CallKind) : nat :=
  match k with KSubmit => 0%nat | _ => init_handlers end.

Lemma Run_ok id peers clients shards m now :
  ∃ s, Run (PaxosNode_init id peers clients shards m now) = Ok (tt, s) ∧ ok waiting_objects [] s.
Proof.
  destruct (new_calls_ok (concat (repeat all_kinds init_handlers)) (λ _, O)
    (MkServer (upd outbox_ [] (PaxosNode_init id peers clients shards m now)) ∅ 0 ∅ ∅ ∅ [] []))
    as (s & Hs & H).
  - split; unfold in_hands; cbn; try done; try (by constructor); try (intros c Hc; set_solver).
  - exists s. split; [exact Hs|]. eapply ok_ext; [|exact H]. by intros [].
Qed.


(** The race of [MoveOnCallData::Proceed]. A [MoveOn] call arrives at a fresh
    server; another poller takes its completion before the first one writes
    [status_], finds the object still in [PROCESS] and deletes it; the write
    then hits a deleted object. *)
Theorem move_on_use_after_free :
  ∃ l s, Run (small_node 1) = Ok (tt, s) ∧ serve deliverable l s = Fault UseAfterFree.
Proof.
  exists [(5000, Arrive 9 (RqMoveOn "A")); (5001, Sent 9 true); (5001, Tail 9)].
  assert ((s ← final (Run (small_node 1));
    Some match serve deliverable [(5000, Arrive 9 (RqMoveOn "A")); (5001, Sent 9 true); (5001, Tail 9)] s
         with Ok _ => None | Fault f => Some f end) = Some (Some UseAfterFree)) as H
    by (vm_compute; reflexivity).
  destruct (Run (small_node 1)) as [[[] s]|]; [|discriminate H]. exists s. split; [done|].
  cbn [final mbind option_bind] in H. destruct (serve _ _ s) as [|f]; [discriminate H|].
  by injection H as ->.
Qed.

(** The server at work: a client request is queued, the election timer fires,
    a promise arrives and makes the node leader, the queued request is proposed,
    and the calls are answered, a [MoveOn] among them. *)
Definition small_events : list (Z * ServerEvent) :=
  [(5000, Arrive 4 (RqClientRequest (transfer 1 "1" "2" 4)));
   (6000, TimerTurn);
   (6001, PrepareDone true (MkPromiseResponse (MkBallot 1 1) 2 true []));
   (6002, Arrive 8 (RqNodeInfo (MkInfoRequest false false true false 1)));
   (6003, AcceptDone true (MkAck (MkBallot 1 1) 2 true 1 0 ""));
   (6004, Sent 8 true); (6004, Arrive 9 (RqMoveOn "A")); (6004, Tail 9);
   (6005, Sent 9 true); (6005, Sent 4 true)].
Example small_server_runs :
  (s ← final (Run (small_node 1)); s' ← final (serve in_time small_events s);
   mret ((sv_replies s').*1, elements (sv_completing s'), role_ (sv_node s')))
  = Some ([8; 4; 9], [], LEADER).
Proof. vm_compute. reflexivity. Qed.

