(* ===== verification/OutCalls.v ===== *)
(** * The client-side calls: objects that delete themselves

    The classes of [call_data.cpp] derived from [AsyncClientCallBase]. A call a
    node, a client or the launcher starts is an object on the heap whose
    constructor starts the RPC and hands [this] to the completion queue with
    [Finish]; the thread that polls the queue calls [OnComplete], which ends in
    [delete this]. The constructor and the poller run on different threads:
    the constructor is a list of actions, and between any two of them the
    poller may delete an object that has been handed over.

    [trace] is the switch [kTrace] of [log.h]: without it the [LOG] statements
    are not compiled. *)
From S2P Require Import Prelude Text Messages Node CallData.
#[local] Open Scope Z_scope.

(** The classes, with the request each object carries. *)
Inductive OutCall :=
  | PrepareClientCallData (request_ : PrepareRequest)
  | NewViewClientCallData (request_ : NewViewRequest)
  | AliveAsyncCall_ (request_ : AliveUpdateRequest)
  | AcceptClientCallData (request_ : AcceptedEntry)
  | CommitClientCallData (request_ : CommitEntry)
  | ClientCallData (request_ : ClientReply)
  | AsyncAcceptAckCall (ack : Ack)
  | AsyncHeartbeatCall (req : HeartbeatRequest)
  | AsyncClientReplyCallData (request_ : ClientReply)
  | AsyncCall (request_ : ClientRequest)
  | TwoPCClientCallData (request_ : TwoPCMsg).

(** What a constructor does to its object: write members, read them for a log
    line, start the RPC, hand [this] to the queue. *)
Inductive Action := WriteMembers | LogMembers | StartRpc | FinishThis.
#[export] Instance Action_eq_dec : EqDecision Action.
Proof. solve_decision. Defined.

(** The calls on the node that come out of a completion. *)
Inductive NodeCall := CallHandlePromise (r : PromiseResponse) | CallHandleAccept (a : Ack).

Record Outgoing := MkOutgoing {
  og_objects : gmap Z OutCall;
  og_ctors : gmap Z (list Action);
  og_queue : gset Z;
  og_next : Z;
  og_node_calls : list (Z * NodeCall) }.
#[export] Instance rebuild_Outgoing : Rebuild Outgoing := λ s,
  MkOutgoing (og_objects s) (og_ctors s) (og_queue s) (og_next s) (og_node_calls s).
#[export] Instance upd_og_objects : Upd og_objects := ltac:(derive_upd).
#[export] Instance upd_og_ctors : Upd og_ctors := ltac:(derive_upd).
#[export] Instance upd_og_queue : Upd og_queue := ltac:(derive_upd).
#[export] Instance upd_og_next : Upd og_next := ltac:(derive_upd).
#[export] Instance upd_og_node_calls : Upd og_node_calls := ltac:(derive_upd).
Abbreviation OutM := (M Outgoing).

Definition outgoing_init : Outgoing := MkOutgoing ∅ ∅ ∅ 0 [].

Section classes.
Variable trace : bool.

Definition LOG : list Action := if trace then [LogMembers] else [].

(** ** The constructors *)
Definition PrepareClientCallData_ctor : list Action := [WriteMembers; StartRpc; FinishThis].
Definition NewViewClientCallData_ctor : list Action :=
  [WriteMembers] ++ LOG ++ [StartRpc] ++ LOG ++ [FinishThis].
Definition AliveAsyncCall_ctor : list Action :=
  [WriteMembers; WriteMembers; StartRpc; FinishThis].
Definition AcceptClientCallData_ctor : list Action :=
  [WriteMembers; WriteMembers; StartRpc; FinishThis].
Definition CommitClientCallData_ctor : list Action :=
  [WriteMembers; WriteMembers; StartRpc; FinishThis].
Definition ClientCallData_ctor : list Action := [WriteMembers; StartRpc; FinishThis].
Definition AsyncAcceptAckCall_ctor : list Action := [WriteMembers; StartRpc; FinishThis] ++ LOG.
Definition AsyncHeartbeatCall_ctor : list Action := [WriteMembers; StartRpc; FinishThis].
Definition AsyncClientReplyCallData_ctor : list Action := [WriteMembers; StartRpc; FinishThis].
Definition AsyncCall_ctor : list Action := [WriteMembers; StartRpc] ++ LOG ++ [FinishThis].
Definition TwoPCClientCallData_ctor : list Action :=
  [WriteMembers; WriteMembers; StartRpc; FinishThis].

Definition ctor (k : OutCall) : list Action :=
  match k with
  | PrepareClientCallData _ => PrepareClientCallData_ctor
  | NewViewClientCallData _ => NewViewClientCallData_ctor
  | AliveAsyncCall_ _ => AliveAsyncCall_ctor
  | AcceptClientCallData _ => AcceptClientCallData_ctor
  | CommitClientCallData _ => CommitClientCallData_ctor
  | ClientCallData _ => ClientCallData_ctor
  | AsyncAcceptAckCall _ => AsyncAcceptAckCall_ctor
  | AsyncHeartbeatCall _ => AsyncHeartbeatCall_ctor
  | AsyncClientReplyCallData _ => AsyncClientReplyCallData_ctor
  | AsyncCall _ => AsyncCall_ctor
  | TwoPCClientCallData _ => TwoPCClientCallData_ctor
  end.

(** ** One object *)
Definition out_object (c : Z) : OutM OutCall :=
  m ← gets og_objects;
  match m !! c with Some k => mret k | None => raise UseAfterFree end.

Definition act (c : Z) (a : Action) : OutM unit :=
  out_object c ;;
  match a with
  | FinishThis => og_queue ::~ (λ q, {[c]} ∪ q)
  | WriteMembers | LogMembers | StartRpc => skip
  end.

Definition delete_this (c : Z) : OutM unit := out_object c ;; og_objects ::~ delete c.
Definition log_completion (c : Z) : OutM unit := when trace (out_object c ;; skip).
Definition log_error (c : Z) : OutM unit := out_object c ;; skip.
Definition on_node_call (c : Z) (n : NodeCall) : OutM unit :=
  out_object c ;; og_node_calls ::~ (λ l, l ++ [(c, n)]).

(** ** The completions, with [ok], [status_.ok()] and the reply *)
Definition Prepare_OnComplete (c : Z) (ok status : bool) (reply : PromiseResponse) : OutM unit :=
  (if ok && status then on_node_call c (CallHandlePromise reply) else skip) ;;
  log_completion c ;; delete_this c.
Definition NewView_OnComplete (c : Z) (ok status : bool) : OutM unit :=
  (if ok && status then log_completion c else log_error c) ;; log_completion c ;; delete_this c.
Definition AliveAsyncCall_OnComplete (c : Z) (ok status : bool) : OutM unit :=
  (if negb ok || negb status then log_error c else log_completion c) ;; delete_this c.
Definition Accept_OnComplete (c : Z) (ok status : bool) (reply : Ack) : OutM unit :=
  (if ok && status then on_node_call c (CallHandleAccept reply) else log_error c) ;; delete_this c.
Definition Commit_OnComplete (c : Z) (ok status : bool) : OutM unit :=
  (if ok && status then log_completion c else log_error c) ;; delete_this c.
Definition ClientCallData_OnComplete (c : Z) (ok status : bool) : OutM unit :=
  (if ok && status then log_completion c else log_error c) ;; delete_this c.
Definition AsyncAcceptAckCall_OnComplete (c : Z) (ok status : bool) : OutM unit :=
  (if negb ok || negb status then log_error c else log_completion c) ;; delete_this c.
Definition AsyncHeartbeatCall_OnComplete (c : Z) : OutM unit := delete_this c.
Definition AsyncClientReplyCallData_OnComplete (c : Z) (ok status : bool) : OutM unit :=
  (if negb ok then skip else if status then log_completion c else log_completion c) ;;
  delete_this c.
Definition AsyncCall_OnComplete (c : Z) (ok status : bool) : OutM unit :=
  (if ok && status then log_completion c else if negb status then log_completion c else skip) ;;
  delete_this c.
Definition TwoPC_OnComplete (c : Z) (ok status : bool) : OutM unit :=
  (if ok && status then skip else skip) ;; delete_this c.

(** The virtual call of the pollers. The reply of the object is of its class;
    an RPC that failed leaves the default one. *)
Definition OnComplete (c : Z) (ok status : bool) (reply : RpcReply) : OutM unit :=
  k ← out_object c;
  match k with
  | PrepareClientCallData _ =>
      Prepare_OnComplete c ok status
        (match reply with RpPromise r => r | _ => MkPromiseResponse Ballot_default 0 false [] end)
  | NewViewClientCallData _ => NewView_OnComplete c ok status
  | AliveAsyncCall_ _ => AliveAsyncCall_OnComplete c ok status
  | AcceptClientCallData _ =>
      Accept_OnComplete c ok status (match reply with RpAck a => a | _ => Ack_default end)
  | CommitClientCallData _ => Commit_OnComplete c ok status
  | ClientCallData _ => ClientCallData_OnComplete c ok status
  | AsyncAcceptAckCall _ => AsyncAcceptAckCall_OnComplete c ok status
  | AsyncHeartbeatCall _ => AsyncHeartbeatCall_OnComplete c
  | AsyncClientReplyCallData _ => AsyncClientReplyCallData_OnComplete c ok status
  | AsyncCall _ => AsyncCall_OnComplete c ok status
  | TwoPCClientCallData _ => TwoPC_OnComplete c ok status
  end.

(** ** The threads *)
Inductive OutEvent :=
  (** [new ...(stub, cq, ...)]: the object is allocated *)
  | Allocate (k : OutCall)
  (** the thread that constructs [c] performs its next action *)
  | Construct (c : Z)
  (** [cq->Next(&tag, &ok)] returns the tag [c] to a poller *)
  | Poll (c : Z) (ok status : bool) (reply : RpcReply).

(** The completion queue returns a tag once, after it was handed over. *)
Definition can_poll (s : Outgoing) (e : OutEvent) : bool :=
  match e with Poll c _ _ _ => bool_decide (c ∈ og_queue s) | _ => true end.

Definition out_event (e : OutEvent) : OutM unit :=
  match e with
  | Allocate k =>
      c ← gets og_next;
      og_next ::= c + 1 ;;
      og_objects ::~ <[c := k]> ;;
      og_ctors ::~ <[c := ctor k]>
  | Construct c =>
      m ← gets og_ctors;
      match m !! c with
      | Some (a :: l) => act c a ;; og_ctors ::= <[c := l]> m
      | _ => skip
      end
  | Poll c ok status reply =>
      og_queue ::~ (λ q, q ∖ {[c]}) ;; OnComplete c ok status reply
  end.

Fixpoint out_run (l : list OutEvent) : OutM unit :=
  match l with
  | [] => skip
  | e :: l =>
      s ← gets id;
      when (can_poll s e) (out_event e) ;; out_run l
  end.
End classes.

(** ** Lifetimes *)
Definition completed_calls (k : OutCall) (ok status : bool) (reply : RpcReply) : list NodeCall :=
  if ok && status then
    match k, reply with
    | PrepareClientCallData _, RpPromise r => [CallHandlePromise r]
    | PrepareClientCallData _, _ => [CallHandlePromise (MkPromiseResponse Ballot_default 0 false [])]
    | AcceptClientCallData _, RpAck a => [CallHandleAccept a]
    | AcceptClientCallData _, _ => [CallHandleAccept Ack_default]
    | _, _ => []
    end
  else [].

Lemma out_object_eq s c k : og_objects s !! c = Some k → out_object c s = Ok (k, s).
Proof. intros H. unfold out_object. run_goal. by rewrite H. Qed.
Lemma delete_this_eq s c k :
  og_objects s !! c = Some k → delete_this c s = Ok (tt, upd og_objects (delete c (og_objects s)) s).
Proof. intros H. unfold delete_this. by rewrite (bind_Ok _ _ _ _ _ (out_object_eq s c k H)). Qed.
Lemma log_error_eq s c k : og_objects s !! c = Some k → log_error c s = Ok (tt, s).
Proof. intros H. unfold log_error. by rewrite (bind_Ok _ _ _ _ _ (out_object_eq s c k H)). Qed.
Lemma log_completion_eq trace s c k : og_objects s !! c = Some k → log_completion trace c s = Ok (tt, s).
Proof. intros H. unfold log_completion. destruct trace; [by eapply log_error_eq|done]. Qed.

Definition completed (c : Z) (l : list NodeCall) (s : Outgoing) : Outgoing :=
  upd og_objects (delete c (og_objects s))
    (upd og_node_calls (og_node_calls s ++ (pair c <$> l)) s).
Lemma completed_nil c s : completed c [] s = upd og_objects (delete c (og_objects s)) s.
Proof. unfold completed. cbn [fmap list_fmap]. rewrite app_nil_r. by destruct s. Qed.

Lemma on_node_call_eq s c k n :
  og_objects s !! c = Some k →
  on_node_call c n s = Ok (tt, upd og_node_calls (og_node_calls s ++ [(c, n)]) s).
Proof. intros H. unfold on_node_call. by rewrite (bind_Ok _ _ _ _ _ (out_object_eq s c k H)). Qed.

Ltac out_step H :=
  first
    [ rewrite (bind_Ok _ _ _ _ _ (on_node_call_eq _ _ _ _ H))
    | rewrite (bind_Ok _ _ _ _ _ (log_error_eq _ _ _ H))
    | rewrite (bind_Ok _ _ _ _ _ (log_completion_eq _ _ _ _ H))
    | rewrite (bind_Ok skip _ _ _ _ eq_refl)
    | erewrite delete_this_eq by (simp_upd; exact H) ].

Lemma OnComplete_eq trace s c k ok status reply :
  og_objects s !! c = Some k →
  OnComplete trace c ok status reply s = Ok (tt, completed c (completed_calls k ok status reply) s).
Proof.
  intros H. unfold OnComplete. rewrite (bind_Ok _ _ _ _ _ (out_object_eq s c k H)).
  unfold completed_calls, Prepare_OnComplete, NewView_OnComplete, AliveAsyncCall_OnComplete,
    Accept_OnComplete, Commit_OnComplete, ClientCallData_OnComplete, AsyncAcceptAckCall_OnComplete,
    AsyncHeartbeatCall_OnComplete, AsyncClientReplyCallData_OnComplete, AsyncCall_OnComplete,
    TwoPC_OnComplete.
  destruct k, ok, status; cbn [andb negb orb]; try (destruct reply);
    repeat out_step H; rewrite ?completed_nil; try done.
  all: erewrite bind_Ok by (eapply log_completion_eq; simp_upd; exact H);
    by erewrite delete_this_eq by (simp_upd; exact H).
Qed.

(** Where an object is in its life: not allocated, under construction with
    [Finish] its last action, or handed over, alive as long as it is queued. *)
Definition fresh (s : Outgoing) (c : Z) : Prop :=
  og_ctors s !! c = None ∧ og_objects s !! c = None ∧ c ∉ og_queue s.
Definition building (s : Outgoing) (c : Z) : Prop :=
  c < og_next s ∧ (∃ l, og_ctors s !! c = Some (l ++ [FinishThis]) ∧ FinishThis ∉ l) ∧
  is_Some (og_objects s !! c) ∧ c ∉ og_queue s.
Definition handed_over (s : Outgoing) (c : Z) : Prop :=
  c < og_next s ∧ og_ctors s !! c = Some [] ∧ (c ∈ og_queue s ↔ is_Some (og_objects s !! c)).

Record out_ok (s : Outgoing) : Prop := OutOk {
  oo_life : ∀ c, fresh s c ∨ building s c ∨ handed_over s c;
  oo_calls : NoDup (og_node_calls s).*1;
  oo_called : ∀ c, c ∈ (og_node_calls s).*1 → c < og_next s ∧ og_objects s !! c = None }.

Definition finishes_last (l : list Action) : Prop := ∃ l', l = l' ++ [FinishThis] ∧ FinishThis ∉ l'.

Lemma ctor_finishes_last trace k :
  trace = false ∨ (∀ a, k ≠ AsyncAcceptAckCall a) → finishes_last (ctor trace k).
Proof.
  intros H. unfold finishes_last.
  assert (∃ l', ctor trace k = l' ++ [FinishThis] ∧ forallb (λ a, negb (a ==s FinishThis)) l' = true)
    as (l' & E & Hl).
  { destruct trace, k; try (by destruct H as [H|H]; [done|destruct (H ack)]);
      unfold ctor;
      match goal with |- ∃ l', ?c = _ ∧ _ => let l := eval vm_compute in (removelast c) in
        exists l; split; [reflexivity|reflexivity] end. }
  exists l'. split; [done|]. rewrite forallb_forall in Hl. intros Hin.
  apply list_elem_of_In, Hl in Hin. done.
Qed.

Lemma out_init_ok : out_ok outgoing_init.
Proof.
  split; cbn; [by left|constructor|]. by intros c ?%elem_of_nil.
Qed.

(** An object other than the one an event is about stays where it is. *)
Lemma life_other s s' c :
  og_next s ≤ og_next s' → og_ctors s' !! c = og_ctors s !! c →
  og_objects s' !! c = og_objects s !! c → (c ∈ og_queue s' ↔ c ∈ og_queue s) →
  fresh s c ∨ building s c ∨ handed_over s c → fresh s' c ∨ building s' c ∨ handed_over s' c.
Proof.
  unfold fresh, building, handed_over. intros Hn -> -> Hq. rewrite Hq.
  intros [?|[(?&?)|(?&?)]]; [by left|right; left|right; right]; (split; [lia|done]).
Qed.

Lemma Allocate_ok trace k s :
  finishes_last (ctor trace k) → out_ok s → wp no_fault (out_event trace (Allocate k)) s (λ _, out_ok).
Proof.
  intros (l & El & Hl) [H1 H2 H3]. unfold out_event. wp_steps.
  assert (fresh s (og_next s)) as (F1 & F2 & F3).
  { destruct (H1 (og_next s)) as [|[(?&_)|(?&_)]]; [done|lia..]. }
  split; simp_upd; [|done|].
  - intros c. destruct (decide (c = og_next s)) as [->|Hc].
    + right; left. unfold building. simp_upd. rewrite !lookup_insert_eq.
      split_and!; [lia|exists l; by rewrite El|eauto|done].
    + apply (life_other s); simp_upd; rewrite ?lookup_insert_ne by done; auto. lia.
  - intros c Hc. destruct (H3 c Hc). rewrite lookup_insert_ne by lia. split; [lia|done].
Qed.

Lemma Construct_ok trace c s :
  out_ok s → wp no_fault (out_event trace (Construct c)) s (λ _, out_ok).
Proof.
  intros [H1 H2 H3]. unfold out_event. wp_step; wp_step.
  destruct (og_ctors s !! c) as [[|a rest]|] eqn:E; [by apply wp_ret; split| |by apply wp_ret; split].
  destruct (H1 c) as [(F & _)|[(Hn & (l & El & Hl) & [k Hk] & Hq)|(_ & F & _)]]; try congruence.
  unfold act. wp_step; wp_step. eapply wp_returns; [by apply out_object_eq|]. cbn beta.
  rewrite E in El. destruct l as [|b l]; injection El as -> ->.
  - wp_steps. split; simp_upd; [|done|done]. intros d. destruct (decide (d = c)) as [->|Hd].
    + right; right. unfold handed_over. simp_upd. rewrite lookup_insert_eq, Hk. split_and!; [done..|].
      rewrite elem_of_union, elem_of_singleton. split; eauto.
    + apply (life_other s); simp_upd; rewrite ?lookup_insert_ne by done; auto; [lia|].
      rewrite elem_of_union, elem_of_singleton. tauto.
  - apply list.not_elem_of_cons in Hl as [Hb Hl].
    assert (∀ st, match b with FinishThis => og_queue ::~ (λ q, {[c]} ∪ q) | _ => skip end st
      = Ok (tt, st)) as Hskip by (by destruct b).
    eapply wp_returns; [apply Hskip|]. wp_steps.
    split; simp_upd; [|done|done]. intros d. destruct (decide (d = c)) as [->|Hd].
    + right; left. unfold building. simp_upd. rewrite lookup_insert_eq, Hk. split_and!; eauto.
    + apply (life_other s); simp_upd; rewrite ?lookup_insert_ne by done; auto. lia.
Qed.

Lemma completed_ids c k ok status reply :
  (pair c <$> completed_calls k ok status reply : list (Z * NodeCall)).*1 = [] ∨
  (pair c <$> completed_calls k ok status reply : list (Z * NodeCall)).*1 = [c].
Proof.
  unfold completed_calls. destruct (ok && status); [|by left].
  destruct k; try (by left); destruct reply; by right.
Qed.

Lemma Poll_ok trace c ok status reply s :
  c ∈ og_queue s → out_ok s → wp no_fault (out_event trace (Poll c ok status reply)) s (λ _, out_ok).
Proof.
  intros Hc [H1 H2 H3].
  destruct (H1 c) as [(_ & _ & ?)|[(_ & _ & _ & ?)|(Hn & Hx & Hq)]]; [done..|].
  pose proof (proj1 Hq Hc) as [k Hk]. unfold out_event. wp_steps.
  eapply wp_returns; [apply (OnComplete_eq _ _ _ k); by simp_upd|]. unfold completed.
  split; simp_upd.
  - intros d. destruct (decide (d = c)) as [->|Hd].
    + right; right. unfold handed_over. simp_upd. rewrite lookup_delete_eq. split_and!; [done..|].
      rewrite elem_of_difference, elem_of_singleton. split; [tauto|by intros []].
    + apply (life_other s); simp_upd; rewrite ?lookup_delete_ne by done; auto; [lia|].
      rewrite elem_of_difference, elem_of_singleton. tauto.
  - rewrite fmap_app. destruct (completed_ids c k ok status reply) as [-> | ->]; [by rewrite app_nil_r|].
    apply list.NoDup_app. split_and!; [done| |apply NoDup_singleton].
    intros x Hx1 ->%list_elem_of_singleton. apply H3 in Hx1 as [_ Hx1]. congruence.
  - intros d. rewrite fmap_app, elem_of_app. intros [Hd|Hd].
    + destruct (H3 d Hd) as [? Hn']. split; [lia|]. by apply lookup_delete_None; right.
    + destruct (completed_ids c k ok status reply) as [E|E]; rewrite E in Hd;
        [by apply elem_of_nil in Hd|apply list_elem_of_singleton in Hd as ->].
      by rewrite lookup_delete_eq.
Qed.

Lemma out_run_ok trace l s :
  (∀ k, Allocate k ∈ l → finishes_last (ctor trace k)) →
  out_ok s → wp no_fault (out_run trace l) s (λ _, out_ok).
Proof.
  revert s. induction l as [|e l IH]; intros s Hl Hs; cbn [out_run]; [done|].
  assert (∀ t, out_ok t → wp no_fault (out_run trace l) t (λ _, out_ok)) as IH'
    by (intros t; apply IH; intros k Hk; apply Hl; by right).
  wp_step; wp_step. wp_step. apply wp_when; intros He; [|by apply IH'].
  eapply wp_mono; [intros ? t; apply IH'|].
  destruct e as [k|c|c ok status reply].
  - apply Allocate_ok; [apply Hl; left|done].
  - by apply Construct_ok.
  - apply Poll_ok; [|done]. by apply bool_decide_eq_true in He.
Qed.

(** C24: the objects of the client-side calls are never touched after their
    deletion and none is lost. Whatever the interleaving of the threads that
    construct calls with those that poll the completion queue, in a build
    without traces — or with traces, as long as no [AsyncAcceptAckCall] is
    made — every action finds its object alive, at every moment exactly the
    objects are alive that are still under construction or still queued, and no
    object hands its answer to the node twice. *)
Theorem outgoing_calls_safe (trace : bool) (l : list OutEvent) :
  trace = false ∨ (∀ a, Allocate (AsyncAcceptAckCall a) ∉ l) →
  ∃ s, out_run trace l outgoing_init = Ok (tt, s) ∧
    (∀ c, is_Some (og_objects s !! c) ↔
      c ∈ og_queue s ∨ ∃ a rest, og_ctors s !! c = Some (a :: rest)) ∧
    NoDup (og_node_calls s).*1.
Proof.
  intros Hl. edestruct (wp_total (out_run trace l) outgoing_init out_ok) as (s & Hs & [H1 H2 _]).
  { apply out_run_ok; [|apply out_init_ok]. intros k Hk. apply ctor_finishes_last.
    destruct Hl as [Hl|Hl]; [by left|right]. intros a ->. by apply (Hl a). }
  exists s. split_and!; [done| |done]. intros c.
  destruct (H1 c) as [(E & -> & Hq)|[(_ & (m & E & _) & Hk & Hq)|(_ & E & Hq)]].
  - split; [by intros []|]. intros [?|(a & r & ?)]; [done|congruence].
  - split; [|done]. intros _. right. rewrite E. destruct m; cbn; eauto.
  - rewrite Hq. split; [by left|]. intros [?|(a & r & ?)]; [done|congruence].
Qed.

(** With traces [AsyncAcceptAckCall] can be touched after its deletion. Its
    constructor reads [node_id_] for a trace after [Finish] has handed the
    object over; when the poller completes it in between, the read is of freed
    memory. *)
Theorem accept_ack_use_after_free (a : Ack) (ok status : bool) (reply : RpcReply) :
  out_run true
    [Allocate (AsyncAcceptAckCall a); Construct 0; Construct 0; Construct 0;
     Poll 0 ok status reply; Construct 0] outgoing_init = Fault UseAfterFree.
Proof. by destruct ok, status. Qed.

Lemma outgoing_calls_safe_witness :
  ∃ s, out_run true [Allocate (AsyncCall (transfer 1 "1" "2" 4)); Construct 0; Construct 0;
      Construct 0; Construct 0; Poll 0 true true RpEmpty] outgoing_init = Ok (tt, s) ∧
    (∀ c, is_Some (og_objects s !! c) ↔
      c ∈ og_queue s ∨ ∃ a rest, og_ctors s !! c = Some (a :: rest)) ∧
    NoDup (og_node_calls s).*1.
Proof.
  apply (outgoing_calls_safe true). right. intros a.
  repeat (apply list.not_elem_of_cons; split; [done|]). by intros ?%elem_of_nil.
Defined.
