(* ===== verification/Votes.v ===== *)
(** * Votes: how a node's counts and messages grow

    The acceptors a leader has counted, the messages a node has sent and the
    keys of its log, handler by handler: between the acknowledgements a node
    receives, it only ever adds itself to a count, sends no COMMIT, and signs
    its acknowledgements with its own number. *)
From S2P Require Import Prelude Text Messages Node Ledger Elections TwoPhase Replication Requests.
From S2P Require Import NewView Control Machine ReplicationProofs.
#[local] Open Scope Z_scope.

(** What a node [i] sends on its own account: no COMMIT, and acknowledgements
    in its own name. *)
Definition on_own_account (i : Z) (o : Output) : Prop :=
  match o with
  | SendCommitTo _ _ => False
  | SendAcceptAckTo _ a => ack_node_id a = i ∧ ack_accepted a = true
  | _ => True
  end.

(** Every entry is kept under its own number; the default entry that
    [operator[]] inserts has the number 0. *)
Definition keyed (m : gmap Z AcceptedEntry) : Prop :=
  ∀ k e, m !! k = Some e → ae_seqnum e = k ∨ ae_seqnum e = 0.

Definition counts_grow (i : Z) (m m' : gmap Z (gmap Z (gset Z))) : Prop :=
  ∀ q c n, n ∈ count_in m' q c → n ∈ count_in m q c ∨ n = i.

Record grows (s s' : PaxosNode) : Prop := Grows {
  grows_id : node_id_ s' = node_id_ s;
  grows_f : f_ s' = f_ s;
  grows_counts : counts_grow (node_id_ s) (accepted_count_ s) (accepted_count_ s');
  grows_counts2 :
    counts_grow (node_id_ s) (accepted_count_two_pc_commit_ s) (accepted_count_two_pc_commit_ s');
  grows_outbox : ∃ l, outbox_ s' = outbox_ s ++ l ∧ Forall (on_own_account (node_id_ s)) l;
  grows_log : keyed (accept_log_ s) → keyed (accept_log_ s');
  grows_pending : keyed (pending_entries_ s) → keyed (pending_entries_ s') }.

(** ** Counts and keys *)
Lemma count_in_insert_ne m q c i q' c' :
  (q, c) ≠ (q', c') → count_in (count_insert m q c i) q' c' = count_in m q' c'.
Proof.
  intros H. unfold count_insert. unfold count_in at 1.
  destruct (decide (q = q')) as [->|Hq]; [|by rewrite lookup_insert_ne by done].
  rewrite lookup_insert_eq. cbn [default from_option id].
  by rewrite lookup_insert_ne by congruence.
Qed.

Lemma counts_grow_refl i m : counts_grow i m m.
Proof. intros q c n H. by left. Qed.
Lemma counts_grow_trans i m1 m2 m3 :
  counts_grow i m1 m2 → counts_grow i m2 m3 → counts_grow i m1 m3.
Proof. intros H1 H2 q c n H. destruct (H2 q c n H); auto. Qed.
Lemma counts_grow_insert i m q c : counts_grow i m (count_insert m q c i).
Proof.
  intros q' c' n. destruct (decide ((q, c) = (q', c'))) as [E|Hne].
  - injection E as <- <-. rewrite count_in_insert, elem_of_union, elem_of_singleton. tauto.
  - rewrite count_in_insert_ne by done. auto.
Qed.
Lemma counts_grow_empty i m : counts_grow i m ∅.
Proof. intros q c n. by unfold count_in. Qed.
Lemma counts_grow_foldl {A} i (g : gmap Z (gmap Z (gset Z)) → A → gmap Z (gmap Z (gset Z))) l m :
  (∀ m x, counts_grow i m (g m x)) → counts_grow i m (foldl g m l).
Proof.
  intros Hg. revert m. induction l as [|x l IH]; intros m; cbn [foldl]; [apply counts_grow_refl|].
  by eapply counts_grow_trans.
Qed.

Lemma keyed_empty : keyed ∅.
Proof. intros k e. by rewrite lookup_empty. Qed.
Lemma keyed_insert m k e : keyed m → ae_seqnum e = k ∨ ae_seqnum e = 0 → keyed (<[k := e]> m).
Proof.
  intros Hm He j e'. destruct (decide (k = j)) as [<-|].
  - rewrite lookup_insert_eq. by intros [= <-].
  - rewrite lookup_insert_ne by done. apply Hm.
Qed.
Lemma keyed_delete m k : keyed m → keyed (delete k m).
Proof. intros Hm j e [_ H]%lookup_delete_Some. by apply Hm. Qed.
Lemma keyed_subscript m k : keyed m → keyed (subscript AcceptedEntry_default m k).2.
Proof.
  intros Hm. unfold subscript. destruct (m !! k); [done|]. apply keyed_insert; [done|by right].
Qed.
Lemma keyed_foldl {A} (g : gmap Z AcceptedEntry → A → gmap Z AcceptedEntry) l m :
  (∀ m x, keyed m → keyed (g m x)) → keyed m → keyed (foldl g m l).
Proof. intros Hg. revert m. induction l as [|x l IH]; cbn [foldl]; auto. Qed.

Create HintDb keyed discriminated.
#[export] Hint Resolve keyed_empty keyed_insert keyed_delete keyed_subscript : keyed.
#[export] Hint Resolve counts_grow_refl counts_grow_insert counts_grow_empty : keyed.

(** ** The relation *)
#[export] Instance grows_preorder : PreOrder grows.
Proof.
  split.
  - intros s. split; auto using counts_grow_refl. exists []. by rewrite app_nil_r.
  - intros s1 s2 s3 [H1 H2 H3 H4 (l & H5 & Hl) H6 H7] [K1 K2 K3 K4 (l' & K5 & Hl') K6 K7].
    rewrite H1 in *. split; try congruence; auto.
    + by eapply counts_grow_trans.
    + by eapply counts_grow_trans.
    + exists (l ++ l'). rewrite app_assoc. split; [congruence|]. by apply Forall_app.
Qed.

(** What the relation is about. *)
Definition vote_state (s : PaxosNode) :=
  (node_id_ s, f_ s, accepted_count_ s, accepted_count_two_pc_commit_ s, outbox_ s,
   accept_log_ s, pending_entries_ s).
Lemma grows_frame s s' : vote_state s' = vote_state s → grows s s'.
Proof.
  intros [= H1 H2 H3 H4 H5 H6 H7]. split; rewrite ?H1, ?H2, ?H3, ?H4, ?H5, ?H6, ?H7; auto with keyed.
  exists []. by rewrite app_nil_r.
Qed.
Lemma grows_emit o : (∀ i, on_own_account i o) → respects grows (emit o).
Proof.
  intros Ho. apply respects_modify. intros s. split; simp_upd; auto with keyed.
  exists [o]. split; [done|]. by apply Forall_singleton.
Qed.
Lemma grows_assign (g : PaxosNode → PaxosNode) s :
  node_id_ (g s) = node_id_ s → f_ (g s) = f_ s → outbox_ (g s) = outbox_ s →
  counts_grow (node_id_ s) (accepted_count_ s) (accepted_count_ (g s)) →
  counts_grow (node_id_ s) (accepted_count_two_pc_commit_ s) (accepted_count_two_pc_commit_ (g s)) →
  (keyed (accept_log_ s) → keyed (accept_log_ (g s))) →
  (keyed (pending_entries_ s) → keyed (pending_entries_ (g s))) → grows s (g s).
Proof. intros ? ? Ho ? ? ? ?. split; auto. exists []. by rewrite app_nil_r. Qed.

#[export] Hint Extern 1 (respects grows (emit _)) => (apply grows_emit; intros; exact I) : respects.
Lemma grows_send_to p o : (∀ i, on_own_account i o) → respects grows (send_to p o).
Proof.
  intros Ho. unfold send_to. pose proof (grows_emit o Ho) as He.
  solve_respects_with ltac:(idtac).
Qed.
#[export] Hint Extern 1 (respects grows (send_to _ _)) =>
  (apply grows_send_to; intros; exact I) : respects.
Lemma grows_to_cluster mk : (∀ i p, on_own_account i (mk p)) → respects grows (to_cluster mk).
Proof.
  intros Hm. unfold to_cluster. pose proof (λ p, grows_emit (mk p) (λ i, Hm i p)) as He.
  solve_respects_with ltac:(idtac).
Qed.
#[export] Hint Extern 1 (respects grows (to_cluster _)) =>
  (apply grows_to_cluster; intros; exact I) : respects.

(** Assignments: most touch none of this; the others are looked at. *)
Ltac grows_leaf :=
  first
    [ apply grows_frame; unfold vote_state; simp_upd; reflexivity
    | apply grows_assign; simp_upd; solve [auto 6 with keyed] ].
Ltac votes :=
  unfold log_at, digest_at, wal_account, undo_delta, set_account, account_at, unlock, try_lock,
    wal_erase, wal_write, mark_executed, mark_modified, stoiM, log_line, send_client, respond in *;
  solve_respects_with ltac:(grows_leaf).

(** Where an assignment uses what was read before, it is followed state by
    state, each new state known only through [grows]. *)
Lemma wp_modify_grows F (g : PaxosNode → PaxosNode) s (Q : unit → PaxosNode → Prop) :
  grows s (g s) → (∀ s', grows s s' → Q tt s') → wp F (modify g) s Q.
Proof. intros Hg HQ. apply HQ, Hg. Qed.
Lemma wp_over_grows {A} (m : NodeM A) s (Q : A → PaxosNode → Prop) :
  respects grows m → (∀ a s', grows s s' → Q a s') → wp any_fault m s Q.
Proof. intros Hm HQ. by eapply wp_respects. Qed.
Lemma respects_grows {A} (m : NodeM A) :
  (∀ s, wp any_fault m s (λ _ s', grows s s')) → respects grows m.
Proof. apply respects_wp. Qed.

Ltac grows_chain :=
  repeat first [reflexivity | eassumption | etrans; [eassumption|]].
Ltac same_node := repeat match goal with G : grows _ _ |- _ => apply grows_id in G end; congruence.
Ltac votes_step :=
  lazymatch goal with
  | |- wp _ ?m _ _ =>
      lazymatch m with
      | _ ≫= _ => apply wp_bind
      | gets _ => apply wp_gets; cbv beta delta [id]
      | mret _ => apply wp_ret; cbn beta
      | skip => apply wp_ret; cbn beta
      | raise _ => exact I
      | when _ _ => apply wp_when; intros; try discriminate
      | match ?x with _ => _ end => destruct x eqn:?
      | modify _ => apply wp_modify_grows; [try grows_leaf|intros ? ?]
      | _ => apply wp_over_grows; [solve [eauto 2 with respects | votes]|intros ? ? ?]
      end
  end.
Ltac votes_steps :=
  apply respects_grows; intros ?s; repeat (votes_step; cbv zeta); try solve [grows_chain].

Lemma counts_grow_own i j m q c : j = i → counts_grow i m (count_insert m q c j).
Proof. intros ->. apply counts_grow_insert. Qed.
Ltac own_entry :=
  try (apply grows_assign; simp_upd; auto with keyed);
  try (intros; apply keyed_insert; [done|by left]);
  try (apply counts_grow_own; same_node).

Lemma record_outcome_grows q st : respects grows (record_outcome q st).
Proof.
  unfold record_outcome. votes_steps.
  apply grows_assign; simp_upd; auto with keyed. intros Hk. apply keyed_insert; [done|]. simp_upd.
  eapply Hk. eassumption.
Qed.
#[export] Hint Resolve record_outcome_grows : respects.
Lemma log_at_grows q : respects grows (log_at q).
Proof.
  unfold log_at. votes_steps. all: match goal with H : _ = (_, ?m) |- _ =>
    apply (f_equal snd) in H; cbn in H; subst m end.
  apply grows_assign; simp_upd; auto with keyed.
Qed.
#[export] Hint Resolve log_at_grows : respects.

(** ** The handlers *)
Lemma StartElectionTimer_grows : respects grows StartElectionTimer.
Proof. unfold StartElectionTimer. votes. Qed.
Lemma StopElectionTimer_grows : respects grows StopElectionTimer.
Proof. unfold StopElectionTimer. votes. Qed.
Lemma ResetElectionTimer_grows : respects grows ResetElectionTimer.
Proof. unfold ResetElectionTimer, StartElectionTimer. votes. Qed.
Lemma SetNewLeader_grows i c : respects grows (SetNewLeader i c).
Proof. unfold SetNewLeader. votes. Qed.
Lemma BecomeLeader_grows b : respects grows (BecomeLeader b).
Proof. unfold BecomeLeader, StopElectionTimer, StartHeartbeat, StopHeartbeat. votes. Qed.
Lemma reset_in_flights_grows : respects grows reset_in_flights.
Proof. unfold reset_in_flights. votes. Qed.
#[export] Hint Resolve StartElectionTimer_grows StopElectionTimer_grows ResetElectionTimer_grows
  SetNewLeader_grows BecomeLeader_grows reset_in_flights_grows : respects.

Lemma reconcile_wal_demoted_grows : respects grows reconcile_wal_demoted.
Proof. unfold reconcile_wal_demoted, reconcile_demoted. votes. Qed.
Lemma reconcile_wal_elected_grows : respects grows reconcile_wal_elected.
Proof. unfold reconcile_wal_elected, reconcile_elected. votes. Qed.
#[export] Hint Resolve reconcile_wal_demoted_grows reconcile_wal_elected_grows : respects.
Lemma finish_pending_calls_grows : respects grows finish_pending_calls.
Proof. unfold finish_pending_calls. votes. Qed.
#[export] Hint Resolve finish_pending_calls_grows : respects.
Lemma DemoteToBackup_grows : respects grows DemoteToBackup.
Proof. unfold DemoteToBackup, StopHeartbeat. votes. Qed.
#[export] Hint Resolve DemoteToBackup_grows : respects.
#[local] Opaque DemoteToBackup finish_pending_calls reset_in_flights reconcile_wal_demoted
  reconcile_wal_elected StartElectionTimer StopElectionTimer ResetElectionTimer SetNewLeader
  BecomeLeader.
Lemma ResetNode_grows : respects grows ResetNode.
Proof. unfold ResetNode, StopHeartbeat. votes_steps. Qed.
#[export] Hint Resolve ResetNode_grows : respects.
Lemma ExecuteTransaction_grows r q st : respects grows (ExecuteTransaction r q st).
Proof. unfold ExecuteTransaction. votes. Qed.
Lemma SendClientReply_grows c r q b : respects grows (SendClientReply c r q b).
Proof. unfold SendClientReply, cache_reply. votes. Qed.
Lemma SendClientReplyTwoPC_grows e q b : respects grows (SendClientReplyTwoPC e q b).
Proof. unfold SendClientReplyTwoPC, cache_reply. votes. Qed.
Lemma SendReplyToCoordLeader_grows c r q st : respects grows (SendReplyToCoordLeader c r q st).
Proof. unfold SendReplyToCoordLeader. votes. Qed.
#[export] Hint Resolve ExecuteTransaction_grows SendClientReply_grows SendClientReplyTwoPC_grows
  SendReplyToCoordLeader_grows : respects.
Lemma ExecuteRepeatedTwoPCEntry_grows e : respects grows (ExecuteRepeatedTwoPCEntry e).
Proof. unfold ExecuteRepeatedTwoPCEntry. votes. Qed.
#[export] Hint Resolve ExecuteRepeatedTwoPCEntry_grows : respects.

#[local] Opaque ResetNode.
Lemma StartSecondPhase_grows m : respects grows (StartSecondPhase m).
Proof.
  unfold StartSecondPhase, at_prepares, at_transactions, count_phase2, digest_at.
  votes_steps; own_entry.
Qed.
Lemma HandlePreparedTimeout_grows ts : respects grows (HandlePreparedTimeout ts).
Proof. unfold HandlePreparedTimeout, count_phase2, digest_at. votes_steps; own_entry. Qed.
#[export] Hint Resolve StartSecondPhase_grows HandlePreparedTimeout_grows : respects.
Lemma HandleTwoPCMsg_grows m : respects grows (HandleTwoPCMsg m).
Proof.
  unfold HandleTwoPCMsg, HandlePreparedAndAborted, HandleCommittedAndAborted, at_transactions,
    digest_at. votes.
Qed.
#[local] Opaque HandlePreparedTimeout.
Lemma TransactionRetryLoop_turn_grows : respects grows TransactionRetryLoop_turn.
Proof. unfold TransactionRetryLoop_turn, retry_slot, at_prepares. votes. Qed.
#[export] Hint Resolve HandleTwoPCMsg_grows TransactionRetryLoop_turn_grows : respects.

Lemma take_call_grows q : respects grows (take_call q).
Proof. unfold take_call. votes. Qed.
#[export] Hint Resolve take_call_grows : respects.
Lemma answer_executed_grows e st b : respects grows (answer_executed e st b).
Proof. unfold answer_executed, take_queued. votes. Qed.
#[export] Hint Resolve answer_executed_grows : respects.
#[local] Opaque ExecuteTransaction ExecuteRepeatedTwoPCEntry answer_executed.
Lemma execute_next_grows : respects grows execute_next.
Proof. unfold execute_next. votes. Qed.
#[export] Hint Resolve execute_next_grows : respects.
Lemma execute_loop_grows n : respects grows (execute_loop n).
Proof. induction n; cbn [execute_loop]; votes. Qed.
#[export] Hint Resolve execute_loop_grows : respects.
Lemma SequentiallyExecute_grows : respects grows SequentiallyExecuteCommittedEntries.
Proof. unfold SequentiallyExecuteCommittedEntries. votes. Qed.
#[export] Hint Resolve SequentiallyExecute_grows : respects.
#[local] Opaque SequentiallyExecuteCommittedEntries.
Lemma HandleCommit_grows c : respects grows (HandleCommit c).
Proof. unfold HandleCommit, insert_commit. votes. Qed.

Lemma propose_grows r c a : respects grows (propose r c a).
Proof. unfold propose. votes_steps; own_entry. Qed.
#[export] Hint Resolve HandleCommit_grows propose_grows : respects.
#[local] Opaque propose.
Lemma ProcessClientRequest_grows r c : respects grows (ProcessClientRequest r c).
Proof.
  unfold ProcessClientRequest, forward_request, process_read_only, cache_reply, lock_client,
    lock_participant, send_prepare, at_prepares. votes.
Qed.
#[export] Hint Resolve ProcessClientRequest_grows : respects.
#[local] Opaque ProcessClientRequest.
Lemma HandleClientRequest_grows r c : respects grows (HandleClientRequest r c).
Proof. unfold HandleClientRequest, enqueue. votes. Qed.
Lemma OnElectionComplete_grows : respects grows OnElectionComplete.
Proof. unfold OnElectionComplete. votes. Qed.
#[export] Hint Resolve HandleClientRequest_grows OnElectionComplete_grows : respects.
#[local] Opaque OnElectionComplete.

Lemma SendPromise_grows : respects grows SendPromise.
Proof. unfold SendPromise. votes. Qed.
Lemma SendPrepare_grows b : respects grows (SendPrepare b).
Proof. unfold SendPrepare. votes. Qed.
Lemma RespondAndClear_grows : respects grows RespondAndClearNewViewCallData.
Proof. unfold RespondAndClearNewViewCallData. votes. Qed.
#[export] Hint Resolve SendPromise_grows SendPrepare_grows RespondAndClear_grows : respects.
#[local] Opaque SendPromise SendPrepare RespondAndClearNewViewCallData.
Lemma HandlePrepare_grows r c : respects grows (HandlePrepare r c).
Proof. unfold HandlePrepare. votes. Qed.
Lemma ElectionTimer_turn_grows : respects grows ElectionTimer_turn.
Proof. unfold ElectionTimer_turn, OnElectionTimeout. votes. Qed.
Lemma HeartbeatLoop_turn_grows : respects grows HeartbeatLoop_turn.
Proof. unfold HeartbeatLoop_turn. votes. Qed.
Lemma HandleHeartbeat_grows h : respects grows (HandleHeartbeat h).
Proof. unfold HandleHeartbeat. votes. Qed.
Lemma OnNewViewCallFinished_grows c : respects grows (OnNewViewCallFinished c).
Proof. unfold OnNewViewCallFinished. votes. Qed.
#[export] Hint Resolve HeartbeatLoop_turn_grows HandleHeartbeat_grows HandlePrepare_grows ElectionTimer_turn_grows
  OnNewViewCallFinished_grows : respects.

(** *** The new leader's log *)
Lemma merge_entry_keyed e log : keyed log → keyed (merge_entry e log).
Proof.
  intros Hl. unfold merge_entry. apply keyed_insert; [done|].
  assert (ae_seqnum (merge_pick (log !! ae_seqnum e) e) = ae_seqnum e ∨
          ae_seqnum (merge_pick (log !! ae_seqnum e) e) = 0) as Hp.
  { unfold merge_pick. destruct (log !! ae_seqnum e) as [c|] eqn:E; [|by left].
    specialize (Hl _ _ E). repeat case_match; auto. }
  unfold carry_outcome. repeat case_match; simp_upd; done.
Qed.
Lemma merge_entries_keyed l log k : keyed log → keyed (merge_entries l log k).1.
Proof.
  revert log k. induction l as [|e l IH]; intros log k Hl; cbn [merge_entries]; [done|].
  by apply IH, merge_entry_keyed.
Qed.
Lemma Merge_grows : respects grows MergeAcceptLogsFromPromises.
Proof.
  unfold MergeAcceptLogsFromPromises, seed_entry. votes_steps.
  match goal with H : merge_entries ?l ?m ?k = _ |- _ =>
    pose proof (merge_entries_keyed l m k) as Hk; rewrite H in Hk end.
  apply grows_assign; simp_upd; auto with keyed.
Qed.
Lemma fill_gap_keyed b i log q : keyed log → keyed (fill_gap b i log q).
Proof. intros Hl. unfold fill_gap. case_match; [done|]. apply keyed_insert; [done|by left]. Qed.
Lemma FillMissingNoOps_grows : respects grows FillMissingNoOps.
Proof.
  unfold FillMissingNoOps. votes_steps. apply grows_assign; simp_upd; auto with keyed.
  apply keyed_foldl. intros. by apply fill_gap_keyed.
Qed.
Lemma self_accept_grows s : counts_grow (node_id_ s) (accepted_count_ s) (self_accept s).
Proof.
  apply counts_grow_foldl. intros m q. case_match; auto with keyed.
Qed.
Lemma SendNewView_to_grows p : respects grows (SendNewView_to p).
Proof.
  unfold SendNewView_to. votes_steps.
  all: apply grows_assign; simp_upd; auto using self_accept_grows with keyed.
Qed.
#[export] Hint Resolve Merge_grows FillMissingNoOps_grows SendNewView_to_grows : respects.
#[local] Opaque MergeAcceptLogsFromPromises FillMissingNoOps SendNewView_to.
Lemma SendNewView_grows : respects grows SendNewView.
Proof. unfold SendNewView. votes. Qed.
Lemma InformClusters_grows : respects grows InformClustersOfElection.
Proof. unfold InformClustersOfElection. votes. Qed.
#[export] Hint Resolve SendNewView_grows InformClusters_grows : respects.
#[local] Opaque SendNewView InformClustersOfElection.
Lemma HandlePromise_grows r : respects grows (HandlePromise r).
Proof. unfold HandlePromise, record_promise. votes. Qed.
#[export] Hint Resolve HandlePromise_grows : respects.

(** *** Acknowledgements *)
Lemma adopt_entry_keyed log e : keyed log → keyed (adopt_entry log e).
Proof. intros Hl. unfold adopt_entry. repeat case_match; auto; apply keyed_insert; auto. Qed.
Lemma newview_ack_own s e :
  ack_node_id (newview_ack s e) = node_id_ s ∧ ack_accepted (newview_ack s e) = true.
Proof. unfold newview_ack. repeat case_match; by simp_upd. Qed.
Lemma newview_acks_grow (l : list AcceptedEntry) p s :
  wp any_fault (for_each l (λ e, send_to p (SendAcceptAckTo p (newview_ack s e)))) s
    (λ _ s', grows s s').
Proof.
  apply (wp_for_each _ _ _ _ (grows s)); [|reflexivity|done].
  intros e t _ G. unfold send_to, emit. wp_steps. etrans; [exact G|].
  apply grows_id in G. split; simp_upd; auto with keyed.
  exists [SendAcceptAckTo p (newview_ack s e)]. split; [done|]. apply Forall_singleton.
  rewrite G. apply newview_ack_own.
Qed.
Lemma HandleNewView_grows v call : respects grows (HandleNewView v call).
Proof.
  unfold HandleNewView. votes_steps.
  all: try (apply grows_assign; simp_upd; auto with keyed;
    apply keyed_foldl; intros; by apply adopt_entry_keyed).
  all: eapply wp_mono; [|apply newview_acks_grow]; intros ? ? ?; cbn beta; grows_chain.
Qed.
Lemma FillAcceptAck_id i e a : ack_node_id (FillAcceptAck i e a) = i.
Proof. unfold FillAcceptAck. repeat case_match; by simp_upd. Qed.
Lemma HandlePropose_grows e s :
  wp any_fault (HandlePropose e) s
    (λ a s', grows s s' ∧ (ack_accepted a = true → ack_node_id a = node_id_ s)).
Proof.
  unfold HandlePropose. repeat (votes_step; cbv zeta); try (split; [grows_chain|done]).
  all: split; [grows_chain|]; intros _; simp_upd; rewrite FillAcceptAck_id; same_node.
Qed.
Lemma kill_grows : respects grows kill.
Proof. unfold kill. votes. Qed.
#[export] Hint Resolve kill_grows : respects.
Lemma HandleSetAlive_grows u : respects grows (HandleSetAlive u).
Proof. unfold HandleSetAlive, revive. votes. Qed.
Lemma move_on_call_grows q : respects grows (move_on_call q).
Proof.
  unfold move_on_call. votes_steps.
  all: try match goal with H : subscript _ ?m ?k = _ |- _ =>
    pose proof (keyed_subscript m k) as Hk; rewrite H in Hk end.
  all: apply grows_assign; simp_upd; auto with keyed.
Qed.
#[export] Hint Resolve HandleSetAlive_grows move_on_call_grows : respects.
#[local] Opaque move_on_call.
Lemma HandleMoveOn_grows : respects grows HandleMoveOn.
Proof. unfold HandleMoveOn. votes. Qed.
#[export] Hint Resolve HandleMoveOn_grows : respects.

(** *** Every other event *)
Definition is_accept (e : Event) : bool :=
  match e with EAccept _ | EAccepted _ => true | _ => false end.
Lemma handle_grows t e : is_accept e = false → respects grows (run_at t e).
Proof.
  intros He. unfold run_at. apply respects_bind; [apply _| |intros _].
  { apply respects_modify. intros s. grows_leaf. }
  destruct e; try done; cbn [handle]; try solve [eauto 2 with respects].
  - apply HandleNewView_grows.
  - apply respects_bind; [apply _|apply HandleSetAlive_grows|intros; votes].
  - apply respects_bind; [apply _|apply HandleMoveOn_grows|intros; votes].
Qed.

(** *** The acknowledgements a leader counts *)
Definition tally (second : bool) (s : PaxosNode) : gmap Z (gmap Z (gset Z)) :=
  if second then accepted_count_two_pc_commit_ s else accepted_count_ s.
Definition ack_says (second : bool) (q c : Z) (a : Ack) : Prop :=
  ack_accepted a = true ∧ (ack_phase a =? 2) = second ∧ ack_seqnum a = q ∧
  counter (ack_ballot a) = c.

Lemma grows_tally b s s' q c n :
  grows s s' → n ∈ count_in (tally b s') q c → n ∈ count_in (tally b s) q c ∨ n = node_id_ s.
Proof. intros [] H. destruct b; cbn [tally] in *; auto. Qed.

(** From [s] to [t] the acknowledgement [a] was counted and [l] was sent. *)
Record counts_ack (a : Ack) (l : list Output) (s t : PaxosNode) : Prop := CountsAck {
  ca_id : node_id_ t = node_id_ s;
  ca_f : f_ t = f_ s;
  ca_outbox : outbox_ t = outbox_ s ++ l;
  ca_tally : ∀ b q c n, n ∈ count_in (tally b t) q c →
    n ∈ count_in (tally b s) q c ∨ (n = ack_node_id a ∧ ack_says b q c a);
  ca_log : keyed (accept_log_ s) → keyed (accept_log_ t);
  ca_pending : keyed (pending_entries_ s) → keyed (pending_entries_ t) }.

Lemma counts_ack_refl a s : counts_ack a [] s s.
Proof. split; auto. by rewrite app_nil_r. Qed.
Lemma counted_tally a s b q c n :
  ack_accepted a = true → n ∈ count_in (tally b (counted s a)) q c →
  n ∈ count_in (tally b s) q c ∨ (n = ack_node_id a ∧ ack_says b q c a).
Proof.
  intros Ha H. unfold ack_says.
  assert (tally b (counted s a) = if bool_decide ((ack_phase a =? 2) = b) then
    count_insert (tally b s) (ack_seqnum a) (counter (ack_ballot a)) (ack_node_id a)
    else tally b s) as E.
  { unfold counted, log_accepted, tally. destruct (accept_log_ s !! _), (ack_phase a =? 2), b; done. }
  rewrite E in H. case_bool_decide as Hb; [|by left].
  destruct (decide ((ack_seqnum a, counter (ack_ballot a)) = (q, c))) as [Eq|Hne].
  - injection Eq as <- <-. rewrite count_in_insert, elem_of_union, elem_of_singleton in H. tauto.
  - rewrite count_in_insert_ne in H by done. by left.
Qed.
Lemma counted_counts a s : ack_accepted a = true → counts_ack a [] s (counted s a).
Proof.
  intros Ha. assert (node_id_ (counted s a) = node_id_ s ∧ f_ (counted s a) = f_ s ∧
    outbox_ (counted s a) = outbox_ s ∧ accept_log_ (counted s a) = accept_log_ s ∧
    pending_entries_ (counted s a) = pending_entries_ s) as (H1 & H2 & H3 & H4 & H5).
  { unfold counted, log_accepted. destruct (accept_log_ s !! _), (ack_phase a =? 2); done. }
  split; rewrite ?H1, ?H2, ?H3, ?H4, ?H5, ?app_nil_r; auto.
  intros b q c n. by apply counted_tally.
Qed.

(** The committed entry is the one kept under the acknowledged number. *)
Lemma entry_of_keyed s q :
  keyed (accept_log_ s) → keyed (pending_entries_ s) →
  ae_seqnum (entry_of s q) = q ∨ ae_seqnum (entry_of s q) = 0.
Proof.
  intros Hl Hp. unfold entry_of. destruct (pending_entries_ s !! q) eqn:E; [by apply Hp|].
  destruct (accept_log_ s !! q) eqn:E'; [by apply Hl|by right].
Qed.

Lemma broadcast_counts a entry l s :
  counts_ack a [] s (counted s a) →
  counts_ack a l s (sent l (buffered (ack_seqnum a) entry (looked_up (ack_seqnum a) (counted s a)))).
Proof.
  intros [H1 H2 H3 H4 H5 H6]. rewrite app_nil_r in H3.
  unfold sent, buffered, looked_up. split; simp_upd; repeat case_match; simp_upd; try congruence; auto.
  all: try (intros b q c n; specialize (H4 b q c n); destruct b; exact H4).
  all: auto with keyed.
Qed.

Lemma HandleAccept_votes a s s' :
  HandleAccept a s = Ok (tt, s') → ∃ t l, counts_ack a l s t ∧ grows t s' ∧
    Forall (λ o, ∃ p e, o = SendCommitTo p (commit_of e (ack_status a)) ∧
      Z.of_nat (size (acceptors s a)) = f_ s + 1 ∧ ack_accepted a = true ∧
      (keyed (accept_log_ s) → keyed (pending_entries_ s) →
         ae_seqnum e = ack_seqnum a ∨ ae_seqnum e = 0)) l.
Proof.
  rewrite HandleAccept_rule. intros H.
  destruct (negb (alive_ s && (role_ s ==s LEADER) && ack_accepted a)) eqn:Eok.
  { injection H as <-. exists s, []. split_and!; [apply counts_ack_refl|reflexivity|constructor]. }
  apply negb_false_iff, andb_true_iff in Eok as [_ Ha].
  destruct (_ && (accept_log_ s !! _ ==s None)).
  { injection H as <-. exists s, []. split_and!; [apply counts_ack_refl|reflexivity|constructor]. }
  pose proof (counted_counts a s Ha) as Hc.
  destruct (may_commit s a && _) eqn:Eq.
  2: { injection H as <-. exists (counted s a), []. split_and!; [done|reflexivity|constructor]. }
  apply andb_true_iff in Eq as [_ Eq%Z.eqb_eq]. rewrite Commit_entry_broadcasts in H. cbv zeta in H.
  set (entry := commit_of (entry_of (counted s a) (ack_seqnum a)) (ack_status a)) in *.
  match type of H with _ (sent ?l ?u) = _ => exists (sent l u), l end.
  split_and!; [by apply broadcast_counts| |].
  - revert H. repeat case_match; intros Hr; [eapply SequentiallyExecute_grows|
      eapply ExecuteRepeatedTwoPCEntry_grows|injection Hr as <-; reflexivity]; exact Hr.
  - apply list.Forall_fmap, list.Forall_forall. intros p _. eexists p, _.
    split_and!; [reflexivity|done|done|]. intros Hl Hp. destruct Hc. apply entry_of_keyed; auto.
Qed.
