(* ===== verification/Cluster.v ===== *)
(** * The nodes together

    The nodes of a deployment and the network between them. Whatever a node has
    sent can be delivered, in any order, any number of times or never: the
    messages are read off the output tapes of the nodes, and the acks that
    [HandlePropose] returns as the answer to its call off a tape of their own.
    Clients, the launcher and the timers act at any time.

    A step runs one handler of one node to its end; a node whose handler faults
    makes no further step of that event. *)
From S2P Require Import Prelude Text Messages Node Ledger Elections TwoPhase Replication Requests.
From S2P Require Import NewView Control Machine.
#[local] Open Scope Z_scope.

Record System := MkSystem {
  sy_nodes : gmap Z PaxosNode;
  sy_acks : list (Z * Ack) }.

#[export] Instance PrepareRequest_eq_dec : EqDecision PrepareRequest.
Proof. solve_decision. Defined.
#[export] Instance PromiseResponse_eq_dec : EqDecision PromiseResponse.
Proof. solve_decision. Defined.
#[export] Instance NewViewRequest_eq_dec : EqDecision NewViewRequest.
Proof. solve_decision. Defined.
#[export] Instance HeartbeatRequest_eq_dec : EqDecision HeartbeatRequest.
Proof. solve_decision. Defined.
#[export] Instance TwoPCMsg_eq_dec : EqDecision TwoPCMsg.
Proof. solve_decision. Defined.
#[export] Instance Output_eq_dec : EqDecision Output.
Proof. solve_decision. Defined.

(** Some node has put the message on the wire. *)
Definition on_wire (sy : System) (o : Output) : Prop :=
  Exists (λ p, o ∈ outbox_ p.2) (map_to_list (sy_nodes sy)).
Definition promised_on_wire (sy : System) (r : PromiseResponse) : Prop :=
  Exists (λ p, Exists (λ o, match o with RespondPrepare _ r' => r' = r | _ => False end)
    (outbox_ p.2)) (map_to_list (sy_nodes sy)).

(** What can reach node [i] now. *)
Definition deliverable_to (sy : System) (i : Z) (e : Event) : Prop :=
  match e with
  | EPrepare r _ => on_wire sy (SendPrepareTo i r)
  | EPromise p => promised_on_wire sy p
  | EAccept a => on_wire sy (SendAcceptTo i a)
  | EAccepted a => on_wire sy (SendAcceptAckTo i a) ∨ a ∈ (sy_acks sy).*2
  | ECommit c => on_wire sy (SendCommitTo i c)
  | ENewView v _ => on_wire sy (SendNewViewTo i v)
  | ETwoPC m => on_wire sy (SendTwoPCMsgTo i m)
  | EHeartbeat h => on_wire sy (SendHeartbeatTo i h)
  | EClientRequest _ _ | ENewViewFinished _ | ESetAlive _ | EMoveOn
  | EElectionTimer | EHeartbeatLoop | ERetryLoop => True
  end.
#[export] Instance promise_dec o (r : PromiseResponse) :
  Decision (match o with RespondPrepare _ r' => r' = r | _ => False end).
Proof. destruct o; apply _. Defined.
#[export] Instance deliverable_to_dec sy i e : Decision (deliverable_to sy i e).
Proof. destruct e; unfold deliverable_to, on_wire, promised_on_wire; apply _. Defined.

(** An event at a node, with the acks it answers. *)
Definition node_event (t : Z) (e : Event) : NodeM (list Ack) :=
  match e with
  | EAccept a => now_ ::= t ;; ack ← HandlePropose a; mret [ack]
  | _ => run_at t e ;; mret []
  end.

Inductive sys_step (sy sy' : System) : Prop :=
  | sys_event (i t : Z) (e : Event) (s s' : PaxosNode) (acks : list Ack) :
      sy_nodes sy !! i = Some s → deliverable_to sy i e →
      node_event t e s = Ok (acks, s') →
      sy' = MkSystem (<[i := s']> (sy_nodes sy)) (((λ a, (i, a)) <$> acks) ++ sy_acks sy) →
      sys_step sy sy'.

(** Every node freshly constructed. *)
Definition system_init (peers : gset Z) (clients : gset string) (shard_map : gmap Z Z)
    (num_clusters now : Z) : System :=
  MkSystem (map_imap (λ i _,
    Some (PaxosNode_init i peers clients shard_map num_clusters now))
    (gset_to_gmap tt peers)) [].

Definition sys_reachable (sy0 sy : System) : Prop := rtc sys_step sy0 sy.

(** Running a list of events: the node, the time, the event. *)
Fixpoint run_system (l : list (Z * Z * Event)) (sy : System) : option System :=
  match l with
  | [] => Some sy
  | (i, t, e) :: l =>
      s ← sy_nodes sy !! i;
      if decide (deliverable_to sy i e) then
        match node_event t e s with
        | Ok (acks, s') => run_system l
            (MkSystem (<[i := s']> (sy_nodes sy)) (((λ a, (i, a)) <$> acks) ++ sy_acks sy))
        | Fault _ => None
        end
      else None
  end.

Lemma run_system_reachable l sy sy' : run_system l sy = Some sy' → sys_reachable sy sy'.
Proof.
  revert sy. induction l as [|[[i t] e] l IH]; intros sy; cbn [run_system].
  - intros [= ->]. apply rtc_refl.
  - destruct (sy_nodes sy !! i) as [s|] eqn:E; [|done]. cbn. case_decide as D; [|done].
    destruct (node_event t e s) as [[acks s']|] eqn:R; [|done]. intros H.
    eapply rtc_l; [|by apply IH]. by eapply sys_event.
Qed.
