(* ===== verification/ClusterProofs.v ===== *)
(** * The nodes together: what stands behind a COMMIT

    Whatever the network does, a COMMIT is on the wire only if [f_ + 1]
    distinct nodes stand behind its sequence number: the sender itself, and
    nodes whose positive acknowledgements are among the messages sent. *)
From S2P Require Import Prelude Text Messages Node Ledger Elections TwoPhase Replication Requests.
From S2P Require Import NewView Control Machine ReplicationProofs Votes Cluster.
#[local] Open Scope Z_scope.

(** Node [n] has sent [a], as a call of its own or as the answer to an ACCEPT. *)
Definition sent_ack (sy : System) (n : Z) (a : Ack) : Prop :=
  ack_node_id a = n ∧
    ((∃ s p, sy_nodes sy !! n = Some s ∧ SendAcceptAckTo p a ∈ outbox_ s) ∨ (n, a) ∈ sy_acks sy).

(** Node [n] has sent a positive acknowledgement for number [q] and ballot
    counter [c], in the first or the second phase. *)
Definition acked (sy : System) (n : Z) (second : bool) (q c : Z) : Prop :=
  ∃ a, ack_says second q c a ∧ sent_ack sy n a.

Definition stands_behind (sy : System) (i : Z) (second : bool) (q c n : Z) : Prop :=
  n = i ∨ acked sy n second q c.

(** A quorum behind number [q], completed by the acknowledgement of a node [m]
    with status [st]. *)
Definition quorum_behind (sy : System) (i quorum q : Z) (st : string) : Prop :=
  ∃ (second : bool) (b m : Z) (a : Ack) (Q : gset Z),
    Z.of_nat (size Q) = quorum ∧ (∀ n, n ∈ Q → stands_behind sy i second q b n) ∧
    m ∈ Q ∧ sent_ack sy m a ∧ ack_says second q b a ∧ ack_status a = st.

(** What is behind the entry that node [i] commits: the number it carries, if
    it carries one. *)
Definition backed (sy : System) (i quorum : Z) (c : CommitEntry) : Prop :=
  ce_seqnum c ≠ 0 → quorum_behind sy i quorum (ce_seqnum c) (ce_two_pc_status c).

Record node_ok (sy : System) (i : Z) (s : PaxosNode) : Prop := NodeOk {
  no_id : node_id_ s = i;
  no_tally : ∀ b q c n, n ∈ count_in (tally b s) q c → stands_behind sy i b q c n;
  no_acks : ∀ p a, SendAcceptAckTo p a ∈ outbox_ s → ack_node_id a = i;
  no_commits : ∀ p c, SendCommitTo p c ∈ outbox_ s → backed sy i (f_ s + 1) c;
  no_log : keyed (accept_log_ s);
  no_pending : keyed (pending_entries_ s) }.

Definition system_ok (sy : System) : Prop :=
  (∀ i s, sy_nodes sy !! i = Some s → node_ok sy i s) ∧
  (∀ i a, (i, a) ∈ sy_acks sy → ack_accepted a = true → ack_node_id a = i).

(** The record of what was sent only grows. *)
Definition sy_le (sy sy' : System) : Prop :=
  (∀ i s, sy_nodes sy !! i = Some s → ∃ s', sy_nodes sy' !! i = Some s' ∧ outbox_ s ⊆ outbox_ s') ∧
  sy_acks sy ⊆ sy_acks sy'.

Lemma sent_ack_le sy sy' n a : sy_le sy sy' → sent_ack sy n a → sent_ack sy' n a.
Proof.
  intros [Hn Ha] (E & [(s & p & Es & Hp)|H]); split; auto.
  left. destruct (Hn _ _ Es) as (s' & Es' & Hsub). eauto.
Qed.
Lemma acked_le sy sy' n b q c : sy_le sy sy' → acked sy n b q c → acked sy' n b q c.
Proof. intros H (a & Hs & Ha). exists a. eauto using sent_ack_le. Qed.
Lemma stands_behind_le sy sy' i b q c n :
  sy_le sy sy' → stands_behind sy i b q c n → stands_behind sy' i b q c n.
Proof. intros H [->|Ha]; [by left|right; by eapply acked_le]. Qed.
Lemma backed_le sy sy' i k c : sy_le sy sy' → backed sy i k c → backed sy' i k c.
Proof.
  intros H Hc Hz. destruct (Hc Hz) as (b & q & m & a & Q & Hs & Hn & Hm & Ha & Hsay).
  exists b, q, m, a, Q. split_and!; eauto using stands_behind_le, sent_ack_le; apply Hsay.
Qed.
Lemma node_ok_le sy sy' i s : sy_le sy sy' → node_ok sy i s → node_ok sy' i s.
Proof.
  intros H []. split; auto.
  - intros b q c n Hn. eapply stands_behind_le; eauto.
  - intros p c Hc. eapply backed_le; eauto.
Qed.

(** ** One event *)
Lemma node_ok_grows sy i s s' : grows s s' → node_ok sy i s → node_ok sy i s'.
Proof.
  intros G [H1 H2 H3 H4 H5 H6]. pose proof (grows_outbox _ _ G) as (l & Ho & Hl).
  rewrite list.Forall_forall in Hl. split.
  - rewrite (grows_id _ _ G). done.
  - intros b q c n Hn. destruct (grows_tally _ _ _ _ _ _ G Hn) as [|E]; [by apply H2|left; congruence].
  - intros p a. rewrite Ho, elem_of_app. intros [H|H]; [by eapply H3|].
    apply Hl in H as [H _]. congruence.
  - intros p c. rewrite Ho, elem_of_app, (grows_f _ _ G). intros [H|H]; [by eapply H4|].
    by apply Hl in H.
  - by apply (grows_log _ _ G).
  - by apply (grows_pending _ _ G).
Qed.

(** An acknowledgement that can reach a node was sent by the node it names. *)
Lemma deliverable_ack sy i a :
  system_ok sy → deliverable_to sy i (EAccepted a) → ack_accepted a = true →
  sent_ack sy (ack_node_id a) a.
Proof.
  intros [Hn Ha] Hd Hs. split; [done|]. destruct Hd as [Hd|Hd].
  - left. unfold on_wire in Hd. apply list.Exists_exists in Hd as ([j s] & Hj & Hin). cbn in Hin.
    apply elem_of_map_to_list in Hj. pose proof (no_acks _ _ _ (Hn _ _ Hj) _ _ Hin) as E.
    exists s, i. rewrite E. done.
  - right. apply list_elem_of_fmap in Hd as ([j a'] & E & Hin). cbn in E. subst a'.
    rewrite (Ha _ _ Hin) by done. done.
Qed.
Lemma ack_says_itself a :
  ack_accepted a = true → ack_says (ack_phase a =? 2) (ack_seqnum a) (counter (ack_ballot a)) a.
Proof. by unfold ack_says. Qed.
Lemma acceptors_behind sy i s a :
  system_ok sy → deliverable_to sy i (EAccepted a) → node_ok sy i s → ack_accepted a = true →
  ∀ n, n ∈ acceptors s a →
    stands_behind sy i (ack_phase a =? 2) (ack_seqnum a) (counter (ack_ballot a)) n.
Proof.
  intros Hsy Hd Hok Ha n. unfold acceptors. rewrite elem_of_union, elem_of_singleton. intros [->|H].
  - right. exists a. eauto using ack_says_itself, deliverable_ack.
  - by apply (no_tally _ _ _ Hok (ack_phase a =? 2)).
Qed.

Lemma HandleAccept_node_ok sy i s a s' :
  system_ok sy → deliverable_to sy i (EAccepted a) → node_ok sy i s →
  HandleAccept a s = Ok (tt, s') → node_ok sy i s'.
Proof.
  intros Hsy Hd Hok H. destruct (HandleAccept_votes a s s' H) as (t & l & Hc & G & Hl).
  rewrite list.Forall_forall in Hl.
  apply (node_ok_grows sy i t s' G). destruct Hok as [H1 H2 H3 H4 H5 H6] eqn:E. clear E.
  destruct Hc as [C1 C2 C3 C4 C5 C6]. split; auto.
  - congruence.
  - intros b q c n Hn. destruct (C4 _ _ _ _ Hn) as [|[-> Hs]]; [by apply H2|].
    right. exists a. split; [done|]. eapply deliverable_ack; eauto. apply Hs.
  - intros p r. rewrite C3, elem_of_app. intros [Hr|Hr]; [by eapply H3|].
    by apply Hl in Hr as (? & ? & ? & _).
  - intros p c. rewrite C3, elem_of_app, C2. intros [Hr|Hr]; [by eapply H4|].
    apply Hl in Hr as (p' & e & [= -> ->] & Hq & Ha & Hk). intros Hz. cbn [commit_of ce_seqnum] in *.
    destruct (Hk H5 H6) as [->|]; [|done].
    eexists _, _, (ack_node_id a), a, (acceptors s a). split_and!; [exact Hq| | | |by apply ack_says_itself|done].
    + by eapply acceptors_behind.
    + unfold acceptors. set_solver.
    + by eapply deliverable_ack.
Qed.

(** What one event does to its node and adds to the acks. *)
Lemma event_ok sy i t e s acks s' :
  system_ok sy → deliverable_to sy i e → node_ok sy i s →
  node_event t e s = Ok (acks, s') →
  node_ok sy i s' ∧ outbox_ s ⊆ outbox_ s' ∧
  ∀ a, a ∈ acks → ack_accepted a = true → ack_node_id a = i.
Proof.
  intros Hsy Hd Hok H.
  assert (grows s (upd now_ t s)) as G0 by grows_leaf.
  destruct (is_accept e) eqn:He.
  - destruct e as [| |a|a| | | | | | | | | | |]; try done; cbn [node_event run_at handle] in H.
    + apply bind_Ok_inv in H as ([] & s1 & [= <-] & H).
      apply bind_Ok_inv in H as (ack & s2 & H & [= <- <-]).
      pose proof (wp_Ok _ _ _ _ _ _ H (HandlePropose_grows a (upd now_ t s))) as [G Ha].
      assert (grows s s2) as Gs by (by etrans). split_and!.
      * by apply (node_ok_grows sy i s).
      * destruct (grows_outbox _ _ Gs) as (l & -> & _). by apply list_subseteq_app_l.
      * intros r ->%list_elem_of_singleton Hr. rewrite Ha by done. apply (no_id _ _ _ Hok).
    + apply bind_Ok_inv in H as ([] & s1 & H & [= <- <-]).
      apply bind_Ok_inv in H as ([] & s2 & [= <-] & H). change (HandleAccept a (upd now_ t s) = Ok (tt, s1)) in H.
      split_and!; [apply (HandleAccept_node_ok sy i (upd now_ t s) a); eauto using node_ok_grows| |by intros ? ?%elem_of_nil].
      destruct (HandleAccept_votes _ _ _ H) as (u & l & Hc & G & _).
      destruct (grows_outbox _ _ G) as (l' & -> & _). rewrite (ca_outbox _ _ _ _ Hc).
      by do 2 apply list_subseteq_app_l.
  - assert (acks = [] ∧ run_at t e s = Ok (tt, s')) as [-> Hr].
    { destruct e; try done; apply bind_Ok_inv in H as ([] & s1 & H & [= <- <-]); done. }
    pose proof (handle_grows t e He _ _ _ Hr) as G. split_and!; [by eapply node_ok_grows| |].
    + destruct (grows_outbox _ _ G) as (l & -> & _). by apply list_subseteq_app_l.
    + by intros a ?%elem_of_nil.
Qed.

Lemma sys_step_ok sy sy' : system_ok sy → sys_step sy sy' → system_ok sy'.
Proof.
  intros Hsy [i t e s s' acks Hs Hd He ->]. destruct (event_ok _ _ _ _ _ _ _ Hsy Hd (proj1 Hsy _ _ Hs) He)
    as (Hok & Hout & Ha).
  match goal with |- system_ok ?y => assert (sy_le sy y) as Hle end.
  { split; cbn; [|set_solver]. intros j u Hj. destruct (decide (i = j)) as [<-|].
    - exists s'. rewrite lookup_insert_eq. split; [done|].
      assert (u = s) as -> by congruence. done.
    - exists u. by rewrite lookup_insert_ne. }
  split; cbn.
  - intros j u. destruct (decide (i = j)) as [<-|].
    + rewrite lookup_insert_eq. intros [= <-]. by eapply node_ok_le.
    + rewrite lookup_insert_ne by done. intros Hj. eapply node_ok_le; [done|]. by apply Hsy.
  - intros j a. rewrite elem_of_app, list_elem_of_fmap. intros [(b & [= -> ->] & Hb)|H]; [by apply Ha|].
    by apply Hsy.
Qed.

(** ** Every reachable system *)
Lemma system_init_lookup peers clients shards k now i s :
  sy_nodes (system_init peers clients shards k now) !! i = Some s →
  s = PaxosNode_init i peers clients shards k now.
Proof.
  cbn. rewrite map_lookup_imap. destruct (gset_to_gmap () peers !! i) eqn:E; [|done].
  by intros [= <-].
Qed.
Lemma system_init_ok peers clients shards k now :
  system_ok (system_init peers clients shards k now).
Proof.
  split; [|by intros i a ?%elem_of_nil]. intros i s ->%system_init_lookup. split; try done.
  - intros [] q c n; by unfold count_in.
  - by intros p a ?%elem_of_nil.
  - by intros p a ?%elem_of_nil.
Qed.
Lemma sys_reachable_ok peers clients shards k now sy :
  sys_reachable (system_init peers clients shards k now) sy → system_ok sy.
Proof.
  intros H. assert (system_ok (system_init peers clients shards k now)) as Hi
    by apply system_init_ok.
  induction H as [|sy1 sy2 sy3 H1 _ IH]; [done|]. apply IH. by eapply sys_step_ok.
Qed.

(** C1: a COMMIT is backed by a quorum of the whole system. In every reachable
    state of a deployment whose network loses, repeats and reorders messages at
    will, behind each COMMIT with a number that a node [i] has sent there is a
    set of [f_ + 1] nodes: each is [i] itself or has itself sent a positive
    acknowledgement for the number of the COMMIT, all for one ballot counter and
    in one phase; one of these acknowledgements has the status of the COMMIT.
    The counter is that of the acknowledgements, not always that of the ballot
    in the COMMIT; and a leader that finds no entry for the acknowledged number
    sends a COMMIT of the default entry, with number 0, which this does not
    cover (for both see [commit_in_older_ballot] and [commit_of_nothing]). *)
Theorem commit_backed_by_quorum (peers : gset Z) (clients : gset string) (shards : gmap Z Z)
    (k now : Z) (sy : System) (i p : Z) (s : PaxosNode) (c : CommitEntry) :
  sys_reachable (system_init peers clients shards k now) sy →
  sy_nodes sy !! i = Some s → SendCommitTo p c ∈ outbox_ s → ce_seqnum c ≠ 0 →
  ∃ (second : bool) (b m : Z) (a : Ack) (Q : gset Z),
    Z.of_nat (size Q) = f_ s + 1 ∧
    (∀ n, n ∈ Q → n = i ∨ acked sy n second (ce_seqnum c) b) ∧
    m ∈ Q ∧ sent_ack sy m a ∧ ack_says second (ce_seqnum c) b a ∧ ack_status a = ce_two_pc_status c.
Proof.
  intros Hr Hi Hc. apply (no_commits _ _ _ (proj1 (sys_reachable_ok _ _ _ _ _ _ Hr) _ _ Hi) _ _ Hc).
Qed.

(** ** A deployment of three nodes

    One cluster, four accounts. Node 1 is elected by node 2 and serves a
    request; all three nodes execute it. *)
Definition three_shards : gmap Z Z := list_to_map [(1, 1); (2, 1); (3, 1); (4, 1)].
Definition three_nodes : System :=
  system_init (list_to_set [1; 2; 3]) {["A"%string]} three_shards 1 0.

Definition entry_at (b : Ballot) (seq : Z) (r : ClientRequest) (i : Z) : AcceptedEntry :=
  MkAcceptedEntry b seq r i "" ClientRequest_default 0 "".
Definition commit_at (b : Ballot) (seq : Z) (r : ClientRequest) : CommitEntry :=
  MkCommitEntry b seq r "" ClientRequest_default "".
Definition ack_at (b : Ballot) (i seq : Z) : Ack := MkAck b i true seq 0 "".

Definition first_term : list (Z * Z * Event) :=
  let b := MkBallot 1 1 in
  let r := transfer 1 "1" "2" 4 in
  [(1, 5000, EClientRequest r 7); (1, 5080, EElectionTimer);
   (2, 5081, EPrepare (MkPrepareRequest b 1) 8);
   (1, 5082, EPromise (MkPromiseResponse b 2 true []));
   (3, 5083, EAccept (entry_at b 1 r 1)); (2, 5083, EAccept (entry_at b 1 r 1));
   (1, 5084, EAccepted (ack_at b 3 1));
   (3, 5085, ECommit (commit_at b 1 r)); (2, 5085, ECommit (commit_at b 1 r))].

Lemma run_system_observed {A} l sy0 (f : System → option A) x :
  run_system l sy0 ≫= f = Some x → ∃ sy, sys_reachable sy0 sy ∧ f sy = Some x.
Proof. intros (sy & H & Hf)%bind_Some. eauto using run_system_reachable. Qed.

Lemma commit_backed_by_quorum_witness :
  ∃ sy s, sys_reachable three_nodes sy ∧ sy_nodes sy !! 1 = Some s ∧
    ∃ (second : bool) (b m : Z) (a : Ack) (Q : gset Z), Z.of_nat (size Q) = f_ s + 1 ∧
      (∀ n, n ∈ Q → n = 1 ∨ acked sy n second 1 b) ∧
      m ∈ Q ∧ sent_ack sy m a ∧ ack_says second 1 b a ∧ ack_status a = ""%string.
Proof.
  pose (c := commit_at (MkBallot 1 1) 1 (transfer 1 "1" "2" 4)).
  assert (run_system first_term three_nodes ≫= (λ sy, s ← sy_nodes sy !! 1;
    Some (bool_decide (SendCommitTo 2 c ∈ outbox_ s))) = Some true) as H
    by (vm_compute; reflexivity).
  apply run_system_observed in H as (sy & Hr & H).
  destruct (sy_nodes sy !! 1) as [s|] eqn:E; [|done].
  injection H as H%bool_decide_eq_true. exists sy, s. split_and!; [done..|].
  exact (commit_backed_by_quorum _ _ _ _ _ sy 1 2 s c Hr E H ltac:(done)).
Defined.

(** ** Two leaders

    Node 3 asks for its promises and node 1 grants one: node 3 leads. Node 1,
    which has not heard from the new leader when its own timer ends, asks for
    promises with a lower ballot than the one it has promised, counts itself,
    and is elected by node 2. Both leaders then serve a request: node 1 counts
    itself and node 2, node 3 counts itself and node 2. *)
Definition two_terms : list (Z * Z * Event) :=
  let b1 := MkBallot 2 1 in
  let b3 := MkBallot 2 3 in
  let log := [entry_at (MkBallot 1 1) 1 (transfer 1 "1" "2" 4) 1] in
  let r1 := transfer 2 "1" "2" 1 in
  let r3 := transfer 3 "3" "4" 1 in
  [(3, 6300, EElectionTimer); (3, 7500, EElectionTimer);
   (1, 7501, EPrepare (MkPrepareRequest b3 3) 9);
   (3, 7502, EPromise (MkPromiseResponse b3 1 true log));
   (1, 8800, EElectionTimer);
   (2, 8801, EPrepare (MkPrepareRequest b1 1) 10);
   (1, 8802, EPromise (MkPromiseResponse b1 2 true log));
   (1, 8810, EClientRequest r1 11); (3, 8810, EClientRequest r3 12);
   (2, 8811, EAccept (entry_at b1 2 r1 1)); (2, 8812, EAccept (entry_at b3 2 r3 3));
   (1, 8813, EAccepted (ack_at b1 2 2)); (3, 8813, EAccepted (ack_at b3 2 2))].

(** What the two leaders of such a run have sent and executed. *)
Definition observe (c1 c3 : CommitEntry) (sy : System) :=
  s1 ← sy_nodes sy !! 1;
  s3 ← sy_nodes sy !! 3;
  Some (bool_decide (SendCommitTo 2 c1 ∈ outbox_ s1), bool_decide (SendCommitTo 2 c3 ∈ outbox_ s3),
        (role_ s1, last_executed_seq_ s1, accounts_ s1 1),
        (role_ s3, last_executed_seq_ s3, accounts_ s3 1)).

(** C40: two leaders can commit different requests under one number. There is a
    reachable state of three nodes in which COMMITs with the same number and
    different requests are both on the wire to node 2, nodes 1 and 3 both lead,
    both have executed entries up to number 2, and their balances differ. *)
Theorem commits_can_disagree :
  ∃ sy s1 s3 c1 c3,
    sys_reachable (system_init (list_to_set [1; 2; 3]) {["A"%string]} three_shards 1 0) sy ∧
    sy_nodes sy !! 1 = Some s1 ∧ sy_nodes sy !! 3 = Some s3 ∧
    SendCommitTo 2 c1 ∈ outbox_ s1 ∧ SendCommitTo 2 c3 ∈ outbox_ s3 ∧
    ce_seqnum c1 = ce_seqnum c3 ∧ ce_request c1 ≠ ce_request c3 ∧
    role_ s1 = LEADER ∧ role_ s3 = LEADER ∧
    last_executed_seq_ s1 = 2 ∧ last_executed_seq_ s3 = 2 ∧ accounts_ s1 1 ≠ accounts_ s3 1.
Proof.
  set (c1 := commit_at (MkBallot 2 1) 2 (transfer 2 "1" "2" 1)).
  set (c3 := commit_at (MkBallot 2 3) 2 (transfer 3 "3" "4" 1)).
  assert (run_system (first_term ++ two_terms) three_nodes ≫= observe c1 c3 =
    Some (true, true, (LEADER, 2, 5), (LEADER, 2, 6))) as H by (vm_compute; reflexivity).
  apply run_system_observed in H as (sy & Hr & H). unfold observe in H.
  destruct (sy_nodes sy !! 1) as [s1|] eqn:E1; [|done].
  destruct (sy_nodes sy !! 3) as [s3|] eqn:E3; [|done].
  injection H as H1 H2 H3 H4 H5 H6 H7 H8. apply bool_decide_eq_true in H1, H2.
  exists sy, s1, s3, c1, c3. split_and!; try done. congruence.
Qed.
