(* ===== verification/ClusterRuns.v ===== *)
(** * Runs of a deployment that end badly

    Each is a list of events from the freshly constructed nodes, every message
    one that a node has sent before, and what the nodes are left with at its
    end. They bound what the general theorems can say: a process that stops
    itself, a cross-shard transfer committed without its debit, and the two
    COMMITs whose backing differs from what they carry. *)
From S2P Require Import Prelude Text Messages Node Ledger Elections TwoPhase Replication Requests.
From S2P Require Import NewView Control Machine Votes Cluster ClusterProofs.
#[local] Open Scope Z_scope.

(** ** A node that forwards to itself

    After [first_term], node 2 asks for promises with ballot (1,2), then node 3
    with (2,3); node 1 grants both, its answer to node 2 is late. Node 3 leads
    and proposes; its ACCEPT moves the candidate 2 into its own ballot (2,3)
    and leaves it waiting, so that the late promise makes node 2 a leader under
    (2,3) too. Node 1 asks with (3,1) and demotes node 3. The NEW-VIEW of node 2
    then tells node 3 that node 3 leads. *)
Definition late_promise : list (Z * Z * Event) :=
  let b2 := MkBallot 1 2 in
  let b3 := MkBallot 2 3 in
  let log := [entry_at (MkBallot 1 1) 1 (transfer 1 "1" "2" 4) 1] in
  let r3 := transfer 3 "3" "4" 1 in
  [(2, 6300, EElectionTimer); (2, 7500, EElectionTimer);
   (1, 7501, EPrepare (MkPrepareRequest b2 2) 9);
   (3, 7510, EElectionTimer); (3, 8700, EElectionTimer);
   (1, 8701, EPrepare (MkPrepareRequest b3 3) 10);
   (3, 8702, EPromise (MkPromiseResponse b3 1 true log));
   (3, 8710, EClientRequest r3 11);
   (2, 8711, EAccept (entry_at b3 2 r3 3));
   (2, 8712, EPromise (MkPromiseResponse b2 1 true log));
   (1, 9000, EElectionTimer); (1, 10200, EElectionTimer); (1, 11400, EElectionTimer);
   (3, 11401, EPrepare (MkPrepareRequest (MkBallot 3 1) 1) 12);
   (3, 11402, ENewView (MkNewViewRequest b3 (log ++ [entry_at b3 2 r3 3])) 13)].

(** C10: the abort of [ProcessClientRequest] can be reached. There is a run of
    three nodes, delivering only messages that were sent, after which node 3 is
    a backup that takes itself for the leader, and the next request of a client
    at node 3 ends its process in [std::abort]. *)
Theorem abort_reachable :
  ∃ sy s, sys_reachable (system_init (list_to_set [1; 2; 3]) {["A"%string]} three_shards 1 0) sy ∧
    sy_nodes sy !! 3 = Some s ∧ role_ s = BACKUP ∧ leader_id_ s = node_id_ s ∧
    ∃ t r call, node_event t (EClientRequest r call) s = Fault Aborted.
Proof.
  set (stopped := λ s, match node_event 11403 (EClientRequest (transfer 4 "1" "2" 1) 14) s with
                       | Fault f => Some f | Ok _ => None end).
  assert (run_system (first_term ++ late_promise) three_nodes ≫= (λ sy, s ← sy_nodes sy !! 3;
    Some (role_ s, leader_id_ s, node_id_ s, stopped s)) = Some (BACKUP, 3, 3, Some Aborted)) as H
    by (vm_compute; reflexivity).
  apply run_system_observed in H as (sy & Hr & H).
  destruct (sy_nodes sy !! 3) as [s|] eqn:E; [|done]. injection H as H1 H2 H3 H4.
  exists sy, s. split_and!; [done..|congruence|].
  exists 11403, (transfer 4 "1" "2" 1), 14. unfold stopped in H4.
  destruct (node_event _ _ s) as [[]|f]; [done|]. by injection H4 as ->.
Qed.

(** ** A transfer committed without its debit

    Two clusters of three nodes. The first transfer takes 4 from account 1, so
    that the coordinator, with 6 left, refuses to debit the 8 of the second one;
    the participant, which has 10 for account 1, credits account 3. The
    coordinator counts its entry as executed all the same and answers the
    participant's PREPARED with COMMIT. *)
Definition two_shards : gmap Z Z := list_to_map [(1, 1); (2, 1); (3, 2); (4, 2)].
Definition two_clusters : System :=
  system_init (list_to_set (seqZ 1 6)) {["A"%string]} two_shards 2 0.

Definition phase_entry (b : Ballot) (seq : Z) (r : ClientRequest) (st : string) : AcceptedEntry :=
  MkAcceptedEntry b seq r (node_id b) st r 0 "".
Definition phase_ack (b : Ballot) (i seq phase : Z) (st : string) : Ack := MkAck b i true seq phase st.

Definition overdraft : ClientRequest := transfer 2 "1" "3" 8.
Definition overdraft_reply : Output :=
  SendReplyToClient "A" (MkClientReply (MkBallot (-1) 1) 2 "1" true true 0).
Definition unpaid : list (Z * Z * Event) :=
  let b1 := MkBallot 1 1 in
  let b4 := MkBallot 1 4 in
  let r0 := transfer 1 "1" "2" 4 in
  let prepare := upd rq_from_node 1 (upd rq_two_pc_msg "PREPARE"%string overdraft) in
  [(1, 5000, EClientRequest r0 7); (1, 5080, EElectionTimer);
   (2, 5081, EPrepare (MkPrepareRequest b1 1) 8); (1, 5082, EPromise (MkPromiseResponse b1 2 true []));
   (2, 5083, EAccept (entry_at b1 1 r0 1)); (1, 5084, EAccepted (ack_at b1 2 1));
   (1, 5090, EClientRequest overdraft 9);
   (2, 5091, EAccept (phase_entry b1 2 overdraft "COORD"));
   (1, 5092, EAccepted (phase_ack b1 2 2 0 "COORD"));
   (4, 5100, EClientRequest prepare 10); (4, 5180, EElectionTimer);
   (5, 5181, EPrepare (MkPrepareRequest b4 4) 11); (4, 5182, EPromise (MkPromiseResponse b4 5 true []));
   (5, 5183, EAccept (phase_entry b4 1 prepare "P")); (4, 5184, EAccepted (phase_ack b4 5 1 0 "P"));
   (1, 5185, ETwoPC (MkTwoPCMsg "PREPARED" "1" "3" 8 prepare));
   (2, 5186, EAccept (phase_entry b1 2 prepare "C_COORD"));
   (1, 5187, EAccepted (phase_ack b1 2 2 2 "C_COORD"));
   (4, 5188, ETwoPC (MkTwoPCMsg "COMMIT" "1" "3" 8 prepare));
   (5, 5189, EAccept (phase_entry b4 1 prepare "C")); (4, 5190, EAccepted (phase_ack b4 5 1 2 "C"))].

(** C39: a transfer can be committed without its debit. There is a reachable
    state of two clusters of three nodes, each account starting with 10, in
    which the leaders 1 and 4 of both clusters have ended the second phase of a
    transfer of 8 from account 1 to account 3 with a commit (so says the outcome
    in both logs, no lock is held and the write-ahead logs are empty), the client has been told that it succeeded,
    node 4 has credited account 3, and node 1 has never debited account 1: the
    four accounts hold 48 together. *)
Theorem commit_without_debit :
  ∃ sy s1 s4,
    sys_reachable (system_init (list_to_set (seqZ 1 6)) {["A"%string]} two_shards 2 0) sy ∧
    sy_nodes sy !! 1 = Some s1 ∧ sy_nodes sy !! 4 = Some s4 ∧ role_ s1 = LEADER ∧ role_ s4 = LEADER ∧
    overdraft_reply ∈ outbox_ s1 ∧
    (ae_phase2_result <$> accept_log_ s1 !! 2) = Some "C_COORD"%string ∧
    (ae_phase2_result <$> accept_log_ s4 !! 1) = Some "C"%string ∧
    elements (balance_locks_ s1) = [] ∧ elements (balance_locks_ s4) = [] ∧
    size (wal_ s1) = 0%nat ∧ size (wal_ s4) = 0%nat ∧
    accounts_ s1 1 = 6 ∧ accounts_ s1 2 = 14 ∧ accounts_ s4 3 = 18 ∧ accounts_ s4 4 = 10.
Proof.
  assert (run_system unpaid two_clusters ≫= (λ sy, s1 ← sy_nodes sy !! 1; s4 ← sy_nodes sy !! 4;
    Some (bool_decide (overdraft_reply ∈ outbox_ s1), role_ s1, role_ s4,
          ae_phase2_result <$> accept_log_ s1 !! 2, ae_phase2_result <$> accept_log_ s4 !! 1,
          elements (balance_locks_ s1), elements (balance_locks_ s4), size (wal_ s1), size (wal_ s4),
          (accounts_ s1 1, accounts_ s1 2, accounts_ s4 3, accounts_ s4 4))) =
    Some (true, LEADER, LEADER, Some "C_COORD"%string, Some "C"%string, [], [], 0%nat, 0%nat, (6, 14, 18, 10))) as H
    by (vm_compute; reflexivity).
  apply run_system_observed in H as (sy & Hr & H).
  destruct (sy_nodes sy !! 1) as [s1|] eqn:E1; [|done].
  destruct (sy_nodes sy !! 4) as [s4|] eqn:E4; [|done].
  injection H as H1 H2 H3 H4 H5 H6 H7 H8 H9 H10 H11 H12 H13. apply bool_decide_eq_true in H1.
  by exists sy, s1, s4.
Qed.

(** ** The COMMIT and what stands behind it *)

(** A leader is reset while acknowledgements for its number 2 are under way. It
    is elected again by a promise of its first election, counts them, and finds
    no entry. *)
Definition after_reset : list (Z * Z * Event) :=
  let b := MkBallot 1 1 in
  let r2 := transfer 2 "3" "4" 1 in
  let reset := MkAliveUpdateRequest true false false false true false [] in
  [(1, 5090, EClientRequest r2 9);
   (2, 5091, EAccept (entry_at b 2 r2 1)); (3, 5091, EAccept (entry_at b 2 r2 1));
   (1, 6000, ESetAlive reset);
   (1, 6001, EClientRequest r2 10); (1, 6080, EElectionTimer);
   (1, 6081, EPromise (MkPromiseResponse b 2 true []));
   (1, 6082, EAccepted (ack_at b 2 2)); (1, 6083, EAccepted (ack_at b 3 2))].

(** A COMMIT of the default entry, with number 0, can be sent; no node has
    acknowledged that number. *)
Theorem commit_of_nothing :
  ∃ sy s, sys_reachable three_nodes sy ∧ sy_nodes sy !! 1 = Some s ∧
    SendCommitTo 2 (commit_of AcceptedEntry_default "") ∈ outbox_ s ∧
    Forall (λ p, ack_seqnum p.2 ≠ 0) (sy_acks sy).
Proof.
  assert (run_system (first_term ++ after_reset) three_nodes ≫= (λ sy, s ← sy_nodes sy !! 1;
    Some (bool_decide (SendCommitTo 2 (commit_of AcceptedEntry_default "") ∈ outbox_ s),
          bool_decide (Forall (λ p, ack_seqnum p.2 ≠ 0) (sy_acks sy)))) = Some (true, true)) as H
    by (vm_compute; reflexivity).
  apply run_system_observed in H as (sy & Hr & H).
  destruct (sy_nodes sy !! 1) as [s|] eqn:E; [|done]. injection H as H1 H2.
  apply bool_decide_eq_true in H1, H2. by exists sy, s.
Qed.

(** Node 2 has accepted an entry of the leader 1 and is elected by node 3, which
    has not; its NEW-VIEW is acknowledged with the new ballot. *)
Definition older_ballot : list (Z * Z * Event) :=
  let b := MkBallot 1 1 in
  let b2 := MkBallot 2 2 in
  let r := transfer 1 "1" "2" 4 in
  [(1, 5000, EClientRequest r 7); (1, 5080, EElectionTimer);
   (2, 5081, EPrepare (MkPrepareRequest b 1) 8); (1, 5082, EPromise (MkPromiseResponse b 2 true []));
   (2, 5083, ENewView (MkNewViewRequest b []) 9); (2, 5084, EAccept (entry_at b 1 r 1));
   (2, 6300, EElectionTimer); (2, 7500, EElectionTimer);
   (3, 7501, EPrepare (MkPrepareRequest b2 2) 9); (2, 7502, EPromise (MkPromiseResponse b2 3 true []));
   (3, 7503, ENewView (MkNewViewRequest b2 [entry_at b 1 r 1]) 10);
   (2, 7504, EAccepted (ack_at b2 3 1))].

(** A COMMIT can carry an older ballot than the one it was acknowledged in: node
    2 leads in ballot (2,2) and sends a COMMIT of ballot (1,1), and node 3, the
    only other node of its quorum, has acknowledged nothing but in (2,2). *)
Theorem commit_in_older_ballot :
  ∃ sy s2 s3, sys_reachable three_nodes sy ∧ sy_nodes sy !! 2 = Some s2 ∧ sy_nodes sy !! 3 = Some s3 ∧
    SendCommitTo 3 (commit_at (MkBallot 1 1) 1 (transfer 1 "1" "2" 4)) ∈ outbox_ s2 ∧
    current_ballot_ s2 = MkBallot 2 2 ∧ outbox_ s3 !! 1%nat = Some (SendAcceptAckTo 2 (ack_at (MkBallot 2 2) 3 1)) ∧
    length (outbox_ s3) = 2%nat ∧ Forall (λ p, p.1 = 2) (sy_acks sy).
Proof.
  set (c := commit_at (MkBallot 1 1) 1 (transfer 1 "1" "2" 4)).
  assert (run_system older_ballot three_nodes ≫= (λ sy,
    s2 ← sy_nodes sy !! 2; s3 ← sy_nodes sy !! 3;
    Some (bool_decide (SendCommitTo 3 c ∈ outbox_ s2), current_ballot_ s2, outbox_ s3 !! 1%nat,
          length (outbox_ s3), bool_decide (Forall (λ p, p.1 = 2) (sy_acks sy)))) =
    Some (true, MkBallot 2 2, Some (SendAcceptAckTo 2 (ack_at (MkBallot 2 2) 3 1)), 2%nat, true)) as H
    by (vm_compute; reflexivity).
  apply run_system_observed in H as (sy & Hr & H).
  destruct (sy_nodes sy !! 2) as [s2|] eqn:E2; [|done].
  destruct (sy_nodes sy !! 3) as [s3|] eqn:E3; [|done].
  injection H as H1 H2 H3 H4 H5. apply bool_decide_eq_true in H1, H5. by exists sy, s2, s3.
Qed.
