(* ===== verification/Service.v ===== *)
(** * A request is served

    The handlers of a whole cluster composed: a fresh intra-shard request at
    the leader, the Accept at a quorum of backups, their acknowledgements back
    at the leader, the execution there, the reply, and the Commit at the
    backups. Nothing is assumed of the other messages in the network. *)
From S2P Require Import Prelude Text Messages Node Ledger LedgerSpec LedgerProofs Elections.
From S2P Require Import TwoPhase Replication Requests NewView Control Machine Cluster.
From S2P Require Import ElectionProofs ReplicationProofs ExecutionProofs RequestProofs.
#[local] Open Scope Z_scope.

(** A leader in its term, with nothing outstanding after its last number. *)
Record can_serve (s : PaxosNode) (r : ClientRequest) (f t : Z) : Prop := CanServe {
  sv_alive : alive_ s = true;
  sv_elected : in_election_ s = false ∧ bootstrapping s && first_txn_received_ s = false;
  sv_fresh : fresh_transfer s r f t;
  sv_shard : shard_of s f = shard_of s t;
  sv_free : f ∉ balance_locks_ s ∧ t ∉ balance_locks_ s ∧ f ≠ t;
  sv_client : rq_client_id r ≠ "NO-OP"%string ∧ "A"%string ∈ client_stubs_ s;
  sv_executed : last_executed_seq_ s = last_seqnum_ s ∧ max_seqnum_in_new_view_ s ≤ last_seqnum_ s;
  sv_gap : entries_to_commit_ s !! (last_seqnum_ s + 1) = None ∧
    entries_to_commit_ s !! (last_seqnum_ s + 1 + 1) = None;
  sv_votes : count_in (accepted_count_ s) (last_seqnum_ s + 1) (counter (current_ballot_ s)) = ∅;
  sv_faults : 0 < f_ s }.

(** What the leader does not touch while it waits for acknowledgements. *)
Definition static (s : PaxosNode) :=
  (alive_ s, role_ s, current_ballot_ s, f_ s, client_stubs_ s, max_seqnum_in_new_view_ s,
   ledger_of s, shard_map_ s, cluster_peers s, last_executed_seq_ s, entries_to_commit_ s).

Section leader.
Context (s0 : PaxosNode) (r : ClientRequest) (c : SendClientRequestCallData) (f t : Z).
Let q := last_seqnum_ s0 + 1.
Let e := proposal s0 r IntraShard.

Record awaiting (got : gset Z) (s : PaxosNode) : Prop := Awaiting {
  aw_static : static s = static s0;
  aw_pending : pending_entries_ s !! q = Some e;
  aw_log : accept_log_ s !! q = Some e;
  aw_call : pending_client_calls_ s !! q = Some c;
  aw_locks : balance_locks_ s = {[t]} ∪ ({[f]} ∪ balance_locks_ s0);
  aw_count : count_in (accepted_count_ s) q (counter (current_ballot_ s0)) = got;
  aw_outbox : outbox_ s = outbox_ s0 ++ ((λ p, SendAcceptTo p e) <$> cluster_peers s0) }.

(** Neither the clock nor the message history is part of it. *)
Lemma awaiting_now got now s : awaiting got s → awaiting got (upd now_ now s).
Proof. intros []. split; by simp_upd. Qed.

Lemma propose_awaits l now :
  seen_ts s0 r = false →
  count_in (accepted_count_ s0) q (counter (current_ballot_ s0)) = ∅ →
  wp no_fault (propose r c IntraShard)
    (upd print_log_ l (upd now_ now (holding ({[t]} ∪ ({[f]} ∪ balance_locks_ s0)) s0)))
    (λ _ s', awaiting {[node_id_ s0]} s').
Proof.
  intros Hs Hc. unfold propose, log_line.
  wp_run_with ltac:(try change (seen_ts _ r) with (seen_ts s0 r); rewrite ?Hs). all: try discriminate.
  eapply wp_returns; [apply to_cluster_eq|].
  split; unfold sent, holding; simp_upd; try reflexivity; try apply lookup_insert_eq.
  rewrite count_in_insert. fold q. rewrite Hc. apply union_empty_r_L.
Qed.

Lemma request_awaits now :
  can_serve s0 r f t →
  ∃ s, HandleClientRequest r c (upd now_ now s0) = Ok (tt, s) ∧ awaiting {[node_id_ s0]} s.
Proof.
  intros [Ha [He Hb] Hf Hsh (Hnf & Hnt & Hne) _ _ _ Hv _].
  pose proof (ft_leader _ _ _ _ Hf) as Hr.
  apply wp_total. unfold HandleClientRequest, log_line.
  wp_run_with ltac:(rewrite ?Ha, ?He, ?Hr, ?andb_false_r; role_tests).
  { match goal with H : _ && _ = true |- _ =>
      change (bootstrapping s0 && first_txn_received_ s0 = true) in H; by rewrite Hb in H end. }
  match goal with |- wp _ _ ?x _ => set (s1 := x) end.
  assert (fresh_transfer s1 r f t) as Hf1 by (destruct Hf; by split).
  eapply wp_eq; [apply (Process_fresh r c s1 f t Hf1)|].
  wp_step.
  eapply wp_returns.
  { rewrite (lock_client_eq r f t s1 (ft_names _ _ _ _ Hf1)), decide_False by done.
    change (shard_of s1) with (shard_of s0). rewrite Hsh, Z.eqb_refl, decide_False; [done|].
    change (balance_locks_ s1) with (balance_locks_ s0). set_solver. }
  cbn beta. rewrite bool_decide_eq_false_2 by done.
  apply propose_awaits; [exact (ft_seen _ _ _ _ Hf1)|exact Hv].
Qed.

(** *** Acknowledgements *)
Definition ack_of (j : Z) : Ack := MkAck (ae_ballot e) j true (ae_seqnum e) 0 "".

Lemma awaiting_acceptors got j s :
  awaiting got s → acceptors s (ack_of j) = {[j]} ∪ got.
Proof. intros H. unfold acceptors. cbn [ack_of ack_phase Z.eqb]. by rewrite <- (aw_count _ _ H). Qed.

Lemma awaiting_counted got j s : awaiting got s → awaiting ({[j]} ∪ got) (counted s (ack_of j)).
Proof.
  intros [H1 H2 H3 H4 H5 H6 H7]. unfold counted, log_accepted. cbn [ack_of ack_phase ack_seqnum Z.eqb].
  change (ae_seqnum e) with q. rewrite H3. unfold logged. split; simp_upd; try done.
  change (counter (ack_ballot (ack_of j))) with (counter (current_ballot_ s0)).
  by rewrite count_in_insert, H6.
Qed.

Lemma awaiting_static s got :
  can_serve s0 r f t → awaiting got s →
  alive_ s = true ∧ role_ s = LEADER ∧ f_ s = f_ s0 ∧ entries_to_commit_ s = entries_to_commit_ s0 ∧
  last_executed_seq_ s = last_seqnum_ s0 ∧ cluster_peers s = cluster_peers s0.
Proof.
  intros Hc H. pose proof (aw_static _ _ H) as E. unfold static in E. injection E as.
  pose proof (ft_leader _ _ _ _ (sv_fresh _ _ _ _ Hc)). destruct Hc as [? _ _ _ _ _ [? _] _ _ _].
  split_and!; congruence.
Qed.

Lemma HandleAccept_awaiting got j s :
  can_serve s0 r f t → awaiting got s →
  HandleAccept (ack_of j) s =
    if Z.of_nat (size ({[j]} ∪ got)) =? f_ s0 + 1
    then Commit_entry (ack_of j) (counted s (ack_of j)) else Ok (tt, counted s (ack_of j)).
Proof.
  intros Hc H. destruct (awaiting_static s got Hc H) as (Ha & Hr & Hf & He & _).
  rewrite HandleAccept_eq by done. rewrite (awaiting_acceptors got j s H), Hf.
  unfold may_commit. rewrite He. cbn [ack_of ack_phase ack_seqnum Z.eqb andb orb].
  change (ae_seqnum e) with q. by rewrite bool_decide_eq_true_2 by apply Hc.
Qed.

(** *** The commit *)
Let entry : CommitEntry := commit_of e "".

Definition ready (s : PaxosNode) : PaxosNode :=
  sent ((λ p, SendCommitTo p entry) <$> cluster_peers s)
    (upd entries_to_commit_ (<[q := entry]> (entries_to_commit_ s)) s).

Lemma Commit_entry_awaiting got j s :
  can_serve s0 r f t → awaiting got s →
  Commit_entry (ack_of j) s = SequentiallyExecuteCommittedEntries (ready s).
Proof.
  intros Hc H. destruct (awaiting_static s got Hc H) as (_ & _ & _ & He & Hl & _).
  destruct (sv_gap _ _ _ _ Hc) as [Hq _]. fold q in Hq.
  rewrite Commit_entry_broadcasts. cbn [ack_of ack_seqnum ack_status ack_phase].
  change (ae_seqnum e) with q. unfold entry_of, looked_up, buffered.
  unfold ready. by rewrite (aw_pending _ _ H), He, Hq, Hl, Z.eqb_refl.
Qed.

(** The reply and the end of the call. *)
Definition outcome : bool * Ledger := ledger_apply q (command s0 r "" f t) (ledger_of s0).
Definition answers : list Output :=
  [SendReplyToClient "A" (MkClientReply (current_ballot_ s0) (rq_timestamp r) (rq_from_account r)
     outcome.1 true 0); RespondClient (cd_id c)].

Record request_served (s : PaxosNode) : Prop := RequestServed {
  se_ledger : ledger_of s = outcome.2;
  se_shards : shard_map_ s = shard_map_ s0;
  se_locks : balance_locks_ s = balance_locks_ s0;
  se_executed : last_executed_seq_ s = q;
  se_call : pending_client_calls_ s !! q = None;
  se_pending : pending_entries_ s !! q = None;
  se_outbox : outbox_ s = outbox_ s0 ++ ((λ p, SendAcceptTo p e) <$> cluster_peers s0)
    ++ ((λ p, SendCommitTo p entry) <$> cluster_peers s0) ++ answers }.

Lemma released :
  f ∉ balance_locks_ s0 → t ∉ balance_locks_ s0 →
  ({[t]} ∪ ({[f]} ∪ balance_locks_ s0)) ∖ {[f]} ∖ {[t]} = balance_locks_ s0.
Proof.
  intros Hf Ht. apply set_eq. intros x.
  rewrite !elem_of_difference, !elem_of_union, !elem_of_singleton.
  split; [tauto|]. intros Hx. split_and!; [tauto|by intros ->..].
Qed.

Lemma intra_locks s :
  can_serve s0 r f t → shard_map_ s = shard_map_ s0 →
  exec_locks (shard_of s t =? shard_of s f) (command s r "" f t) f t (ledger_of s)
    ({[t]} ∪ ({[f]} ∪ balance_locks_ s0)) = balance_locks_ s0.
Proof.
  intros [_ _ _ Hsh (Hf & Ht & _) [Hn _] _ _ _ _] Hm.
  assert (shard_of s t =? shard_of s f = true) as Hi.
  { unfold shard_of in *. rewrite Hm, Hsh. apply Z.eqb_refl. }
  unfold command, classify. rewrite Hi, (bool_decide_eq_false_2 _ Hn). cbn. by apply released.
Qed.
End leader.

(** The answer to a client whose call the leader holds. *)
Definition answered_call (q : Z) (c : SendClientRequestCallData) (b : bool) (s : PaxosNode) : PaxosNode :=
  let r := cd_request c in
  let reply := MkClientReply (current_ballot_ s) (rq_timestamp r) (rq_from_account r) b true 0 in
  sent [SendReplyToClient "A" reply; RespondClient (cd_id c)]
    (upd last_reply_per_client_ (<[rq_from_account r := reply]> (last_reply_per_client_ s))
      (upd pending_entries_ (delete q (pending_entries_ s))
        (upd pending_client_calls_ (delete q (pending_client_calls_ s)) s))).

Lemma answer_executed_held en b c s :
  alive_ s = true → max_seqnum_in_new_view_ s < ce_seqnum en →
  pending_client_calls_ s !! ce_seqnum en = Some c →
  rq_client_id (cd_request c) ≠ "NO-OP"%string → "A"%string ∈ client_stubs_ s →
  answer_executed en "" b s = Ok (tt, answered_call (ce_seqnum en) c b s).
Proof.
  intros Ha Hm Hc Hn HA. unfold answer_executed.
  assert (take_call (ce_seqnum en) s = Ok (Some c,
    upd pending_entries_ (delete (ce_seqnum en) (pending_entries_ s))
      (upd pending_client_calls_ (delete (ce_seqnum en) (pending_client_calls_ s)) s))) as E.
  { unfold take_call. run_goal. rewrite (proj2 (Z.ltb_lt _ _) Hm), Hc. run_goal. done. }
  rewrite (bind_Ok _ _ _ _ _ E), bool_decide_eq_true_2 by eauto.
  change (is_phase1_status "") with false. cbn [andb negb].
  apply wp_exact. unfold SendClientReply, cache_reply, send_client, respond, emit.
  wp_run_with ltac:(rewrite ?Ha, ?(bool_decide_eq_false_2 _ Hn), ?(proj2 (Z.ltb_lt _ _) Hm)).
  all: try done.
  unfold answered_call, sent. simp_upd. by rewrite <- app_assoc.
Qed.

Section leader2.
Context (s0 : PaxosNode) (r : ClientRequest) (c : SendClientRequestCallData) (f t : Z).
Let q := last_seqnum_ s0 + 1.
Let e := proposal s0 r IntraShard.

Lemma execute_next_ready got s :
  can_serve s0 r f t → cd_request c = r → awaiting s0 r c f t got s →
  wp no_fault execute_next (ready s0 r s)
    (λ b s', b = true ∧ request_served s0 r c f t s' ∧ entries_to_commit_ s' !! (q + 1) = None).
Proof.
  intros Hc Hr H. pose proof (aw_static _ _ _ _ _ _ _ H) as E. unfold static in E.
  injection E as Ea Er Eb _ Es Em Eac Ew Ee Emo Esh Ep El Een.
  pose proof (ft_leader _ _ _ _ (sv_fresh _ _ _ _ Hc)) as Hlead.
  destruct (sv_executed _ _ _ _ Hc) as [Hl Hm]. destruct (sv_client _ _ _ _ Hc) as [Hno HA].
  destruct (sv_gap _ _ _ _ Hc) as [_ Hg].
  assert (last_executed_seq_ (ready s0 r s) + 1 = q) as Hq.
  { unfold ready, sent. simp_upd. unfold q. congruence. }
  unfold execute_next. wp_step. wp_step. rewrite Hq.
  assert (entries_to_commit_ (ready s0 r s) !! q = Some (commit_of e "")) as Hen
    by (unfold ready, sent; simp_upd; apply lookup_insert_eq).
  rewrite Hen. wp_step. wp_step. wp_step.
  eapply wp_returns; [apply (ExecuteTransaction_eq _ _ _ _ f t), (ft_names _ _ _ _ (sv_fresh _ _ _ _ Hc))|].
  cbn beta. cbn [commit_of ce_seqnum ce_request ce_two_pc_status e proposal ae_seqnum ae_request]. fold q.
  set (s1 := executed_node _ _ _ _ _ _).
  assert (accept_log_ s1 = accept_log_ s) as Hlog by done.
  assert (command (upd last_executed_seq_ q (ready s0 r s)) r "" f t = command s0 r "" f t ∧
    ledger_of (upd last_executed_seq_ q (ready s0 r s)) = ledger_of s0) as [-> Hle].
  { unfold command, shard_of, ledger_of, ready, sent. simp_upd. by rewrite Esh, Eac, Ew, Ee, Emo. }
  rewrite Hle.
  assert (balance_locks_ s1 = balance_locks_ s0) as Hlk.
  { unfold s1, executed_node, with_ledger. simp_upd.
    change (balance_locks_ (ready s0 r s)) with (balance_locks_ s). rewrite (aw_locks _ _ _ _ _ _ _ H).
    apply intra_locks; done. }
  assert (ledger_of s1 = (outcome s0 r f t).2) as Hled.
  { unfold s1, executed_node. rewrite ledger_of_with_ledger, Hle.
    unfold outcome, command, shard_of. unfold ready, sent. simp_upd. by rewrite Esh. }
  pose proof (aw_log _ _ _ _ _ _ _ H) as Hlg. fold q in Hlg.
  wp_step. wp_step. rewrite Hlog, Hlg. wp_step. wp_step.
  wp_step. wp_step.
 change (role_ s1) with (role_ s). rewrite Er, Hlead. role_tests. wp_step.
  eapply wp_returns.
  { apply (answer_executed_held _ _ c); unfold s1.
    - change (alive_ s = true). rewrite Ea. apply Hc.
    - unfold executed_node, with_ledger, ready, sent. simp_upd. rewrite Em. cbn. lia.
    - exact (aw_call _ _ _ _ _ _ _ H).
    - by rewrite Hr.
    - change ("A"%string ∈ client_stubs_ s). by rewrite Es. }
  cbn beta. wp_step. unfold answered_call. change (ce_seqnum (commit_of e "")) with q.
  split_and!; [done| |].
  - split; unfold sent; simp_upd; try exact Hled; try exact Hlk; try apply lookup_delete_eq.
    + change (shard_map_ s = shard_map_ s0). by rewrite Esh.
    + unfold s1, executed_node, with_ledger. by simp_upd.
    + change (outbox_ s1) with ((outbox_ s) ++ ((λ p, SendCommitTo p (commit_of e "")) <$> cluster_peers s)).
      rewrite (aw_outbox _ _ _ _ _ _ _ H), Ep, Hr, <- !app_assoc. unfold answers.
      change (current_ballot_ s1) with (current_ballot_ s). by rewrite Eb.
  - change (<[q:=commit_of e ""]> (entries_to_commit_ s) !! (q + 1) = None). rewrite lookup_insert_ne by lia. by rewrite Een.
Qed.

Lemma execute_ready got s :
  can_serve s0 r f t → cd_request c = r → awaiting s0 r c f t got s →
  wp no_fault SequentiallyExecuteCommittedEntries (ready s0 r s) (λ _ s', request_served s0 r c f t s').
Proof.
  intros Hc Hr H. unfold SequentiallyExecuteCommittedEntries. wp_step. wp_step.
  assert (size (entries_to_commit_ (ready s0 r s)) = S (size (entries_to_commit_ s))) as ->.
  { unfold ready, sent. simp_upd. rewrite map_size_insert_None; [done|].
    pose proof (aw_static _ _ _ _ _ _ _ H) as E. unfold static in E. injection E as.
    pose proof (sv_gap _ _ _ _ Hc) as [Hq _]. congruence. }
  cbn [execute_loop]. do 2 wp_step.
  eapply wp_mono; [|by eapply execute_next_ready].
  cbn beta. intros b s' (-> & Hs & Hg). wp_step.
  eapply (wp_mono _ execute_next s' (λ b s2, b = false ∧ s2 = s')).
  - cbn beta. intros b s2 [-> ->]. by repeat wp_step.
  - unfold execute_next. do 2 wp_step. rewrite (se_executed _ _ _ _ _ _ Hs). fold q. rewrite Hg.
    by wp_step.
Qed.
End leader2.

(** ** The backups *)
Record can_follow (s : PaxosNode) (e : AcceptedEntry) (b : PaxosNode) : Prop := CanFollow {
  fo_alive : alive_ b = true;
  fo_backup : role_ b = BACKUP;
  fo_promise : ballot_ltb (ae_ballot e) (highest_promised_ballot_ b) = false;
  fo_replica : replicas_agree s b;
  fo_executed : last_executed_seq_ b + 1 = ae_seqnum e ∧ ae_seqnum e ∉ executed_entries_ b;
  fo_gap : entries_to_commit_ b !! ae_seqnum e = None ∧ entries_to_commit_ b !! (ae_seqnum e + 1) = None;
  fo_outcomes : no_outcomes b }.


Lemma accept_frame e b :
  let b' := timer_reset (stored e (follow (ae_ballot e) (logged (accept_line e) b))) in
  (alive_ b', role_ b', ledger_of b', shard_map_ b', last_executed_seq_ b', entries_to_commit_ b',
   node_id_ b') =
  (alive_ b, role_ b, ledger_of b, shard_map_ b, last_executed_seq_ b, entries_to_commit_ b, node_id_ b) ∧
  ∀ q x, accept_log_ b' !! q = Some x → x = e ∨ accept_log_ b !! q = Some x.
Proof.
  cbv zeta. unfold timer_reset, stored, logged_entry, follow, logged. simp_upd.
  destruct (ballot_gtb _ _); simp_upd; destruct (accept_log_ b !! _); simp_upd;
    destruct (timer_running_ b); simp_upd; (split; [reflexivity|]); intros q x; auto;
    (destruct (decide (q = ae_seqnum e)) as [->|];
     [rewrite lookup_insert_eq; intros [= <-]; by left|rewrite lookup_insert_ne by done; auto]).
Qed.

(** A backup after it has accepted: it keeps what makes it ready to commit. *)
Record can_commit (s : PaxosNode) (e : AcceptedEntry) (b : PaxosNode) : Prop := CanCommit {
  cm_alive : alive_ b = true;
  cm_backup : role_ b = BACKUP;
  cm_replica : replicas_agree s b;
  cm_executed : last_executed_seq_ b + 1 = ae_seqnum e ∧ ae_seqnum e ∉ executed_entries_ b;
  cm_gap : entries_to_commit_ b !! ae_seqnum e = None ∧ entries_to_commit_ b !! (ae_seqnum e + 1) = None;
  cm_outcomes : no_outcomes b }.

Lemma accept_followed s e b :
  can_follow s e b → ae_new_leader e = 0 → ae_two_pc_status e = ""%string →
  ae_phase2_result e = ""%string →
  ∃ b', HandlePropose e b = Ok (MkAck (ae_ballot e) (node_id_ b) true (ae_seqnum e) 0 "", b') ∧
    can_commit s e b'.
Proof.
  intros [Ha Hr Hp Hag [Hl Hx] [Hg1 Hg2] Ho] Hn Hst Hp2. eexists. split.
  - rewrite HandlePropose_at_backup by done. rewrite Hp. unfold FillAcceptAck. rewrite Hst. reflexivity.
  - destruct (accept_frame e b) as [E Hlog]. cbv zeta in E, Hlog.
    set (b' := timer_reset _) in *. clearbody b'. injection E as Ea Er Eac Ew Ex Em Es El Ee Ei.
    split; try congruence.
    + destruct Hag as [Hag1 Hag2]. unfold replicas_agree, ledger_of. rewrite Eac, Ew, Ex, Em. by rewrite Es.
    + rewrite El, Ex. done.
    + rewrite Ee. done.
    + intros q x Hx'. destruct (Hlog q x Hx') as [->|Hx2]; [by rewrite Hp2|by eapply Ho].
Qed.

Lemma commit_applied s e b r s1 res :
  can_commit s e b → ae_two_pc_status e = ""%string → ae_request e = r →
  ExecuteTransaction r (ae_seqnum e) "" s = Ok (res, s1) →
  ∃ b', HandleCommit (commit_of e "") b = Ok (tt, b') ∧ replicas_agree s1 b' ∧
    last_executed_seq_ b' = ae_seqnum e.
Proof.
  intros [Ha Hr Hag [Hl Hx] [Hg1 Hg2] Ho] Hst <- Hex.
  rewrite HandleCommit_backup by done.
  destruct (received_frame (commit_of e "") b) as (p & -> & Er & Ea & El & Eex & Eled & Esh & Een).
  change (ce_seqnum (commit_of e "")) with (ae_seqnum e) in *. rewrite Hg1 in Een.
  rewrite Hl, Z.eqb_refl, bool_decide_eq_false_2 by done. cbn [andb negb].
  set (p := received _ b) in *. clearbody p.
  assert (committed_run (entries_to_commit_ p) (last_executed_seq_ p) =
    [MkEntry (ae_request e) (ae_seqnum e) ""]) as Hrun.
  { rewrite Een, Eex. rewrite (committed_run_step _ _ (commit_of e "")).
    - rewrite committed_run_gap; [done|]. rewrite Hl, lookup_insert_ne by lia. done.
    - rewrite Hl. apply lookup_insert_eq. }
  pose proof (ahead_le (entries_to_commit_ p) (last_executed_seq_ p)).
  pose proof (execute_loop_backup (S (size (entries_to_commit_ p))) p s ltac:(congruence)
    ltac:(intros q x; rewrite El; apply Ho)
    ltac:(destruct Hag; split; congruence) ltac:(lia)) as H1.
  rewrite Hrun in H1. cbn [execute_all en_request en_seq en_status] in H1.
  unfold mbind, M_bind in H1. rewrite Hex in H1. cbn [mret M_ret run_outcome] in H1.
  unfold SequentiallyExecuteCommittedEntries. run_goal.
  destruct (execute_loop _ p) as [[x b']|]; [|done].
  destruct H1 as (_ & Hag' & Hp' & _). injection Hp' as _ Hl'. exists b'. split_and!; [done..|].
  rewrite Hl', Eex. cbn [length]. lia.
Qed.

(** ** In the network *)

(** A step of the system at one node leaves the others and the messages. *)
Lemma sys_event_at (sy : System) (i now : Z) (e : Event) (s s' : PaxosNode) (acks : list Ack) :
  sy_nodes sy !! i = Some s → deliverable_to sy i e → node_event now e s = Ok (acks, s') →
  ∃ sy', sys_step sy sy' ∧ sy_nodes sy' !! i = Some s' ∧
    (∀ k, k ≠ i → sy_nodes sy' !! k = sy_nodes sy !! k) ∧
    sy_acks sy' = ((λ a, (i, a)) <$> acks) ++ sy_acks sy.
Proof.
  intros Hs Hd He. eexists. split_and!; [by eapply sys_event|apply lookup_insert_eq| |done].
  intros k Hk. by apply lookup_insert_ne.
Qed.

(** One event delivered to each of several nodes, as long as node [i] stays as
    it is. *)
Lemma deliver_each (now : Z) (ev : Z → Event) (ack : Z → list Ack) (P Q : Z → PaxosNode → Prop)
    (l : list Z) (i : Z) (s : PaxosNode) (sy : System) :
  NoDup l → i ∉ l → sy_nodes sy !! i = Some s →
  (∀ sy' j, j ∈ l → sy_nodes sy' !! i = Some s → deliverable_to sy' j (ev j)) →
  (∀ j b, j ∈ l → P j b → ∃ b', node_event now (ev j) b = Ok (ack j, b') ∧ Q j b') →
  (∀ j, j ∈ l → ∃ b, sy_nodes sy !! j = Some b ∧ P j b) →
  ∃ sy', sys_reachable sy sy' ∧ (∀ k, k ∉ l → sy_nodes sy' !! k = sy_nodes sy !! k) ∧
    (∀ j, j ∈ l → ∃ b, sy_nodes sy' !! j = Some b ∧ Q j b) ∧
    (∀ j a, j ∈ l → a ∈ ack j → (j, a) ∈ sy_acks sy') ∧ sy_acks sy ⊆ sy_acks sy'.
Proof.
  revert sy. induction l as [|j l IH]; intros sy Hd Hi Hs Hw Hstep Hpre.
  { exists sy. split_and!; [apply rtc_refl|done|by intros j ?%elem_of_nil|by intros j a ?%elem_of_nil|done]. }
  apply list.NoDup_cons in Hd as [Hj Hd]. apply list.not_elem_of_cons in Hi as [Hij Hi].
  destruct (Hpre j (list_elem_of_here _ _)) as (b & Hb & HP).
  destruct (Hstep j b (list_elem_of_here _ _) HP) as (b' & He & HQ).
  destruct (sys_event_at sy j now (ev j) b b' (ack j) Hb (Hw sy j (list_elem_of_here _ _) Hs) He)
    as (sy1 & Hs1 & Hb1 & Hk1 & Ha1).
  destruct (IH sy1) as (sy' & Hr & Hk & Hq & Ha & Hsub); try done.
  - by rewrite Hk1.
  - intros sy2 k Hk2. apply Hw. by right.
  - intros k b2 Hk2. apply Hstep. by right.
  - intros k Hk2. rewrite Hk1 by (by intros ->). apply Hpre. by right.
  - exists sy'. split_and!.
    + by eapply rtc_l.
    + intros k [Hkj Hkl]%list.not_elem_of_cons. by rewrite Hk, Hk1.
    + intros k [->|Hk2]%list.elem_of_cons; [|by apply Hq]. rewrite Hk by done. eauto.
    + intros k a [->|Hk2]%list.elem_of_cons Hin; [|by apply Ha].
      apply Hsub. rewrite Ha1. apply elem_of_app. left. apply list_elem_of_fmap. eauto.
    + intros x Hx. apply Hsub. rewrite Ha1. apply elem_of_app. by right.
Qed.

Definition is_accept (e : Event) : bool := match e with EAccept _ => true | _ => false end.
Lemma node_event_at now e s s' :
  is_accept e = false → handle e (upd now_ now s) = Ok (tt, s') → node_event now e s = Ok ([], s').
Proof.
  intros He H. assert (run_at now e s = Ok (tt, s')) as R by exact H.
  destruct e; try done; unfold node_event; by rewrite (bind_Ok _ _ _ _ _ R).
Qed.

(** The acknowledgements of a quorum reach the leader. *)
Lemma acks_arrive (now : Z) (s0 : PaxosNode) (r : ClientRequest) (c : SendClientRequestCallData)
    (f t : Z) (l : list Z) (got : gset Z) (s : PaxosNode) (sy : System) (i : Z) :
  can_serve s0 r f t → cd_request c = r →
  sy_nodes sy !! i = Some s → awaiting s0 r c f t got s →
  NoDup l → (∀ j, j ∈ l → j ∉ got ∧ (j, ack_of s0 r j) ∈ sy_acks sy) →
  l ≠ [] → Z.of_nat (size got + length l) = f_ s0 + 1 →
  ∃ sy' s', sys_reachable sy sy' ∧ sy_nodes sy' !! i = Some s' ∧ request_served s0 r c f t s' ∧
    ∀ k, k ≠ i → sy_nodes sy' !! k = sy_nodes sy !! k.
Proof.
  intros Hc Hr. revert got s sy. induction l as [|j l IH]; intros got s sy Hs Haw Hd Hl Hne Hq; [done|].
  apply list.NoDup_cons in Hd as [Hj Hd]. destruct (Hl j (list_elem_of_here _ _)) as [Hjg Hja].
  set (s1 := upd now_ now s). assert (awaiting s0 r c f t got s1) as Haw1 by by apply awaiting_now.
  assert (size ({[j]} ∪ got) = S (size got)) as Hsz by (rewrite size_union, size_singleton; set_solver).
  assert (∀ s2, HandleAccept (ack_of s0 r j) s1 = Ok (tt, s2) →
    ∃ sy1, sys_step sy sy1 ∧ sy_nodes sy1 !! i = Some s2 ∧
      (∀ k, k ≠ i → sy_nodes sy1 !! k = sy_nodes sy !! k) ∧ sy_acks sy1 = sy_acks sy) as Hstep.
  { intros s2 H2. destruct (sys_event_at sy i now (EAccepted (ack_of s0 r j)) s s2 [] Hs) as (sy1 & H).
    - right. apply list_elem_of_fmap. by exists (j, ack_of s0 r j).
    - by apply node_event_at.
    - by exists sy1. }
  assert (HandleAccept (ack_of s0 r j) s1 = if Z.of_nat (S (size got)) =? f_ s0 + 1 then
      Commit_entry (ack_of s0 r j) (counted s1 (ack_of s0 r j)) else Ok (tt, counted s1 (ack_of s0 r j)))
    as Hacc by (rewrite (HandleAccept_awaiting s0 r c f t got j s1) by done; by rewrite Hsz).
  apply (awaiting_counted s0 r c f t got j) in Haw1.
  destruct l as [|k l].
  - cbn [length] in Hq. rewrite (proj2 (Z.eqb_eq _ _)) in Hacc by lia.
    rewrite (Commit_entry_awaiting s0 r c f t _ j _ Hc Haw1) in Hacc.
    destruct (wp_total _ _ _ (execute_ready s0 r c f t _ _ Hc Hr Haw1)) as (s2 & Hex & Hsv).
    rewrite Hex in Hacc. destruct (Hstep s2 Hacc) as (sy1 & ? & ? & ? & _).
    exists sy1, s2. split_and!; [by apply rtc_once|done..].
  - cbn [length] in Hq. rewrite (proj2 (Z.eqb_neq _ _)) in Hacc by lia.
    destruct (Hstep _ Hacc) as (sy1 & H1 & H2 & H3 & H4).
    destruct (IH _ _ sy1 H2 Haw1) as (sy' & s' & Hr' & Hn' & Hsv & Hk); try done.
    + intros m Hm. rewrite H4. destruct (Hl m (list_elem_of_further _ _ _ Hm)). split; [|done].
      rewrite elem_of_union, elem_of_singleton. intros [->|?]; done.
    + cbn [length]. rewrite Hsz. lia.
    + exists sy', s'. split_and!; [by eapply rtc_l|done..|]. intros m Hm. by rewrite Hk, H3.
Qed.

(** A quorum of the leader's cluster that can follow it. *)
Record quorum_for (sy : System) (s : PaxosNode) (e : AcceptedEntry) (l : list Z) : Prop := QuorumFor {
  qf_nodes : NoDup l ∧ (∀ j, j ∈ l → j ∈ cluster_peers s);
  qf_size : Z.of_nat (length l) = f_ s;
  qf_follow : ∀ j, j ∈ l → ∃ b, sy_nodes sy !! j = Some b ∧ node_id_ b = j ∧ can_follow s e b }.

Lemma can_follow_now s e b now : can_follow s e b → can_follow s e (upd now_ now b).
Proof. intros []. by split. Qed.
Lemma can_commit_now s e b now : can_commit s e b → can_commit s e (upd now_ now b).
Proof. intros []. by split. Qed.

Lemma on_wire_at sy i s o : sy_nodes sy !! i = Some s → o ∈ outbox_ s → on_wire sy o.
Proof.
  intros Hs Ho. apply list.Exists_exists. exists (i, s). split; [by apply elem_of_map_to_list|done].
Qed.

(** C2: a fresh request is served. In any state of the system in which a
    leader can serve an intra-shard request of a client (it is in its term, it
    has executed all it has numbered, the two accounts are free) and [f_] nodes
    of its cluster can follow it, the system has a run, at any time and
    whatever else is in the network, after which the leader has executed the
    transfer under its next number, has replied to the client and answered its
    call, and holds no lock any more; and each of these nodes has executed it
    too and has the leader's ledger. *)
Theorem request_is_served (sy : System) (now call f t : Z) (s : PaxosNode) (r : ClientRequest)
    (l : list Z) :
  sy_nodes sy !! node_id_ s = Some s → can_serve s r f t →
  quorum_for sy s (proposal s r IntraShard) l →
  ∃ sy' s', sys_reachable sy sy' ∧ sy_nodes sy' !! node_id_ s = Some s' ∧
    request_served s r (MkCall call r) f t s' ∧
    ∀ j, j ∈ l → ∃ b, sy_nodes sy' !! j = Some b ∧ replicas_agree s' b ∧
      last_executed_seq_ b = last_seqnum_ s + 1.
Proof.
  intros Hs Hc [[Hd Hp] Hl Hfo]. set (i := node_id_ s) in *. set (e := proposal s r IntraShard) in *.
  set (c := MkCall call r).
  assert (i ∉ l) as Hil by (intros Hi%Hp; apply list_elem_of_filter in Hi as [[? _] _]; done).
  (* the request *)
  destruct (request_awaits s r c f t now Hc) as (s1 & H1 & Haw).
  destruct (sys_event_at sy i now (EClientRequest r call) s s1 [] Hs I) as (sy1 & R1 & N1 & K1 & _);
    [by apply node_event_at|].
  (* the Accepts *)
  destruct (deliver_each now (λ _, EAccept e) (λ j, [ack_of s r j])
    (λ j b, node_id_ b = j ∧ can_follow s e b) (λ _ b, can_commit s e b) l i s1 sy1)
    as (sy2 & R2 & K2 & B2 & A2 & _); [done|done|done| | | |].
  { intros sy' j Hj Hs'. eapply on_wire_at; [done|]. rewrite (aw_outbox _ _ _ _ _ _ _ Haw).
    apply elem_of_app. right. apply list_elem_of_fmap. eauto. }
  { intros j b Hj [<- Hb]. destruct (accept_followed s e (upd now_ now b) (can_follow_now _ _ _ now Hb))
      as (b' & E & Hb'); [done..|]. exists b'. split; [|done].
    unfold node_event. rewrite (bind_Ok _ _ _ _ _ (eq_refl : (now_ ::= now) b = Ok (tt, _))).
    by rewrite (bind_Ok _ _ _ _ _ E). }
  { intros j Hj. destruct (Hfo j Hj) as (b & Hb & ?). exists b. rewrite K1 by (by intros ->). done. }
  (* the acknowledgements *)
  destruct (acks_arrive now s r c f t l {[i]} s1 sy2 i) as (sy3 & s3 & R3 & N3 & Hsv & K3); try done.
  { by rewrite K2. }
  { intros j Hj. split; [rewrite elem_of_singleton; by intros ->|]. apply A2; [done|left]. }
  { intros ->. cbn in Hl. pose proof (sv_faults _ _ _ _ Hc). lia. }
  { rewrite size_singleton. lia. }
  (* the Commits *)
  pose proof (ExecuteTransaction_eq r (ae_seqnum e) "" s f t (ft_names _ _ _ _ (sv_fresh _ _ _ _ Hc))) as Hx.
  destruct (deliver_each now (λ _, ECommit (commit_of e "")) (λ _, []) (λ _ b, can_commit s e b)
    (λ _ b, replicas_agree (executed_node r (ae_seqnum e) "" f t s) b ∧ last_executed_seq_ b = ae_seqnum e)
    l i s3 sy3) as (sy4 & R4 & K4 & B4 & _); [done|done|done| | | |].
  { intros sy' j Hj Hs'. eapply on_wire_at; [done|]. rewrite (se_outbox _ _ _ _ _ _ Hsv).
    rewrite !elem_of_app. right. right. left. apply list_elem_of_fmap. eauto. }
  { intros j b Hj Hb. destruct (commit_applied s e (upd now_ now b) r _ _ (can_commit_now _ _ _ now Hb)
      eq_refl eq_refl Hx) as (b' & E & ?). exists b'. split; [by apply node_event_at|done]. }
  { intros j Hj. destruct (B2 j Hj) as (b & Hb & ?). exists b. rewrite K3 by (by intros ->). done. }
  exists sy4, s3. split_and!; [|by rewrite K4|done|].
  - eapply rtc_l; [exact R1|]. by do 2 (etrans; [eassumption|]).
  - intros j Hj. destruct (B4 j Hj) as (b & Hb & Hag & ?). exists b. split_and!; [done| |done].
    etrans; [|exact Hag]. split; [|by rewrite (se_shards _ _ _ _ _ _ Hsv)].
    rewrite (se_ledger _ _ _ _ _ _ Hsv). unfold executed_node. by rewrite ledger_of_with_ledger.
Qed.

(** Three nodes, of which the first leads. *)
Definition served_leader : PaxosNode :=
  upd in_election_ false (upd role_ LEADER (upd leader_id_ 1 (upd current_ballot_ (MkBallot 1 1) (small_node 1)))).
Definition served_system : System :=
  MkSystem {[1 := served_leader; 2 := small_node 2; 3 := small_node 3]} [].
Definition served_request : ClientRequest := transfer 1 "1" "2" 4.

Lemma request_is_served_witness :
  ∃ sy' s', sys_reachable served_system sy' ∧ sy_nodes sy' !! 1 = Some s' ∧
    request_served served_leader served_request (MkCall 7 served_request) 1 2 s' ∧
    ∀ j, j ∈ [2] → ∃ b, sy_nodes sy' !! j = Some b ∧ replicas_agree s' b ∧
      last_executed_seq_ b = last_seqnum_ served_leader + 1.
Proof.
  apply (request_is_served served_system 100 7 1 2 served_leader served_request [2]).
  - reflexivity.
  - split; try (vm_compute; split_and!; congruence); try reflexivity.
    split; done.
  - split; [|reflexivity|].
    + split; [apply NoDup_singleton|]. intros j ->%list_elem_of_singleton.
      apply list_elem_of_In. vm_compute. tauto.
    + intros j ->%list_elem_of_singleton. exists (small_node 2). split_and!; [reflexivity..|].
      split; try (vm_compute; split_and!; congruence); try reflexivity; try (by split).
      intros q x Hx. exfalso. exact (lookup_empty_Some q x Hx).
Defined.
