(* ===== verification/Client.v ===== *)
(** * The client

    [PaxosClient] ([paxos_client.cpp], [paxos_client.h]): the requests in
    flight, the timer heap that first sends and then re-sends them, the leader
    it believes each cluster has, the replies, and the count of remaining
    transactions of [node_launch.cpp] it decrements.

    Representation. The pending requests are shared pointers: the model keeps
    the objects in [pc_objects] and lets the table and the heap name them. An
    object that neither names is destroyed at the end of the event; the local
    copies of a handler are gone by then, and before that nothing could tell.
    The [std::priority_queue] is a list from which the least expiry is taken;
    which of two equal expiries comes first is left open by the theorems. The
    condition variable is not modelled: one turn of [TimerLoop] runs at the
    time it is woken. *)
From S2P Require Import Prelude Text Messages.
#[local] Open Scope Z_scope.

Record PendingRequest := MkPending {
  pe_request : ClientRequest;
  pe_expiry : Z;
  pe_active : bool;
  pe_completed : bool }.
#[export] Instance rebuild_PendingRequest : Rebuild PendingRequest := λ p,
  MkPending (pe_request p) (pe_expiry p) (pe_active p) (pe_completed p).
#[export] Instance upd_pe_expiry : Upd pe_expiry := ltac:(derive_upd).
#[export] Instance upd_pe_active : Upd pe_active := ltac:(derive_upd).
#[export] Instance upd_pe_completed : Upd pe_completed := ltac:(derive_upd).

Record PaxosClient := MkClient {
  pc_client_id : string;
  pc_stubs : gset Z;
  pc_num_clusters : Z;
  leader_per_cluster_ : gmap Z Z;
  sharding_map : gmap Z Z;
  inflight_ : gmap Z Z;
  timer_heap : list Z;
  pc_objects : gmap Z PendingRequest;
  pc_next : Z;
  remaining_transactions : Z;
  pc_outbox : list (Z * ClientRequest) }.
#[export] Instance rebuild_PaxosClient : Rebuild PaxosClient := λ s,
  MkClient (pc_client_id s) (pc_stubs s) (pc_num_clusters s) (leader_per_cluster_ s)
    (sharding_map s) (inflight_ s) (timer_heap s) (pc_objects s) (pc_next s)
    (remaining_transactions s) (pc_outbox s).
#[export] Instance upd_leader_per_cluster_ : Upd leader_per_cluster_ := ltac:(derive_upd).
#[export] Instance upd_sharding_map : Upd sharding_map := ltac:(derive_upd).
#[export] Instance upd_inflight_ : Upd inflight_ := ltac:(derive_upd).
#[export] Instance upd_timer_heap : Upd timer_heap := ltac:(derive_upd).
#[export] Instance upd_pc_objects : Upd pc_objects := ltac:(derive_upd).
#[export] Instance upd_pc_next : Upd pc_next := ltac:(derive_upd).
#[export] Instance upd_remaining_transactions : Upd remaining_transactions := ltac:(derive_upd).
#[export] Instance upd_pc_outbox : Upd pc_outbox := ltac:(derive_upd).

Abbreviation ClientM := (M PaxosClient).

Definition retry_interval_ : Z := 100.

(** [leader_per_cluster_[c + 1] = (c * n / num_clusters_) + 1] for every cluster. *)
Definition initial_leaders (n num_clusters : Z) : gmap Z Z :=
  list_to_map ((λ c, (c + 1, Z.quot (c * n) num_clusters + 1)) <$> seqZ 0 num_clusters).

Definition PaxosClient_init (id : string) (stubs : gset Z) (num_clusters : Z)
    (ranges : gmap Z Z) (remaining : Z) : PaxosClient :=
  MkClient id stubs num_clusters (initial_leaders (Z.of_nat (size stubs)) num_clusters) ranges
    ∅ [] ∅ 0 remaining [].

Definition reset_leaders_per_cluster : ClientM unit :=
  s ← gets id;
  leader_per_cluster_ ::~
    (λ m, initial_leaders (Z.of_nat (size (pc_stubs s))) (pc_num_clusters s) ∪ m).

(** [new AsyncCall(stub, ...)] *)
Definition call_node (node : Z) (r : ClientRequest) : ClientM unit :=
  pc_outbox ::~ (λ l, l ++ [(node, r)]).

(** A live pending request. *)
Definition pending (p : Z) : ClientM PendingRequest :=
  m ← gets pc_objects;
  match m !! p with Some o => mret o | None => raise UseAfterFree end.
Definition set_pending (p : Z) (g : PendingRequest → PendingRequest) : ClientM unit :=
  o ← pending p; pc_objects ::~ <[p := g o]>.

(** ** Sending *)

(** [sharding_map[std::stoi(from_account)]], which inserts [0] for an unknown account. *)
Definition cluster_of_account (account : string) : ClientM Z :=
  i ← stoiM account;
  m ← gets sharding_map;
  let '(c, m) := subscript 0 m i in
  sharding_map ::= m ;; mret c.

Definition SendToLeader (request : ClientRequest) : ClientM unit :=
  c ← cluster_of_account (rq_from_account request);
  s ← gets id;
  let '(leader_id, m) := subscript 0 (leader_per_cluster_ s) c in
  leader_per_cluster_ ::= m ;;
  when (bool_decide (leader_id ∈ pc_stubs s)) (call_node leader_id request).

(** The nodes of a cluster, as the client numbers them. *)
Definition start_node (s : PaxosClient) (c : Z) : Z :=
  (c - 1) * Z.quot (Z.of_nat (size (pc_stubs s))) (pc_num_clusters s) + 1.
Definition end_node (s : PaxosClient) (c : Z) : Z :=
  c * Z.quot (Z.of_nat (size (pc_stubs s))) (pc_num_clusters s).

Definition BroadcastRequest (request : ClientRequest) : ClientM unit :=
  c ← cluster_of_account (rq_from_account request);
  s ← gets id;
  for_each (elements (pc_stubs s)) (λ n,
    when ((start_node s c <=? n) && (n <=? end_node s c)) (call_node n request)).

(** The callback is always null and the call object deletes itself. *)
Definition SendRequest (now : Z) (request : ClientRequest) : ClientM unit :=
  p ← gets pc_next;
  pc_next ::= p + 1 ;;
  pc_objects ::~ <[p := MkPending request now false false]> ;;
  inflight_ ::~ <[rq_timestamp request := p]> ;;
  timer_heap ::~ cons p.

(** ** The timer *)

(** [timer_heap.top()] with what [pop()] leaves. *)
Fixpoint pick_min (f : Z → Z) (l : list Z) : option (Z * list Z) :=
  match l with
  | [] => None
  | x :: l =>
      match pick_min f l with
      | None => Some (x, [])
      | Some (y, r) => if f x <=? f y then Some (x, l) else Some (y, x :: r)
      end
  end.

Definition expiry_of (s : PaxosClient) (p : Z) : Z :=
  match pc_objects s !! p with Some o => pe_expiry o | None => 0 end.

(** The inner loop: what is due now, with whether it is its first sending. *)
Fixpoint collect_due (fuel : nat) (now : Z) (due : list (Z * bool)) : ClientM (list (Z * bool)) :=
  match fuel with
  | O => mret due
  | S fuel =>
      s ← gets id;
      match pick_min (expiry_of s) (timer_heap s) with
      | None => mret due
      | Some (req, rest) =>
          o ← pending req;
          if pe_completed o then timer_heap ::= rest ;; collect_due fuel now due
          else if now <? pe_expiry o then mret due
          else
            timer_heap ::= rest ;;
            set_pending req (λ o, upd pe_active true (upd pe_expiry (now + retry_interval_) o)) ;;
            collect_due fuel now (due ++ [(req, negb (pe_active o))])
      end
  end.

Definition send_due (d : Z * bool) : ClientM unit :=
  o ← pending d.1;
  if pe_completed o then skip
  else if d.2 then SendToLeader (pe_request o)
  else BroadcastRequest (pe_request o).

(** One turn of [TimerLoop], awake at [now]. *)
Definition TimerLoop_turn (now : Z) : ClientM unit :=
  fuel ← gets (λ s, S (length (timer_heap s)));
  due ← collect_due fuel now [];
  timer_heap ::~ (λ h, due.*1 ++ h) ;;
  for_each due send_due.

(** ** Replies and the end of a set *)
Definition HandleLeaderReply (reply : ClientReply) : ClientM unit :=
  s ← gets id;
  let was_pending := inflight_ s !! cr_timestamp reply in
  match was_pending with
  | Some p =>
      set_pending p (upd pe_completed true) ;;
      inflight_ ::= delete (cr_timestamp reply) (inflight_ s)
  | None => skip
  end ;;
  let new_leader_id := node_id (cr_ballot reply) in
  leader_per_cluster_ ::~
    <[Z.quot (new_leader_id - 1) (pc_num_clusters s) + 1 := new_leader_id]> ;;
  when (bool_decide (is_Some was_pending)) (remaining_transactions ::~ (λ n, n - 1)).

Definition client_HandleMoveOn : ClientM unit :=
  s ← gets id;
  for_each (map_to_list (inflight_ s)) (λ p, set_pending p.2 (upd pe_completed true)) ;;
  inflight_ ::= ∅ ;;
  for_each (timer_heap s) (λ p, set_pending p (upd pe_completed true)) ;;
  timer_heap ::= [] ;;
  remaining_transactions ::~ (λ n, n - Z.of_nat (size (inflight_ s))).

(** ** The client as a machine *)
Inductive ClientEvent :=
  | CSend (r : ClientRequest)
  | CTimer
  | CReply (r : ClientReply)
  | CMoveOn
  | CResetLeaders.

Definition client_step (now : Z) (e : ClientEvent) : ClientM unit :=
  match e with
  | CSend r => SendRequest now r
  | CTimer => TimerLoop_turn now
  | CReply r => HandleLeaderReply r
  | CMoveOn => client_HandleMoveOn
  | CResetLeaders => reset_leaders_per_cluster
  end.

(** The last [shared_ptr] to a request is gone: [~PendingRequest]. *)
Definition named (s : PaxosClient) (p : Z) : Prop :=
  p ∈ timer_heap s ∨ p ∈ (map_to_list (inflight_ s)).*2.
Definition destroy_unnamed : ClientM unit :=
  s ← gets id; pc_objects ::~ filter (λ x, named s x.1).

Definition client_event (now : Z) (e : ClientEvent) : ClientM unit :=
  client_step now e ;; destroy_unnamed.
Definition client_run (l : list (Z * ClientEvent)) : ClientM unit :=
  for_each l (λ p, client_event p.1 p.2).
