(* ===== verification/ClientProofs.v ===== *)
(** * The client: the count of remaining transactions *)
From S2P Require Import Prelude Text Messages Node Client.
#[local] Open Scope Z_scope.

(** ** The remaining transactions *)
Definition books_of (s : PaxosClient) : gmap Z Z * Z := (inflight_ s, remaining_transactions s).

Ltac client_frame := unfold set_pending, pending, call_node, cluster_of_account, stoiM, subscript in *; solve_keeps.

Lemma SendToLeader_books r : respects (keeps books_of) (SendToLeader r).
Proof. unfold SendToLeader. client_frame. Qed.
Lemma BroadcastRequest_books r : respects (keeps books_of) (BroadcastRequest r).
Proof. unfold BroadcastRequest. client_frame. Qed.
#[export] Hint Resolve SendToLeader_books BroadcastRequest_books : respects.
Lemma collect_due_books fuel now due : respects (keeps books_of) (collect_due fuel now due).
Proof. revert due. induction fuel as [|fuel IH]; intros due; cbn [collect_due]; client_frame. Qed.
#[export] Hint Resolve collect_due_books : respects.
Lemma TimerLoop_turn_books now : respects (keeps books_of) (TimerLoop_turn now).
Proof. unfold TimerLoop_turn, send_due. client_frame. Qed.
Lemma set_pending_books p g : respects (keeps books_of) (set_pending p g).
Proof. client_frame. Qed.
#[export] Hint Resolve set_pending_books : respects.

(** What an event does to them. *)
Definition books_after (e : ClientEvent) (p : Z) (b : gmap Z Z * Z) : gmap Z Z * Z :=
  match e with
  | CSend r => (<[rq_timestamp r := p]> b.1, b.2)
  | CReply r =>
      match b.1 !! cr_timestamp r with
      | Some _ => (delete (cr_timestamp r) b.1, b.2 - 1)
      | None => b
      end
  | CMoveOn => (∅, b.2 - Z.of_nat (size b.1))
  | CTimer | CResetLeaders => b
  end.

Ltac over_books := apply (wp_keeps _ books_of);
  [apply faults_any | solve [client_frame] | intros ? ? ?; cbn beta].

Ltac books_step :=
  lazymatch goal with
  | |- wp _ (for_each _ _) _ _ => over_books
  | |- wp _ (set_pending _ _) _ _ => over_books
  | |- _ => wp_step; cbv zeta
  end.

Lemma client_step_books now e s :
  wp any_fault (client_step now e) s (λ _ s', ∃ p, books_of s' = books_after e p (books_of s)).
Proof.
  unfold books_of. destruct e; cbn [client_step books_after fst snd].
  - unfold SendRequest. wp_steps. by exists (pc_next s).
  - apply (wp_keeps _ books_of); [apply faults_any|apply TimerLoop_turn_books|]. by exists 0.
  - unfold HandleLeaderReply. repeat books_step; unfold books_of in *; simp_upd; exists 0.
    all: try match goal with H : bool_decide _ = true |- _ => apply bool_decide_eq_true in H as [? H] end.
    all: try match goal with H : bool_decide _ = false |- _ =>
      apply bool_decide_eq_false, eq_None_not_Some in H end.
    all: repeat match goal with H : (_, _) = (_, _) |- _ => injection H as ? ? end.
    all: repeat match goal with H : inflight_ ?x !! _ = _ |- _ => rewrite H end; try congruence.
  - unfold client_HandleMoveOn. repeat books_step. unfold books_of in *. simp_upd. exists 0.
    repeat match goal with H : (_, _) = (_, _) |- _ => injection H as ? ? end. congruence.
  - unfold reset_leaders_per_cluster. wp_steps. by exists 0.
Qed.

Lemma client_event_run_books now e s s' :
  client_event now e s = Ok (tt, s') → ∃ p, books_of s' = books_after e p (books_of s).
Proof.
  intros ([] & s1 & E & D)%bind_Ok_inv.
  assert (respects (keeps books_of) destroy_unnamed) as K by (unfold destroy_unnamed; client_frame).
  rewrite (K _ _ _ D). apply (wp_Ok _ _ _ _ _ _ E (client_step_books now e s)).
Qed.

(** What an event leaves of the sum, provided a sent timestamp is a new one. *)
Definition unsent (b : gmap Z Z * Z) : Z := b.2 - Z.of_nat (size b.1).

Lemma unsent_after e p b :
  (∀ r, e = CSend r → b.1 !! rq_timestamp r = None) →
  unsent (books_after e p b) = unsent b - match e with CSend _ => 1 | _ => 0 end.
Proof.
  destruct b as [m z]. unfold unsent. destruct e as [r| |r| |]; cbn; intros F; try lia.
  - rewrite map_size_insert_None by (by apply F). lia.
  - destruct (m !! cr_timestamp r) as [q|] eqn:E; cbn; [|lia].
    rewrite map_size_delete, E. cbn.
    assert (size m ≠ 0%nat) by (intros ?%map_size_empty_iff; set_solver). lia.
  - rewrite map_size_empty. lia.
Qed.

Lemma inflight_after e p b k :
  is_Some ((books_after e p b).1 !! k) → is_Some (b.1 !! k) ∨ ∃ r, e = CSend r ∧ rq_timestamp r = k.
Proof.
  destruct b as [m z]. destruct e as [r| |r| |]; cbn; auto.
  - rewrite lookup_insert_is_Some. intros [<-|[_ ?]]; eauto.
  - destruct (m !! cr_timestamp r); cbn; auto. rewrite lookup_delete_is_Some. tauto.
  - rewrite lookup_empty. intros [? [=]].
Qed.

Definition sends (l : list (Z * ClientEvent)) : list Z :=
  omap (λ p, match p.2 with CSend r => Some (rq_timestamp r) | _ => None end) l.

Lemma sends_cons now e l :
  sends ((now, e) :: l) = match e with CSend r => rq_timestamp r :: sends l | _ => sends l end.
Proof. by destruct e. Qed.

Lemma client_run_unsent l s s' :
  client_run l s = Ok (tt, s') → NoDup (sends l) →
  (∀ k, is_Some (inflight_ s !! k) → k ∉ sends l) →
  unsent (books_of s') = unsent (books_of s) - Z.of_nat (length (sends l)).
Proof.
  unfold client_run. revert s. induction l as [|[now e] l IH]; intros s; cbn [for_each].
  - intros [= ->] _ _. cbn. lia.
  - intros ([] & s1 & E & R)%bind_Ok_inv ND D. cbn [fst snd] in E.
    destruct (client_event_run_books _ _ _ _ E) as [p B].
    rewrite sends_cons in ND, D |- *.
    assert (NDl : NoDup (sends l)).
    { destruct e; auto. by apply list.NoDup_cons in ND as [_ ?]. }
    rewrite (IH s1 R NDl), B, unsent_after.
    + destruct e; cbn [length]; lia.
    + intros r ->. apply eq_None_not_Some. intros H. apply (D _ H). by left.
    + intros k Hk. assert (Hk' : is_Some ((books_after e p (books_of s)).1 !! k)) by (by rewrite <- B).
      apply inflight_after in Hk' as [H|(r & -> & <-)].
      * specialize (D _ H). destruct e; set_solver.
      * by apply list.NoDup_cons in ND as [? _].
Qed.

(** C25: the client counts its transactions right. If a run of the client has
    sent requests with pairwise different timestamps, the transactions it still
    counts as remaining are those not sent yet plus those in flight, whatever
    replies came, duplicated or unexpected ones included, and whatever was
    dropped by a move-on: the count reaches zero exactly when every request
    was sent and none is in flight. *)
Theorem remaining_counts_inflight (l : list (Z * ClientEvent)) (client : string)
    (stubs : gset Z) (k n : Z) (ranges : gmap Z Z) (s : PaxosClient) :
  client_run l (PaxosClient_init client stubs k ranges n) = Ok (tt, s) → NoDup (sends l) →
  remaining_transactions s = n - Z.of_nat (length (sends l)) + Z.of_nat (size (inflight_ s)).
Proof.
  intros R ND. pose proof (client_run_unsent _ _ _ R ND) as H.
  ospecialize (H _).
  { intros q. cbn. rewrite lookup_empty. by intros [? [=]]. }
  unfold unsent in H. cbn [books_of PaxosClient_init inflight_ remaining_transactions fst snd] in H.
  rewrite map_size_empty in H. lia.
Qed.

(** A run that sends two requests, is answered once, twice over. *)
Definition small_ranges : gmap Z Z := list_to_map ((λ k, (k, (k - 1) `quot` 3 + 1)) <$> seqZ 1 9).
Definition small_request (t : Z) : ClientRequest :=
  MkClientRequest "A" t "1" "2" 5 false "" 0.
Definition small_reply (t : Z) : ClientReply :=
  MkClientReply (MkBallot 1 2) t "A" true true 0.
Definition small_stubs : gset Z := list_to_set (seqZ 1 9).
Definition small_client : PaxosClient := PaxosClient_init "A" small_stubs 3 small_ranges 2.
Definition small_run : list (Z * ClientEvent) :=
  [(0, CSend (small_request 10)); (1, CTimer); (3, CSend (small_request 11)); (4, CReply (small_reply 10));
   (5, CReply (small_reply 10)); (120, CTimer)].
Definition small_end : PaxosClient :=
  match client_run small_run small_client with Ok (_, s) => s | Fault _ => small_client end.

Lemma small_run_ok :
  client_run small_run (PaxosClient_init "A" small_stubs 3 small_ranges 2) = Ok (tt, small_end) ∧
  NoDup (sends small_run).
Proof. split; [vm_compute; reflexivity|apply (bool_decide_unpack _); vm_compute; exact I]. Qed.

Lemma remaining_counts_inflight_witness :
  remaining_transactions small_end =
    2 - Z.of_nat (length (sends small_run)) + Z.of_nat (size (inflight_ small_end)) ∧
  remaining_transactions small_end = 1.
Proof.
  split; [|vm_compute; reflexivity]. destruct small_run_ok as [R N].
  exact (remaining_counts_inflight small_run "A" small_stubs 3 2 small_ranges small_end R N).
Defined.
