(* ===== verification/TimerProofs.v ===== *)
(** * The client: what a turn of its timer sends *)
From S2P Require Import Prelude Text Messages Node Client ClientProofs.
#[local] Open Scope Z_scope.

Lemma pick_min_spec f l :
  match pick_min f l with
  | None => l = []
  | Some (x, r) => l ≡ₚ x :: r ∧ ∀ y, y ∈ l → f x ≤ f y
  end.
Proof.
  induction l as [|x l IH]; cbn [pick_min]; [done|].
  destruct (pick_min f l) as [[y r]|].
  - destruct IH as [P L]. destruct (f x <=? f y) eqn:E.
    + split; [done|]. intros z [->|Hz]%list.elem_of_cons; [lia|]. specialize (L z Hz). lia.
    + split; [by rewrite P; constructor|]. intros z [->|Hz]%list.elem_of_cons; [lia|by apply L].
  - subst. split; [done|]. intros z ->%list_elem_of_singleton. lia.
Qed.

Definition due_at (s : PaxosClient) (now : Z) (p : Z) : bool :=
  match pc_objects s !! p with
  | Some o => negb (pe_completed o) && (pe_expiry o <=? now)
  | None => false
  end.
Definition completed_at (s : PaxosClient) (p : Z) : bool :=
  match pc_objects s !! p with Some o => pe_completed o | None => false end.
Definition active_at (s : PaxosClient) (p : Z) : bool :=
  match pc_objects s !! p with Some o => pe_active o | None => false end.
Definition activate (now : Z) (o : PendingRequest) : PendingRequest :=
  upd pe_active true (upd pe_expiry (now + retry_interval_) o).

(** Every entry of the heap is a live object and is there once. *)
Definition heap_ok (s : PaxosClient) : Prop :=
  NoDup (timer_heap s) ∧ ∀ p, p ∈ timer_heap s → is_Some (pc_objects s !! p).

(** What the timer's bookkeeping does not touch. *)
Definition routes_of (s : PaxosClient) :=
  (pc_stubs s, pc_num_clusters s, leader_per_cluster_ s, sharding_map s, inflight_ s,
   remaining_transactions s, pc_outbox s).

(** What one call of [collect_due] took from the heap of [s]: [l], in order. *)
Definition collected (now : Z) (s : PaxosClient) (l : list Z) (s' : PaxosClient) : Prop :=
  routes_of s' = routes_of s ∧ Forall (λ p, due_at s now p) l ∧
  Forall (λ p, ¬ due_at s now p) (timer_heap s') ∧
  (∃ gone, timer_heap s ≡ₚ l ++ timer_heap s' ++ gone ∧ Forall (λ p, completed_at s p) gone) ∧
  ∀ p, pc_objects s' !! p = (if decide (p ∈ l) then activate now else id) <$> pc_objects s !! p.


Lemma collect_stop now s : Forall (λ p, ¬ due_at s now p) (timer_heap s) → collected now s [] s.
Proof.
  intros N. split_and!; auto.
  - exists []. by rewrite app_nil_r.
  - intros p. by destruct (pc_objects s !! p).
Qed.

Lemma collect_drop now s p rest l s' :
  timer_heap s ≡ₚ p :: rest → completed_at s p →
  collected now (upd timer_heap rest s) l s' → collected now s l s'.
Proof.
  intros P C (R & D & N & (gone & G & Cs) & O). unfold collected, due_at, completed_at, routes_of in *.
  simp_upd. split_and!; auto. exists (p :: gone). split; [|by constructor].
  rewrite P, G. solve_Permutation.
Qed.

Lemma collect_take now s p rest l s' :
  timer_heap s ≡ₚ p :: rest → NoDup (timer_heap s) → due_at s now p →
  collected now (upd pc_objects (alter (activate now) p (pc_objects s)) (upd timer_heap rest s)) l s' →
  collected now s (p :: l) s'.
Proof.
  intros P ND Dp (R & D & N & (gone & G & Cs) & O). unfold collected, routes_of in *. simp_upd.
  assert (Np : p ∉ rest) by (rewrite P in ND; by apply list.NoDup_cons in ND as [? _]).
  assert (Same : ∀ q, q ∈ rest → alter (activate now) p (pc_objects s) !! q = pc_objects s !! q).
  { intros q Hq. apply lookup_alter_ne. congruence. }
  assert (In : ∀ q, q ∈ l ∨ q ∈ timer_heap s' ∨ q ∈ gone → q ∈ rest).
  { intros q. rewrite G, !list.elem_of_app. tauto. }
  rewrite !list.Forall_forall in *. unfold due_at, completed_at in *. simp_upd.
  split_and!; auto.
  - intros q [->|Hq]%list.elem_of_cons; [done|]. rewrite <- Same by auto. auto.
  - intros q Hq. rewrite <- Same by auto. auto.
  - exists gone. split; [by rewrite P, G|]. rewrite list.Forall_forall. intros q Hq.
    rewrite <- Same by auto. auto.
  - intros q. rewrite O. destruct (decide (q = p)) as [->|Hq].
    + rewrite decide_False, decide_True by set_solver. rewrite lookup_alter_eq. by destruct (_ !! p).
    + rewrite lookup_alter_ne by done. destruct (decide (q ∈ l)), (decide (q ∈ p :: l)); set_solver.
Qed.

Lemma insert_as_alter (g : PendingRequest → PendingRequest) (m : gmap Z PendingRequest) p o :
  m !! p = Some o → <[p := g o]> m = alter g p m.
Proof.
  intros E. apply map_eq. intros q. destruct (decide (q = p)) as [->|].
  - by rewrite lookup_insert_eq, lookup_alter_eq, E.
  - by rewrite lookup_insert_ne, lookup_alter_ne.
Qed.

Lemma collect_due_spec fuel now due s :
  heap_ok s → (length (timer_heap s) < fuel)%nat →
  wp no_fault (collect_due fuel now due) s (λ r s',
    ∃ l, r = due ++ ((λ p, (p, negb (active_at s p))) <$> l) ∧ collected now s l s').
Proof.
  revert due s. induction fuel as [|fuel IH]; intros due s [ND L] F; [lia|].
  cbn [collect_due]. wp_step. wp_step. pose proof (pick_min_spec (expiry_of s) (timer_heap s)) as P.
  destruct (pick_min (expiry_of s) (timer_heap s)) as [[p rest]|].
  2: { wp_step. exists []. split; [by rewrite app_nil_r|]. apply collect_stop. by rewrite P. }
  destruct P as [P Min]. destruct (L p) as [o Ho]; [rewrite P; set_solver|].
  unfold pending at 1. wp_step. wp_step. wp_step. rewrite Ho. wp_step.
  assert (Rest : ∀ q, q ∈ rest → is_Some (pc_objects s !! q)).
  { intros q Hq. apply L. rewrite P. set_solver. }
  assert (NDr : NoDup rest) by (rewrite P in ND; by apply list.NoDup_cons in ND as [_ ?]).
  assert (Len : (length rest < fuel)%nat) by (apply Permutation_length in P; cbn in P; lia).
  destruct (pe_completed o) eqn:Done; [|destruct (now <? pe_expiry o) eqn:Later].
  - wp_step. wp_step. eapply wp_mono; [|apply IH; [split|]; simp_upd; auto].
    intros r s' (l & -> & C). exists l. split; [done|].
    apply (collect_drop _ _ p rest); auto. unfold completed_at. by rewrite Ho, Done.
  - wp_step. exists []. split; [by rewrite app_nil_r|]. apply collect_stop, list.Forall_forall.
    intros q Hq. destruct (L q Hq) as [oq Hoq]. specialize (Min q Hq).
    unfold expiry_of in Min. rewrite Ho, Hoq in Min. unfold due_at. rewrite Hoq.
    destruct (Z.leb_spec (pe_expiry oq) now); [lia|]. rewrite andb_false_r. cbn. tauto.
  - wp_step. wp_step. unfold set_pending. wp_step. wp_step. unfold pending. wp_step. wp_step. simp_upd. rewrite Ho. wp_step.
    wp_step. simp_upd. fold (activate now o). rewrite (insert_as_alter (activate now)) by done.
    eapply wp_mono; [|apply IH; [split|]; simp_upd; auto].
    2: { intros q Hq. rewrite lookup_alter_is_Some. auto. }
    intros r s' (l & -> & C). exists (p :: l). split.
    + rewrite <- app_assoc. cbn. do 2 f_equal; [by unfold active_at; rewrite Ho|].
      apply list_fmap_ext. intros _ q Hq%list_elem_of_lookup_2.
      unfold active_at. simp_upd. rewrite lookup_alter_ne; [done|]. intros <-.
      destruct C as (_ & _ & _ & (gone & G & _) & _). simp_upd.
      rewrite P, G in ND. apply list.NoDup_cons in ND as [? _]. set_solver.
    + apply (collect_take _ _ p rest); auto. unfold due_at. rewrite Ho, Done. cbn. apply Is_true_true. lia.
Qed.

(** *** Where a request goes *)
Definition account_number (r : ClientRequest) : option Z :=
  match stoi (rq_from_account r) with inr i => Some i | inl _ => None end.
Definition request_cluster (s : PaxosClient) (r : ClientRequest) : Z :=
  default 0 (account_number r ≫= λ i, sharding_map s !! i).

(** The first sending goes to the leader the client believes in, every later
    one to all the nodes of the cluster. *)
Definition destinations (s : PaxosClient) (first : bool) (r : ClientRequest) : list Z :=
  let c := request_cluster s r in
  if first then filter (λ n, n ∈ pc_stubs s) [default 0 (leader_per_cluster_ s !! c)]
  else filter (λ n, start_node s c ≤ n ≤ end_node s c) (elements (pc_stubs s)).

Definition messages (s : PaxosClient) (d : Z * bool) : list (Z * ClientRequest) :=
  match pc_objects s !! d.1 with
  | Some o => if pe_completed o then [] else (λ n, (n, pe_request o)) <$> destinations s d.2 (pe_request o)
  | None => []
  end.

(** Sending does not change where the next request goes: an unknown account or
    cluster is entered into the tables with the value it was read as. *)
Definition same_routes (s s' : PaxosClient) : Prop :=
  pc_stubs s' = pc_stubs s ∧ pc_num_clusters s' = pc_num_clusters s ∧
  pc_objects s' = pc_objects s ∧ timer_heap s' = timer_heap s ∧
  (∀ c, default 0 (leader_per_cluster_ s' !! c) = default 0 (leader_per_cluster_ s !! c)) ∧
  (∀ c, default 0 (sharding_map s' !! c) = default 0 (sharding_map s !! c)).

Lemma same_routes_refl s : same_routes s s.
Proof. by split_and!. Qed.
Lemma same_routes_trans s1 s2 s3 : same_routes s1 s2 → same_routes s2 s3 → same_routes s1 s3.
Proof. unfold same_routes. intuition congruence. Qed.
#[local] Hint Resolve same_routes_refl same_routes_trans : core.

Lemma same_routes_cluster s s' r : same_routes s s' → request_cluster s' r = request_cluster s r.
Proof. intros (_ & _ & _ & _ & _ & E). unfold request_cluster. by destruct (account_number r); cbn. Qed.
Lemma same_routes_destinations s s' b r :
  same_routes s s' → destinations s' b r = destinations s b r.
Proof.
  intros R. unfold destinations. rewrite (same_routes_cluster _ _ _ R).
  unfold start_node, end_node. destruct R as (-> & -> & _ & _ & L & _). by rewrite L.
Qed.
Lemma same_routes_messages s s' d : same_routes s s' → messages s' d = messages s d.
Proof.
  intros R. unfold messages. pose proof R as (_ & _ & -> & _).
  destruct (pc_objects s !! d.1) as [o|]; [|done]. by rewrite (same_routes_destinations _ _ _ _ R).
Qed.

Lemma subscript_default (m : gmap Z Z) k c : default 0 ((subscript 0 m k).2 !! c) = default 0 (m !! c).
Proof.
  unfold subscript. destruct (m !! k) eqn:E; [done|]. cbn. destruct (decide (c = k)) as [->|].
  - by rewrite lookup_insert_eq, E.
  - by rewrite lookup_insert_ne.
Qed.

Definition sent (s : PaxosClient) (l : list (Z * ClientRequest)) (s' : PaxosClient) : Prop :=
  same_routes s s' ∧ pc_outbox s' = pc_outbox s ++ l.

Lemma cluster_of_account_spec s r :
  is_Some (account_number r) →
  wp no_fault (cluster_of_account (rq_from_account r)) s (λ c s', c = request_cluster s r ∧ sent s [] s').
Proof.
  unfold account_number, request_cluster, account_number, cluster_of_account, stoiM.
  destruct (stoi (rq_from_account r)) as [f|i]; [by intros [? [=]]|]. intros _. cbn [mbind option_bind].
  wp_step. wp_step. wp_step. wp_step. rewrite (surjective_pairing (subscript _ _ _)).
  wp_step. wp_step. wp_step. rewrite subscript_fst. split; [done|].
  split; [|simp_upd; by rewrite app_nil_r]. split_and!; simp_upd; auto. intros c. apply subscript_default.
Qed.

Lemma SendToLeader_spec s r :
  is_Some (account_number r) →
  wp no_fault (SendToLeader r) s (λ _, sent s ((λ n, (n, r)) <$> destinations s true r)).
Proof.
  intros A. unfold SendToLeader. wp_step. eapply wp_mono; [|by apply cluster_of_account_spec].
  cbn beta. intros c s1 (-> & R & O). wp_step. wp_step. rewrite (surjective_pairing (subscript _ _ _)).
  wp_step. wp_step. rewrite subscript_fst.
  pose proof R as (Hs & _ & _ & _ & Hl & _). rewrite Hl, Hs. unfold destinations. cbn [filter].
  assert (R' : same_routes s (upd leader_per_cluster_
    (subscript 0 (leader_per_cluster_ s1) (request_cluster s r)).2 s1)).
  { eapply same_routes_trans; [exact R|]. split_and!; simp_upd; auto. intros c. apply subscript_default. }
  rewrite app_nil_r in O.
  rewrite filter_cons, filter_nil. destruct (decide _) as [D|D].
  - rewrite bool_decide_true by done. cbn [when]. unfold call_node. wp_step.
    split; [|simp_upd; by rewrite O]. eapply same_routes_trans; [exact R'|]. split_and!; by simp_upd.
  - rewrite bool_decide_false by done. wp_step. split; [done|]. simp_upd. by rewrite O, app_nil_r.
Qed.

Lemma call_each_spec (P : Z → Prop) `{∀ n, Decision (P n)} (f : Z → bool) r l s :
  (∀ n, f n = bool_decide (P n)) →
  wp no_fault (for_each l (λ n, when (f n) (call_node n r))) s
    (λ _, sent s ((λ n, (n, r)) <$> filter P l)).
Proof.
  intros F. revert s. induction l as [|n l IH]; intros s; cbn [for_each].
  - wp_step. split; [done|]. by rewrite app_nil_r.
  - wp_step. rewrite F, filter_cons. destruct (decide (P n)) as [D|D].
    + rewrite bool_decide_true by done. cbn [when]. unfold call_node. wp_step.
      eapply wp_mono; [|apply IH]. intros _ s' [R O]. split.
      * eapply same_routes_trans; [|exact R]. split_and!; by simp_upd.
      * rewrite O. simp_upd. by rewrite <- app_assoc.
    + rewrite bool_decide_false by done. wp_step. apply IH.
Qed.

Lemma BroadcastRequest_spec s r :
  is_Some (account_number r) →
  wp no_fault (BroadcastRequest r) s (λ _, sent s ((λ n, (n, r)) <$> destinations s false r)).
Proof.
  intros A. unfold BroadcastRequest. wp_step. eapply wp_mono; [|by apply cluster_of_account_spec].
  cbn beta. intros c s1 (-> & R & O). wp_step. wp_step. rewrite app_nil_r in O.
  eapply wp_mono; [|apply (call_each_spec (λ n, start_node s (request_cluster s r) ≤ n ≤ end_node s (request_cluster s r)))].
  - cbn beta. intros _ s' [R' O']. split; [eauto|].
    rewrite O', O. unfold destinations. by destruct R as (-> & _).
  - intros n. unfold start_node, end_node. destruct R as (-> & -> & _).
    apply eq_true_iff_eq. rewrite andb_true_iff, !Z.leb_le, bool_decide_eq_true. done.
Qed.

Lemma send_due_spec s d o :
  pc_objects s !! d.1 = Some o → is_Some (account_number (pe_request o)) →
  wp no_fault (send_due d) s (λ _, sent s (messages s d)).
Proof.
  intros E A. unfold send_due, pending, messages. wp_step. wp_step. wp_step. rewrite E. wp_step.
  destruct (pe_completed o).
  - wp_step. split; [done|]. by rewrite app_nil_r.
  - destruct d.2; [by apply SendToLeader_spec|by apply BroadcastRequest_spec].
Qed.

Lemma send_all_spec l s :
  Forall (λ d, ∃ o, pc_objects s !! d.1 = Some o ∧ is_Some (account_number (pe_request o))) l →
  wp no_fault (for_each l send_due) s (λ _, sent s (l ≫= messages s)).
Proof.
  intros F. enough (∀ s1, same_routes s s1 →
    wp no_fault (for_each l send_due) s1 (λ _, sent s1 (l ≫= messages s))) by auto.
  induction l as [|d l IH]; intros s1 R; cbn [for_each].
  - wp_step. split; [done|]. by rewrite app_nil_r.
  - apply list.Forall_cons in F as [(o & E & A) F]. wp_step. pose proof R as (_ & _ & Ho & _).
    eapply wp_mono; [|eapply send_due_spec; [rewrite Ho; exact E|exact A]].
    cbn beta. intros _ s2 [R2 O2]. eapply wp_mono; [|apply IH; eauto].
    cbn beta. intros _ s3 [R3 O3]. split; [eauto|].
    rewrite O3, O2, (same_routes_messages _ _ _ R), <- app_assoc. done.
Qed.

Lemma filter_every (l : list Z) (P : Z → Prop) `{∀ x, Decision (P x)} : Forall P l → filter P l = l.
Proof. induction 1; [done|]. rewrite filter_cons_True by done. by f_equal. Qed.
Lemma filter_none_of (l : list Z) (P : Z → Prop) `{∀ x, Decision (P x)} :
  Forall (λ x, ¬ P x) l → filter P l = [].
Proof. induction 1; [done|]. by rewrite filter_cons_False. Qed.

Lemma collected_due now s l s' :
  collected now s l s' → l ≡ₚ filter (λ p, due_at s now p) (timer_heap s).
Proof.
  intros (_ & D & N & (gone & G & C) & _). rewrite G, !list.filter_app.
  rewrite (filter_every l _ D), (filter_none_of _ _ N), (filter_none_of gone); [by rewrite app_nil_r|].
  eapply Forall_impl; [|exact C]. cbn beta. intros p. unfold completed_at, due_at.
  destruct (pc_objects s !! p) as [o|]; [|cbn; tauto]. destruct (pe_completed o); cbn; tauto.
Qed.

Lemma collected_messages now s l s' d : collected now s l s' → messages s' d = messages s d.
Proof.
  intros (R & _ & _ & _ & O). unfold messages. rewrite O.
  destruct (pc_objects s !! d.1) as [o|]; [|done]. cbn. unfold destinations, request_cluster, start_node, end_node.
  unfold routes_of in R. injection R as -> -> -> -> _ _ _. by destruct (decide (d.1 ∈ l)).
Qed.

(** The heap after the rescheduling. *)
Lemma collected_heap now s l s' :
  collected now s l s' → heap_ok s →
  heap_ok (upd timer_heap (l ++ timer_heap s') s') ∧
  (∀ p, p ∈ timer_heap s → ¬ completed_at s p → p ∈ l ++ timer_heap s') ∧
  (∀ p, p ∈ l ++ timer_heap s' → ¬ due_at s' now p) ∧
  (∀ p, p ∈ l ++ timer_heap s' → p ∈ timer_heap s).
Proof.
  intros (_ & _ & N & (gone & G & C) & O) [ND L].
  rewrite list.Forall_forall in C. rewrite list.Forall_forall in N.
  assert (Sub : ∀ p, p ∈ l ++ timer_heap s' → p ∈ timer_heap s) by (intros p; rewrite G; set_solver).
  split_and!; [split|..]; simp_upd; auto.
  - rewrite G, app_assoc in ND. by apply list.NoDup_app in ND as [? _].
  - intros p Hp. rewrite O, fmap_is_Some. auto.
  - intros p. rewrite G, !list.elem_of_app. naive_solver.
  - intros p Hp. unfold due_at. rewrite O. destruct (decide (p ∈ l)) as [Hl|Hl].
    + destruct (pc_objects s !! p) as [o|]; [|cbn; tauto]. cbn [fmap option_fmap option_map].
      replace (pe_expiry (activate now o)) with (now + 100) by done.
      rewrite (proj2 (Z.leb_gt (now + 100) now)) by lia. rewrite andb_false_r. cbn. tauto.
    + rewrite option_fmap_id. apply N. set_solver.
Qed.

(** Every request in the heap comes from an account that is a number. *)
Definition accounts_ok (s : PaxosClient) : Prop :=
  ∀ p o, p ∈ timer_heap s → pc_objects s !! p = Some o → is_Some (account_number (pe_request o)).

(** What a turn awake at [now] sent and rescheduled: [l], in order. *)
Definition turned (now : Z) (s : PaxosClient) (l : list Z) (s' : PaxosClient) : Prop :=
  l ≡ₚ filter (λ p, due_at s now p) (timer_heap s) ∧
  pc_outbox s' = pc_outbox s ++ (l ≫= λ p, messages s (p, negb (active_at s p))) ∧
  (∀ p, p ∈ timer_heap s → ¬ completed_at s p → p ∈ timer_heap s') ∧
  (∀ p, pc_objects s' !! p = (if decide (p ∈ l) then activate now else id) <$> pc_objects s !! p) ∧
  (∀ p, p ∈ timer_heap s' → ¬ due_at s' now p) ∧ heap_ok s'.

Lemma TimerLoop_turn_spec now s :
  heap_ok s → accounts_ok s →
  wp no_fault (TimerLoop_turn now) s (λ _ s', ∃ l, turned now s l s' ∧
    ∀ p, p ∈ timer_heap s' → p ∈ timer_heap s).
Proof.
  intros [ND L] A.
  unfold TimerLoop_turn. wp_step. wp_step. wp_step.
  eapply wp_mono; [|apply collect_due_spec; [done|lia]].
  cbn beta. intros r s1 (l & -> & Col). cbn [app].
  wp_step. wp_step.
  destruct (collected_heap _ _ _ _ Col (conj ND L)) as (Hok & Keep & NotDue & Sub).
  eapply wp_mono; [|apply send_all_spec].
  - cbn beta. intros _ s2 [(_ & _ & Eo & Eh & _) Out]. exists l. unfold turned, due_at, heap_ok in *.
    rewrite Eo, Eh, Out. simp_upd. rewrite <- list_fmap_compose, list_fmap_id in *.
    split_and!; try done; [by eapply collected_due| |by apply Col|apply Hok..].
    rewrite list_fmap_bind. pose proof Col as (R & _). unfold routes_of in R. injection R as _ _ _ _ _ _ ->.
    f_equal. apply list_bind_ext; [|done]. intros p. by apply (collected_messages _ _ _ _ _ Col).
  - apply Forall_fmap, list.Forall_forall. intros p Hp. simp_upd. cbn [fst].
    assert (Hs : p ∈ timer_heap s) by (apply Sub; set_solver). destruct (L p Hs) as [o Ho].
    destruct Col as (_ & _ & _ & _ & O). specialize (O p).
    rewrite Ho, decide_True in O by done. eexists. split; [exact O|exact (A p o Hs Ho)].
Qed.

(** C28: what a turn of the timer does. In any state whose heap names live
    objects once each, with accounts that are numbers, a turn awake at [now]
    runs to its end. It sends, for the requests [l] that are due and for no
    other, one message to the believed leader if the request was never sent,
    and otherwise one to every node of its cluster; no request that is not
    completed leaves the heap; each of [l] is marked as sent and falls due
    again one retry interval later; and no request is left due. *)
Theorem timer_turn_sends_due (now : Z) (s : PaxosClient) :
  heap_ok s →
  accounts_ok s →
  ∃ l s', TimerLoop_turn now s = Ok (tt, s') ∧
    l ≡ₚ filter (λ p, due_at s now p) (timer_heap s) ∧
    pc_outbox s' = pc_outbox s ++ (l ≫= λ p, messages s (p, negb (active_at s p))) ∧
    (∀ p, p ∈ timer_heap s → ¬ completed_at s p → p ∈ timer_heap s') ∧
    (∀ p, pc_objects s' !! p = (if decide (p ∈ l) then activate now else id) <$> pc_objects s !! p) ∧
    (∀ p, p ∈ timer_heap s' → ¬ due_at s' now p) ∧ heap_ok s'.
Proof.
  intros H A. pose proof (TimerLoop_turn_spec now s H A) as W.
  apply wp_total in W as (s' & E & l & T & _). exists l, s'. exact (conj E T).
Qed.

Definition small_heap : PaxosClient :=
  match client_run (take 4 small_run) small_client with Ok (_, s) => s | Fault _ => small_client end.

Lemma small_heap_ok :
  heap_ok small_heap ∧ accounts_ok small_heap.
Proof.
  assert (E : timer_heap small_heap = [1; 0]) by (vm_compute; reflexivity).
  split; [split|].
  - rewrite E. apply (bool_decide_unpack _). vm_compute. exact I.
  - rewrite E. intros p Hp. assert (p = 1 ∨ p = 0) as [-> | ->] by set_solver; vm_compute; eauto.
  - intros p o. rewrite E. intros Hp. assert (p = 1 ∨ p = 0) as [-> | ->] by set_solver;
      intros H; vm_compute in H; injection H as <-; vm_compute; eauto.
Qed.

(** The client of four events has answered request 10 and never sent 11. *)
Lemma timer_turn_sends_due_witness :
  ∃ l s', TimerLoop_turn 120 small_heap = Ok (tt, s') ∧
    l ≡ₚ filter (λ p, due_at small_heap 120 p) (timer_heap small_heap) ∧
    (∀ p, p ∈ timer_heap s' → ¬ due_at s' 120 p).
Proof.
  destruct (timer_turn_sends_due 120 small_heap (proj1 small_heap_ok) (proj2 small_heap_ok))
    as (l & s' & R & P & _ & _ & _ & N & _).
  exists l, s'. exact (conj R (conj P N)).
Defined.

(** Two of the timer's sendings, computed: the request not sent yet goes to the
    leader, the one sent before to the whole cluster. *)
Example first_to_the_leader :
  (λ r, fst <$> pc_outbox r) <$> final (TimerLoop_turn 3 small_heap) = Some [1; 2].
Proof. vm_compute. reflexivity. Qed.
Example again_to_the_cluster :
  (λ r, fst <$> pc_outbox r) <$> final (client_run [(3, CTimer); (150, CTimer)] small_heap)
  = Some [1; 2; 3; 2; 1].
Proof. vm_compute. reflexivity. Qed.
