(* ===== verification/ClientSafety.v ===== *)
(** * The client as a whole, and its clusters

    An invariant from which the client never fails, that the requests in flight
    are those the timer retries, and how the client and the nodes number
    clusters. *)
From S2P Require Import Prelude Text Messages Node Client ClientProofs TimerProofs.
#[local] Open Scope Z_scope.

(** ** The client as a whole *)
Record client_ok (s : PaxosClient) : Prop := {
  ok_heap : heap_ok s;
  ok_fresh : ∀ p, is_Some (pc_objects s !! p) → p < pc_next s;
  ok_inflight : ∀ t p, inflight_ s !! t = Some p → is_Some (pc_objects s !! p);
  ok_accounts : ∀ p o, pc_objects s !! p = Some o → is_Some (account_number (pe_request o)) }.

Lemma set_pending_spec p g s o :
  pc_objects s !! p = Some o →
  wp no_fault (set_pending p g) s (λ _ s', s' = upd pc_objects (<[p := g o]> (pc_objects s)) s).
Proof.
  intros E. unfold set_pending, pending. wp_step. wp_step. wp_step. rewrite E. by repeat wp_step.
Qed.

(** Changing the flags of a live object. *)
Lemma client_ok_objects s m :
  client_ok s → (∀ p, is_Some (m !! p) ↔ is_Some (pc_objects s !! p)) →
  (∀ p o, m !! p = Some o → is_Some (account_number (pe_request o))) →
  client_ok (upd pc_objects m s).
Proof.
  intros [[ND L] F I A] D A'. split; simp_upd; [split; simp_upd; [done|]|..]; auto.
  - intros p Hp. apply D. auto.
  - intros p. rewrite D. auto.
  - intros t p Hp. apply D. eauto.
Qed.

Definition same_objects (s s' : PaxosClient) : Prop :=
  ∀ p, is_Some (pc_objects s' !! p) ↔ is_Some (pc_objects s !! p).

Lemma complete_one p s :
  client_ok s → is_Some (pc_objects s !! p) →
  wp no_fault (set_pending p (upd pe_completed true)) s (λ _ s', client_ok s' ∧ same_objects s s').
Proof.
  intros Ok [o E]. eapply wp_mono; [|by apply set_pending_spec]. cbn beta. intros _ s1 ->.
  assert (Same : ∀ q, is_Some (<[p:=upd pe_completed true o]> (pc_objects s) !! q) ↔
    is_Some (pc_objects s !! q)).
  { intros q. rewrite lookup_insert_is_Some'. split; [|tauto]. intros [->|]; [by rewrite E|done]. }
  split; [|intros q; simp_upd; apply Same].
  apply client_ok_objects; [done|exact Same|]. intros q o'. rewrite lookup_insert_Some.
  intros [[<- <-]|[_ H]]; simp_upd; by eapply ok_accounts.
Qed.

Lemma for_each_fmap {X Y} (f : X → Y) l (body : Y → ClientM unit) :
  for_each (f <$> l) body = for_each l (λ x, body (f x)).
Proof. induction l as [|x l IH]; [done|]. cbn. by rewrite IH. Qed.

Lemma complete_spec l s :
  client_ok s → Forall (λ p, is_Some (pc_objects s !! p)) l →
  wp no_fault (for_each l (λ p, set_pending p (upd pe_completed true))) s
    (λ _ s', client_ok s' ∧ same_objects s s').
Proof.
  revert s. induction l as [|p l IH]; intros s Ok F; cbn [for_each]; [by wp_step|].
  apply list.Forall_cons in F as [E F]. wp_step. eapply wp_mono; [|by apply complete_one].
  cbn beta. intros _ s1 [Ok1 S1]. eapply wp_mono; [|apply IH; [done|]].
  - intros _ s2 [Ok2 S2]. split; [done|]. intros q. by rewrite (S2 q).
  - eapply Forall_impl; [|exact F]. cbn beta. intros q. by rewrite (S1 q).
Qed.

Lemma SendRequest_ok now r s :
  client_ok s → is_Some (account_number r) → wp no_fault (SendRequest now r) s (λ _, client_ok).
Proof.
  intros [[ND L] F I A] Hr. unfold SendRequest. repeat (wp_step; cbv zeta; simp_upd).
  assert (Fresh : pc_objects s !! pc_next s = None).
  { apply eq_None_not_Some. intros H%F. lia. }
  assert (In : pc_next s ∉ timer_heap s) by (intros H%L; rewrite Fresh in H; by destruct H as [? [=]]).
  split; [split|..]; simp_upd.
  - by constructor.
  - intros p [->|Hp]%list.elem_of_cons; apply lookup_insert_is_Some'; auto.
  - intros p. rewrite lookup_insert_is_Some'. intros [<-|H%F]; lia.
  - intros t p. rewrite lookup_insert_Some. intros [[_ <-]|[_ H]]; apply lookup_insert_is_Some'; eauto.
  - intros p o. rewrite lookup_insert_Some. intros [[_ <-]|[_ H]]; eauto.
Qed.

Definition ids_of (s : PaxosClient) := (pc_next s, inflight_ s).

Lemma TimerLoop_turn_ids now : respects (keeps ids_of) (TimerLoop_turn now).
Proof.
  unfold TimerLoop_turn, send_due.
  assert (∀ fuel due, respects (keeps ids_of) (collect_due fuel now due)).
  { induction fuel as [|fuel IH]; intros due; cbn [collect_due]; client_frame. }
  unfold SendToLeader, BroadcastRequest. client_frame.
Qed.

Lemma TimerLoop_turn_ok now s : client_ok s → wp no_fault (TimerLoop_turn now) s (λ _, client_ok).
Proof.
  intros Ok. pose proof Ok as [H F I A].
  pose proof (TimerLoop_turn_spec now s H (λ p o _, A p o)) as W.
  apply wp_total in W as (s' & E & l & (_ & _ & _ & O & _ & H') & _). unfold wp. rewrite E.
  pose proof (TimerLoop_turn_ids now s tt s' E) as K. injection K as Kn Ki.
  assert (Same : ∀ p, is_Some (pc_objects s' !! p) ↔ is_Some (pc_objects s !! p)).
  { intros p. by rewrite O, fmap_is_Some. }
  split; [done|..].
  - intros p. rewrite Same, Kn. auto.
  - intros t p. rewrite Ki, Same. eauto.
  - intros p o. rewrite O, fmap_Some. intros (o' & Ho & ->).
    replace (pe_request _) with (pe_request o') by (by destruct (decide (p ∈ l))). eauto.
Qed.

Lemma HandleLeaderReply_ok r s : client_ok s → wp no_fault (HandleLeaderReply r) s (λ _, client_ok).
Proof.
  intros Ok. pose proof Ok as [H F I A]. unfold HandleLeaderReply. wp_step. wp_step. cbv zeta. wp_step.
  apply (wp_mono _ _ _ (λ _, client_ok)).
  { intros _ s1 [H1 F1 I1 A1]. repeat (wp_step; cbv zeta); split; simp_upd; auto. }
  destruct (inflight_ s !! cr_timestamp r) as [p|] eqn:E; [|by wp_step].
  wp_step. eapply wp_mono; [|apply complete_one; eauto].
  cbn beta. intros _ s1 [[H1 F1 I1 A1] S1]. wp_step. split; simp_upd; auto.
  intros t q [_ Hq]%lookup_delete_Some. apply S1. eauto.
Qed.

Lemma client_HandleMoveOn_ok s : client_ok s → wp no_fault client_HandleMoveOn s (λ _, client_ok).
Proof.
  intros Ok. unfold client_HandleMoveOn. wp_step. wp_step. wp_step.
  rewrite <- (for_each_fmap snd _ (λ p, set_pending p (upd pe_completed true))). eapply wp_mono; [|apply complete_spec; [done|]].
  2: { apply Forall_fmap, list.Forall_forall. intros [t p] Hp%elem_of_map_to_list. by eapply ok_inflight. }
  cbn beta. intros _ s1 [Ok1 S1]. wp_step. wp_step. wp_step.
  eapply wp_mono; [|apply complete_spec].
  - cbn beta. intros _ s2 [[H2 F2 I2 A2] S2]. wp_step. wp_step. wp_step.
    split; [split|..]; simp_upd; auto; [constructor|set_solver].
  - destruct Ok1. split; simp_upd; auto. intros t p. by rewrite lookup_empty.
  - apply list.Forall_forall. intros p Hp. simp_upd. apply S1. by apply Ok.
Qed.

Lemma client_move_on_clears c :
  wp any_fault client_HandleMoveOn c (λ _ c', inflight_ c' = ∅ ∧ timer_heap c' = [] ∧
    remaining_transactions c' = remaining_transactions c - Z.of_nat (size (inflight_ c))).
Proof.
  unfold client_HandleMoveOn. do 3 wp_step.
  apply (wp_keeps _ remaining_transactions);
    [apply faults_any|unfold set_pending, pending; solve_keeps|]. intros ? c1 E1. do 3 wp_step.
  apply (wp_keeps _ (λ c, (remaining_transactions c, inflight_ c)));
    [apply faults_any|unfold set_pending, pending; solve_keeps|]. intros ? c2 [= E2 E3]. do 3 wp_step.
  simp_upd. split_and!; [done|done|congruence].
Qed.

Definition event_ok (e : ClientEvent) : Prop :=
  match e with CSend r => is_Some (account_number r) | _ => True end.

Lemma client_step_ok now e s :
  client_ok s → event_ok e → wp no_fault (client_step now e) s (λ _, client_ok).
Proof.
  intros Ok E. destruct e; cbn [client_step event_ok] in *.
  - by apply SendRequest_ok.
  - by apply TimerLoop_turn_ok.
  - by apply HandleLeaderReply_ok.
  - by apply client_HandleMoveOn_ok.
  - unfold reset_leaders_per_cluster. destruct Ok. repeat (wp_step; cbv zeta). by split; simp_upd.
Qed.

(** *** The end of the objects that nothing names *)
Definition swept (s : PaxosClient) : PaxosClient :=
  upd pc_objects (filter (λ x, named s x.1) (pc_objects s)) s.
Lemma destroy_unnamed_eq s : destroy_unnamed s = Ok (tt, swept s).
Proof. done. Qed.

Lemma named_inflight s t p : inflight_ s !! t = Some p → named s p.
Proof.
  intros H. right. apply list_elem_of_fmap. exists (t, p). split; [done|]. by apply elem_of_map_to_list.
Qed.
Lemma swept_lookup s p o :
  pc_objects (swept s) !! p = Some o ↔ pc_objects s !! p = Some o ∧ named s p.
Proof. unfold swept. simp_upd. apply map_lookup_filter_Some. Qed.

Lemma swept_ok s : client_ok s → client_ok (swept s).
Proof.
  intros [[ND L] F I A].
  assert (∀ p, named s p → is_Some (pc_objects s !! p) → is_Some (pc_objects (swept s) !! p)) as Live.
  { intros p Hn [o Ho]. exists o. by apply swept_lookup. }
  split; [split|..].
  - exact ND.
  - intros p Hp. apply Live; [by left|by apply L].
  - intros p [o [Ho _]%swept_lookup]. apply F. eauto.
  - intros t p Hp. apply Live; [by eapply named_inflight|by eapply I].
  - intros p o [Ho _]%swept_lookup. eauto.
Qed.

Lemma client_event_ok now e s :
  client_ok s → event_ok e → wp no_fault (client_event now e) s (λ _, client_ok).
Proof.
  intros Ok E. unfold client_event. wp_step. eapply wp_mono; [|by apply client_step_ok].
  cbn beta. intros _ s1 Ok1. eapply wp_returns; [apply destroy_unnamed_eq|]. by apply swept_ok.
Qed.

Lemma PaxosClient_init_ok client stubs k ranges n : client_ok (PaxosClient_init client stubs k ranges n).
Proof.
  split; [split|..]; cbn; [constructor|set_solver|..].
  - intros p. rewrite lookup_empty. by intros [? [=]].
  - intros t p. by rewrite lookup_empty.
  - intros p o. by rewrite lookup_empty.
Qed.

(** *** What is in flight is what is retried *)
Record tidy (s : PaxosClient) : Prop := Tidy {
  td_inflight : ∀ t p, inflight_ s !! t = Some p → p ∈ timer_heap s ∧
    ∃ o, pc_objects s !! p = Some o ∧ pe_completed o = false ∧ rq_timestamp (pe_request o) = t;
  td_retried : ∀ p o, p ∈ timer_heap s → pc_objects s !! p = Some o → pe_completed o = false →
    inflight_ s !! rq_timestamp (pe_request o) = Some p }.

Lemma SendRequest_tidy now r s :
  client_ok s → tidy s → inflight_ s !! rq_timestamp r = None →
  wp no_fault (SendRequest now r) s (λ _, tidy).
Proof.
  intros [[_ L] F _ _] [T1 T2] Hn. unfold SendRequest. repeat (wp_step; cbv zeta; simp_upd).
  assert (∀ p, is_Some (pc_objects s !! p) → pc_next s ≠ p) as Fresh by (intros p Hp%F; lia).
  split; simp_upd.
  - intros t p. rewrite lookup_insert_Some. intros [[<- <-]|[Ht Hp]].
    + split; [by left|]. rewrite lookup_insert_eq. by eexists.
    + destruct (T1 t p Hp) as (Hh & o & Ho & Hrest). split; [by right|]. exists o.
      by rewrite lookup_insert_ne by eauto.
  - intros p o Hh. rewrite lookup_insert_Some. intros [[<- <-]|[Hne Ho]] Hc.
    + apply lookup_insert_eq.
    + apply list.elem_of_cons in Hh as [->|Hh]; [done|]. pose proof (T2 p o Hh Ho Hc) as Hi.
      rewrite lookup_insert_ne; [done|]. intros E. congruence.
Qed.

Lemma TimerLoop_turn_tidy now s : client_ok s → tidy s → wp no_fault (TimerLoop_turn now) s (λ _, tidy).
Proof.
  intros [H F I A] [T1 T2].
  pose proof (TimerLoop_turn_spec now s H (λ p o _, A p o)) as W.
  apply wp_total in W as (s' & E & l & (_ & _ & Keep & O & _ & [_ L']) & Sub). unfold wp. rewrite E.
  pose proof (TimerLoop_turn_ids now s tt s' E) as K. injection K as _ Ki.
  assert (∀ p o', pc_objects s' !! p = Some o' → ∃ o, pc_objects s !! p = Some o ∧
    pe_completed o' = pe_completed o ∧ pe_request o' = pe_request o) as Obj.
  { intros p o'. rewrite O, fmap_Some. intros (o & Ho & ->). exists o. by destruct (decide (p ∈ l)). }
  split; rewrite Ki.
  - intros t p Hp. destruct (T1 t p Hp) as (Hh & o & Ho & Hc & Ht). split.
    + apply Keep; [done|]. unfold completed_at. rewrite Ho, Hc. by intros [].
    + destruct (L' p) as [o' Ho']; [apply Keep; [done|]; unfold completed_at; rewrite Ho, Hc; by intros []|].
      exists o'. destruct (Obj p o' Ho') as (o2 & Ho2 & Ec & Er). split; [done|].
      rewrite Ec, Er. by replace o2 with o by congruence.
  - intros p o' Hh Ho' Hc. destruct (Obj p o' Ho') as (o & Ho & Ec & Er). rewrite Er.
    apply T2; [by apply Sub|done|congruence].
Qed.

Lemma HandleLeaderReply_tidy r s : client_ok s → tidy s → wp no_fault (HandleLeaderReply r) s (λ _, tidy).
Proof.
  intros [_ _ I _] [T1 T2]. unfold HandleLeaderReply. wp_step. wp_step. cbv zeta. wp_step.
  apply (wp_mono _ _ _ (λ _, tidy)).
  { intros _ s1 []. repeat (wp_step; cbv zeta); split; simp_upd; auto. }
  destruct (inflight_ s !! cr_timestamp r) as [p|] eqn:E; [|by wp_step].
  destruct (T1 _ _ E) as (Hp & o & Ho & _ & Ht).
  wp_step. eapply wp_mono; [|by apply set_pending_spec]. cbn beta. intros _ s1 ->. wp_step.
  split; simp_upd.
  - intros t q [Hne Hq]%lookup_delete_Some. destruct (T1 t q Hq) as (Hh & o' & Ho' & Hc & Ht').
    split; [done|]. exists o'. rewrite lookup_insert_ne; [done|]. intros ->. congruence.
  - intros q o' Hh. rewrite lookup_insert_Some. intros [[<- <-]|[Hne Ho']] Hc; [done|].
    pose proof (T2 q o' Hh Ho' Hc). rewrite lookup_delete_ne; [done|]. intros Et. congruence.
Qed.

Lemma client_HandleMoveOn_tidy s : wp any_fault client_HandleMoveOn s (λ _, tidy).
Proof.
  eapply wp_mono; [|apply client_move_on_clears]. cbn beta. intros _ s' (Ei & Eh & _). split; rewrite Ei.
  - intros t p. by rewrite lookup_empty.
  - intros p o. rewrite Eh. by intros ?%elem_of_nil.
Qed.

Lemma client_step_tidy now e s s' :
  client_ok s → tidy s → event_ok e → (∀ r, e = CSend r → inflight_ s !! rq_timestamp r = None) →
  client_step now e s = Ok (tt, s') → tidy s'.
Proof.
  intros Ok T He Hn E. destruct e; cbn [client_step event_ok] in *.
  - refine (wp_Ok _ _ _ _ _ _ E (SendRequest_tidy now r s Ok T (Hn r eq_refl))).
  - exact (wp_Ok _ _ _ _ _ _ E (TimerLoop_turn_tidy now s Ok T)).
  - exact (wp_Ok _ _ _ _ _ _ E (HandleLeaderReply_tidy r s Ok T)).
  - exact (wp_Ok _ _ _ _ _ _ E (client_HandleMoveOn_tidy s)).
  - injection E as <-. destruct T. by split; simp_upd.
Qed.

(** After an event the objects are those of the heap. *)
Definition nothing_else (s : PaxosClient) : Prop := ∀ p, is_Some (pc_objects s !! p) → p ∈ timer_heap s.

Lemma swept_tidy s : tidy s → tidy (swept s) ∧ nothing_else (swept s).
Proof.
  intros [T1 T2]. split; [split|].
  - intros t p Hp. destruct (T1 t p Hp) as (Hh & o & Ho & Hrest). split; [done|]. exists o.
    split; [|done]. apply swept_lookup. split; [done|by left].
  - intros p o Hh [Ho _]%swept_lookup. by apply T2.
  - intros p [o [_ [H|H]]%swept_lookup]; [done|].
    apply list_elem_of_fmap in H as ([t q] & -> & Hq%elem_of_map_to_list). by apply (T1 t q).
Qed.

Lemma client_run_tidy l s :
  client_ok s → tidy s → nothing_else s → Forall (λ e, event_ok e.2) l → NoDup (sends l) →
  (∀ k, is_Some (inflight_ s !! k) → k ∉ sends l) →
  wp no_fault (client_run l) s (λ _ s', client_ok s' ∧ tidy s' ∧ nothing_else s').
Proof.
  intros Ok T N F. revert s Ok T N. unfold client_run.
  induction F as [|[now e] l E _ IH]; intros s Ok T N ND D; cbn [for_each fst snd] in *; [by wp_step|].
  wp_step. destruct (wp_total _ _ _ (client_step_ok now e s Ok E)) as (s1 & E1 & Ok1).
  rewrite sends_cons in ND, D.
  assert (tidy s1) as T1.
  { refine (client_step_tidy now e s s1 Ok T E _ E1). intros r ->. apply eq_None_not_Some.
    intros H. apply (D _ H). by left. }
  destruct (swept_tidy s1 T1) as [T2 N2].
  eapply (wp_returns _ _ _ tt (swept s1)).
  { unfold client_event. rewrite (bind_Ok _ _ _ _ _ E1). apply destroy_unnamed_eq. }
  apply IH; [by apply swept_ok|done..| |].
  - destruct e; auto. by apply list.NoDup_cons in ND as [_ ?].
  - change (inflight_ (swept s1)) with (inflight_ s1). intros k Hk.
    destruct (wp_Ok _ _ _ _ _ _ E1 (client_step_books now e s)) as [p B].
    assert (is_Some ((books_after e p (books_of s)).1 !! k)) as Hk' by (by rewrite <-B).
    apply inflight_after in Hk' as [H|(r & -> & <-)].
    + specialize (D _ H). destruct e; set_solver.
    + by apply list.NoDup_cons in ND as [? _].
Qed.

Lemma PaxosClient_init_tidy client stubs k ranges n : tidy (PaxosClient_init client stubs k ranges n).
Proof. split; cbn; [intros t p; by rewrite lookup_empty|by intros p o ?%elem_of_nil]. Qed.

(** C26: what is in flight is what is retried. A client that is given requests
    with numeric accounts and pairwise different timestamps runs through every
    sequence of sendings, turns of the timer, replies, move-ons and resets of
    its leaders without a fault: the timer never follows a pointer to a request
    that is gone. After the run the request objects that exist are exactly
    those of the heap, each there once; those not completed are exactly those
    in flight, each under its own timestamp. So every request in flight will be
    sent again, no other will, and none is kept in memory once the timer has
    dropped it. *)
Theorem inflight_is_retried (l : list (Z * ClientEvent)) (client : string)
    (stubs : gset Z) (k n : Z) (ranges : gmap Z Z) :
  Forall (λ e, event_ok e.2) l → NoDup (sends l) →
  ∃ s, client_run l (PaxosClient_init client stubs k ranges n) = Ok (tt, s) ∧
    NoDup (timer_heap s) ∧ (∀ p, is_Some (pc_objects s !! p) ↔ p ∈ timer_heap s) ∧
    (∀ t p, inflight_ s !! t = Some p ↔
      ∃ o, pc_objects s !! p = Some o ∧ pe_completed o = false ∧ rq_timestamp (pe_request o) = t).
Proof.
  intros F ND.
  destruct (wp_total _ _ _ (client_run_tidy l (PaxosClient_init client stubs k ranges n)
    (PaxosClient_init_ok _ _ _ _ _) (PaxosClient_init_tidy _ _ _ _ _) ltac:(by intros p [? [=]]) F ND
    ltac:(by intros t [? [=]]))) as (s & R & [[Hd Hl] _ _ _] & [T1 T2] & N).
  exists s. split_and!; [done..|split; auto|]. intros t p. split.
  - intros Hp. by apply T1.
  - intros (o & Ho & Hc & <-). apply T2; [apply N; eauto|done..].
Qed.

(** Request 10 is answered while it waits for its retry; the timer drops it on
    its next turn, and its object goes; request 11 stays. *)
Lemma inflight_is_retried_witness :
  ∃ s, client_run small_run (PaxosClient_init "A" small_stubs 3 small_ranges 2) = Ok (tt, s) ∧
    pc_objects s !! 0 = None ∧ inflight_ s !! 11 = Some 1 ∧ 1 ∈ timer_heap s.
Proof.
  destruct (inflight_is_retried small_run "A" small_stubs 3 2 small_ranges) as (s & R & _ & H1 & H2).
  - repeat constructor; vm_compute; eauto.
  - apply small_run_ok.
  - assert (s = small_end) as ->.
    { pose proof (eq_trans (eq_sym R) (proj1 small_run_ok)) as E. clear -E. revert E.
      generalize small_end. by intros s' [= <-]. }
    exists small_end. assert (inflight_ small_end !! 11 = Some 1) as H by (vm_compute; reflexivity).
    split_and!; [exact R|vm_compute; reflexivity|exact H|].
    apply H1. apply H2 in H as (o & Ho & _). eauto.
Defined.

(** ** The clusters of the client and of the nodes

    [k] clusters of [m] nodes, numbered from 1. *)
Definition all_nodes (k m : Z) : gset Z := list_to_set (seqZ 1 (k * m)).
Definition divisor (k m : Z) : Z := divisor_of (Z.of_nat (size (all_nodes k m))) k.

Lemma size_all_nodes k m : 0 < k → 0 < m → Z.of_nat (size (all_nodes k m)) = k * m.
Proof.
  intros Hk Hm. unfold all_nodes. rewrite size_list_to_set, length_seqZ by apply NoDup_seqZ. nia.
Qed.
Lemma divisor_eq k m : 0 < k → 0 < m → divisor k m = m.
Proof.
  intros Hk Hm. unfold divisor, divisor_of. rewrite size_all_nodes, Z.mul_comm by done.
  apply Z.quot_mul. lia.
Qed.
Lemma elem_of_all_nodes k m n : n ∈ all_nodes k m ↔ 1 ≤ n ≤ k * m.
Proof. unfold all_nodes. rewrite elem_of_list_to_set, elem_of_seqZ. lia. Qed.

Lemma cluster_of_iff m c n : 0 < m → 1 ≤ n → cluster_of m n = c ↔ (c - 1) * m + 1 ≤ n ≤ c * m.
Proof.
  intros Hm Hn. unfold cluster_of. pose proof (Z.quot_rem' (n - 1) m) as E.
  pose proof (Z.rem_bound_pos (n - 1) m) as R. split; intros H; nia.
Qed.

Lemma initial_leaders_agree k m :
  0 < k → 0 < m → initial_leaders (k * m) k = cluster_leaders_init m k.
Proof.
  intros Hk Hm. unfold initial_leaders, cluster_leaders_init. f_equal.
  change 1 with (1 + 0) at 4. rewrite <- (fmap_add_seqZ 1 0), <- list_fmap_compose.
  apply list_fmap_ext. intros _ c _. cbn. f_equal; [lia|].
  replace (c * (k * m)) with (m * (1 + c - 1) * k) by lia. rewrite Z.quot_mul; lia.
Qed.

(** The client and the nodes agree on the clusters. With [k] clusters of
    [m] nodes the client starts with the leaders the nodes start with, and the
    broadcast of a request of a known cluster goes to the nodes that count
    themselves in that cluster, and to no other. *)
Theorem client_and_nodes_agree (k m n : Z) (client : string) (ranges : gmap Z Z) :
  0 < k → 0 < m →
  let s := PaxosClient_init client (all_nodes k m) k ranges n in
  leader_per_cluster_ s = cluster_leaders_init (divisor k m) k ∧
  ∀ r i, i ∈ destinations s false r ↔
    i ∈ all_nodes k m ∧ cluster_of (divisor k m) i = request_cluster s r.
Proof.
  intros Hk Hm s. rewrite divisor_eq by done. split.
  - unfold s. cbn [leader_per_cluster_ PaxosClient_init]. rewrite size_all_nodes by done.
    by apply initial_leaders_agree.
  - intros r i. unfold destinations, start_node, end_node.
    replace (pc_stubs s) with (all_nodes k m) by done. replace (pc_num_clusters s) with k by done.
    rewrite list_elem_of_filter, elem_of_elements, size_all_nodes by done.
    rewrite (Z.mul_comm k m), Z.quot_mul by lia.
    split; intros [H1 H2]; [split; [done|]|split; [|done]].
    + apply elem_of_all_nodes in H2. apply cluster_of_iff; lia.
    + apply elem_of_all_nodes in H1. apply cluster_of_iff; [lia|lia|done].
Qed.

Lemma client_and_nodes_agree_witness :
  leader_per_cluster_ (PaxosClient_init "A" (all_nodes 3 5) 3 small_ranges 0) =
    cluster_leaders_init (divisor 3 5) 3 ∧
  leader_per_cluster_ (PaxosClient_init "A" (all_nodes 3 5) 3 small_ranges 0) !! 3 = Some 11.
Proof.
  split; [|vm_compute; reflexivity].
  exact (proj1 (client_and_nodes_agree 3 5 0 "A" small_ranges eq_refl eq_refl)).
Defined.

(** Whom the client takes for the leader after a reply. [HandleLeaderReply]
    files the leader of a reply under the cluster [(id - 1) / num_clusters_ + 1];
    that is the leader's own cluster, for all nodes, only in a system that has
    as many clusters as nodes in a cluster. *)
Theorem reply_leader_right_iff (k m : Z) :
  0 < k → 0 < m →
  (∀ s s' r, pc_num_clusters s = k → 1 ≤ node_id (cr_ballot r) ≤ k * m →
     HandleLeaderReply r s = Ok (tt, s') →
     leader_per_cluster_ s' !! cluster_of m (node_id (cr_ballot r)) = Some (node_id (cr_ballot r)))
  ↔ k = m.
Proof.
  intros Hk Hm. split; [intros H|intros <-].
  - assert (Wrong : ∀ n, 1 ≤ n ≤ k * m → Z.quot (n - 1) k = Z.quot (n - 1) m).
    { intros n Hn. pose (r := MkClientReply (MkBallot 1 n) 0 "" true true 0).
      specialize (H (MkClient "" ∅ k ∅ ∅ ∅ [] ∅ 0 0 []) _ r eq_refl Hn eq_refl).
      simp_upd. apply lookup_insert_Some in H as [[H _]|[_ H]]; [|discriminate H].
      cbn in H. unfold cluster_of in H. lia. }
    destruct (Z.lt_trichotomy k m) as [L|[E|L]]; [|done|]; exfalso.
    + specialize (Wrong (k + 1)). replace (k + 1 - 1) with k in Wrong by lia.
      rewrite Z.quot_same, Z.quot_small in Wrong by lia.
      assert (k + 1 ≤ k * m) by nia. lia.
    + specialize (Wrong (m + 1)). replace (m + 1 - 1) with m in Wrong by lia.
      rewrite Z.quot_same, Z.quot_small in Wrong by lia.
      assert (m + 1 ≤ k * m) by nia. lia.
  - intros s s' r Hs Hn R. refine (wp_Ok any_fault _ _ _ _ (λ _ s', leader_per_cluster_ s' !! _ = _) R _).
    unfold HandleLeaderReply. do 2 wp_step. cbv zeta. wp_step.
    apply (wp_keeps _ (λ s, leader_per_cluster_ s)); [apply faults_any|solve [client_frame]|].
    intros _ s1 _. rewrite Hs. unfold cluster_of. repeat (wp_step; cbv zeta); simp_upd; apply lookup_insert_eq.
Qed.

(** In a system of three clusters of five nodes, a reply from node 5 of
    cluster 1 makes it the leader of cluster 2 for the client. *)
Lemma reply_leader_right_iff_witness :
  ¬ (∀ s s' r, pc_num_clusters s = 3 → 1 ≤ node_id (cr_ballot r) ≤ 3 * 5 →
     HandleLeaderReply r s = Ok (tt, s') →
     leader_per_cluster_ s' !! cluster_of 5 (node_id (cr_ballot r)) = Some (node_id (cr_ballot r))).
Proof.
  intros H. apply (reply_leader_right_iff 3 5 eq_refl eq_refl) in H. discriminate H.
Defined.
