(* ===== verification/ClientServer.v ===== *)
(** * The client's server

    [AsyncServerCall] ([call_data.cpp]) and the server of [PaxosClient]
    ([StartServer], [PollServerQueue]): twenty objects wait for the replies of
    leaders; each serves one reply, with a new object taking its place, and is
    deleted when its acknowledgement has been sent. The client of [Client] runs
    inside; its own events happen at any time between those of the queue. *)
From S2P Require Import Prelude Text Messages Node CallData Client ClientProofs TimerProofs ClientSafety.
#[local] Open Scope Z_scope.

Record AsyncServerCall := MkServerCall {
  sc_request : ClientReply;
  sc_status : CallStatus;
  sc_finished : bool }.
#[export] Instance rebuild_AsyncServerCall : Rebuild AsyncServerCall := λ o,
  MkServerCall (sc_request o) (sc_status o) (sc_finished o).
#[export] Instance upd_sc_request : Upd sc_request := ltac:(derive_upd).
#[export] Instance upd_sc_status : Upd sc_status := ltac:(derive_upd).
#[export] Instance upd_sc_finished : Upd sc_finished := ltac:(derive_upd).

Record ClientServer := MkClientServer {
  cs_client : PaxosClient;
  cs_calls : gmap Z AsyncServerCall;
  cs_next : Z;
  cs_listening : gset Z;
  cs_completing : gset Z;
  cs_acks : list (Z * bool) }.
#[export] Instance rebuild_ClientServer : Rebuild ClientServer := λ s,
  MkClientServer (cs_client s) (cs_calls s) (cs_next s) (cs_listening s) (cs_completing s) (cs_acks s).
#[export] Instance upd_cs_client : Upd cs_client := ltac:(derive_upd).
#[export] Instance upd_cs_calls : Upd cs_calls := ltac:(derive_upd).
#[export] Instance upd_cs_next : Upd cs_next := ltac:(derive_upd).
#[export] Instance upd_cs_listening : Upd cs_listening := ltac:(derive_upd).
#[export] Instance upd_cs_completing : Upd cs_completing := ltac:(derive_upd).
#[export] Instance upd_cs_acks : Upd cs_acks := ltac:(derive_upd).
Abbreviation ClientServerM := (M ClientServer).

Definition ClientReply_default : ClientReply := MkClientReply Ballot_default 0 "" false false 0.

(** ** One object *)
Definition server_call_at (c : Z) : ClientServerM AsyncServerCall :=
  m ← gets cs_calls;
  match m !! c with Some o => mret o | None => raise UseAfterFree end.
Definition set_server_call (c : Z) (g : AsyncServerCall → AsyncServerCall) : ClientServerM unit :=
  o ← server_call_at c; cs_calls ::~ <[c := g o]>.

(** [responder_.Finish(reply_, grpc::Status::OK, this)] *)
Definition finish_reply (c : Z) (accepted : bool) : ClientServerM unit :=
  o ← server_call_at c;
  if sc_finished o then raise DoubleFinish else
  set_server_call c (upd sc_finished true) ;;
  cs_completing ::~ (λ q, {[c]} ∪ q) ;;
  cs_acks ::~ (λ l, l ++ [(c, accepted)]).

(** The branch of [Proceed] for [CREATE], which the constructor runs. *)
Definition start_server_call (c : Z) : ClientServerM unit :=
  set_server_call c (upd sc_status PROCESS) ;; cs_listening ::~ (λ q, {[c]} ∪ q).

(** [new AsyncServerCall(service_, cq_, client_)] *)
Definition new_server_call : ClientServerM unit :=
  c ← gets cs_next;
  cs_next ::= c + 1 ;;
  cs_calls ::~ <[c := MkServerCall ClientReply_default CREATE false]> ;;
  start_server_call c.

Definition on_client (m : ClientM unit) : ClientServerM unit := λ s,
  match (m ;; destroy_unnamed) (cs_client s) with
  | Ok (_, c) => Ok (tt, upd cs_client c s)
  | Fault f => Fault f
  end.

Definition AsyncServerCall_Proceed (c : Z) : ClientServerM unit :=
  o ← server_call_at c;
  match sc_status o with
  | CREATE => start_server_call c
  | PROCESS =>
      new_server_call ;;
      on_client (HandleLeaderReply (sc_request o)) ;;
      set_server_call c (upd sc_status FINISH) ;;
      finish_reply c true
  | FINISH => cs_calls ::~ delete c
  end.

(** ** The server *)
Definition init_server_handlers : nat := 20.
Definition StartServer (client : PaxosClient) : res (unit * ClientServer) :=
  for_each (repeat tt init_server_handlers) (λ _, new_server_call)
    (MkClientServer client ∅ 0 ∅ ∅ []).

(** What [PollServerQueue] takes from the queue, and the client's own threads. *)
Inductive ClientServerEvent :=
  | ReplyArrives (c : Z) (r : ClientReply)
  | AckSent (c : Z) (ok : bool)
  | OwnEvent (now : Z) (e : ClientEvent).

Definition can_happen (s : ClientServer) (e : ClientServerEvent) : bool :=
  match e with
  | ReplyArrives c _ => bool_decide (c ∈ cs_listening s)
  | AckSent c _ => bool_decide (c ∈ cs_completing s)
  | OwnEvent _ _ => true
  end.

Definition client_server_event (e : ClientServerEvent) : ClientServerM unit :=
  match e with
  | ReplyArrives c r =>
      cs_listening ::~ (λ q, q ∖ {[c]}) ;;
      set_server_call c (upd sc_request r) ;;
      AsyncServerCall_Proceed c
  | AckSent c ok =>
      cs_completing ::~ (λ q, q ∖ {[c]}) ;; when ok (AsyncServerCall_Proceed c)
  | OwnEvent now e => on_client (client_step now e)
  end.

(** What an event is to the client inside. *)
Definition client_view (e : ClientServerEvent) : list (Z * ClientEvent) :=
  match e with
  | ReplyArrives _ r => [(0, CReply r)]
  | AckSent _ _ => []
  | OwnEvent now e => [(now, e)]
  end.

(** Runs of the server, with what the client inside has seen. *)
Inductive served (s0 : ClientServer) : list (Z * ClientEvent) → ClientServer → Prop :=
  | served_start : served s0 [] s0
  | served_event l s e s' :
      served s0 l s → can_happen s e = true → client_server_event e s = Ok (tt, s') →
      served s0 (l ++ client_view e) s'.

(** ** The objects of the server *)
Record server_ok (s : ClientServer) : Prop := ServerOk {
  sv_client : client_ok (cs_client s);
  sv_waiting : ∀ c, c ∈ cs_listening s → c < cs_next s ∧
    ∃ r, cs_calls s !! c = Some (MkServerCall r PROCESS false);
  sv_answered : ∀ c, c ∈ cs_completing s → c < cs_next s ∧
    ∃ r, cs_calls s !! c = Some (MkServerCall r FINISH true) }.

Lemma server_call_at_eq s c o : cs_calls s !! c = Some o → server_call_at c s = Ok (o, s).
Proof. intros H. unfold server_call_at. run_goal. by rewrite H. Qed.
Lemma set_server_call_eq s c o g :
  cs_calls s !! c = Some o →
  set_server_call c g s = Ok (tt, upd cs_calls (<[c := g o]> (cs_calls s)) s).
Proof.
  intros H. unfold set_server_call. by rewrite (bind_Ok _ _ _ _ _ (server_call_at_eq s c o H)).
Qed.

(** A new object waits, and whatever was true of the others stays. *)
Definition with_waiter (s : ClientServer) : ClientServer :=
  upd cs_listening ({[cs_next s]} ∪ cs_listening s)
    (upd cs_calls (<[cs_next s := MkServerCall ClientReply_default PROCESS false]> (cs_calls s))
      (upd cs_next (cs_next s + 1) s)).
Lemma new_server_call_eq s : new_server_call s = Ok (tt, with_waiter s).
Proof.
  apply wp_exact. unfold new_server_call, start_server_call. wp_steps.
  eapply wp_returns; [apply set_server_call_eq; simp_upd; apply lookup_insert_eq|]. wp_steps.
  unfold with_waiter. by rewrite insert_insert_eq.
Qed.
Lemma with_waiter_ok s : server_ok s → server_ok (with_waiter s).
Proof.
  intros [H1 H2 H3]. unfold with_waiter. split; simp_upd; [done|..].
  - intros c. rewrite elem_of_union, elem_of_singleton. intros [->|Hc].
    + rewrite lookup_insert_eq. split; [lia|eauto].
    + destruct (H2 c Hc). rewrite lookup_insert_ne by lia. split; [lia|done].
  - intros c Hc. destruct (H3 c Hc). rewrite lookup_insert_ne by lia. split; [lia|done].
Qed.
Lemma with_waiter_size s :
  server_ok s → size (cs_listening (with_waiter s)) = S (size (cs_listening s)).
Proof.
  intros [_ H2 _]. unfold with_waiter. simp_upd. rewrite size_union, size_singleton; [done|].
  intros c ->%elem_of_singleton Hc. destruct (H2 _ Hc). lia.
Qed.

Lemma on_client_wp m s (P : PaxosClient → Prop) (Q : unit → ClientServer → Prop) :
  wp no_fault (m ;; destroy_unnamed) (cs_client s) (λ _, P) →
  (∀ c, (m ;; destroy_unnamed) (cs_client s) = Ok (tt, c) → P c → Q tt (upd cs_client c s)) →
  wp no_fault (on_client m) s Q.
Proof.
  unfold wp, on_client. destruct ((m ;; destroy_unnamed) (cs_client s)) as [[[] c]|] eqn:E; [|done]. auto.
Qed.

(** *** A reply arrives *)
Definition handed_reply (c : Z) (r : ClientReply) (s : ClientServer) : ClientServer :=
  upd cs_calls (<[c := MkServerCall r PROCESS false]> (cs_calls s))
    (upd cs_listening (cs_listening s ∖ {[c]}) s).
Lemma handed_reply_ok c r s : server_ok s → c ∈ cs_listening s → server_ok (handed_reply c r s).
Proof.
  intros [H1 H2 H3] Hc. destruct (H2 c Hc) as (Hn & q & Ho).
  unfold handed_reply. split; simp_upd; [done|..].
  - intros d. rewrite elem_of_difference, elem_of_singleton. intros [Hd Hne].
    rewrite lookup_insert_ne by done. auto.
  - intros d Hd. destruct (H3 d Hd) as (? & q' & Hq'). rewrite lookup_insert_ne; [eauto|].
    intros ->. congruence.
Qed.
Lemma handed_reply_size c r s :
  c ∈ cs_listening s → S (size (cs_listening (handed_reply c r s))) = size (cs_listening s).
Proof.
  intros Hc. unfold handed_reply. simp_upd.
  pose proof (size_union ({[c]} : gset Z) (cs_listening s ∖ {[c]}) (disjoint_difference_r1 _ _ _ (reflexivity _))) as E.
  rewrite <- union_difference_singleton_L, size_singleton in E by done. lia.
Qed.

Definition answered_reply (c : Z) (r : ClientReply) (s : ClientServer) : ClientServer :=
  upd cs_acks (cs_acks s ++ [(c, true)]) (upd cs_completing ({[c]} ∪ cs_completing s)
    (upd cs_calls (<[c := MkServerCall r FINISH true]> (cs_calls s)) s)).
Lemma answered_reply_ok c r s :
  server_ok s → c < cs_next s → c ∉ cs_listening s → server_ok (answered_reply c r s).
Proof.
  intros [H1 H2 H3] Hn Hc. unfold answered_reply. split; simp_upd; [done|..].
  - intros d Hd. rewrite lookup_insert_ne by congruence. auto.
  - intros d. rewrite elem_of_union, elem_of_singleton. destruct (decide (d = c)) as [->|Hne].
    + rewrite lookup_insert_eq. eauto.
    + rewrite lookup_insert_ne by done. intros [?|Hd]; [done|auto].
Qed.

Lemma Proceed_process c r s :
  server_ok s → cs_calls s !! c = Some (MkServerCall r PROCESS false) → c < cs_next s →
  c ∉ cs_listening s →
  wp no_fault (AsyncServerCall_Proceed c) s (λ _ s',
    server_ok s' ∧ size (cs_listening s') = S (size (cs_listening s)) ∧
    client_event 0 (CReply r) (cs_client s) = Ok (tt, cs_client s')).
Proof.
  intros Hok Ho Hn Hc. unfold AsyncServerCall_Proceed. wp_step.
  eapply wp_returns; [by apply server_call_at_eq|]. cbn [sc_status sc_request]. wp_step.
  eapply wp_returns; [apply new_server_call_eq|]. cbn beta. wp_step.
  pose proof (with_waiter_ok s Hok) as [W1 W2 W3].
  assert (cs_calls (with_waiter s) !! c = Some (MkServerCall r PROCESS false)) as Hw.
  { unfold with_waiter. simp_upd. rewrite lookup_insert_ne by lia. done. }
  assert (c ∉ cs_listening (with_waiter s)) as Hcw.
  { unfold with_waiter. simp_upd. rewrite elem_of_union, elem_of_singleton. intros [?|?]; [lia|done]. }
  eapply on_client_wp; [by apply (client_event_ok 0 (CReply r))|]. intros cl Hcl Hclok. cbn beta.
  wp_step. eapply wp_returns; [apply set_server_call_eq; simp_upd; exact Hw|]. cbn beta.
  unfold finish_reply. wp_step.
  eapply wp_returns; [apply server_call_at_eq; simp_upd; apply lookup_insert_eq|]. cbn beta.
  simp_upd. cbn [sc_finished]. wp_step.
  eapply wp_returns; [apply set_server_call_eq; simp_upd; apply lookup_insert_eq|]. wp_steps.
  rewrite insert_insert_eq.
  assert (server_ok (upd cs_client cl (with_waiter s))) as Hok' by (split; simp_upd; done).
  split_and!; [|by apply with_waiter_size|exact Hcl].
  pose proof (answered_reply_ok c r _ Hok') as Ha. unfold answered_reply in Ha. simp_upd.
  apply Ha; [|exact Hcw]. unfold with_waiter. simp_upd. lia.
Qed.

Lemma ReplyArrives_ok c r s :
  server_ok s → c ∈ cs_listening s →
  wp no_fault (client_server_event (ReplyArrives c r)) s (λ _ s',
    server_ok s' ∧ size (cs_listening s') = size (cs_listening s) ∧
    client_event 0 (CReply r) (cs_client s) = Ok (tt, cs_client s')).
Proof.
  intros Hok Hc. destruct (sv_waiting _ Hok c Hc) as (Hn & q & Ho).
  rewrite <- (handed_reply_size c r s Hc). unfold client_server_event. wp_step. wp_step. wp_step.
  eapply wp_returns; [eapply set_server_call_eq; simp_upd; exact Ho|]. cbn beta.
  change (upd sc_request r _) with (MkServerCall r PROCESS false). simp_upd.
  change (upd cs_calls _ _) with (handed_reply c r s).
  apply (Proceed_process c r (handed_reply c r s)).
  - by apply handed_reply_ok.
  - unfold handed_reply. simp_upd. apply lookup_insert_eq.
  - unfold handed_reply. by simp_upd.
  - unfold handed_reply. simp_upd. rewrite elem_of_difference, elem_of_singleton. tauto.
Qed.

Lemma AckSent_ok c b s :
  server_ok s → c ∈ cs_completing s →
  wp no_fault (client_server_event (AckSent c b)) s (λ _ s',
    server_ok s' ∧ cs_listening s' = cs_listening s ∧ cs_client s' = cs_client s).
Proof.
  intros [H1 H2 H3] Hc. destruct (H3 c Hc) as (Hn & r & Ho). unfold client_server_event. do 2 wp_step.
  assert (server_ok (upd cs_completing (cs_completing s ∖ {[c]}) s)) as Hok.
  { split; simp_upd; [done..|]. intros d [Hd _]%elem_of_difference. auto. }
  apply wp_when; intros _; [|by split_and!]. unfold AsyncServerCall_Proceed. wp_step.
  eapply wp_returns; [apply server_call_at_eq; simp_upd; exact Ho|]. cbn [sc_status]. wp_step.
  split_and!; [|by simp_upd..]. split; simp_upd; [done|..].
  - intros d Hd. destruct (H2 d Hd) as (? & q & Hq). rewrite lookup_delete_ne; [eauto|].
    intros ->. congruence.
  - intros d. rewrite elem_of_difference, elem_of_singleton. intros [Hd Hne].
    rewrite lookup_delete_ne by done. auto.
Qed.

Lemma OwnEvent_ok now e s :
  server_ok s → event_ok e →
  wp no_fault (client_server_event (OwnEvent now e)) s (λ _ s',
    server_ok s' ∧ cs_listening s' = cs_listening s ∧
    client_event now e (cs_client s) = Ok (tt, cs_client s')).
Proof.
  intros [H1 H2 H3] He. cbn [client_server_event].
  eapply on_client_wp; [by apply client_event_ok|]. intros c Hc Hok. simp_upd. split_and!; [|done..].
  by split; simp_upd.
Qed.

Lemma StartServer_ok n client :
  client_ok client →
  wp no_fault (for_each (repeat tt n) (λ _, new_server_call)) (MkClientServer client ∅ 0 ∅ ∅ [])
    (λ _ s, server_ok s ∧ size (cs_listening s) = n ∧ cs_client s = client).
Proof.
  intros Hc.
  assert (∀ m s, server_ok s → size (cs_listening s) = m → cs_client s = client →
    wp no_fault (for_each (repeat tt n) (λ _, new_server_call)) s
      (λ _ s', server_ok s' ∧ size (cs_listening s') = (m + n)%nat ∧ cs_client s' = client)) as H.
  { induction n as [|n IH]; intros m s Hok Hm Hs; cbn [repeat for_each].
    - apply wp_ret. by rewrite Nat.add_0_r.
    - wp_step. eapply wp_returns; [apply new_server_call_eq|]. cbn beta.
      replace (m + S n)%nat with (S m + n)%nat by lia. apply IH; [by apply with_waiter_ok| |done].
      by rewrite with_waiter_size, Hm. }
  apply (H O); [|done..]. split; cbn; [done|..]; intros c Hin; by apply elem_of_empty in Hin.
Qed.

Definition view_ok (e : ClientServerEvent) : Prop :=
  match e with OwnEvent _ e => event_ok e | _ => True end.

Lemma server_event_ok e s :
  server_ok s → can_happen s e = true → view_ok e →
  wp no_fault (client_server_event e) s (λ _ s',
    server_ok s' ∧ size (cs_listening s') = size (cs_listening s) ∧
    client_run (client_view e) (cs_client s) = Ok (tt, cs_client s')).
Proof.
  intros Hok He Hv. destruct e as [c r|c b|now e]; cbn [can_happen view_ok client_view] in *.
  - apply bool_decide_eq_true in He. eapply wp_mono; [|by apply ReplyArrives_ok].
    cbn beta. intros _ s' (? & ? & H). split_and!; [done..|]. unfold client_run. cbn [for_each].
    by rewrite (bind_Ok _ _ _ _ _ H).
  - apply bool_decide_eq_true in He. eapply wp_mono; [|by apply AckSent_ok].
    cbn beta. intros _ s' (? & -> & ->). done.
  - eapply wp_mono; [|by apply OwnEvent_ok]. cbn beta. intros _ s' (? & -> & H).
    split_and!; [done..|]. unfold client_run. cbn [for_each]. by rewrite (bind_Ok _ _ _ _ _ H).
Qed.

Lemma client_run_app l1 l2 s s1 :
  client_run l1 s = Ok (tt, s1) → client_run (l1 ++ l2) s = client_run l2 s1.
Proof. intros H. unfold client_run. rewrite for_each_app. by rewrite (bind_Ok _ _ _ _ _ H). Qed.

Lemma served_ok s0 l s :
  served s0 l s → server_ok s0 → Forall (λ e, event_ok e.2) l →
  server_ok s ∧ size (cs_listening s) = size (cs_listening s0) ∧
  client_run l (cs_client s0) = Ok (tt, cs_client s).
Proof.
  intros H Hok. induction H as [|l s e s' _ IH He Hs]; intros Hl; [done|].
  apply Forall_app in Hl as [Hl Hv]. destruct (IH Hl) as (Hok' & Hn & Hr).
  assert (view_ok e) as Hve by (destruct e; try done; by apply list.Forall_cons in Hv as [? _]).
  pose proof (wp_Ok _ _ _ _ _ _ Hs (server_event_ok e s Hok' He Hve)) as (? & Hm & Hc).
  split_and!; [done|congruence|]. by rewrite (client_run_app _ _ _ _ Hr).
Qed.

(** C27: the client's server is transparent. Started on a new client it has
    twenty objects waiting for replies; after any run of arriving replies,
    acknowledgements and the client's own events, the client inside is in the
    state of the client alone after those events in that order, twenty objects
    are waiting again, and whatever happens next is handled without a fault. *)
Theorem client_server_transparent (client : string) (stubs : gset Z) (k n : Z) (ranges : gmap Z Z)
    (s0 s : ClientServer) (l : list (Z * ClientEvent)) :
  StartServer (PaxosClient_init client stubs k ranges n) = Ok (tt, s0) →
  served s0 l s → Forall (λ e, event_ok e.2) l →
  client_run l (PaxosClient_init client stubs k ranges n) = Ok (tt, cs_client s) ∧
  size (cs_listening s) = init_server_handlers ∧
  ∀ e, can_happen s e = true → view_ok e → ∃ s', client_server_event e s = Ok (tt, s').
Proof.
  intros H0 Hs Hl.
  pose proof (wp_Ok _ _ _ _ _ _ H0 (StartServer_ok init_server_handlers _
    (PaxosClient_init_ok client stubs k ranges n))) as (Hok0 & Hn0 & Hc0).
  destruct (served_ok s0 l s Hs Hok0 Hl) as (Hok & Hn & Hr). rewrite Hc0 in Hr.
  split_and!; [done|congruence|]. intros e He Hv.
  pose proof (server_event_ok e s Hok He Hv) as H. apply wp_total in H as (s' & H & _). eauto.
Qed.

(** The server receives a reply it does not wait for. *)
Definition small_reply : ClientReply := MkClientReply (MkBallot 1 1) 1 "A" true true 0.

Lemma client_server_transparent_witness :
  ∃ s, client_run [(0, CReply small_reply)] (PaxosClient_init "A" small_stubs 3 small_ranges 2)
      = Ok (tt, cs_client s) ∧
    size (cs_listening s) = init_server_handlers ∧
    ∀ e, can_happen s e = true → view_ok e → ∃ s', client_server_event e s = Ok (tt, s').
Proof.
  set (e := ReplyArrives 7 small_reply).
  assert ((λ s, can_happen s e) <$> final (StartServer
    (PaxosClient_init "A" small_stubs 3 small_ranges 2)) = Some true) as H
    by (vm_compute; reflexivity).
  destruct (StartServer (PaxosClient_init "A" small_stubs 3 small_ranges 2)) as [[[] s0]|] eqn:E0;
    [|done]. injection H as H.
  destruct (client_server_transparent _ _ _ _ _ s0 s0 [] E0 (served_start s0) (Forall_nil _))
    as (_ & _ & Hnext).
  destruct (Hnext e H I) as [s Hs]. exists s.
  apply (client_server_transparent _ _ _ _ _ s0 s _ E0 (served_event s0 [] s0 e s (served_start s0) H Hs)).
  repeat constructor.
Defined.
