(* ===== verification/Sharding.v ===== *)
(** * Shards: the initial map and the resharding

    [MakeShardMap] and [Reshard] of [node_launch.cpp].

    Representation. A [std::vector<int>] is a list, an index outside it the
    fault [BadIndex]; [unordered_map::at] of an unknown key throws
    ([OutOfRange]) and its [operator[]] inserts [0]. The order in which
    [Reshard] walks its hash map is a parameter of the model. The product
    [avg_size * 1.3], truncated, is [avg_size * 13 / 10] for every [int]: [1.3]
    is rounded up by less than the distance to the next tenth. *)
From S2P Require Import Prelude.
#[local] Open Scope Z_scope.

(** ** The initial map *)
Definition shard_block (items_per_cluster remainder : Z) (st : gmap Z Z * Z) (cluster : Z)
    : gmap Z Z * Z :=
  let count := items_per_cluster + (if cluster <=? remainder then 1 else 0) in
  foldl (λ st _, (<[st.2 := cluster]> st.1, st.2 + 1)) st (seqZ 0 count).

Definition MakeShardMap (total_items num_clusters : Z) : gmap Z Z :=
  (foldl (shard_block (Z.quot total_items num_clusters) (Z.rem total_items num_clusters))
    (∅, 1) (seqZ 1 num_clusters)).1.

(** ** Resharding *)
Record ReshardState := MkReshard {
  new_mapping : gmap Z Z;
  cluster_loads : list Z;
  cross_count : list Z }.
#[export] Instance rebuild_ReshardState : Rebuild ReshardState := λ s,
  MkReshard (new_mapping s) (cluster_loads s) (cross_count s).
#[export] Instance upd_new_mapping : Upd new_mapping := ltac:(derive_upd).
#[export] Instance upd_cluster_loads : Upd cluster_loads := ltac:(derive_upd).
#[export] Instance upd_cross_count : Upd cross_count := ltac:(derive_upd).

Abbreviation ReshardM := (M ReshardState).

(** [v[i]] and [v[i] += d]. *)
Definition int_at (v : list Z) (i : Z) : option Z :=
  if (0 <=? i) && (i <? Z.of_nat (length v)) then v !! Z.to_nat i else None.
Definition load_at (i : Z) : ReshardM Z :=
  v ← gets cluster_loads;
  match int_at v i with Some x => mret x | None => raise BadIndex end.
Definition cross_at (i : Z) : ReshardM Z :=
  v ← gets cross_count;
  match int_at v i with Some x => mret x | None => raise BadIndex end.
Definition add_load (i d : Z) : ReshardM unit :=
  x ← load_at i; cluster_loads ::~ <[Z.to_nat i := x + d]>.
Definition add_cross (i : Z) : ReshardM unit :=
  x ← cross_at i; cross_count ::~ <[Z.to_nat i := x + 1]>.

(** [m.at(i)] and [new_mapping[i]]. *)
Definition map_at (m : gmap Z Z) (i : Z) : ReshardM Z :=
  match m !! i with Some c => mret c | None => raise OutOfRange end.
Definition mapping_at (i : Z) : ReshardM Z :=
  m ← gets new_mapping;
  let '(c, m) := subscript 0 m i in
  new_mapping ::= m ;; mret c.

(** A transaction [(s, r)]; [r] is [-1] for a read. *)
Definition count_load (current : gmap Z Z) (t : Z * Z) : ReshardM unit :=
  c ← map_at current t.1;
  add_load c 1 ;;
  when (negb (t.2 =? -1)) (c' ← map_at current t.2; add_load c' 1).

Definition count_cross (current : gmap Z Z) (t : Z * Z) : ReshardM unit :=
  when (negb (t.2 =? -1)) (
    c ← map_at current t.1;
    c' ← map_at current t.2;
    when (negb (c =? c')) (add_cross t.1 ;; add_cross t.2)).

Definition max_size (total_items num_clusters : Z) : Z :=
  Z.quot (Z.quot total_items num_clusters * 13) 10.

Definition move_lighter (max : Z) (t : Z * Z) : ReshardM unit :=
  cluster_s ← mapping_at t.1;
  if t.2 =? -1 then skip else
  cluster_r ← mapping_at t.2;
  if cluster_s =? cluster_r then skip else
  load_at cluster_s ;;
  load_at cluster_r ;;
  cross_s ← cross_at t.1;
  cross_r ← cross_at t.2;
  room_r ← (if cross_s <? cross_r then l ← load_at cluster_r; mret (l + 1 <=? max) else mret false);
  if (room_r : bool) then
    new_mapping ::~ <[t.1 := cluster_r]> ;;
    add_load cluster_r 1 ;;
    add_load cluster_s (-1)
  else
    l ← load_at cluster_s;
    when (l + 1 <=? max) (
      new_mapping ::~ <[t.2 := cluster_s]> ;;
      add_load cluster_s 1 ;;
      add_load cluster_r (-1)).

(** [std::min_element] and [std::max_element]: the first least, the first
    greatest; the index [0] of an empty vector. *)
Fixpoint best_from (better : Z → Z → bool) (v : list Z) (i : Z) (best : Z * Z) : Z :=
  match v with
  | [] => best.1
  | x :: v => best_from better v (i + 1) (if better x best.2 then (i, x) else best)
  end.
Definition best_element (better : Z → Z → bool) (v : list Z) : Z :=
  match v with [] => 0 | x :: v => best_from better v 1 (0, x) end.
Definition min_element : list Z → Z := best_element Z.ltb.
Definition max_element : list Z → Z := best_element Z.gtb.

Fixpoint find_candidate (max_cluster : Z) (l : list (Z * Z)) : ReshardM (option Z) :=
  match l with
  | [] => mret None
  | (item, cluster) :: l =>
      if cluster =? max_cluster then
        n ← cross_at item;
        if n =? 0 then mret (Some item) else find_candidate max_cluster l
      else find_candidate max_cluster l
  end.

Section reshard.
(** The order of the hash map. *)
Variable order : gmap Z Z → list (Z * Z).

(** One turn of the rebalancing loop: whether it moved an item. *)
Definition rebalance_turn (max : Z) : ReshardM bool :=
  v ← gets cluster_loads;
  l ← load_at (max_element v);
  if max <? l then
    m ← gets new_mapping;
    candidate ← find_candidate (max_element v) (order m);
    match candidate with
    | Some item =>
        new_mapping ::~ <[item := min_element v]> ;;
        add_load (max_element v) (-1) ;;
        add_load (min_element v) 1 ;;
        mret true
    | None => mret false
    end
  else mret false.

(** The loop: whether it ended within the fuel. *)
Fixpoint rebalance (fuel : nat) (max : Z) : ReshardM bool :=
  match fuel with
  | O => mret false
  | S fuel => moved ← rebalance_turn max; if (moved : bool) then rebalance fuel max else mret true
  end.

Definition Reshard (fuel : nat) (num_clusters : Z) (transactions : list (Z * Z))
    (current : gmap Z Z) (total_items : Z) : res (bool * ReshardState) :=
  (for_each transactions (count_load current) ;;
   for_each transactions (count_cross current) ;;
   for_each transactions (move_lighter (max_size total_items num_clusters)) ;;
   rebalance fuel (max_size total_items num_clusters))
  (MkReshard current (replicate (Z.to_nat num_clusters) 0)
    (replicate (Z.to_nat (total_items + 1)) 0)).
End reshard.
