(* ===== verification/ShardingProofs.v ===== *)
(** * Shards: the initial map tiles the items *)
From S2P Require Import Prelude Sharding.
#[local] Open Scope Z_scope.

(** ** The initial map *)
Lemma fill_block cluster (l : list Z) (st : gmap Z Z * Z) :
  let r := foldl (λ st (_ : Z), (<[st.2 := cluster]> st.1, st.2 + 1)) st l in
  r.2 = st.2 + Z.of_nat (length l) ∧
  ∀ i, r.1 !! i = if decide (st.2 ≤ i < st.2 + Z.of_nat (length l)) then Some cluster else st.1 !! i.
Proof.
  revert st. induction l as [|x l IH]; intros [m cur]; cbn [foldl length fst snd].
  - split; [lia|]. intros i. rewrite decide_False by lia. done.
  - destruct (IH (<[cur := cluster]> m, cur + 1)) as [IH1 IH2]. cbn [fst snd] in *.
    split; [rewrite IH1; lia|]. intros i. rewrite IH2.
    destruct (decide (i = cur)) as [->|N].
    + rewrite decide_False, decide_True by lia. apply lookup_insert_eq.
    + rewrite lookup_insert_ne by done. repeat case_decide; first [done|lia].
Qed.

(** The first item of cluster [c], when each cluster has [q] items and the
    first [r] of them one more. *)
Definition first_item (q r c : Z) : Z := (c - 1) * q + Z.min (c - 1) r + 1.

Lemma shard_blocks q r (n : nat) :
  0 ≤ q → 0 ≤ r →
  let st := foldl (shard_block q r) (∅, 1) (seqZ 1 (Z.of_nat n)) in
  st.2 = first_item q r (Z.of_nat n + 1) ∧
  ∀ i c, st.1 !! i = Some c ↔
    1 ≤ c ≤ Z.of_nat n ∧ first_item q r c ≤ i < first_item q r (c + 1).
Proof.
  intros Hq Hr. induction n as [|n [IH1 IH2]]; cbn zeta.
  - change (Z.of_nat 0) with 0. split; [unfold first_item; change (foldl _ _ _).2 with 1; lia|]. intros i c. change ((foldl _ _ _).1 !! i) with (@None Z). split; [done|intros [? _]; lia].
  - rewrite seqZ_S, foldl_app, Nat2Z.inj_succ. cbn [foldl].
    set (st := foldl _ _ _) in *. unfold shard_block.
    set (count := q + if 1 + Z.of_nat n <=? r then 1 else 0).
    assert (Hc : 0 ≤ count) by (unfold count; destruct (_ <=? _); lia).
    destruct (fill_block (1 + Z.of_nat n) (seqZ 0 count) st) as [F1 F2].
    rewrite length_seqZ, Z2Nat.id in F1, F2 by done.
    assert (Next : st.2 + count = first_item q r (Z.succ (Z.of_nat n) + 1)).
    { rewrite IH1. unfold first_item, count. destruct (Z.leb_spec (1 + Z.of_nat n) r); lia. }
    split; [by rewrite F1|]. intros i c. rewrite F2, Next, IH1.
    assert (Order : ∀ d e, d ≤ e → first_item q r d ≤ first_item q r e).
    { intros d e L. unfold first_item. nia. }
    replace (Z.succ (Z.of_nat n)) with (Z.of_nat n + 1) in * by lia.
    replace (1 + Z.of_nat n) with (Z.of_nat n + 1) in * by lia.
    case_decide as D.
    + split.
      * intros [= <-]. lia.
      * intros [H1 H2]. f_equal. destruct (Z.lt_trichotomy c (Z.of_nat n + 1)) as [L|[L|L]]; [exfalso|lia..].
        specialize (Order (c + 1) (Z.of_nat n + 1)). lia.
    + rewrite IH2. split; [intros [? ?]; lia|]. intros [H1 H2]. split; [|done].
      destruct (decide (c = Z.of_nat n + 1)) as [->|]; [exfalso|lia].
      apply D. lia.
Qed.

(** Every item below the end of the blocks is in one of them. *)
Lemma block_of q r (n : nat) i :
  0 ≤ q → 0 ≤ r → 1 ≤ i < first_item q r (Z.of_nat n + 1) →
  ∃ c, 1 ≤ c ≤ Z.of_nat n ∧ first_item q r c ≤ i < first_item q r (c + 1).
Proof.
  intros Hq Hr. induction n as [|n IH]; intros H; [unfold first_item in H; cbn in H; lia|].
  destruct (Z.lt_ge_cases i (first_item q r (Z.of_nat n + 1))) as [L|L].
  - destruct IH as (c & ? & ?); [lia|]. exists c. lia.
  - exists (Z.of_nat n + 1). rewrite Nat2Z.inj_succ in *. unfold Z.succ in *. lia.
Qed.

Lemma first_item_total total k : 0 < k → 0 ≤ total →
  first_item (Z.quot total k) (Z.rem total k) (k + 1) = total + 1.
Proof.
  intros Hk Ht. unfold first_item. pose proof (Z.quot_rem' total k). pose proof (Z.rem_bound_pos total k). nia.
Qed.

Lemma MakeShardMap_lookup total k : 0 < k → 0 ≤ total → ∀ i c,
  MakeShardMap total k !! i = Some c ↔
    1 ≤ c ≤ k ∧ first_item (Z.quot total k) (Z.rem total k) c ≤ i
      < first_item (Z.quot total k) (Z.rem total k) (c + 1).
Proof.
  intros Hk Ht.
  destruct (shard_blocks (Z.quot total k) (Z.rem total k) (Z.to_nat k)) as [_ S];
    [apply Z.quot_pos; lia|apply Z.rem_bound_pos; lia|]. by rewrite Z2Nat.id in S by lia.
Qed.

(** C32: the initial shard map. [MakeShardMap] gives item [i] to cluster [c]
    exactly when [i] lies in the [c]-th of [num_clusters] consecutive blocks,
    the first [total_items mod num_clusters] of which are one longer than
    [total_items / num_clusters]; the blocks cover the items [1 .. total_items]
    and nothing else. *)
Theorem MakeShardMap_tiles (total k : Z) :
  0 < k → 0 ≤ total →
  (∀ i c, MakeShardMap total k !! i = Some c ↔
     1 ≤ c ≤ k ∧ first_item (Z.quot total k) (Z.rem total k) c ≤ i
       < first_item (Z.quot total k) (Z.rem total k) (c + 1)) ∧
  (∀ i, is_Some (MakeShardMap total k !! i) ↔ 1 ≤ i ≤ total) ∧
  (∀ c, 1 ≤ c → first_item (Z.quot total k) (Z.rem total k) (c + 1) -
     first_item (Z.quot total k) (Z.rem total k) c =
     Z.quot total k + (if decide (c ≤ Z.rem total k) then 1 else 0)).
Proof.
  intros Hk Ht. pose proof (MakeShardMap_lookup total k Hk Ht) as S.
  set (q := Z.quot total k) in *. set (r := Z.rem total k) in *.
  assert (Hq : 0 ≤ q) by (apply Z.quot_pos; lia).
  assert (Hr : 0 ≤ r) by (apply Z.rem_bound_pos; lia).
  split_and!; [exact S| |].
  - intros i. split.
    + intros [c [H1 H2]%S]. pose proof (first_item_total total k Hk Ht) as E. fold q r in E.
      unfold first_item in *. nia.
    + intros H. destruct (block_of q r (Z.to_nat k) i) as (c & ? & ?); [done..| |].
      { pose proof (first_item_total total k Hk Ht) as E. fold q r in E. rewrite Z2Nat.id; lia. }
      exists c. apply S. split; lia.
  - intros c Hc. unfold first_item. case_decide; lia.
Qed.

Lemma MakeShardMap_tiles_witness :
  MakeShardMap 11 3 !! 8 = Some 2 ∧ MakeShardMap 11 3 !! 9 = Some 3 ∧
  (is_Some (MakeShardMap 11 3 !! 12) ↔ 1 ≤ 12 ≤ 11).
Proof.
  split; [vm_compute; reflexivity|split; [vm_compute; reflexivity|]].
  exact (proj1 (proj2 (MakeShardMap_tiles 11 3 eq_refl ltac:(discriminate))) 12).
Defined.
