(* ===== verification/ReshardProofs.v ===== *)
(** * Resharding: what it keeps, and when it ends *)
From S2P Require Import Prelude Sharding.
#[local] Open Scope Z_scope.

(** ** Resharding: what is kept *)
Definition sum (v : list Z) : Z := foldr Z.add 0 v.

Lemma sum_insert v k x y : v !! k = Some x → sum (<[k := y]> v) = sum v - x + y.
Proof.
  revert k. induction v as [|z v IH]; intros [|k]; cbn; [done..| |].
  - intros [= ->]. lia.
  - intros H. fold (sum (<[k:=y]> v)). rewrite IH by done. cbn. fold (sum v). lia.
Qed.
Lemma sum_zeros n : sum (replicate n 0) = 0.
Proof. induction n; [done|]. cbn. fold (sum (replicate n 0)). lia. Qed.

Lemma int_at_Some v i x :
  int_at v i = Some x → 0 ≤ i < Z.of_nat (length v) ∧ v !! Z.to_nat i = Some x.
Proof. unfold int_at. destruct (_ && _) eqn:E; [|done]. intros. split; [lia|done]. Qed.
Lemma int_at_in v i : 0 ≤ i < Z.of_nat (length v) → ∃ x, int_at v i = Some x.
Proof.
  intros H. unfold int_at. replace (_ && _) with true by lia. apply lookup_lt_is_Some. lia.
Qed.

(** How many loads a transaction adds to. *)
Definition weight (t : Z * Z) : Z := if t.2 =? -1 then 1 else 2.
Definition load_of (l : list (Z * Z)) : Z := sum (weight <$> l).

(** The items of a transaction, all of them in the mapping. *)
Definition mapped (m : gmap Z Z) (t : Z * Z) : Prop :=
  is_Some (m !! t.1) ∧ (t.2 ≠ -1 → is_Some (m !! t.2)).
(** The clusters of a transaction, all of them within the loads. *)
Definition counted (m : gmap Z Z) (n : Z) (t : Z * Z) : Prop :=
  (∀ c, m !! t.1 = Some c → 0 ≤ c < n) ∧ (t.2 ≠ -1 → ∀ c, m !! t.2 = Some c → 0 ≤ c < n).

(** [d] more in the loads, the items and the number of clusters as before. *)
Definition moved (d : Z) (s s' : ReshardState) : Prop :=
  dom (new_mapping s') = dom (new_mapping s) ∧
  length (cluster_loads s') = length (cluster_loads s) ∧
  sum (cluster_loads s') = sum (cluster_loads s) + d.

Lemma moved_refl s : moved 0 s s.
Proof. split_and!; [done..|lia]. Qed.
#[local] Hint Resolve moved_refl : core.
Lemma moved_trans d e s1 s2 s3 : moved d s1 s2 → moved e s2 s3 → moved (d + e) s1 s3.
Proof. unfold moved. intros (-> & -> & ->) (-> & -> & ->). split_and!; [done..|lia]. Qed.

Lemma add_load_moved i d s :
  wp any_fault (add_load i d) s (λ _ s', moved d s s' ∧ new_mapping s' = new_mapping s ∧
    0 ≤ i < Z.of_nat (length (cluster_loads s))).
Proof.
  unfold add_load, load_at. repeat (wp_step; cbv zeta).
  match goal with H : int_at _ _ = Some _ |- _ => apply int_at_Some in H as [H1 H2] end.
  split_and!; simp_upd; [|done|lia..]. split_and!; simp_upd; [done|apply length_insert|].
  erewrite sum_insert by done. lia.
Qed.

Lemma mapping_at_moved i s :
  is_Some (new_mapping s !! i) →
  wp any_fault (mapping_at i) s (λ c s', moved 0 s s' ∧ new_mapping s' = new_mapping s).
Proof.
  intros [c H]. unfold mapping_at, subscript. wp_step. wp_step. rewrite H. wp_step. wp_step. wp_step.
  split; [|by simp_upd]. split_and!; simp_upd; [done|done|lia].
Qed.

Lemma dom_insert_in (m : gmap Z Z) i c : is_Some (m !! i) → dom (<[i := c]> m) = dom m.
Proof. intros H. apply dom_insert_lookup_L, H. Qed.

Lemma count_load_moved current t s :
  wp any_fault (count_load current t) s (λ _ s', moved (weight t) s s' ∧
    new_mapping s' = new_mapping s ∧ mapped current t ∧
    counted current (Z.of_nat (length (cluster_loads s))) t).
Proof.
  unfold count_load, map_at. wp_step. destruct (current !! t.1) as [c|] eqn:E1; [|by repeat wp_step]. wp_step.
  wp_step. eapply wp_mono; [|apply add_load_moved]. cbn beta. intros _ s1 (M1 & N1 & B1).
  unfold weight, mapped, counted. rewrite E1. destruct (Z.eqb_spec t.2 (-1)) as [R|R]; cbn [negb].
  - wp_step. split_and!; first [done|by eauto|by intros ? [= <-]].
  - cbn [when]. wp_step. destruct (current !! t.2) as [c'|] eqn:E2; [|by repeat wp_step]. wp_step.
    eapply wp_mono; [|apply add_load_moved]. cbn beta. intros _ s2 (M2 & N2 & B2).
    split_and!; [exact (moved_trans 1 1 _ _ _ M1 M2)|congruence|eauto..].
    + by intros ? [= <-].
    + intros _ ? [= <-]. by rewrite (proj1 (proj2 M1)) in B2.
Qed.

Lemma count_cross_keeps current t :
  respects (keeps (λ s, (new_mapping s, cluster_loads s))) (count_cross current t).
Proof. unfold count_cross, map_at, add_cross, cross_at. solve_keeps. Qed.

Lemma mapped_dom m m' t : dom m' = dom m → mapped m t → mapped m' t.
Proof. unfold mapped. rewrite <- !elem_of_dom. by intros ->. Qed.

(** Moving an item of the mapping and a unit of load. *)
Lemma shift_wp item c i d j e s (Q R : ReshardState → Prop) :
  is_Some (new_mapping s !! item) → d + e = 0 → (∀ s', moved 0 s s' → Q s') →
  (∀ s1, wp any_fault (add_load j e) s1 (λ _, Q) → R s1) →
  wp any_fault (add_load i d) (upd new_mapping (<[item := c]> (new_mapping s)) s)
    (λ _, R).
Proof.
  intros H E K C. eapply wp_mono; [|apply add_load_moved]. cbn beta. intros _ s1 (M1 & N1 & _). apply C.
  eapply wp_mono; [|apply add_load_moved]. cbn beta. intros _ s2 (M2 & N2 & _). apply K.
  destruct (moved_trans _ _ _ _ _ M1 M2) as (D & L & S). simp_upd.
  split_and!; [by rewrite D, dom_insert_in|done|lia].
Qed.

Lemma load_at_keeps i s (Q : Z → ReshardState → Prop) :
  (∀ x, Q x s) → wp any_fault (load_at i) s Q.
Proof. intros H. unfold load_at. by repeat (wp_step; cbv zeta). Qed.
Lemma cross_at_keeps i s (Q : Z → ReshardState → Prop) :
  (∀ x, Q x s) → wp any_fault (cross_at i) s Q.
Proof. intros H. unfold cross_at. by repeat (wp_step; cbv zeta). Qed.

Lemma move_lighter_moved max t s :
  mapped (new_mapping s) t → wp any_fault (move_lighter max t) s (λ _ s', moved 0 s s').
Proof.
  intros [H1 H2]. unfold move_lighter. wp_step. eapply wp_mono; [|by apply mapping_at_moved].
  cbn beta. intros c s1 [M1 E1]. destruct (Z.eqb_spec t.2 (-1)) as [R|R]; [by wp_step|].
  wp_step. eapply wp_mono; [|apply mapping_at_moved; rewrite E1; auto].
  cbn beta. intros c' s2 [M2 E2]. pose proof (moved_trans 0 0 _ _ _ M1 M2) as M. cbn in M.
  destruct (c =? c'); [by wp_step|].
  wp_step. apply load_at_keeps. intros _. wp_step. apply load_at_keeps. intros _.
  wp_step. apply cross_at_keeps. intros x. wp_step. apply cross_at_keeps. intros y.
  wp_step. apply (wp_mono _ _ _ (λ _ s', s' = s2)).
  - intros room s3 ->.
    assert (K : ∀ s', moved 0 s2 s' → moved 0 s s') by (intros s'; apply (moved_trans 0 0), M).
    destruct room; [|wp_step; apply load_at_keeps; intros l; apply wp_when; intros _; [|by apply K, moved_refl]].
    all: do 3 wp_step; eapply (shift_wp _ _ _ _ _ (-1) _ (moved 0 s)); [rewrite E2, E1; auto|done|exact K|intros ?; exact id].
  - destruct (x <? y); [|by wp_step]. wp_step. apply load_at_keeps. intros l. by wp_step.
Qed.

Lemma find_candidate_spec max l s :
  wp any_fault (find_candidate max l) s (λ r s', s' = s ∧
    ∀ item, r = Some item → (item, max) ∈ l).
Proof.
  induction l as [|[item c] l IH]; cbn [find_candidate]; [by wp_step|].
  assert (Skip : wp any_fault (find_candidate max l) s (λ r s', s' = s ∧
    ∀ i, r = Some i → (i, max) ∈ (item, c) :: l)).
  { eapply wp_mono; [|exact IH]. cbn beta. intros r s' [-> H]. split; [done|].
    intros i Hi. right. auto. }
  destruct (Z.eqb_spec c max) as [->|]; [|done].
  wp_step. apply cross_at_keeps. intros x. destruct (x =? 0); [|done].
  wp_step. split; [done|]. intros i [= ->]. left.
Qed.

Section order.
Variable order : gmap Z Z → list (Z * Z).
Hypothesis order_lists : ∀ m, order m ≡ₚ map_to_list m.

Lemma order_item m i c : (i, c) ∈ order m → is_Some (m !! i).
Proof. rewrite order_lists, elem_of_map_to_list. eauto. Qed.

Lemma rebalance_turn_moved max s :
  wp any_fault (rebalance_turn order max) s (λ _ s', moved 0 s s').
Proof.
  unfold rebalance_turn. wp_step. wp_step. wp_step. apply load_at_keeps. intros l.
  destruct (max <? l); [|by wp_step]. wp_step. wp_step. wp_step.
  eapply wp_mono; [|apply find_candidate_spec]. cbn beta. intros [item|] s' [-> H]; [|by wp_step].
  specialize (H item eq_refl). apply order_item in H.
  do 3 wp_step. eapply (shift_wp item _ _ _ (min_element (cluster_loads s)) 1 s (moved 0 s)); auto.
  intros s1 W. wp_step. eapply wp_mono; [|exact W]. cbn beta. intros _ s2 M. by wp_step.
Qed.

Lemma rebalance_moved fuel max s : wp any_fault (rebalance order fuel max) s (λ _ s', moved 0 s s').
Proof.
  revert s. induction fuel as [|fuel IH]; intros s; cbn [rebalance]; [wp_step; apply moved_refl|].
  wp_step. eapply wp_mono; [|apply rebalance_turn_moved]. cbn beta. intros [] s1 M1; [|by wp_step].
  eapply wp_mono; [|apply IH]. cbn beta. intros _ s2 M2. exact (moved_trans 0 0 _ _ _ M1 M2).
Qed.
End order.

Lemma count_loads_spec current l s :
  wp any_fault (for_each l (count_load current)) s (λ _ s', moved (load_of l) s s' ∧
    new_mapping s' = new_mapping s ∧
    Forall (λ t, mapped current t ∧ counted current (Z.of_nat (length (cluster_loads s))) t) l).
Proof.
  revert s. induction l as [|t l IH]; intros s; cbn [for_each]; [by wp_step|].
  wp_step. eapply wp_mono; [|apply count_load_moved]. cbn beta. intros _ s1 (M1 & N1 & Hm & Hc).
  eapply wp_mono; [|apply IH]. cbn beta. intros _ s2 (M2 & N2 & F).
  split_and!; [exact (moved_trans _ _ _ _ _ M1 M2)|congruence|].
  constructor; [done|]. by rewrite (proj1 (proj2 M1)) in F.
Qed.

Lemma move_all_spec max l s :
  Forall (mapped (new_mapping s)) l →
  wp any_fault (for_each l (move_lighter max)) s (λ _ s', moved 0 s s').
Proof.
  revert s. induction l as [|t l IH]; intros s F; cbn [for_each]; [by wp_step|].
  apply list.Forall_cons in F as [Ht F]. wp_step. eapply wp_mono; [|by apply move_lighter_moved].
  cbn beta. intros _ s1 M1. eapply wp_mono; [|apply IH].
  - cbn beta. intros _ s2 M2. exact (moved_trans 0 0 _ _ _ M1 M2).
  - eapply Forall_impl; [|exact F]. intros u. apply mapped_dom, M1.
Qed.

(** What [Reshard] promises of every run that returns. *)
Lemma Reshard_books order (O : ∀ m, order m ≡ₚ map_to_list m) fuel k l current total b s :
  Reshard order fuel k l current total = Ok (b, s) →
  dom (new_mapping s) = dom current ∧ length (cluster_loads s) = Z.to_nat k ∧
  sum (cluster_loads s) = load_of l ∧ Forall (λ t, mapped current t ∧ counted current k t) l.
Proof.
  unfold Reshard. set (s0 := MkReshard _ _ _). intros E.
  refine (wp_Ok any_fault _ _ _ _ (λ _ s, dom (new_mapping s) = dom current ∧ _) E _).
  wp_step. eapply wp_mono; [|apply count_loads_spec]. cbn beta. intros _ s1 (M1 & N1 & F).
  replace (Z.of_nat (length (cluster_loads s0))) with (Z.of_nat (Z.to_nat k)) in F
    by (cbn; by rewrite length_replicate).
  wp_step. apply (wp_keeps _ (λ s, (new_mapping s, cluster_loads s))); [apply faults_any| |].
  { apply respects_for_each; [..|intros t; apply count_cross_keeps]; apply _. }
  intros _ s2 [= E1 E2]. wp_step. eapply wp_mono; [|apply move_all_spec].
  2: { rewrite E1, N1. eapply Forall_impl; [|exact F]. by intros t [? _]. }
  cbn beta. intros _ s3 M3. eapply wp_mono; [|by apply rebalance_moved].
  cbn beta. intros c s4 (D4 & L4 & S4). destruct M1 as (D1 & L1 & S1), M3 as (D3 & L3 & S3).
  rewrite D4, D3, E1, N1, L4, L3, E2, L1, S4, S3, E2, S1. cbn [s0 new_mapping cluster_loads].
  rewrite length_replicate, sum_zeros. split_and!; [done..|lia|].
  eapply Forall_impl; [|exact F]. cbn beta. intros t [Hm [H1 H2]].
  split; [done|]. split; [|intros Hr]; intros cl Hcl; [specialize (H1 _ Hcl)|specialize (H2 Hr _ Hcl)]; lia.
Qed.

(** C37: resharding loses no item and no load. When [Reshard] returns, in
    whatever order it walks its hash map, its mapping has exactly the items of
    the mapping it was given, and the loads of the clusters still add up to one
    for every participation of an item in a transaction. *)
Theorem Reshard_keeps_items (order : gmap Z Z → list (Z * Z)) (fuel : nat) (k total : Z)
    (l : list (Z * Z)) (current : gmap Z Z) (b : bool) (s : ReshardState) :
  (∀ m, order m ≡ₚ map_to_list m) → Reshard order fuel k l current total = Ok (b, s) →
  dom (new_mapping s) = dom current ∧ sum (cluster_loads s) = load_of l.
Proof. intros O E. by destruct (Reshard_books _ O _ _ _ _ _ _ _ E) as (? & _ & ? & _). Qed.

(** Nine items in three clusters; a transfer and two reads. *)
Definition reads (n : nat) (i : Z) : list (Z * Z) := replicate n (i, -1).
Definition small_load : list (Z * Z) := (1, 4) :: reads 2 1.
Definition reshard_end (l : list (Z * Z)) : ReshardState :=
  match Reshard map_to_list 50 3 l (MakeShardMap 9 3) 9 with
  | Ok (_, s) => s
  | Fault _ => MkReshard ∅ [] []
  end.

Lemma Reshard_keeps_items_witness :
  dom (new_mapping (reshard_end small_load)) = dom (MakeShardMap 9 3) ∧
  sum (cluster_loads (reshard_end small_load)) = load_of small_load.
Proof.
  assert (E : Reshard map_to_list 50 3 small_load (MakeShardMap 9 3) 9 =
    Ok (true, reshard_end small_load)) by (vm_compute; reflexivity).
  exact (Reshard_keeps_items map_to_list 50 3 9 small_load _ true _ (λ m, reflexivity _) E).
Defined.

(** The last cluster is outside the loads. [cluster_loads] has one slot per
    cluster, numbered from 0, and the clusters are numbered from 1: when a
    transaction touches an item of cluster [num_clusters], [Reshard] indexes
    the vector past its end and never returns. *)
Theorem Reshard_last_cluster (order : gmap Z Z → list (Z * Z)) (fuel : nat) (k total item : Z)
    (l : list (Z * Z)) (current : gmap Z Z) (r : bool * ReshardState) :
  (∀ m, order m ≡ₚ map_to_list m) →
  current !! item = Some k → (∃ t, t ∈ l ∧ (t.1 = item ∨ t.2 = item ∧ item ≠ -1)) →
  Reshard order fuel k l current total ≠ Ok r.
Proof.
  intros O Hk (t & Ht & Hi) E. destruct r as [b s].
  destruct (Reshard_books _ O _ _ _ _ _ _ _ E) as (_ & _ & _ & F).
  rewrite list.Forall_forall in F. destruct (F t Ht) as [_ [C1 C2]].
  destruct Hi as [<-|[<- N]]; [specialize (C1 _ Hk)|specialize (C2 N _ Hk)]; lia.
Qed.

Lemma Reshard_last_cluster_witness :
  MakeShardMap 9 3 !! 7 = Some 3 ∧
  Reshard map_to_list 50 3 [(7, -1)] (MakeShardMap 9 3) 9 = Fault BadIndex ∧
  Reshard map_to_list 50 3 [(7, -1)] (MakeShardMap 9 3) 9 ≠
    Ok (true, MkReshard (MakeShardMap 9 3) [] []).
Proof.
  assert (E : MakeShardMap 9 3 !! 7 = Some 3) by (vm_compute; reflexivity).
  split; [exact E|split; [vm_compute; reflexivity|]].
  apply (Reshard_last_cluster map_to_list 50 3 9 7); [reflexivity|exact E|].
  exists (7, -1). split; [by left|by left].
Defined.

(** ** Resharding: when the rebalancing ends *)
Lemma int_at_succ (z : Z) v j : (j < length v)%nat → int_at (z :: v) (1 + Z.of_nat j) = v !! j.
Proof.
  intros L. unfold int_at. cbn [length].
  rewrite (proj2 (Z.leb_le _ _)), (proj2 (Z.ltb_lt _ _)) by lia. cbn [andb].
  by replace (Z.to_nat (1 + Z.of_nat j)) with (S j) by lia.
Qed.

Section best.
Context (better : Z → Z → bool) (g : Z → Z).
Hypothesis better_lt : ∀ x y, better x y = (g x <? g y).

Lemma best_from_spec v i bi bx :
  ∃ x, (best_from better v i (bi, bx) = bi ∧ x = bx ∨
        ∃ j, best_from better v i (bi, bx) = i + Z.of_nat j ∧ v !! j = Some x) ∧
       g x ≤ g bx ∧ Forall (λ y, g x ≤ g y) v.
Proof.
  revert i bi bx. induction v as [|y v IH]; intros i bi bx; cbn [best_from fst snd].
  - exists bx. split_and!; [by left|lia|constructor].
  - rewrite better_lt. destruct (Z.ltb_spec (g y) (g bx)).
    + destruct (IH (i + 1) i y) as (x & H' & Hy & F). exists x.
      split; [right|split; [lia|by constructor]].
      destruct H' as [[E ->]|(j & E & Hx)]; [exists 0%nat; split; [lia|done]|].
      exists (S j). split; [lia|done].
    + destruct (IH (i + 1) bi bx) as (x & H' & Hy & F). exists x.
      split; [|split; [lia|constructor; [lia|done]]].
      destruct H' as [H'|(j & E & Hx)]; [by left|]. right. exists (S j). split; [lia|done].
Qed.

Lemma best_element_spec v :
  v ≠ [] → ∃ x, int_at v (best_element better v) = Some x ∧ Forall (λ y, g x ≤ g y) v.
Proof.
  destruct v as [|z v]; [done|]. intros _. cbn [best_element].
  destruct (best_from_spec v 1 0 z) as (x & H & Hz & F). exists x. split; [|by constructor].
  destruct H as [[-> ->]|(j & -> & Hx)]; [done|].
  rewrite int_at_succ by (by eapply lookup_lt_Some). done.
Qed.
End best.

Lemma min_element_spec v :
  v ≠ [] → ∃ x, int_at v (min_element v) = Some x ∧ Forall (λ y, x ≤ y) v.
Proof. apply (best_element_spec Z.ltb id). done. Qed.
Lemma max_element_spec v :
  v ≠ [] → ∃ x, int_at v (max_element v) = Some x ∧ Forall (λ y, y ≤ x) v.
Proof.
  intros N. destruct (best_element_spec Z.gtb Z.opp) with (v := v) as (x & H & F); [|done|].
  - intros a b. apply eq_true_iff_eq. rewrite Z.gtb_gt, Z.ltb_lt. lia.
  - exists x. split; [done|]. eapply Forall_impl; [|exact F]. cbn. lia.
Qed.

(** The measure: the sum of the squares of the loads. *)
Definition squares (v : list Z) : Z := sum ((λ x, x * x) <$> v).

Lemma squares_insert v k x y : v !! k = Some x → squares (<[k := y]> v) = squares v - x * x + y * y.
Proof.
  intros H. unfold squares. rewrite list_fmap_insert. apply sum_insert.
  by rewrite list_lookup_fmap, H.
Qed.
Lemma squares_nonneg v : 0 ≤ squares v.
Proof. induction v as [|x v IH]; [done|]. change (squares (x :: v)) with (x * x + squares v). nia. Qed.

Lemma sum_app v w : sum (v ++ w) = sum v + sum w.
Proof.
  induction v as [|x v IH]; [done|]. change (sum ((x :: v) ++ w)) with (x + sum (v ++ w)).
  change (sum (x :: v)) with (x + sum v). lia.
Qed.

(** If the loads fit, a cluster over the limit is two above the least. *)
Lemma room_for_move v max hi lo :
  sum v ≤ Z.of_nat (length v) * max → hi ∈ v → Forall (λ y, lo ≤ y) v → max < hi → lo + 2 ≤ hi.
Proof.
  intros S Hi F M. destruct (Z.le_gt_cases (lo + 2) hi) as [|L]; [done|exfalso].
  assert (Low : ∀ w, Forall (λ y, lo ≤ y) w → Z.of_nat (length w) * lo ≤ sum w).
  { induction 1; cbn [length sum foldr]; [done|]. fold (sum l). lia. }
  apply list_elem_of_split in Hi as (v1 & v2 & ->).
  apply Forall_app in F as [F1 [_ F2]%list.Forall_cons]. pose proof (Low v1 F1). pose proof (Low v2 F2).
  rewrite sum_app in S. change (sum (hi :: v2)) with (hi + sum v2) in S.
  rewrite length_app in S. cbn [length] in S. nia.
Qed.

(** The loads fit into the limit, and every item has a cross count. *)
Definition fits (max : Z) (s : ReshardState) : Prop :=
  cluster_loads s ≠ [] ∧ sum (cluster_loads s) ≤ Z.of_nat (length (cluster_loads s)) * max ∧
  ∀ i, is_Some (new_mapping s !! i) → 0 ≤ i < Z.of_nat (length (cross_count s)).

Lemma load_at_in i x s (Q : Z → ReshardState → Prop) :
  int_at (cluster_loads s) i = Some x → Q x s → wp no_fault (load_at i) s Q.
Proof. intros E H. unfold load_at. wp_step. wp_step. rewrite E. by wp_step. Qed.

Lemma add_load_in i d x s (Q : unit → ReshardState → Prop) :
  int_at (cluster_loads s) i = Some x →
  Q tt (upd cluster_loads (<[Z.to_nat i := x + d]> (cluster_loads s)) s) →
  wp no_fault (add_load i d) s Q.
Proof. intros E H. unfold add_load. wp_step. apply (load_at_in _ x); [done|]. by wp_step. Qed.

Lemma find_candidate_total max l s :
  (∀ i c, (i, c) ∈ l → 0 ≤ i < Z.of_nat (length (cross_count s))) →
  wp no_fault (find_candidate max l) s (λ r s', s' = s ∧ ∀ item, r = Some item → (item, max) ∈ l).
Proof.
  intros B. induction l as [|[i c] l IH]; cbn [find_candidate]; [by wp_step|].
  assert (Skip : wp no_fault (find_candidate max l) s (λ r s', s' = s ∧
    ∀ item, r = Some item → (item, max) ∈ (i, c) :: l)).
  { eapply wp_mono; [|apply IH; intros; eapply B; by right]. cbn beta. intros r s' [-> H].
    split; [done|]. intros item Hi. right. auto. }
  destruct (Z.eqb_spec c max) as [->|]; [|done].
  destruct (int_at_in (cross_count s) i) as [x E]; [eapply B; by left|].
  unfold cross_at. wp_step. wp_step. wp_step. rewrite E. wp_step. destruct (x =? 0); [|done].
  wp_step. split; [done|]. intros item [= ->]. left.
Qed.

(** Moving a unit of load from [i] to [j]. *)
Lemma shifted v i j hi lo :
  int_at v i = Some hi → int_at v j = Some lo → lo + 2 ≤ hi →
  ∃ w, int_at (<[Z.to_nat i := hi - 1]> v) j = Some lo ∧
    <[Z.to_nat j := lo + 1]> (<[Z.to_nat i := hi - 1]> v) = w ∧
    length w = length v ∧ sum w = sum v ∧ squares w < squares v.
Proof.
  intros [Bi Ei]%int_at_Some [Bj Ej]%int_at_Some L. assert (N : Z.to_nat i ≠ Z.to_nat j).
  { intros E. rewrite E in Ei. simplify_eq. lia. }
  assert (Ej' : <[Z.to_nat i := hi - 1]> v !! Z.to_nat j = Some lo) by (by rewrite list_lookup_insert_ne).
  eexists. split_and!; [|done|by rewrite !length_insert|..].
  - unfold int_at. rewrite length_insert.
    rewrite (proj2 (Z.leb_le _ _)), (proj2 (Z.ltb_lt _ _)) by lia. exact Ej'.
  - rewrite (sum_insert _ _ lo), (sum_insert _ _ hi) by done. lia.
  - rewrite (squares_insert _ _ lo), (squares_insert _ _ hi) by done. nia.
Qed.

Section ends.
Variable order : gmap Z Z → list (Z * Z).
Hypothesis order_lists : ∀ m, order m ≡ₚ map_to_list m.

Lemma rebalance_turn_shrinks max s :
  fits max s → wp no_fault (rebalance_turn order max) s
    (λ b s', b = true → fits max s' ∧ squares (cluster_loads s') < squares (cluster_loads s)).
Proof.
  intros (NE & S & B). destruct (max_element_spec _ NE) as (hi & Hhi & _).
  destruct (min_element_spec _ NE) as (lo & Hlo & Flo).
  unfold rebalance_turn. do 3 wp_step. apply (load_at_in _ hi); [done|].
  destruct (Z.ltb_spec max hi) as [L|]; [|by wp_step].
  assert (L2 : lo + 2 ≤ hi).
  { eapply room_for_move; eauto. apply int_at_Some in Hhi as [_ H]. by eapply list_elem_of_lookup_2. }
  do 3 wp_step. eapply wp_mono; [|apply find_candidate_total].
  2: { intros i c H. by eapply B, order_item. }
  cbn beta. intros [item|] s' [-> Hi]; [|by wp_step].
  specialize (Hi item eq_refl). apply (order_item _ order_lists) in Hi.
  destruct (shifted _ _ _ _ _ Hhi Hlo L2) as (w & Hlo' & Hw & Lw & Sw & Qw).
  do 3 wp_step. apply (add_load_in _ _ hi); [by simp_upd|]. wp_step.
  apply (add_load_in _ _ lo); [simp_upd; exact Hlo'|]. wp_step. intros _. unfold fits. simp_upd.
  replace (hi + -1) with (hi - 1) by lia. rewrite Hw, Lw, Sw. split_and!; try done.
  - intros ->. by destruct (cluster_loads s).
  - intros i. rewrite <- elem_of_dom, dom_insert_in, elem_of_dom by done. apply B.
Qed.

Lemma rebalance_total fuel max s :
  fits max s → squares (cluster_loads s) < Z.of_nat fuel →
  wp no_fault (rebalance order fuel max) s (λ b _, b = true).
Proof.
  revert s. induction fuel as [|fuel IH]; intros s F Q; cbn [rebalance].
  { pose proof (squares_nonneg (cluster_loads s)). lia. }
  wp_step. eapply wp_mono; [|by apply rebalance_turn_shrinks]. cbn beta.
  intros [] s1 H; [|by wp_step]. destruct (H eq_refl) as [F1 Q1]. apply IH; [done|lia].
Qed.
End ends.

(** C36: when the loads fit, the rebalancing ends. If the loads of the clusters
    add up to no more than the limit times the number of clusters, the loop
    ends, in whatever order it walks the hash map: every turn that moves an item
    makes the sum of the squares of the loads smaller, so that many turns and
    one are enough. *)
Theorem rebalance_terminates (order : gmap Z Z → list (Z * Z)) (max : Z) (s : ReshardState) :
  (∀ m, order m ≡ₚ map_to_list m) → fits max s →
  ∀ fuel, squares (cluster_loads s) < Z.of_nat fuel →
    ∃ s', rebalance order fuel max s = Ok (true, s').
Proof.
  intros O F fuel Q. pose proof (rebalance_total order O fuel max s F Q) as W. unfold wp in W.
  destruct (rebalance order fuel max s) as [[b s']|]; [|done]. subst. eauto.
Qed.

Definition loaded : ReshardState := MkReshard (MakeShardMap 9 3) [0; 5; 1] (replicate 10 0).

Lemma loaded_fits : fits 3 loaded.
Proof.
  split_and!; [done|done|]. intros i [c H]. change (Z.of_nat (length (cross_count loaded))) with 10.
  assert (A : map_Forall (λ i _, 0 ≤ i < 10) (MakeShardMap 9 3)).
  { apply (bool_decide_unpack _). vm_compute. exact I. }
  by apply (A i c).
Qed.

Lemma rebalance_terminates_witness : ∃ s', rebalance map_to_list 27 3 loaded = Ok (true, s').
Proof.
  exact (rebalance_terminates map_to_list 3 loaded (λ m, reflexivity _) loaded_fits 27 eq_refl).
Defined.

(** [Reshard] is its loop run on the state the other phases leave. *)
Lemma Reshard_loop order fuel k l current total b s :
  Reshard order 0 k l current total = Ok (b, s) →
  Reshard order fuel k l current total = rebalance order fuel (max_size total k) s.
Proof.
  unfold Reshard. set (s0 := MkReshard _ _ _).
  intros (u1 & s1 & E1 & (u2 & s2 & E2 & (u3 & s3 & E3 & [= <- <-])%bind_Ok_inv)%bind_Ok_inv)%bind_Ok_inv.
  by rewrite (bind_Ok _ _ _ _ _ E1), (bind_Ok _ _ _ _ _ E2), (bind_Ok _ _ _ _ _ E3).
Qed.

Lemma rebalance_turns order fuel max s s' :
  rebalance_turn order max s = Ok (true, s') →
  rebalance order (S fuel) max s = rebalance order fuel max s'.
Proof. intros E. cbn [rebalance]. by rewrite (bind_Ok _ _ _ _ _ E). Qed.

Lemma rebalance_stuck order fuel max s :
  rebalance_turn order max s = Ok (true, s) → rebalance order fuel max s = Ok (false, s).
Proof. intros E. induction fuel as [|fuel IH]; [done|]. by rewrite (rebalance_turns _ _ _ _ _ E). Qed.

Definition overload : list (Z * Z) := reads 6 1 ++ reads 6 4.
Definition overloaded (turns : nat) : ReshardState :=
  match Reshard map_to_list turns 3 overload (MakeShardMap 9 3) 9 with
  | Ok (_, s) => s
  | Fault _ => MkReshard ∅ [] []
  end.

(** When they do not fit, it may never end. Nine items in three clusters,
    six reads of item 1 and six of item 4: once the loads are [4; 4; 4], over
    the limit of 3, the fullest and the emptiest cluster are the same one, and
    every turn moves an item of cluster 0 to cluster 0. No number of turns ends
    the loop. *)
Theorem rebalance_diverges (fuel : nat) :
  ∃ s, Reshard map_to_list fuel 3 overload (MakeShardMap 9 3) 9 = Ok (false, s).
Proof.
  rewrite (Reshard_loop _ fuel _ _ _ _ false (overloaded 0)) by (vm_compute; reflexivity).
  replace (max_size 9 3) with 3 by done.
  assert (T : ∀ n, (n < 4)%nat →
    rebalance_turn map_to_list 3 (overloaded n) = Ok (true, overloaded (S n))).
  { intros n Hn. do 4 (destruct n as [|n]; [vm_compute; reflexivity|]). lia. }
  destruct fuel as [|fuel]; [by eexists|]. rewrite (rebalance_turns _ _ _ _ _ (T 0%nat ltac:(lia))).
  destruct fuel as [|fuel]; [by eexists|]. rewrite (rebalance_turns _ _ _ _ _ (T 1%nat ltac:(lia))).
  destruct fuel as [|fuel]; [by eexists|]. rewrite (rebalance_turns _ _ _ _ _ (T 2%nat ltac:(lia))).
  destruct fuel as [|fuel]; [by eexists|]. rewrite (rebalance_turns _ _ _ _ _ (T 3%nat ltac:(lia))).
  exists (overloaded 4). apply rebalance_stuck. vm_compute. reflexivity.
Qed.

(** The items the loop has moved belong to cluster 0, which has no nodes. *)
Example resharding_into_cluster_0 :
  (λ i, new_mapping (overloaded 4) !! i) <$> [1; 2; 3; 4; 5; 6] =
    [Some 1; Some 0; Some 0; Some 2; Some 0; Some 0].
Proof. vm_compute. reflexivity. Qed.
