(* ===== verification/LogRing.v ===== *)
(** * The trace ring

    [ring_write] and [ring_dump] of [log.h]: the last [kRingSlots] statements
    are kept in fixed slots of [kRingSlotLen] bytes and dumped on a signal.

    Representation. A slot is its bytes, [Ascii.zero] is the terminating NUL;
    the zero-initialised buffer is a finite map of the slots written so far.
    The index is an [unsigned long long] and wraps at [2^64]. [write] is taken
    to write all its bytes; what it returns is ignored, as in the source.
    Writers run one after the other: the claimed index is atomic in the source,
    the copy into the slot is not. *)
From S2P Require Import Prelude.
#[local] Open Scope Z_scope.

Definition kRingSlots : Z := 300000.
Definition kRingSlotLen : nat := 200.

Abbreviation bytes := (list Ascii.ascii).

Record Ring := MkRing { ring_buf : gmap Z bytes; ring_idx : Z }.
Definition ring_init : Ring := MkRing ∅ 0.

Definition slot_at (r : Ring) (i : Z) : bytes :=
  default (replicate kRingSlotLen Ascii.zero) (ring_buf r !! i).

(** [memcpy(dst, data, n); dst[n] = '\0'] with [n] cut to [kRingSlotLen - 1]. *)
Definition ring_write (data : bytes) (r : Ring) : Ring :=
  let slot := ring_idx r mod kRingSlots in
  let n := if (kRingSlotLen <=? length data)%nat then (kRingSlotLen - 1)%nat else length data in
  let dst := slot_at r slot in
  MkRing (<[slot := take n data ++ [Ascii.zero] ++ drop (S n) dst]> (ring_buf r))
    ((ring_idx r + 1) mod 2 ^ 64).

(** [strnlen(p, kRingSlotLen)] and the bytes it delimits. *)
Fixpoint strnlen (p : bytes) (n : nat) : nat :=
  match n, p with
  | S n, c :: p => if bool_decide (c = Ascii.zero) then 0%nat else S (strnlen p n)
  | _, _ => 0%nat
  end.

Definition newline : Ascii.ascii := Ascii.ascii_of_nat 10.

Definition ring_header : bytes :=
  newline :: String.list_ascii_of_string "=== TRACE RING (oldest -> newest) ===" ++ [newline].
Definition ring_footer : bytes :=
  String.list_ascii_of_string "=== END TRACE RING ===" ++ [newline].

Definition dump_slot (r : Ring) (k : Z) : bytes :=
  let p := slot_at r (k mod kRingSlots) in
  let len := strnlen p kRingSlotLen in
  if (len =? 0)%nat then [] else take len p ++ [newline].

Definition ring_dump (r : Ring) : bytes :=
  let end_ := ring_idx r in
  let begin := if kRingSlots <? end_ then end_ - kRingSlots else 0 in
  ring_header ++ concat (dump_slot r <$> seqZ begin (end_ - begin)) ++ ring_footer.

(** ** The ring against the list of the statements *)

(** What a slot keeps of a statement: its first 199 bytes up to a NUL. *)
Fixpoint c_string (s : bytes) : bytes :=
  match s with
  | [] => []
  | c :: s => if bool_decide (c = Ascii.zero) then [] else c :: c_string s
  end.
Definition kept (s : bytes) : bytes := c_string (take (kRingSlotLen - 1) s).
Definition kept_line (s : bytes) : bytes :=
  match kept s with [] => [] | t => t ++ [newline] end.

(** The last [n] elements. *)
Definition last_n {A} (n : nat) (l : list A) : list A := drop (length l - n) l.

Lemma strnlen_c_string s rest n :
  (length s < n)%nat → take (strnlen (s ++ Ascii.zero :: rest) n) (s ++ Ascii.zero :: rest) = c_string s.
Proof.
  revert n. induction s as [|c s IH]; intros [|n] H; cbn in *; try lia.
  - done.
  - case_bool_decide; [done|]. cbn. f_equal. apply IH. lia.
Qed.

Lemma slot_written (r : Ring) s :
  slot_at (ring_write s r) (ring_idx r mod kRingSlots) =
    take (kRingSlotLen - 1) s ++ Ascii.zero ::
      drop (S (length (take (kRingSlotLen - 1) s))) (slot_at r (ring_idx r mod kRingSlots)).
Proof.
  unfold slot_at at 1, ring_write. cbn [ring_buf]. rewrite lookup_insert_eq. cbn [default].
  destruct (Nat.leb_spec kRingSlotLen (length s)) as [L|L].
  - rewrite length_take_le by (unfold kRingSlotLen in *; lia). done.
  - rewrite !(take_ge s) by (unfold kRingSlotLen in *; lia). done.
Qed.

Lemma dump_written k s p rest (r : Ring) :
  slot_at r (k mod kRingSlots) = p → p = take (kRingSlotLen - 1) s ++ Ascii.zero :: rest →
  dump_slot r k = kept_line s.
Proof.
  intros H E. unfold dump_slot, kept_line, kept. rewrite H, E.
  assert (L : (length (take (kRingSlotLen - 1) s) < kRingSlotLen)%nat).
  { rewrite length_take. unfold kRingSlotLen. lia. }
  rewrite <- (strnlen_c_string _ rest _ L).
  generalize (strnlen (take (kRingSlotLen - 1) s ++ Ascii.zero :: rest) kRingSlotLen).
  intros [|len]; [done|]. cbn [Nat.eqb].
  by destruct (take (kRingSlotLen - 1) s ++ Ascii.zero :: rest) as [|c q] eqn:N;
    [destruct (take (kRingSlotLen - 1) s)|].
Qed.

Lemma mod_window n i j :
  0 < n → i mod n = j mod n → i ≤ j < i + n → i = j.
Proof.
  intros Hn E L. pose proof (Z.div_mod i n ltac:(lia)). pose proof (Z.div_mod j n ltac:(lia)).
  assert (j / n = i / n ∨ j / n ≠ i / n) as [D|D] by lia; [lia|]. exfalso. nia.
Qed.

(** After the statements [l], slot [k mod kRingSlots] holds statement [k]. *)
Definition ring_holds (l : list bytes) (r : Ring) : Prop :=
  ring_idx r = Z.of_nat (length l) ∧
  ∀ k s, l !! k = Some s → Z.of_nat (length l) ≤ Z.of_nat k + kRingSlots →
    dump_slot r (Z.of_nat k) = kept_line s.

Lemma ring_write_holds l s r :
  Z.of_nat (S (length l)) < 2 ^ 64 → ring_holds l r → ring_holds (l ++ [s]) (ring_write s r).
Proof.
  intros B [I H]. split.
  - cbn [ring_write ring_idx]. rewrite I, length_app, Z.mod_small by (cbn [length]; lia). cbn [length]. lia.
  - intros k t Hk W. rewrite length_app in W. cbn [length] in W.
    destruct (decide (k = length l)) as [->|N].
    + rewrite lookup_app_r, Nat.sub_diag in Hk by lia. injection Hk as <-.
      eapply dump_written; [|reflexivity]. rewrite <- I. apply slot_written.
    + pose proof (lookup_lt_Some _ _ _ Hk) as L. rewrite length_app in L. cbn [length] in L.
      rewrite lookup_app_l in Hk by lia. rewrite <- (H k t Hk) by lia.
      unfold dump_slot, slot_at, ring_write. cbn [ring_buf]. rewrite lookup_insert_ne; [done|].
      rewrite I. intros E. symmetry in E. apply mod_window in E; unfold kRingSlots in *; lia.
Qed.

Definition ring_run (l : list bytes) : Ring := foldl (λ r s, ring_write s r) ring_init l.

Lemma ring_run_holds l : Z.of_nat (length l) < 2 ^ 64 → ring_holds l (ring_run l).
Proof.
  unfold ring_run. induction l as [|s l IH] using rev_ind; intros B.
  - split; [done|]. intros k s H. by rewrite lookup_nil in H.
  - rewrite foldl_app. cbn [foldl]. rewrite length_app in B. cbn [length] in B.
    apply ring_write_holds; [lia|]. apply IH. lia.
Qed.

(** C33: the dump is the last statements. After any statements, fewer than
    [2^64] of them, the dump is the header, then the last [kRingSlots]
    statements from the oldest to the newest, each cut to 199 bytes and to its
    first NUL and ended by a newline, empty ones left out, and the footer. *)
Theorem ring_dump_last (l : list bytes) :
  Z.of_nat (length l) < 2 ^ 64 →
  ring_dump (ring_run l) =
    ring_header ++ concat (kept_line <$> last_n (Z.to_nat kRingSlots) l) ++ ring_footer.
Proof.
  intros B. destruct (ring_run_holds l B) as [I H]. unfold ring_dump. do 3 f_equal.
  rewrite I. set (d := (length l - Z.to_nat kRingSlots)%nat).
  replace (if kRingSlots <? Z.of_nat (length l) then Z.of_nat (length l) - kRingSlots else 0)
    with (Z.of_nat d) by (unfold d, kRingSlots; destruct (Z.ltb_spec 300000 (Z.of_nat (length l))); lia).
  apply list_eq. intros i. rewrite !list_lookup_fmap. unfold last_n. fold d. rewrite lookup_drop.
  destruct (l !! (d + i)%nat) as [s|] eqn:E.
  - pose proof (lookup_lt_Some _ _ _ E). rewrite lookup_seqZ_lt by lia. cbn. f_equal.
    rewrite <- Nat2Z.inj_add. apply H; [done|]. unfold d, kRingSlots in *. lia.
  - apply lookup_ge_None in E. rewrite lookup_seqZ_ge by lia. done.
Qed.

Lemma ring_dump_last_witness :
  ring_dump (ring_run [[newline]; []; [Ascii.one]]) =
    ring_header ++ [newline; newline; Ascii.one; newline] ++ ring_footer.
Proof. apply (ring_dump_last [[newline]; []; [Ascii.one]]). reflexivity. Defined.
