(* ===== verification/Benchmark.v ===== *)
(** * The benchmark workload

    [generate_txns] and its helpers of [benchmark.h]: accounts with a skew,
    forced cross-shard or intra-shard partners, self-transfers removed.

    Representation. The random engine is a parameter: the [i]-th draw of each
    distribution, with the documented range of the distribution as hypothesis.
    A [double] is the rational it holds; the value of
    [llround(hotspot + N(0, sigma))] is one draw. An index outside [freq] is
    the fault [BadIndex]. What is printed is a list of pieces. The order in
    which [std::sort] leaves equal counts is not specified: the sort is a
    parameter. *)
From S2P Require Import Prelude Text.
From Stdlib Require Import QArith.
#[local] Open Scope Z_scope.

Record Txn := MkTxn { isRead : bool; src : Z; dst : Z; amount : Z }.
#[export] Instance Txn_eq_dec : EqDecision Txn.
Proof. solve_decision. Defined.

Definition Qlt_bool (x y : Q) : bool := negb (Qle_bool y x).

(** The engine: the draws of each distribution, by the number of the draw. *)
Record Rng := MkRng {
  uniform_int : Z → Z → nat → Z;
  uniform_real : nat → Q;
  normal_rounded : Z → Q → nat → Z }.

(** [uniform_int_distribution(a, b)] returns a value of [[a, b]],
    [uniform_real_distribution(0, 1)] one of [[0, 1)]. *)
Record rng_ok (g : Rng) : Prop := {
  uniform_int_range : ∀ a b i, a ≤ b → a ≤ uniform_int g a b i ≤ b;
  uniform_real_range : ∀ i, (0 <= uniform_real g i)%Q ∧ (uniform_real g i < 1)%Q }.

Record BenchState := MkBench {
  draws : nat; freq : list Z; txns : list Txn; bench_cout : list Piece }.
#[export] Instance rebuild_BenchState : Rebuild BenchState := λ s,
  MkBench (draws s) (freq s) (txns s) (bench_cout s).
#[export] Instance upd_draws : Upd draws := ltac:(derive_upd).
#[export] Instance upd_freq : Upd freq := ltac:(derive_upd).
#[export] Instance upd_txns : Upd txns := ltac:(derive_upd).
#[export] Instance upd_bench_cout : Upd bench_cout := ltac:(derive_upd).
Abbreviation BenchM := (M BenchState).

(** Reflecting a value into [[0, N)]: the loop, whether it ended in the fuel. *)
Fixpoint reflect_edges (fuel : nat) (N val : Z) : option Z :=
  if (0 <=? val) && (val <? N) then Some val else
  match fuel with
  | O => None
  | S fuel =>
      let val := if val <? 0 then - val else val in
      let val := if N <=? val then 2 * N - val - 2 else val in
      reflect_edges fuel N val
  end.
(** Enough for every [long long] value. *)
Definition reflect_edges_fuel (N val : Z) : nat := S (Z.to_nat (Z.abs val)).

Section generate.
Variable g : Rng.

Definition draw {A} (f : nat → A) : BenchM A :=
  i ← gets draws; draws ::= S i ;; mret (f i).

Definition sample_uniform (N : Z) : BenchM Z :=
  if N <=? 1 then mret 0 else draw (uniform_int g 0 (N - 1)).

Definition sample_gaussian_centered (N hotspot : Z) (sigma : Q) : BenchM Z :=
  if Qle_bool sigma 0 then mret (Z.rem hotspot N) else
  val ← draw (normal_rounded g hotspot sigma);
  match reflect_edges (reflect_edges_fuel N val) N val with Some v => mret v | None => raise OutOfRange end.

Definition choose_account (numAccounts : Z) (skewness : Q) (hotspot : Z) : BenchM Z :=
  if numAccounts <=? 1 then mret 1 else
  if Qle_bool skewness 0 then x ← sample_uniform numAccounts; mret (x + 1) else
  if Qle_bool 1 skewness then x ← sample_gaussian_centered numAccounts hotspot 1; mret (x + 1) else
  p ← draw (uniform_real g);
  if Qlt_bool skewness p then x ← sample_uniform numAccounts; mret (x + 1) else
  let spread := (inject_Z numAccounts / 4 * (1 - skewness) * (1 - skewness))%Q in
  let sigma := if Qlt_bool 1 spread then spread else 1%Q in
  x ← sample_gaussian_centered numAccounts hotspot sigma; mret (x + 1).

Definition shard_size (numAccounts numShards : Z) : Z :=
  Z.quot (numAccounts + numShards - 1) numShards.
Definition getShard (shardSize acct : Z) : Z := Z.quot (acct - 1) (Z.max 1 shardSize).

(** Up to [tries] new partners while the shards of the two are in the wrong
    relation ([cross]: they should differ). *)
Fixpoint redraw (tries : nat) (cross : bool) (numAccounts shardSize srcShard dst : Z) : BenchM Z :=
  if eqb cross (negb (getShard shardSize dst =? srcShard)) then mret dst else
  match tries with
  | O => mret dst
  | S tries =>
      x ← sample_uniform numAccounts;
      redraw tries cross numAccounts shardSize srcShard (x + 1)
  end.

(** The fallback: a partner of shard [target], if that shard has accounts. *)
Definition partner_in (numAccounts shardSize target src : Z) : BenchM Z :=
  let start := target * shardSize + 1 in
  let end_ := Z.min numAccounts (start + shardSize - 1) in
  if start <=? end_ then x ← sample_uniform (end_ - start + 1); mret (x + start) else mret src.

Definition choose_partner (numAccounts numShards shardSize : Z) (cross : bool) (src dst : Z)
    : BenchM Z :=
  let srcShard := getShard shardSize src in
  dst ← redraw 4 cross numAccounts shardSize srcShard dst;
  if eqb cross (negb (getShard shardSize dst =? srcShard)) then mret dst
  else partner_in numAccounts shardSize
         (if cross then Z.rem (srcShard + 1) numShards else srcShard) src.

Definition count_src (i : Z) : BenchM unit :=
  f ← gets freq;
  if (0 <=? i) && (i <? Z.of_nat (length f))
  then freq ::= <[Z.to_nat i := nth (Z.to_nat i) f 0 + 1]> f
  else raise BadIndex.

Definition generate_txn (numAccounts numShards hotspot : Z)
    (readOnlyPct crossShardPct skewness : Q) : BenchM unit :=
  let shardSize := shard_size numAccounts numShards in
  u ← draw (uniform_real g);
  v ← draw (uniform_real g);
  let isRead := Qlt_bool u readOnlyPct in
  let forceCross := Qlt_bool v crossShardPct in
  src ← choose_account numAccounts skewness hotspot;
  dst ← choose_account numAccounts skewness hotspot;
  dst ← (if isRead then mret 0
         else choose_partner numAccounts numShards shardSize forceCross src dst);
  count_src (src - 1) ;;
  if isRead then txns ::~ (λ l, l ++ [MkTxn true src 0 0])
  else
    amount ← draw (uniform_int g 1 5);
    txns ::~ (λ l, l ++ [MkTxn false src dst amount]).

Definition self_transfer (t : Txn) : bool := negb (isRead t) && (src t =? dst t).

(** ** The statistics printed after the loop *)

(** The accounts with their counts, in order. *)
Definition counted (f : list Z) : list (Z * Z) := zip (seqZ 1 (Z.of_nat (length f))) f.

Record Tally := MkTally { minIdx : Z; maxIdx : Z; total : Z }.
Definition tally_one (t : Tally) (e : Z * Z) : Tally :=
  let '(i, n) := e in
  MkTally (if (0 <? n) && (minIdx t =? -1) then i else minIdx t)
    (if 0 <? n then i else maxIdx t) (total t + n).
Definition tally (f : list Z) : Tally := fold_left tally_one (counted f) (MkTally (-1) (-1) 0).

Definition sumIdx (f : list Z) : Z := foldr (λ '(i, n) s, i * n + s) 0 (counted f).
Definition meanIdx (f : list Z) : Piece :=
  if 0 <? total (tally f) then Quot (sumIdx f) (total (tally f)) else Quot 0 1.

(** At most ten lines, up to the first account that was never drawn. *)
Definition top_accounts (sv : list (Z * Z)) : list (Z * Z) :=
  (fix go (k : nat) (l : list (Z * Z)) := match k, l with
   | S k, (n, i) :: l => if n =? 0 then [] else (n, i) :: go k l
   | _, _ => []
   end) 10%nat sv.

Section report.
(** [std::sort(sv, first larger first)] *)
Variable sort_by_count : list (Z * Z) → list (Z * Z).

Definition distribution (numAccounts numShards hotspot : Z) (skewness : Q) (f : list Z) : list Piece :=
  [Str (nl +:+ "=== Distribution Statistics ===" +:+ nl);
   Str ("numAccounts=" +:+ to_string numAccounts +:+ " numShards=" +:+ to_string numShards
        +:+ " hotspot=" +:+ to_string hotspot +:+ " skewness=");
   Quot (Qnum skewness) (Z.pos (Qden skewness)); Str nl;
   Str ("Accounts touched: " +:+ to_string (if minIdx (tally f) =? -1 then 0 else minIdx (tally f))
        +:+ " .. " +:+ to_string (if maxIdx (tally f) =? -1 then 0 else maxIdx (tally f)) +:+ nl);
   Str "Mean account index (weighted): "; meanIdx f; Str nl;
   Str ("Top accounts (by src frequency):" +:+ nl)] ++
  ((λ '(n, i), Str ("  Account " +:+ to_string i +:+ " -> " +:+ to_string n +:+ " occurrences" +:+ nl))
     <$> top_accounts (sort_by_count ((λ '(i, n), (n, i)) <$> counted f))) ++
  [Str ("============================================" +:+ nl +:+ nl)].

Definition generate_txns (totalTxns numAccounts numShards : Z)
    (readOnlyPct crossShardPct skewness : Q) : BenchM (list Txn) :=
  if numAccounts <=? 0 then gets txns else
  hotspot ← draw (uniform_int g 1 (Z.max 1 (numAccounts - 2)));
  freq ::= replicate (Z.to_nat numAccounts) 0 ;;
  for_each (seqZ 0 totalTxns) (λ _,
    generate_txn numAccounts numShards hotspot readOnlyPct crossShardPct skewness) ;;
  f ← gets freq;
  bench_cout ::~ (λ o, o ++ distribution numAccounts numShards hotspot skewness f) ;;
  txns ::~ filter (λ t, ¬ self_transfer t) ;;
  gets txns.
End report.
End generate.

Definition bench_init : BenchState := MkBench 0 [] [] [].
