(* ===== verification/BenchmarkProofs.v ===== *)
(** * The benchmark workload: what it generates *)
From S2P Require Import Prelude Text Benchmark Sharding ShardingProofs.
From Stdlib Require Import QArith.
#[local] Open Scope Z_scope.

(** ** Rationals *)
Lemma Qlt_bool_lt x y : Qlt_bool x y = true ↔ (x < y)%Q.
Proof.
  unfold Qlt_bool. rewrite negb_true_iff. split.
  - intros H. apply Qnot_le_lt. intros L. apply Qle_bool_iff in L. congruence.
  - intros H. destruct (Qle_bool y x) eqn:E; [|done]. apply Qle_bool_iff in E.
    by apply Qle_not_lt in E.
Qed.

(** ** The reflection *)
Lemma reflect_total fuel N val :
  2 ≤ N → Z.abs val < Z.of_nat fuel → ∃ v, reflect_edges fuel N val = Some v ∧ 0 ≤ v < N.
Proof.
  intros HN. revert val. induction fuel as [|fuel IH]; intros val H; [lia|].
  cbn [reflect_edges]. destruct ((0 <=? val) && (val <? N)) eqn:E; [exists val; split; [done|lia]|].
  assert (Done : ∀ v, 0 ≤ v < N → reflect_edges fuel N v = Some v).
  { intros v Hv. destruct fuel; cbn [reflect_edges]; by replace (_ && _) with true by lia. }
  cbv zeta. set (v := if val <? 0 then - val else val). assert (Hv : v = Z.abs val).
  { unfold v. destruct (Z.ltb_spec val 0); lia. }
  destruct (Z.leb_spec N v) as [L|L]; [|exists v; split; [apply Done|]; lia].
  destruct (Z.lt_ge_cases (2 * N - v - 2) 0) as [M|M]; [apply IH; lia|].
  exists (2 * N - v - 2). split; [apply Done|]; lia.
Qed.

Section bench.
Variable g : Rng.
Hypothesis g_ok : rng_ok g.

(** What drawing keeps. *)
Definition made (s : BenchState) : list Z * list Txn * list Piece := (freq s, txns s, bench_cout s).

Lemma draw_spec {A} (f : nat → A) (P : A → Prop) s :
  (∀ i, P (f i)) → wp no_fault (draw f) s (λ x s', P x ∧ made s' = made s).
Proof. intros H. unfold draw, made. repeat (wp_step; cbv zeta). simp_upd. auto. Qed.

Lemma sample_uniform_spec N s :
  1 ≤ N → wp no_fault (sample_uniform g N) s (λ x s', 0 ≤ x < N ∧ made s' = made s).
Proof.
  intros H. unfold sample_uniform. destruct (Z.leb_spec N 1); [wp_step; split; [lia|done]|].
  eapply wp_mono; [|apply (draw_spec _ (λ x, 0 ≤ x ≤ N - 1))].
  - cbn beta. intros x s' [B M]. split; [lia|done].
  - intros i. apply uniform_int_range; [done|lia].
Qed.

Lemma sample_gaussian_spec N hotspot sigma s :
  2 ≤ N → 0 ≤ hotspot →
  wp no_fault (sample_gaussian_centered g N hotspot sigma) s (λ x s', 0 ≤ x < N ∧ made s' = made s).
Proof.
  intros H Hh. unfold sample_gaussian_centered. destruct (Qle_bool sigma 0).
  - wp_step. split; [apply Z.rem_bound_pos; lia|done].
  - wp_step. eapply wp_mono; [|apply (draw_spec _ (λ _, True)); done]. cbn beta. intros x s' [_ M].
    destruct (reflect_total (reflect_edges_fuel N x) N x H) as (v & -> & B).
    { unfold reflect_edges_fuel. lia. }
    by wp_step.
Qed.

Lemma choose_account_spec N skew hotspot s :
  1 ≤ N → 0 ≤ hotspot →
  wp no_fault (choose_account g N skew hotspot) s (λ x s', 1 ≤ x ≤ N ∧ made s' = made s).
Proof.
  intros H Hh. unfold choose_account. destruct (Z.leb_spec N 1); [wp_step; split; [lia|done]|].
  assert (U : ∀ s1, made s1 = made s →
    wp no_fault (x ← sample_uniform g N; mret (x + 1)) s1 (λ x s', 1 ≤ x ≤ N ∧ made s' = made s)).
  { intros s1 E. wp_step. eapply wp_mono; [|by apply sample_uniform_spec]. cbn beta.
    intros x s2 [B M]. wp_step. split; [lia|congruence]. }
  assert (G : ∀ sigma s1, made s1 = made s →
    wp no_fault (x ← sample_gaussian_centered g N hotspot sigma; mret (x + 1)) s1
      (λ x s', 1 ≤ x ≤ N ∧ made s' = made s)).
  { intros sigma s1 E. wp_step. eapply wp_mono; [|apply sample_gaussian_spec; lia]. cbn beta.
    intros x s2 [B M]. wp_step. split; [lia|congruence]. }
  destruct (Qle_bool skew 0); [by apply U|]. destruct (Qle_bool 1 skew); [by apply G|].
  wp_step. eapply wp_mono; [|apply (draw_spec _ (λ _, True)); done]. cbn beta. intros p s1 [_ M].
  destruct (Qlt_bool skew p); [by apply U|by apply G].
Qed.

(** ** Shards *)
Lemma shard_size_bounds N k : 1 ≤ N → 1 ≤ k → 1 ≤ shard_size N k ∧ N ≤ shard_size N k * k.
Proof.
  intros HN Hk. unfold shard_size. pose proof (Z.quot_rem' (N + k - 1) k) as E.
  pose proof (Z.rem_bound_pos (N + k - 1) k) as B. nia.
Qed.
Lemma getShard_iff sz x c : 1 ≤ sz → 1 ≤ x → getShard sz x = c ↔ c * sz + 1 ≤ x ≤ (c + 1) * sz.
Proof.
  intros Hs Hx. unfold getShard. rewrite Z.max_r by lia.
  pose proof (Z.quot_rem' (x - 1) sz). pose proof (Z.rem_bound_pos (x - 1) sz). split; intros; nia.
Qed.
Lemma getShard_range N k x : 1 ≤ k → 1 ≤ x ≤ N → 0 ≤ getShard (shard_size N k) x < k.
Proof.
  intros Hk Hx. destruct (shard_size_bounds N k) as [B1 B2]; [lia..|].
  pose proof (proj1 (getShard_iff _ x _ B1 ltac:(lia)) eq_refl). nia.
Qed.

Lemma redraw_spec tries cross N sz sh dst s :
  1 ≤ N → 1 ≤ dst ≤ N →
  wp no_fault (redraw g tries cross N sz sh dst) s (λ x s', 1 ≤ x ≤ N ∧ made s' = made s).
Proof.
  intros HN. revert dst s. induction tries as [|tries IH]; intros dst s Hd; cbn [redraw];
    (destruct (eqb _ _); [by wp_step|]); [by wp_step|].
  wp_step. eapply wp_mono; [|by apply sample_uniform_spec]. cbn beta. intros x s1 [B M].
  eapply wp_mono; [|apply IH; lia]. cbn beta. intros y s2 [By My]. split; [done|congruence].
Qed.

Lemma partner_in_spec N k target src s :
  1 ≤ N → 1 ≤ k → 1 ≤ src ≤ N → 0 ≤ target →
  wp no_fault (partner_in g N (shard_size N k) target src) s (λ x s', 1 ≤ x ≤ N ∧
    (x = src ∨ getShard (shard_size N k) x = target) ∧ made s' = made s).
Proof.
  intros HN Hk Hs Ht. destruct (shard_size_bounds N k HN Hk) as [B1 _]. unfold partner_in. cbv zeta.
  set (start := target * _ + 1). set (end_ := Z.min N _).
  assert (1 ≤ start) by (unfold start; nia).
  destruct (Z.leb_spec start end_) as [L|]; [|wp_step; auto].
  wp_step. eapply wp_mono; [|apply sample_uniform_spec; lia]. cbn beta. intros x s1 [B M]. wp_step.
  split_and!; [lia|lia| |done]. right. apply getShard_iff; [done|lia|]. unfold start, end_ in *. lia.
Qed.

(** The shards of the two accounts are in the wanted relation. *)
Definition wanted (cross : bool) (sz src dst : Z) : Prop :=
  if cross then getShard sz dst ≠ getShard sz src else getShard sz dst = getShard sz src.

Lemma wanted_eqb cross sz src dst :
  eqb cross (negb (getShard sz dst =? getShard sz src)) = true → wanted cross sz src dst.
Proof. unfold wanted. destruct cross, (Z.eqb_spec (getShard sz dst) (getShard sz src)); cbn; done. Qed.

Lemma choose_partner_spec N k cross src dst s :
  1 ≤ N → 1 ≤ k → 1 ≤ src ≤ N → 1 ≤ dst ≤ N →
  wp no_fault (choose_partner g N k (shard_size N k) cross src dst) s (λ x s', 1 ≤ x ≤ N ∧
    (x = src ∨ ((cross = true → 2 ≤ k) → wanted cross (shard_size N k) src x)) ∧ made s' = made s).
Proof.
  intros HN Hk Hs Hd. unfold choose_partner. cbv zeta. wp_step.
  eapply wp_mono; [|by apply redraw_spec]. cbn beta. intros x s1 [B M].
  destruct (eqb _ _) eqn:E; [wp_step; auto using wanted_eqb|].
  pose proof (getShard_range N k src Hk Hs) as R.
  eapply wp_mono; [|apply (partner_in_spec N k); try done; destruct cross; [apply Z.rem_nonneg|]; lia].
  cbn beta. intros y s2 (By & Hy & My). split_and!; [lia..| |congruence].
  destruct Hy as [->|Hy]; [by left|right]. intros H2. unfold wanted. rewrite Hy. destruct cross; [|done].
  specialize (H2 eq_refl). intros E2.
  destruct (decide (getShard (shard_size N k) src + 1 = k)) as [K|K].
  - rewrite K, Z.rem_same in E2 by lia. lia.
  - rewrite Z.rem_small in E2 by lia. lia.
Qed.

(** What is true of every transaction that is pushed. *)
Definition txn_ok (N k : Z) (crossShardPct : Q) (t : Txn) : Prop :=
  1 ≤ src t ≤ N ∧
  if isRead t then dst t = 0 ∧ amount t = 0
  else 1 ≤ dst t ≤ N ∧ 1 ≤ amount t ≤ 5 ∧
    (dst t = src t ∨
     ((crossShardPct <= 0)%Q → wanted false (shard_size N k) (src t) (dst t)) ∧
     ((1 <= crossShardPct)%Q → 2 ≤ k → wanted true (shard_size N k) (src t) (dst t))).

(** The counters after one more transaction from account [i]. *)
Definition bump (i : Z) (f : list Z) : list Z :=
  <[Z.to_nat (i - 1) := nth (Z.to_nat (i - 1)) f 0 + 1]> f.

Lemma count_src_spec i s :
  1 ≤ i ≤ Z.of_nat (length (freq s)) →
  wp no_fault (count_src (i - 1)) s (λ _ s', made s' = (bump i (freq s), txns s, bench_cout s)).
Proof.
  intros B. unfold count_src. wp_step. wp_step. cbv zeta.
  destruct ((0 <=? i - 1) && _) eqn:E; [|lia]. by wp_step.
Qed.

Lemma generate_txn_spec N k hotspot r c sk s :
  1 ≤ N → 1 ≤ k → 0 ≤ hotspot → Z.of_nat (length (freq s)) = N →
  wp no_fault (generate_txn g N k hotspot r c sk) s (λ _ s', ∃ t, txn_ok N k c t ∧
    made s' = (bump (src t) (freq s), txns s ++ [t], bench_cout s)).
Proof.
  intros HN Hk Hh L. unfold generate_txn. cbv zeta.
  assert (U : ∀ s1, wp no_fault (draw (uniform_real g)) s1 (λ x s2,
    ((0 <= x)%Q ∧ (x < 1)%Q) ∧ made s2 = made s1)) by (intros; apply draw_spec, g_ok).
  wp_step. eapply wp_mono; [|apply U]. cbn beta. intros u s1 [_ M1].
  wp_step. eapply wp_mono; [|apply U]. cbn beta. intros v s2 [Bv M2].
  wp_step. eapply wp_mono; [|by apply choose_account_spec]. cbn beta. intros sr s3 [Bs M3].
  wp_step. eapply wp_mono; [|by apply choose_account_spec]. cbn beta. intros ds s4 [Bd M4].
  assert (made s4 = made s) as M by congruence. clear M1 M2 M3 M4. wp_step.
  destruct (Qlt_bool u r).
  - injection M as F4 T4 C4. wp_step. wp_step. eapply wp_mono; [|apply count_src_spec; rewrite F4; lia].
    cbn beta. intros _ s5 [= F5 T5 C5]. wp_step. exists (MkTxn true sr 0 0). split; [by cbn|].
    unfold made. simp_upd. cbn. congruence.
  - eapply wp_mono; [|by apply choose_partner_spec]. cbn beta. intros x s5 (Bx & Wx & M5).
    rewrite M in M5. injection M5 as F5 T5 C5.
    wp_step. eapply wp_mono; [|apply count_src_spec; rewrite F5; lia]. cbn beta. intros _ s6 M6. wp_step.
    eapply wp_mono; [|apply (draw_spec _ (λ a, 1 ≤ a ≤ 5)); intros; by apply uniform_int_range].
    cbn beta. intros a s7 [Ba M7]. rewrite M6 in M7. injection M7 as F7 T7 C7.
    wp_step. exists (MkTxn false sr x a). split; [|unfold made; simp_upd; cbn; congruence].
    split; [done|]. cbn. split_and!; [lia..|].
    destruct Wx as [->|W]; [by left|right]. split.
    + intros C. destruct (Qlt_bool v c) eqn:V; [|by apply W]. exfalso. apply Qlt_bool_lt in V.
      by apply (Qlt_not_le _ _ (Qle_lt_trans _ _ _ (proj1 Bv) V)).
    + intros C K. destruct (Qlt_bool v c) eqn:V; [by apply W|]. exfalso.
      apply not_true_iff_false in V. apply V, Qlt_bool_lt. eapply Qlt_le_trans; [apply Bv|done].
Qed.

Definition bumps (ts : list Txn) (f : list Z) : list Z := fold_left (λ f t, bump (src t) f) ts f.

Lemma generate_loop N k hotspot r c sk (l : list Z) s :
  1 ≤ N → 1 ≤ k → 0 ≤ hotspot → Z.of_nat (length (freq s)) = N →
  wp no_fault (for_each l (λ _, generate_txn g N k hotspot r c sk)) s (λ _ s', ∃ ts,
    length ts = length l ∧ Forall (txn_ok N k c) ts ∧
    made s' = (bumps ts (freq s), txns s ++ ts, bench_cout s)).
Proof.
  intros HN Hk Hh. revert s. induction l as [|x l IH]; intros s L; cbn [for_each].
  - wp_step. exists []. unfold made. by rewrite app_nil_r.
  - wp_step. eapply wp_mono; [|by apply generate_txn_spec]. cbn beta.
    intros _ s1 (t & Ht & [= F1 T1 C1]). assert (Z.of_nat (length (freq s1)) = N) as L1.
    { rewrite F1. unfold bump. by rewrite length_insert. }
    eapply wp_mono; [|by apply IH]. cbn beta. intros _ s2 (ts & Lt & Ot & E). exists (t :: ts).
    split_and!; [cbn; congruence|by constructor|]. rewrite E, F1, T1, C1, <- app_assoc. done.
Qed.
End bench.


(** ** What is counted *)
Definition drawn_from (i : Z) (ts : list Txn) : Z := Z.of_nat (length (filter (λ t, src t = i) ts)).
Definition source_counts (N : Z) (ts : list Txn) : list Z := (λ i, drawn_from i ts) <$> seqZ 1 N.

Lemma source_counts_lookup N ts n :
  source_counts N ts !! n = if decide (Z.of_nat n < N) then Some (drawn_from (1 + Z.of_nat n) ts) else None.
Proof.
  unfold source_counts. rewrite list_lookup_fmap. destruct (decide _).
  - by rewrite lookup_seqZ_lt by lia.
  - by rewrite lookup_seqZ_ge by lia.
Qed.

Lemma drawn_from_app i ts1 ts2 : drawn_from i (ts1 ++ ts2) = drawn_from i ts1 + drawn_from i ts2.
Proof. unfold drawn_from. rewrite list.filter_app, length_app. lia. Qed.
Lemma drawn_from_one i t : drawn_from i [t] = if decide (src t = i) then 1 else 0.
Proof. unfold drawn_from. rewrite list.filter_cons, list.filter_nil. by destruct (decide _). Qed.

Lemma source_counts_bump N ts t :
  1 ≤ src t ≤ N → source_counts N (ts ++ [t]) = bump (src t) (source_counts N ts).
Proof.
  intros B. unfold bump. set (k := Z.to_nat (src t - 1)).
  assert (source_counts N ts !! k = Some (drawn_from (src t) ts)) as K.
  { rewrite source_counts_lookup, decide_True by lia. do 2 f_equal. lia. }
  rewrite (nth_lookup_Some _ _ 0 _ K). apply list_eq. intros n. rewrite list_lookup_insert.
  rewrite !source_counts_lookup, drawn_from_app, drawn_from_one.
  destruct (decide (k = n ∧ _)) as [[<- _]|Hn].
  - rewrite !decide_True by lia. do 3 f_equal. lia.
  - destruct (decide (Z.of_nat n < N)) as [Ln|]; [|done]. rewrite (decide_False (P := src t = _)); [f_equal; lia|].
    intros E. apply Hn. split; [lia|]. apply lookup_lt_Some in K. lia.
Qed.

Lemma bumps_counts N ts :
  Forall (λ t, 1 ≤ src t ≤ N) ts → bumps ts (replicate (Z.to_nat N) 0) = source_counts N ts.
Proof.
  induction ts as [|t ts IH] using rev_ind; intros F.
  - apply list_eq. intros n. rewrite source_counts_lookup. cbn.
    destruct (decide _); [by rewrite lookup_replicate_2 by lia|]. apply lookup_ge_None_2. rewrite length_replicate. lia.
  - apply Forall_app in F as [F [Ft _]%list.Forall_cons]. rewrite source_counts_bump, <- IH by done.
    unfold bumps. by rewrite fold_left_app.
Qed.

(** All that is generated, the self-transfers included: the result is what is
    left without them, the report is about all of it. *)
Lemma generate_txns_spec (g : Rng) (sort_by_count : list (Z * Z) → list (Z * Z)) (n N k : Z) (r c sk : Q) :
  rng_ok g → 1 ≤ N → 1 ≤ k →
  wp no_fault (generate_txns g sort_by_count n N k r c sk) bench_init (λ l s, ∃ all hotspot,
    length all = Z.to_nat n ∧ Forall (txn_ok N k c) all ∧ l = filter (λ t, ¬ self_transfer t) all ∧
    1 ≤ hotspot ≤ Z.max 1 (N - 2) ∧
    bench_cout s = distribution sort_by_count N k hotspot sk (source_counts N all)).
Proof.
  intros G HN Hk. unfold generate_txns. destruct (Z.leb_spec N 0); [lia|]. wp_step.
  eapply wp_mono; [|apply (draw_spec _ (λ h, 1 ≤ h ≤ Z.max 1 (N - 2)))];
    [|intros i; apply (uniform_int_range g G); lia].
  cbn beta. intros h s1 [Hh [= F1 T1 C1]]. wp_step. wp_step. wp_step.
  eapply wp_mono; [|apply (generate_loop _ G); try lia; simp_upd; rewrite length_replicate; lia].
  cbn beta. intros _ s2 (all & La & Fa & [= F2 T2 C2]). rewrite length_seqZ in La.
  simp_upd. rewrite bumps_counts in F2; [|eapply list.Forall_impl; [exact Fa|]; by intros t [Ht _]].
  repeat (wp_step; cbv zeta). exists all, h. simp_upd. rewrite F2, T2, C2, T1, C1. done.
Qed.

(** C30: the workload is well formed. Whatever the engine draws within its
    distributions, [generate_txns] returns, and every transaction it returns is
    a read of an existing account, or a transfer of 1 to 5 between two
    different existing accounts; with a cross-shard share of 0 every transfer
    stays in one shard, with a share of 1 and at least two shards every
    transfer crosses. *)
Theorem generate_txns_ok (g : Rng) (sort_by_count : list (Z * Z) → list (Z * Z)) (total N k : Z) (r c sk : Q) :
  rng_ok g → 1 ≤ N → 1 ≤ k →
  ∃ l s, generate_txns g sort_by_count total N k r c sk bench_init = Ok (l, s) ∧
    ∀ t, t ∈ l → 1 ≤ src t ≤ N ∧
      if isRead t then dst t = 0 ∧ amount t = 0
      else 1 ≤ dst t ≤ N ∧ dst t ≠ src t ∧ 1 ≤ amount t ≤ 5 ∧
        ((c <= 0)%Q → getShard (shard_size N k) (dst t) = getShard (shard_size N k) (src t)) ∧
        ((1 <= c)%Q → 2 ≤ k →
          getShard (shard_size N k) (dst t) ≠ getShard (shard_size N k) (src t)).
Proof.
  intros G HN Hk.
  pose proof (generate_txns_spec g sort_by_count total N k r c sk G HN Hk) as W. unfold wp in W.
  destruct (generate_txns _ _ _ _ _ _ _ _ _) as [[l s]|]; [|done].
  destruct W as (all & _ & _ & F & -> & _). exists (filter (λ t, ¬ self_transfer t) all), s. split; [done|].
  intros t [NS Ht]%list_elem_of_filter. rewrite list.Forall_forall in F.
  destruct (F t Ht) as [Hs Ok]. split; [done|]. unfold self_transfer in NS.
  destruct (isRead t); [done|]. destruct Ok as (Bd & Ba & O).
  assert (dst t ≠ src t) as NE by (intros E; rewrite E, Z.eqb_refl in NS; by destruct NS).
  destruct O as [E|[O1 O2]]; [by destruct NE|]. done.
Qed.

(** A small engine: draw [i] of a range is [i] steps from its start, wrapped. *)
Definition small_rng : Rng := {|
  uniform_int a b i := a + Z.of_nat i mod (b - a + 1);
  uniform_real i := (Z.of_nat i mod 4 # 4);
  normal_rounded h _ i := h - Z.of_nat i |}.

Lemma small_rng_ok : rng_ok small_rng.
Proof.
  split.
  - intros a b i L. cbn. pose proof (Z.mod_pos_bound (Z.of_nat i) (b - a + 1)). lia.
  - intros i. cbn. pose proof (Z.mod_pos_bound (Z.of_nat i) 4). unfold Qle, Qlt. cbn. lia.
Qed.

Lemma generate_txns_ok_witness :
  (∃ l s, generate_txns small_rng (λ l, l) 12 9 3 (1 # 4) (1 # 2) (1 # 2) bench_init = Ok (l, s) ∧
    ∀ t, t ∈ l → 1 ≤ src t ≤ 9) ∧
  (λ l, length l) <$> value (generate_txns small_rng (λ l, l) 12 9 3 (1 # 4) (1 # 2) (1 # 2) bench_init)
    = Some 11%nat.
Proof.
  split; [|vm_compute; reflexivity].
  destruct (generate_txns_ok small_rng (λ l, l) 12 9 3 (1 # 4) (1 # 2) (1 # 2) small_rng_ok) as (l & s & E & H);
    [discriminate..|].
  exists l, s. split; [exact E|]. intros t Ht. exact (proj1 (H t Ht)).
Defined.

(** The workload and the system agree on the shards. When the clusters
    divide the accounts evenly, the shard the workload computes for an account
    is the cluster [MakeShardMap] gives it to, counted from 0. *)
Theorem benchmark_shards_agree (q k i : Z) :
  1 ≤ q → 1 ≤ k → 1 ≤ i ≤ q * k →
  MakeShardMap (q * k) k !! i = Some (getShard (shard_size (q * k) k) i + 1).
Proof.
  intros Hq Hk Hi. assert (S : shard_size (q * k) k = q).
  { unfold shard_size. replace (q * k + k - 1) with ((k - 1) + q * k) by lia.
    rewrite Z.quot_add, Z.quot_small by nia. lia. }
  apply MakeShardMap_lookup; [lia|nia|]. rewrite S, Z.quot_mul, Z.rem_mul by lia.
  pose proof (proj1 (getShard_iff q i _ Hq ltac:(lia)) eq_refl) as B. unfold first_item.
  assert (0 ≤ getShard q i) by (unfold getShard; apply Z.quot_pos; lia).
  rewrite !Z.min_r by lia. split; [nia|lia].
Qed.

Lemma benchmark_shards_agree_witness :
  MakeShardMap 9 3 !! 7 = Some (getShard (shard_size 9 3) 7 + 1) ∧ getShard (shard_size 9 3) 7 = 2.
Proof. split; [apply (benchmark_shards_agree 3 3 7); lia|reflexivity]. Defined.

(** Otherwise they can differ: ten accounts in three clusters. *)
Example uneven_shards_differ :
  MakeShardMap 10 3 !! 8 = Some 3 ∧ getShard (shard_size 10 3) 8 + 1 = 2.
Proof. split; vm_compute; reflexivity. Qed.
