(* ===== verification/BenchReport.v ===== *)
(** * The benchmark workload: the statistics that are printed

    The report of [generate_txns] is about everything that was generated, the
    self-transfers included that the result leaves out: how many transactions,
    the lowest, the highest and the mean source account, and the accounts that
    were drawn most often. *)
From S2P Require Import Prelude Text Benchmark BenchmarkProofs.
From Stdlib Require Import QArith.
#[local] Open Scope Z_scope.

(** ** Sums *)
Fixpoint sum_over {A} (w : A → Z) (l : list A) : Z :=
  match l with [] => 0 | x :: l => w x + sum_over w l end.

Lemma sum_over_plus {A} (w1 w2 : A → Z) l :
  sum_over (λ x, w1 x + w2 x) l = sum_over w1 l + sum_over w2 l.
Proof. induction l; cbn; lia. Qed.
Lemma sum_over_0 {A} (w : A → Z) l : (∀ x, x ∈ l → w x = 0) → sum_over w l = 0.
Proof.
  induction l as [|x l IH]; intros H; cbn; [done|].
  rewrite (H x) by apply list_elem_of_here. rewrite IH; [done|]. intros y Hy. by apply H, list_elem_of_further.
Qed.
Lemma sum_over_ext {A} (w1 w2 : A → Z) l : (∀ x, w1 x = w2 x) → sum_over w1 l = sum_over w2 l.
Proof. intros H. induction l; cbn; rewrite ?H; congruence. Qed.
Lemma sum_over_single (w : Z → Z) k l :
  NoDup l → k ∈ l → sum_over (λ i, w i * (if decide (k = i) then 1 else 0)) l = w k.
Proof.
  induction l as [|x l IH]; intros Hd Hk; [by apply list.not_elem_of_nil in Hk|]. cbn.
  apply list.NoDup_cons in Hd as [Hx Hd]. apply list.elem_of_cons in Hk as [<-|Hk].
  - rewrite decide_True by done. rewrite sum_over_0; [lia|]. intros y Hy. rewrite decide_False; [lia|].
    by intros ->.
  - rewrite decide_False by (by intros ->). rewrite IH by done. lia.
Qed.

(** Any weight of the accounts, summed with the counts, is the weight of the
    transactions. *)
Lemma weighted_counts (w : Z → Z) N ts :
  Forall (λ t, 1 ≤ src t ≤ N) ts →
  sum_over (λ i, w i * drawn_from i ts) (seqZ 1 N) = sum_over (λ t, w (src t)) ts.
Proof.
  induction ts as [|t ts IH]; intros F; cbn.
  - apply sum_over_0. intros i _. unfold drawn_from. cbn. lia.
  - apply list.Forall_cons in F as [Ht F]. rewrite <- IH by done.
    rewrite <- (sum_over_single w (src t) (seqZ 1 N)); [|apply NoDup_seqZ|apply elem_of_seqZ; lia].
    rewrite <- sum_over_plus. apply sum_over_ext. intros i.
    change (t :: ts) with ([t] ++ ts). rewrite drawn_from_app, drawn_from_one. lia.
Qed.

Lemma counted_sources N ts : 0 ≤ N → counted (source_counts N ts) = (λ i, (i, drawn_from i ts)) <$> seqZ 1 N.
Proof.
  intros HN. unfold counted, source_counts. rewrite length_fmap, length_seqZ, Z2Nat.id by lia.
  rewrite zip_with_fmap_r. generalize (seqZ 1 N) as l. induction l as [|x l IH]; cbn; [done|]. by rewrite IH.
Qed.

(** ** The loop that finds the range *)
Lemma seqZ_sorted m n : 0 ≤ n → StronglySorted Z.le (seqZ m n).
Proof.
  intros Hn. revert m. pattern n. apply natlike_ind; [constructor|clear n Hn; intros n Hn IH m|done].
  rewrite seqZ_cons, Z.pred_succ by lia. constructor; [apply IH|]. apply list.Forall_forall.
  intros i Hi%elem_of_seqZ. lia.
Qed.

Lemma tally_total l t : total (fold_left tally_one l t) = total t + sum_over snd l.
Proof.
  revert t. induction l as [|[i n] l IH]; intros t; cbn [fold_left]; cbn; [lia|]. rewrite IH. cbn. lia.
Qed.

(** The accounts in the range found so far. *)
Record spans (l : list (Z * Z)) (t : Tally) : Prop := Spans {
  spans_none : minIdx t = -1 → maxIdx t = -1 ∧ ∀ i n, (i, n) ∈ l → n ≤ 0;
  spans_some : minIdx t ≠ -1 → (∃ n, (minIdx t, n) ∈ l ∧ 0 < n) ∧ (∃ n, (maxIdx t, n) ∈ l ∧ 0 < n) ∧
    ∀ i n, (i, n) ∈ l → 0 < n → minIdx t ≤ i ≤ maxIdx t }.

Lemma tally_spans l :
  StronglySorted (λ a b, a.1 ≤ b.1) l → Forall (λ e, 1 ≤ e.1) l →
  spans l (fold_left tally_one l (MkTally (-1) (-1) 0)).
Proof.
  induction l as [|[i n] l IH] using rev_ind; intros S F.
  - split; cbn; [|done]. intros _. split; [done|]. intros i n H. by apply list.not_elem_of_nil in H.
  - apply Forall_app in F as [F [Hi _]%list.Forall_cons]. cbn in Hi.
    apply StronglySorted_app in S as (Sx & S & _). destruct (IH S F) as [N P].
    rewrite fold_left_app. cbn [fold_left]. set (t := fold_left tally_one l _) in *.
    assert (∀ j m, (j, m) ∈ l → j ≤ i) as Up.
    { intros j m Hj. apply (Sx (j, m) (i, n) Hj). apply list_elem_of_singleton. done. }
    unfold tally_one. split; cbn.
    + destruct (Z.ltb_spec 0 n); cbn.
      * destruct (Z.eqb_spec (minIdx t) (-1)); intros; lia.
      * intros E. destruct (N E) as [Ex A]. split; [done|]. intros j m [H1|H1%list_elem_of_singleton]%elem_of_app; [eauto|].
        injection H1. lia.
    + destruct (Z.ltb_spec 0 n) as [Ln|Ln]; cbn.
      * destruct (Z.eqb_spec (minIdx t) (-1)) as [E|E]; intros _.
        -- destruct (N E) as [_ A]. split_and!; [exists n; split; [apply elem_of_app; right; by apply list_elem_of_singleton|done]..|].
           intros j m [H1|H1%list_elem_of_singleton]%elem_of_app Lm; [apply A in H1; lia|]. injection H1. lia.
        -- destruct (P E) as ((m1 & H1 & L1) & _ & A). split_and!.
           ++ exists m1. split; [apply elem_of_app; by left|done].
           ++ exists n. split; [apply elem_of_app; right; by apply list_elem_of_singleton|done].
           ++ intros j m [Hj|Hj%list_elem_of_singleton]%elem_of_app Lm.
              ** pose proof (A _ _ Hj Lm). pose proof (Up _ _ Hj). lia.
              ** injection Hj. intros -> ->. pose proof (Up _ _ H1). lia.
      * intros E. destruct (P E) as ((m1 & H1 & L1) & (m2 & H2 & L2) & A). split_and!.
        -- exists m1. split; [apply elem_of_app; by left|done].
        -- exists m2. split; [apply elem_of_app; by left|done].
        -- intros j m [Hj|Hj%list_elem_of_singleton]%elem_of_app Lm; [by apply (A j m)|]. injection Hj. lia.
Qed.

(** ** The accounts that are listed *)
Fixpoint top (k : nat) (l : list (Z * Z)) : list (Z * Z) :=
  match k, l with
  | S k, (n, i) :: l => if n =? 0 then [] else (n, i) :: top k l
  | _, _ => []
  end.
Lemma top_accounts_eq l : top_accounts l = top 10 l.
Proof. done. Qed.

(** On a list of counts, largest first, the accounts listed are the first ones,
    and what is left out does not count for more. *)
Lemma top_split k l :
  StronglySorted (λ a b, b.1 ≤ a.1) l → Forall (λ e, 0 ≤ e.1) l →
  ∃ rest, l = top k l ++ rest ∧ (length (top k l) ≤ k)%nat ∧ Forall (λ e, 0 < e.1) (top k l) ∧
    (length (top k l) = k ∨ Forall (λ e, e.1 = 0) rest).
Proof.
  revert l. induction k as [|k IH]; intros l S F; [exists l; split_and!; cbn; auto using Forall_nil_2|].
  destruct l as [|[n i] l]; [exists []; split_and!; cbn; auto using Forall_nil_2 with lia|]. cbn [top].
  apply list.Forall_cons in F as [Hn F]. cbn in Hn. inversion S as [|? ? S' Le]; subst.
  destruct (Z.eqb_spec n 0) as [->|Nz].
  - exists ((0, i) :: l). split_and!; [done|cbn; lia|constructor|right]. constructor; [done|].
    rewrite !list.Forall_forall in *. intros e He. specialize (F e He). specialize (Le e He). cbn in *. lia.
  - destruct (IH l S' F) as (rest & E & L & P & Q). exists rest. split_and!.
    + cbn. by rewrite <- E.
    + cbn. lia.
    + constructor; [cbn; lia|done].
    + destruct Q as [Q|Q]; [left; cbn; lia|by right].
Qed.

(** What [std::sort] is documented to do. *)
Definition sorts (f : list (Z * Z) → list (Z * Z)) : Prop :=
  ∀ l, f l ≡ₚ l ∧ StronglySorted (λ a b, b.1 ≤ a.1) (f l).

(** The accounts of the list: each with its own count, at most ten, and an
    account of the workload is missing only when ten others count for as much. *)
Lemma top_of_sources f N all :
  sorts f → 1 ≤ N → Forall (λ t, 1 ≤ src t ≤ N) all →
  let out := top_accounts (f ((λ '(i, n), (n, i)) <$> counted (source_counts N all))) in
  (length out ≤ 10)%nat ∧
  (∀ n i, (n, i) ∈ out → n = drawn_from i all ∧ 0 < n) ∧
  (∀ t, t ∈ all → (∃ n, (n, src t) ∈ out) ∨
     length out = 10%nat ∧ ∀ n i, (n, i) ∈ out → drawn_from (src t) all ≤ n).
Proof.
  intros Hf HN F. rewrite counted_sources, <- list_fmap_compose by lia. set (sv := _ <$> _).
  destruct (Hf sv) as [Hp Hs]. cbv zeta. rewrite top_accounts_eq.
  assert (∀ n i, (n, i) ∈ f sv ↔ n = drawn_from i all ∧ 1 ≤ i ≤ N) as In.
  { intros n i. rewrite Hp. unfold sv. rewrite list_elem_of_fmap. setoid_rewrite elem_of_seqZ. split.
    - intros (j & [= -> ->] & B). split; [done|lia].
    - intros [-> B]. exists i. split; [done|lia]. }
  assert (∀ i, 0 ≤ drawn_from i all) as Nn by (intros; unfold drawn_from; lia).
  destruct (top_split 10 (f sv) Hs) as (rest & E & L & P & Q).
  { apply list.Forall_forall. intros [n i] H. apply In in H as [-> _]. apply Nn. }
  rewrite list.Forall_forall in P. split_and!; [done| |].
  - intros n i H. split; [|by apply (P _ H)]. apply (In n i). rewrite E. apply elem_of_app. by left.
  - intros t Ht. pose proof Ht as Ht'. rewrite list.Forall_forall in F. apply F in Ht.
    assert ((drawn_from (src t) all, src t) ∈ f sv) as H by (by apply In).
    rewrite E in H. apply elem_of_app in H as [H|H]; [left; eauto|]. right. destruct Q as [Q|Q].
    + split; [done|]. intros n i Hi. rewrite E in Hs. apply StronglySorted_app in Hs as (Hs & _ & _).
      apply (Hs _ _ Hi H).
    + exfalso. rewrite list.Forall_forall in Q. apply Q in H. cbn in H.
      apply list_elem_of_split in Ht' as (l1 & l2 & ->). revert H. change (t :: l2) with ([t] ++ l2).
      rewrite !drawn_from_app, drawn_from_one, decide_True by done. unfold drawn_from. lia.
Qed.

(** ** The report *)
Lemma drawn_from_pos i ts : 0 < drawn_from i ts ↔ ∃ t, t ∈ ts ∧ src t = i.
Proof.
  unfold drawn_from. split.
  - destruct (filter (λ t, src t = i) ts) as [|t l] eqn:E; cbn; [lia|]. intros _. exists t.
    assert (t ∈ filter (λ t, src t = i) ts) as H by (rewrite E; apply list_elem_of_here).
    by apply list_elem_of_filter in H as [??].
  - intros (t & Ht & Hs). assert (t ∈ filter (λ t, src t = i) ts) as H by (by apply list_elem_of_filter).
    destruct (filter _ _); [by apply list.not_elem_of_nil in H|cbn; lia].
Qed.

Lemma tally_sources N all :
  1 ≤ N → Forall (λ t, 1 ≤ src t ≤ N) all → all ≠ [] →
  let t0 := tally (source_counts N all) in
  (∃ t, t ∈ all ∧ src t = minIdx t0) ∧ (∃ t, t ∈ all ∧ src t = maxIdx t0) ∧
  ∀ t, t ∈ all → minIdx t0 ≤ src t ≤ maxIdx t0.
Proof.
  intros HN F Ne. unfold tally. rewrite counted_sources by lia. set (l := _ <$> _).
  assert (∀ i n, (i, n) ∈ l ↔ n = drawn_from i all ∧ 1 ≤ i ≤ N) as In.
  { intros i n. unfold l. rewrite list_elem_of_fmap. setoid_rewrite elem_of_seqZ. split.
    - intros (j & [= -> ->] & B). split; [done|lia].
    - intros [-> B]. exists i. split; [done|lia]. }
  destruct (tally_spans l) as [None Some].
  { unfold l. eapply (StronglySorted_fmap _ Z.le); [by cbn|apply seqZ_sorted; lia]. }
  { apply list.Forall_forall. intros [i n] [_ B]%In. cbn. lia. }
  assert (∀ t, t ∈ all → (src t, drawn_from (src t) all) ∈ l ∧ 0 < drawn_from (src t) all) as Src.
  { intros t Ht. split; [apply In; split; [done|]; rewrite list.Forall_forall in F; auto|].
    apply drawn_from_pos. eauto. }
  cbv zeta. destruct (decide (minIdx (fold_left tally_one l (MkTally (-1) (-1) 0)) = -1)) as [E|E].
  - destruct (None E) as [_ A]. destruct all as [|t all]; [done|].
    destruct (Src t (list_elem_of_here _ _)) as [H1 H2]. apply A in H1. lia.
  - destruct (Some E) as ((m1 & H1 & L1) & (m2 & H2 & L2) & A). split_and!.
    + apply In in H1 as [-> _]. by apply drawn_from_pos.
    + apply In in H2 as [-> _]. by apply drawn_from_pos.
    + intros t Ht. destruct (Src t Ht) as [H L]. by apply (A _ _ H).
Qed.

Lemma sum_over_fmap {A B} (w : B → Z) (f : A → B) l : sum_over w (f <$> l) = sum_over (λ x, w (f x)) l.
Proof. induction l as [|x l IH]; cbn; [done|]. by rewrite <- IH. Qed.
Lemma sum_over_1 {A} (l : list A) : sum_over (λ _, 1) l = Z.of_nat (length l).
Proof. induction l; cbn; lia. Qed.

Lemma mean_sources N all n :
  1 ≤ N → Forall (λ t, 1 ≤ src t ≤ N) all → Z.of_nat (length all) = n → 1 ≤ n →
  meanIdx (source_counts N all) = Quot (sum_over src all) n.
Proof.
  intros HN F L Hn. assert (total (tally (source_counts N all)) = n) as T.
  { unfold tally. rewrite tally_total, counted_sources, sum_over_fmap by lia. cbn.
    rewrite (sum_over_ext _ (λ i, 1 * drawn_from i all)) by (intros; lia).
    rewrite (weighted_counts (λ _, 1)) by done. by rewrite sum_over_1. }
  unfold meanIdx. rewrite T. destruct (Z.ltb_spec 0 n); [|lia]. f_equal.
  unfold sumIdx. rewrite counted_sources by lia. rewrite <- (weighted_counts (λ i, i) N) by done.
  generalize (seqZ 1 N) as l. induction l as [|x l IH]; cbn; [done|]. by rewrite <- IH.
Qed.

(** The report is about the whole workload: with the hotspot that was drawn,
    it names the lowest and the highest source account, the sum and the number
    behind the mean are those of all that was generated, and the accounts
    listed are the ones that were drawn most often. *)
Theorem report_describes_workload (g : Rng) (sort_by_count : list (Z * Z) → list (Z * Z))
    (n N k : Z) (r c sk : Q) :
  rng_ok g → sorts sort_by_count → 1 ≤ n → 1 ≤ N → 1 ≤ k →
  ∃ l s all hotspot, generate_txns g sort_by_count n N k r c sk bench_init = Ok (l, s) ∧
    Z.of_nat (length all) = n ∧ l = filter (λ t, ¬ self_transfer t) all ∧
    let f := source_counts N all in
    bench_cout s = distribution sort_by_count N k hotspot sk f ∧
    (∃ t, t ∈ all ∧ src t = minIdx (tally f)) ∧ (∃ t, t ∈ all ∧ src t = maxIdx (tally f)) ∧
    (∀ t, t ∈ all → minIdx (tally f) ≤ src t ≤ maxIdx (tally f)) ∧
    meanIdx f = Quot (sum_over src all) n ∧
    let out := top_accounts (sort_by_count ((λ '(i, m), (m, i)) <$> counted f)) in
    (length out ≤ 10)%nat ∧ (∀ m i, (m, i) ∈ out → m = drawn_from i all ∧ 0 < m) ∧
    (∀ t, t ∈ all → (∃ m, (m, src t) ∈ out) ∨
       length out = 10%nat ∧ ∀ m i, (m, i) ∈ out → drawn_from (src t) all ≤ m).
Proof.
  intros G Hf Hn HN Hk.
  pose proof (generate_txns_spec g sort_by_count n N k r c sk G HN Hk) as W. unfold wp in W.
  destruct (generate_txns _ _ _ _ _ _ _ _ _) as [[l s]|]; [|done].
  destruct W as (all & h & La & F & -> & _ & C).
  assert (Forall (λ t, 1 ≤ src t ≤ N) all) as B by (eapply list.Forall_impl; [exact F|]; by intros t [Ht _]).
  exists (filter (λ t, ¬ self_transfer t) all), s, all, h. split_and!; [done|lia|done|]. cbv zeta.
  split; [done|]. pose proof (top_of_sources _ N all Hf HN B) as T. cbv zeta in T.
  destruct (tally_sources N all HN B ltac:(destruct all; cbn in *; [lia|done])) as (A1 & A2 & A3).
  split_and!; [done..| | | |]; [apply mean_sources; by try lia|apply T..].
Qed.

(** One such sort. *)
Definition more_first (a b : Z * Z) : Prop := b.1 ≤ a.1.
#[export] Instance more_first_dec : RelDecision more_first := λ a b, decide (b.1 ≤ a.1).
#[export] Instance more_first_trans : Transitive more_first.
Proof. intros a b c. unfold more_first. lia. Qed.
#[export] Instance more_first_total : Total more_first.
Proof. intros a b. unfold more_first. lia. Qed.

Lemma merge_sort_sorts : sorts (merge_sort more_first).
Proof. intros l. split; [apply merge_sort_Permutation|by apply (StronglySorted_merge_sort more_first)]. Qed.

Lemma report_describes_workload_witness :
  (∃ l s all, generate_txns small_rng (merge_sort more_first) 12 9 3 (1 # 4) (1 # 2) (1 # 2) bench_init = Ok (l, s) ∧
    Z.of_nat (length all) = 12 ∧ meanIdx (source_counts 9 all) = Quot (sum_over src all) 12) ∧
  match generate_txns small_rng (merge_sort more_first) 12 9 3 (1 # 4) (1 # 2) (1 # 2) bench_init with
  | Ok (_, s) => freq s = [1; 0; 2; 1; 5; 0; 2; 0; 1] ∧
      take 2 (drop 9 (bench_cout s)) =
        [Str ("  Account 5 -> 5 occurrences" +:+ nl); Str ("  Account 3 -> 2 occurrences" +:+ nl)]
  | Fault _ => False
  end.
Proof.
  split.
  - destruct (report_describes_workload small_rng (merge_sort more_first) 12 9 3 (1 # 4) (1 # 2) (1 # 2)
      small_rng_ok merge_sort_sorts) as (l & s & all & h & E & L & _ & H); [discriminate..|].
    exists l, s, all. split; [exact E|]. split; [exact L|]. apply H.
  - vm_compute. split; reflexivity.
Defined.
