(* ===== verification/Launch.v ===== *)
(** * The launcher: reading the test file and driving the client

    [main], [StartClientRequests], [SendAliveUpdateAsync] of [node_launch.cpp],
    the request an [AliveAsyncCall] builds, and the file [write_csv] of
    [benchmark.h] writes for it.

    Representation. The Boost tokenizer and trimming are parameters. What the
    launcher does to the rest of the system is a list of events in order: a
    wait until no transaction remains, an alive update to a node, a request
    handed to the client, a prompt of the user, a reset of the client's
    leaders. Files are reached through paths; which paths lead to one file is
    open. Sleeps, processes, threads and the interactive prompt are not
    modelled. [sscanf] is modelled for the two formats used, on numbers without
    bound (a number outside [int] is undefined behaviour). *)
From S2P Require Import Prelude Text Messages Client Benchmark.
From Stdlib Require Import Ascii.
#[local] Open Scope Z_scope.

(** ** Text *)
(** The text after the first [c], and the text before it (all, without one). *)
Fixpoint after_char (c : ascii) (s : string) : option string :=
  match s with
  | EmptyString => None
  | String d s => if bool_decide (d = c) then Some s else after_char c s
  end.
Fixpoint before_char (c : ascii) (s : string) : string :=
  match s with
  | EmptyString => EmptyString
  | String d s => if bool_decide (d = c) then EmptyString else String d (before_char c s)
  end.
Fixpoint split_on (c : ascii) (cur s : string) : list string :=
  match s with
  | EmptyString => [cur]
  | String d s => if bool_decide (d = c) then cur :: split_on c "" s else split_on c (cur +:+ String d "") s
  end.

(** [erase] up to the first and after the last character not in [" \t\n\r"]. *)
Definition is_blank (c : ascii) : bool :=
  let n := N_of_ascii c in (n =? 32)%N || (n =? 9)%N || (n =? 10)%N || (n =? 13)%N.
Fixpoint erase_front (s : string) : string :=
  match s with
  | String c s' => if is_blank c then erase_front s' else s
  | EmptyString => s
  end.
Fixpoint erase_back (s : string) : string :=
  match s with
  | EmptyString => EmptyString
  | String c s' =>
      match erase_back s' with
      | EmptyString => if is_blank c then EmptyString else String c EmptyString
      | r => String c r
      end
  end.
Definition last_char (s : string) : option ascii := list.last (String.list_ascii_of_string s).
Fixpoint drop_last (s : string) : string :=
  match s with
  | String c (String _ _ as s') => String c (drop_last s')
  | _ => EmptyString
  end.

(** [sscanf] with literals, white space and [%d]. *)
Inductive Conversion := CChar (c : ascii) | CSpace | CInt.

Fixpoint after_digits (s : string) : string :=
  match s with
  | String c s' => match digit_val c with Some _ => after_digits s' | None => s end
  | EmptyString => s
  end.
Definition scan_int (s : string) : option (Z * string) :=
  let s := skip_space s in
  let '(neg, s) :=
    match s with
    | String "-" s' => (true, s')
    | String "+" s' => (false, s')
    | _ => (false, s)
    end in
  if starts_digit s then Some (if neg : bool then - digits 0 s else digits 0 s, after_digits s) else None.
Fixpoint sscanf (fmt : list Conversion) (s : string) : list Z :=
  match fmt with
  | [] => []
  | CChar c :: fmt =>
      match s with
      | String d s => if bool_decide (d = c) then sscanf fmt s else []
      | EmptyString => []
      end
  | CSpace :: fmt => sscanf fmt (skip_space s)
  | CInt :: fmt => match scan_int s with Some (z, s) => z :: sscanf fmt s | None => [] end
  end.

(** ["(%d, %d, %d)"] and ["(%d)"]. *)
Definition fmt_transfer : list Conversion :=
  [CChar "("; CInt; CChar ","; CSpace; CInt; CChar ","; CSpace; CInt; CChar ")"].
Definition fmt_read : list Conversion := [CChar "("; CInt; CChar ")"].

(** The transaction of a row: from, to, amount, and whether it only reads. *)
Definition parse_transaction (s : string) : option (Z * Z * Z * bool) :=
  match sscanf fmt_transfer s with
  | [from; to; amount] => Some (from, to, amount, false)
  | _ => match sscanf fmt_read s with [from] => Some (from, -1, -1, true) | _ => None end
  end.

(** The node of a row [F(n3)] or [R(n3)]. *)
Definition node_text (s : string) : string :=
  match after_char "n" s with Some rest => before_char ")" rest | None => s end.

(** The ids of a list [[n1, n2]]. *)
Definition node_of_item (s : string) : option Z :=
  match erase_back (erase_front s) with
  | String "n" (String _ _ as digits) =>
      match stoi digits with inr z => Some z | inl _ => None end
  | _ => None
  end.
Definition parse_nodes (s : string) : list Z :=
  match s with
  | String "[" s' =>
      if bool_decide (last_char s = Some "]"%char) then omap node_of_item (split_on "," "" (drop_last s'))
      else []
  | _ => []
  end.

(** ** The file [write_csv] writes *)
Definition txn_field (t : Txn) : string :=
  if isRead t then "(" +:+ to_string (src t) +:+ ")"
  else "(" +:+ to_string (src t) +:+ ", " +:+ to_string (dst t) +:+ ", " +:+ to_string (amount t) +:+ ")".

Definition dq : string := String (ascii_of_nat 34) "".
Definition quoted (s : string) : string := dq +:+ s +:+ dq.
Fixpoint join (sep : string) (l : list string) : string :=
  match l with
  | [] => ""
  | [x] => x
  | x :: l => x +:+ sep +:+ join sep l
  end.
Definition nodes_field (liveNodes : list string) : string := "[" +:+ join ", " liveNodes +:+ "]".

Definition csv_header : string := "Set Number,Transactions,Live Nodes".
Definition first_row (t : option Txn) (liveNodes : list string) : string :=
  "1," +:+ quoted (match t with Some t => txn_field t | None => "" end) +:+ ","
    +:+ quoted (nodes_field liveNodes).
Definition next_row (t : Txn) : string := "," +:+ quoted (txn_field t) +:+ ",".

(** The lines of the file, each followed by a newline. *)
Definition csv_lines (txns : list Txn) (liveNodes : list string) : list string :=
  csv_header :: first_row (head txns) liveNodes :: (next_row <$> tail txns).
Definition csv_text (txns : list Txn) (liveNodes : list string) : string :=
  foldr (λ line rest, line +:+ nl +:+ rest) "" (csv_lines txns liveNodes).

(** The files of the machine, and the file a path leads to: none if a directory
    of the path is missing, the same for two paths if a link joins them. *)
Record FileSystem := MkFileSystem {
  fs_files : gmap string string;
  fs_target : string → option string }.

(** [std::ofstream out(filename)]; when it cannot be opened nothing is written. *)
Definition write_csv (filename : string) (txns : list Txn) (liveNodes : list string)
    (fs : FileSystem) : FileSystem :=
  match fs_target fs filename with
  | Some f => MkFileSystem (<[f := csv_text txns liveNodes]> (fs_files fs)) (fs_target fs)
  | None => fs
  end.

(** [std::ifstream infile(path)] *)
Definition open_file (fs : FileSystem) (path : string) : option string :=
  f ← fs_target fs path; fs_files fs !! f.

(** [std::getline] until the end of the file. *)
Fixpoint getlines (cur s : string) : list string :=
  match s with
  | EmptyString => match cur with EmptyString => [] | _ => [cur] end
  | String d s =>
      if bool_decide (String d "" = nl) then cur :: getlines "" s
      else getlines (cur +:+ String d "") s
  end.

(** ** The launcher *)
Inductive LaunchEvent :=
  | LWait
  | LPromptUser
  | LResetLeaders
  | LAlive (node : Z) (u : AliveUpdateRequest)
  | LRequest (r : ClientRequest).

Record Launcher := MkLauncher {
  la_stubs : gset Z;
  current_set_number : Z;
  active_nodes_set : gset Z;
  num : Z;
  la_remaining : Z;
  transactions_processed : list (Z * Z);
  la_events : list LaunchEvent }.
#[export] Instance rebuild_Launcher : Rebuild Launcher := λ s,
  MkLauncher (la_stubs s) (current_set_number s) (active_nodes_set s) (num s) (la_remaining s)
    (transactions_processed s) (la_events s).
#[export] Instance upd_current_set_number : Upd current_set_number := ltac:(derive_upd).
#[export] Instance upd_active_nodes_set : Upd active_nodes_set := ltac:(derive_upd).
#[export] Instance upd_num : Upd num := ltac:(derive_upd).
#[export] Instance upd_la_remaining : Upd la_remaining := ltac:(derive_upd).
#[export] Instance upd_transactions_processed : Upd transactions_processed := ltac:(derive_upd).
#[export] Instance upd_la_events : Upd la_events := ltac:(derive_upd).
Abbreviation LaunchM := (M Launcher).

Definition launch_init (stubs : gset Z) : Launcher := MkLauncher stubs 0 ∅ 0 0 [] [].

Definition emit_event (e : LaunchEvent) : LaunchM unit := la_events ::~ (λ l, l ++ [e]).

(** [while (remaining_transactions.load() > 0) sleep]: the client counts it down. *)
Definition wait_answered : LaunchM unit :=
  r ← gets la_remaining;
  emit_event LWait ;;
  when (0 <? r) (la_remaining ::= 0).

Definition AliveAsyncCall (is_alive kill_leader recover prompt_pause reset_state reshard : bool)
    (new_shard_map : list (Z * Z)) : AliveUpdateRequest :=
  MkAliveUpdateRequest is_alive kill_leader prompt_pause recover reset_state reshard
    (if reshard then new_shard_map else []).

Definition SendAliveUpdateAsync (alive_nodes : gset Z) (fail recover : bool) (mod_node : Z)
    (prompt_user reset_state : bool) : LaunchM unit :=
  stubs ← gets la_stubs;
  if negb fail && negb recover then
    for_each (elements stubs) (λ n,
      emit_event (LAlive n (AliveAsyncCall (bool_decide (n ∈ alive_nodes)) fail recover prompt_user
        reset_state false [])))
  else if bool_decide (mod_node ∈ stubs) then
    emit_event (LAlive mod_node (AliveAsyncCall (negb fail) fail recover prompt_user reset_state false []))
  else raise OutOfRange.

Definition StartClientRequests (set_num_empty : bool) (req : ClientRequest) : LaunchM unit :=
  active ← gets active_nodes_set;
  when (negb set_num_empty) (SendAliveUpdateAsync active false false (-1) false true) ;;
  emit_event (LRequest req).

Definition request_of (num from to amount : Z) (read_only : bool) : ClientRequest :=
  MkClientRequest "" num (to_string from) (to_string to) amount read_only "" 0.

Section launch.
Variable tokenize : string → list string.
Variable trim : string → string.

(** Between two sets: wait, let the user look, start over. *)
Definition next_set : LaunchM unit :=
  wait_answered ;;
  SendAliveUpdateAsync ∅ false false (-1) true false ;;
  emit_event LPromptUser ;;
  emit_event LResetLeaders ;;
  transactions_processed ::= [].

Definition transaction_row (set_num_empty : bool) (transaction nodes : string) : LaunchM unit :=
  match parse_transaction (trim transaction) with
  | None => skip
  | Some (from, to, amount, read_only) =>
      active_nodes_set ::~ (λ a, list_to_set (parse_nodes (trim nodes)) ∪ a) ;;
      n ← gets num;
      num ::= n + 1 ;;
      la_remaining ::~ Z.succ ;;
      transactions_processed ::~ (λ l, l ++ [(from, to)]) ;;
      StartClientRequests set_num_empty (request_of n from to amount read_only)
  end.

Definition node_row (fail : bool) (transaction : string) : LaunchM unit :=
  node ← stoiM (node_text transaction);
  wait_answered ;;
  active ← gets active_nodes_set;
  SendAliveUpdateAsync active fail (negb fail) node false false.

Definition process_fields (set_field transaction nodes : string) : LaunchM unit :=
  s ← gets id;
  let set_num_empty := bool_decide (set_field = "") in
  when (negb set_num_empty && negb (current_set_number s =? 0)) next_set ;;
  when (negb set_num_empty)
    (n ← stoiM set_field; current_set_number ::= n ;; active_nodes_set ::= ∅) ;;
  match transaction with
  | String "F" _ => node_row true transaction
  | String "R" _ => node_row false transaction
  | _ => transaction_row set_num_empty transaction nodes
  end.

Definition process_line (line : string) : LaunchM unit :=
  match line with
  | EmptyString => skip
  | String "S" _ => skip
  | _ =>
      match tokenize line with
      | [set_field; transaction; nodes] => process_fields set_field transaction nodes
      | _ => skip
      end
  end.

Definition run_file (text : string) : LaunchM unit :=
  for_each (getlines "" text) process_line ;;
  wait_answered ;;
  SendAliveUpdateAsync ∅ false false (-1) false false ;;
  emit_event LPromptUser.

(** [main] from the opening of the test file on: its exit status. *)
Definition test_file (filename : string) : string := "../tests/test_data/" +:+ filename.
Definition read_test_file (fs : FileSystem) (filename : string) : LaunchM Z :=
  match open_file fs (test_file filename) with
  | Some text => run_file text ;; mret 0
  | None => mret 1
  end.

(** [main] in benchmark mode, with the workload generated: [generate_txns] writes
    it to its default path. *)
Definition out_csv_path : string := "../test_data/benchmark.csv".
Definition run_benchmark (txns : list Txn) (liveNodes : list string) (fs : FileSystem) : LaunchM Z :=
  read_test_file (write_csv out_csv_path txns liveNodes fs) "benchmark.csv".
End launch.
