(* ===== verification/LaunchProofs.v ===== *)
(** * The launcher: what a row adds, and how the requests are numbered *)
From S2P Require Import Prelude Text Messages Client Benchmark Launch.
From Stdlib Require Import Ascii.
#[local] Open Scope Z_scope.

(** ** The requests *)
Definition request_event (e : LaunchEvent) : option ClientRequest :=
  match e with LRequest r => Some r | _ => None end.
Definition requests (s : Launcher) : list ClientRequest := omap request_event (la_events s).

Definition sent_of (s : Launcher) : Z * list ClientRequest := (num s, requests s).

Lemma emit_event_sent e : request_event e = None → respects (keeps sent_of) (emit_event e).
Proof.
  intros E. unfold emit_event, sent_of, requests, keeps. intros s [] s' [= <-]. simp_upd.
  rewrite omap_app. cbn. by rewrite E, app_nil_r.
Qed.
Ltac sent_frame :=
  solve_respects_with ltac:(first [apply emit_event_sent; reflexivity|unfold keeps, sent_of, requests; simp_upd; reflexivity]).
Lemma emit_LWait : respects (keeps sent_of) (emit_event LWait). Proof. by apply emit_event_sent. Qed.
Lemma emit_LPromptUser : respects (keeps sent_of) (emit_event LPromptUser). Proof. by apply emit_event_sent. Qed.
Lemma emit_LResetLeaders : respects (keeps sent_of) (emit_event LResetLeaders). Proof. by apply emit_event_sent. Qed.
Lemma emit_LAlive n u : respects (keeps sent_of) (emit_event (LAlive n u)). Proof. by apply emit_event_sent. Qed.
#[local] Hint Resolve emit_LWait emit_LPromptUser emit_LResetLeaders emit_LAlive : respects.

Lemma wait_answered_sent : respects (keeps sent_of) wait_answered.
Proof. unfold wait_answered. sent_frame. Qed.
Lemma SendAliveUpdateAsync_sent a f r m p t :
  respects (keeps sent_of) (SendAliveUpdateAsync a f r m p t).
Proof. unfold SendAliveUpdateAsync. sent_frame. Qed.
#[local] Hint Resolve wait_answered_sent SendAliveUpdateAsync_sent : respects.
Lemma next_set_sent : respects (keeps sent_of) next_set.
Proof. unfold next_set. sent_frame. Qed.
Lemma node_row_sent fail t : respects (keeps sent_of) (node_row fail t).
Proof. unfold node_row, stoiM. sent_frame. Qed.
#[local] Hint Resolve next_set_sent node_row_sent : respects.

(** What a row can add: nothing, or one request with the next timestamp. *)
Definition adds (l : list ClientRequest) (s s' : Launcher) : Prop :=
  num s' = num s + Z.of_nat (length l) ∧ requests s' = requests s ++ l.

Lemma adds_nil s s' : sent_of s' = sent_of s → adds [] s s'.
Proof. intros [= E1 E2]. split; [cbn; lia|by rewrite app_nil_r]. Qed.

(** The request of a row, numbered [n]. *)
Definition row_request (trim : string → string) (n : Z) (transaction : string)
    : list ClientRequest :=
  match transaction with
  | String "F" _ | String "R" _ => []
  | _ =>
      match parse_transaction (trim transaction) with
      | Some (from, to, amount, ro) => [request_of n from to amount ro]
      | None => []
      end
  end.

Lemma transaction_row_adds trim b t nodes s :
  wp any_fault (transaction_row trim b t nodes) s (λ _ s',
    adds (match parse_transaction (trim t) with
          | Some (from, to, amount, ro) => [request_of (num s) from to amount ro]
          | None => [] end) s s').
Proof.
  unfold transaction_row. destruct (parse_transaction (trim t)) as [[[[from to] amount] ro]|].
  2: { wp_step. by apply adds_nil. }
  unfold StartClientRequests. repeat lazymatch goal with |- wp _ (when _ _) _ _ => fail | _ => wp_step; simp_upd end.
  apply (wp_keeps _ sent_of); [apply faults_any|sent_frame|]. intros ? s1 [= E1 E2].
  unfold emit_event. wp_step. split; [simp_upd; rewrite E1; simp_upd; cbn; lia|].
  unfold requests in *. simp_upd. rewrite omap_app, E2. simp_upd. done.
Qed.

Lemma process_fields_adds trim f t nodes s :
  wp any_fault (process_fields trim f t nodes) s (λ _ s', adds (row_request trim (num s) t) s s').
Proof.
  unfold process_fields. do 2 wp_step. cbv zeta. wp_step.
  apply (wp_keeps _ sent_of); [apply faults_any|sent_frame|]. intros ? s1 E1. wp_step.
  apply (wp_keeps _ sent_of); [apply faults_any|unfold stoiM; sent_frame|]. intros ? s2 E2.
  assert (E : sent_of s2 = sent_of s) by congruence.
  assert (Node : ∀ fail, wp any_fault (node_row fail t) s2 (λ _, adds [] s)).
  { intros fail. apply (wp_keeps _ sent_of); [apply faults_any|sent_frame|].
    intros ? s3 E3. apply adds_nil. congruence. }
  assert (Row : wp any_fault (transaction_row trim (bool_decide (f = "")) t nodes) s2 (λ _,
    adds (match parse_transaction (trim t) with
          | Some (from, to, amount, ro) => [request_of (num s) from to amount ro]
          | None => [] end) s)).
  { injection E as En Er. eapply wp_mono; [|apply transaction_row_adds]. cbn beta.
    unfold adds. rewrite En, Er. auto. }
  unfold row_request. destruct t as [|[[] [] [] [] [] [] [] []] t]; first [apply Row|apply Node].
Qed.

(** The requests of the lines of a file, numbered from [n]. *)
Definition line_requests (tokenize : string → list string) (trim : string → string)
    (n : Z) (line : string) : list ClientRequest :=
  match line with
  | EmptyString | String "S" _ => []
  | _ => match tokenize line with [_; t; _] => row_request trim n t | _ => [] end
  end.
Fixpoint file_requests tokenize trim (n : Z) (lines : list string) : list ClientRequest :=
  match lines with
  | [] => []
  | line :: lines =>
      let l := line_requests tokenize trim n line in
      l ++ file_requests tokenize trim (n + Z.of_nat (length l)) lines
  end.

Lemma process_line_adds tokenize trim line s :
  wp any_fault (process_line tokenize trim line) s (λ _ s',
    adds (line_requests tokenize trim (num s) line) s s').
Proof.
  assert (Skip : wp any_fault (skip : LaunchM unit) s (λ _, adds [] s)) by (wp_step; by apply adds_nil).
  assert (Line : wp any_fault (match tokenize line with
      | [f; t; nodes] => process_fields trim f t nodes | _ => skip end) s (λ _, adds
    (match tokenize line with [_; t; _] => row_request trim (num s) t | _ => [] end) s)).
  { destruct (tokenize line) as [|f [|t [|nodes [|]]]]; try exact Skip. apply process_fields_adds. }
  unfold process_line, line_requests.
  destruct line as [|[[] [] [] [] [] [] [] []] line]; first [exact Skip|exact Line].
Qed.

Lemma process_lines_adds tokenize trim lines s :
  wp any_fault (for_each lines (process_line tokenize trim)) s (λ _ s',
    adds (file_requests tokenize trim (num s) lines) s s').
Proof.
  revert s. induction lines as [|line lines IH]; intros s; cbn [for_each file_requests].
  { wp_step. by apply adds_nil. }
  wp_step. eapply wp_mono; [|apply process_line_adds]. cbn beta. intros ? s1 [N1 R1].
  eapply wp_mono; [|apply IH]. cbn beta. intros ? s2 [N2 R2]. rewrite N1 in N2, R2.
  split; [rewrite length_app; lia|]. by rewrite R2, R1, <- app_assoc.
Qed.

Lemma run_file_requests tokenize trim text s s' :
  run_file tokenize trim text s = Ok (tt, s') →
  adds (file_requests tokenize trim (num s) (getlines "" text)) s s'.
Proof.
  intros E. refine (wp_Ok any_fault _ _ _ _ (λ _, adds _ s) E _). unfold run_file.
  wp_step. eapply wp_mono; [|apply process_lines_adds]. cbn beta. intros ? s1 [N1 R1].
  apply (wp_keeps _ sent_of); [apply faults_any|sent_frame|]. intros ? s2 [= E1 E2].
  split; congruence.
Qed.

Lemma row_request_timestamp trim n t :
  rq_timestamp <$> row_request trim n t = seqZ n (Z.of_nat (length (row_request trim n t))).
Proof.
  assert (H : ∀ o : option (Z * Z * Z * bool),
    let l := match o with Some (f, g, a, ro) => [request_of n f g a ro] | None => [] end in
    rq_timestamp <$> l = seqZ n (Z.of_nat (length l))).
  { intros [[[[f g] a] ro]|]; [|done]. cbn. rewrite seqZ_cons, seqZ_nil by lia. done. }
  unfold row_request. destruct t as [|[[] [] [] [] [] [] [] []] t]; first [apply H|done].
Qed.

Lemma file_requests_timestamps tokenize trim n lines :
  rq_timestamp <$> file_requests tokenize trim n lines =
    seqZ n (Z.of_nat (length (file_requests tokenize trim n lines))).
Proof.
  revert n. induction lines as [|line lines IH]; intros n; cbn [file_requests]; [done|]. cbv zeta.
  rewrite fmap_app, length_app, Nat2Z.inj_add, seqZ_app, IH by lia. f_equal.
  unfold line_requests. destruct line as [|c line]; [done|].
  destruct (tokenize (String c line)) as [|f [|t [|nodes [|]]]];
    destruct c as [[] [] [] [] [] [] [] []]; first [apply row_request_timestamp|done].
Qed.

(** The requests are numbered apart. Whatever the test file holds, and
    however it is split into fields, the requests the launcher hands to the
    client carry the timestamps 0, 1, 2, ... in order: no two of them the same,
    in all sets of the file together. *)
Theorem launcher_timestamps (tokenize : string → list string) (trim : string → string)
    (text : string) (stubs : gset Z) (s : Launcher) :
  run_file tokenize trim text (launch_init stubs) = Ok (tt, s) →
  rq_timestamp <$> requests s = seqZ 0 (num s) ∧ NoDup (rq_timestamp <$> requests s).
Proof.
  intros [N R]%run_file_requests. rewrite R. cbn [requests launch_init la_events omap app].
  assert (E : rq_timestamp <$> requests s = seqZ 0 (num s)).
  { rewrite N, R. cbn. apply file_requests_timestamps. }
  rewrite R in E. cbn in E |- *. rewrite E. split; [done|apply NoDup_seqZ].
Qed.
