(* ===== verification/CsvProofs.v ===== *)
(** * The benchmark file, written and read back

    Printing and scanning of the rows, the lines of the file, and the requests
    the launcher makes of them. *)
From S2P Require Import Prelude Text Messages Client Benchmark Launch LaunchProofs.
From Stdlib Require Import Ascii.
#[local] Open Scope Z_scope.

(** Every character of [s] satisfies [P]. *)
Fixpoint all_chars (P : ascii → bool) (s : string) : bool :=
  match s with
  | EmptyString => true
  | String c s => P c && all_chars P s
  end.
Lemma all_chars_app P s t : all_chars P (s +:+ t) = all_chars P s && all_chars P t.
Proof. induction s as [|c s IH]; [done|]. rewrite append_cons. cbn. by rewrite IH, andb_assoc. Qed.
Lemma all_chars_mono P Q s : (∀ c, P c = true → Q c = true) → all_chars P s = true → all_chars Q s = true.
Proof.
  intros H. induction s as [|c s IH]; [done|]. cbn. intros [H1 H2]%andb_true_iff.
  by rewrite (H c H1), IH.
Qed.

Definition is_digit (c : ascii) : bool := match digit_val c with Some _ => true | None => false end.

Lemma pretty_N_go_app x s : pretty_N_go x s = pretty_N_go x "" +:+ s.
Proof.
  revert s. induction (N.lt_wf_0 x) as [x _ IH]; intros s.
  destruct (decide (x = 0)%N) as [->|Hx]; [by rewrite !pretty_N_go_0|].
  assert (x / 10 < x)%N by (apply N.div_lt; lia).
  rewrite !(pretty_N_go_step x) by lia. rewrite (IH (x / 10)%N H (String _ s)), (IH (x / 10)%N H (String _ "")).
  rewrite append_assoc. by rewrite append_cons.
Qed.
Lemma pretty_N_go_digits x : all_chars is_digit (pretty_N_go x "") = true.
Proof.
  induction (N.lt_wf_0 x) as [x _ IH]. destruct (decide (x = 0)%N) as [->|Hx]; [by rewrite pretty_N_go_0|].
  assert (x / 10 < x)%N by (apply N.div_lt; lia).
  rewrite pretty_N_go_step, pretty_N_go_app, all_chars_app, IH by (try lia; done). cbn.
  unfold is_digit. by rewrite digit_val_pretty by (apply N.mod_lt; lia).
Qed.

(** A number that is not negative, printed: digits, and the first is one. *)
Lemma to_string_digits z : 0 ≤ z → all_chars is_digit (to_string z) = true ∧ starts_digit (to_string z) = true.
Proof.
  intros H. unfold to_string. destruct z as [|p|p]; [done| |lia].
  change (pretty (Z.pos p)) with (pretty (N.pos p)). split; [|apply pretty_N_starts].
  unfold pretty, pretty_N. case_decide; [done|]. apply pretty_N_go_digits.
Qed.

Lemma digits_app acc s rest :
  all_chars is_digit s = true → starts_digit rest = false → digits acc (s +:+ rest) = digits acc s.
Proof.
  revert acc. induction s as [|c s IH]; intros acc; rewrite ?append_cons, ?append_nil; cbn.
  - intros _. destruct rest as [|c rest]; [done|]. cbn. by destruct (digit_val c).
  - unfold is_digit. destruct (digit_val c); [|done]. apply IH.
Qed.
Lemma after_digits_app s rest :
  all_chars is_digit s = true → starts_digit rest = false → after_digits (s +:+ rest) = rest.
Proof.
  induction s as [|c s IH]; rewrite ?append_cons, ?append_nil; cbn.
  - intros _. destruct rest as [|c rest]; [done|]. cbn. by destruct (digit_val c).
  - unfold is_digit. destruct (digit_val c); [|done]. apply IH.
Qed.
Lemma starts_digit_app s rest : starts_digit s = true → starts_digit (s +:+ rest) = true.
Proof. by destruct s. Qed.

Lemma digits_to_string z : 0 ≤ z → digits 0 (to_string z) = z.
Proof.
  intros H. unfold to_string. destruct z as [|p|p]; [done| |lia]. apply (digits_pretty_N (N.pos p)).
Qed.

Lemma scan_int_to_string z rest :
  0 ≤ z → starts_digit rest = false → scan_int (to_string z +:+ rest) = Some (z, rest).
Proof.
  intros H R. destruct (to_string_digits z H) as [D S]. pose proof (starts_digit_app _ rest S) as S'.
  destruct (starts_digit_not_sign _ S') as (E & _ & _). unfold scan_int. rewrite E.
  assert (match to_string z +:+ rest with String "-" s' => (true, s') | String "+" s' => (false, s')
          | _ => (false, to_string z +:+ rest) end = (false, to_string z +:+ rest)) as ->.
  { destruct (to_string z +:+ rest) as [|[[] [] [] [] [] [] [] []] t]; done. }
  by rewrite S', digits_app, after_digits_app, digits_to_string.
Qed.
Lemma scan_int_space z rest : scan_int (String " " (to_string z +:+ rest)) = scan_int (to_string z +:+ rest).
Proof. done. Qed.

Lemma skip_space_number z rest : 0 ≤ z → skip_space (to_string z +:+ rest) = to_string z +:+ rest.
Proof. intros H. apply starts_digit_not_sign, starts_digit_app, to_string_digits, H. Qed.

(** A transaction with numbers that are not negative. *)
Definition txn_plain (t : Txn) : Prop := 0 ≤ src t ∧ 0 ≤ dst t ∧ 0 ≤ amount t.

(** What the launcher makes of it. *)
Definition txn_request (n : Z) (t : Txn) : ClientRequest :=
  if isRead t then request_of n (src t) (-1) (-1) true
  else request_of n (src t) (dst t) (amount t) false.

Lemma parse_txn_field t : txn_plain t →
  parse_transaction (txn_field t) =
    Some (if isRead t then (src t, -1, -1, true) else (src t, dst t, amount t, false)).
Proof.
  intros (Hs & Hd & Ha). unfold parse_transaction, txn_field, fmt_transfer, fmt_read.
  destruct (isRead t).
  - change ("(" +:+ to_string (src t) +:+ ")") with (String "(" (to_string (src t) +:+ ")")).
    cbn [sscanf]. rewrite !bool_decide_true, scan_int_to_string by done. done.
  - change ("(" +:+ ?s) with (String "(" s).
    cbn [sscanf]. rewrite bool_decide_true, scan_int_to_string by done.
    change (", " +:+ ?s) with (String "," (String " " s)). cbn [sscanf].
    rewrite bool_decide_true by done.
    change (skip_space (String " " ?s)) with (skip_space s).
    rewrite skip_space_number, scan_int_to_string by done.
    change (", " +:+ ?s) with (String "," (String " " s)). cbn iota beta.
    rewrite bool_decide_true by done.
    change (skip_space (String " " ?s)) with (skip_space s).
    rewrite skip_space_number, scan_int_to_string by done. done.
Qed.

(** ** Lines *)
Definition no_newline (c : ascii) : bool := negb (bool_decide (String c "" = nl)).

Lemma getlines_line cur line rest :
  all_chars no_newline line = true →
  getlines cur (line +:+ nl +:+ rest) = (cur +:+ line) :: getlines "" rest.
Proof.
  revert cur. induction line as [|c line IH]; intros cur; rewrite ?append_cons, ?append_nil.
  - intros _. change (nl +:+ rest) with (String "010" rest). cbn. by rewrite append_nil_r.
  - cbn. unfold no_newline at 1. destruct (bool_decide _); [done|]. intros H. cbn in H.
    rewrite IH by done. by rewrite append_assoc.
Qed.

Lemma getlines_csv_text lines :
  Forall (λ l, all_chars no_newline l = true) lines →
  getlines "" (foldr (λ line rest, line +:+ nl +:+ rest) "" lines) = lines.
Proof. induction 1 as [|l lines H _ IH]; [done|]. cbn [foldr]. by rewrite getlines_line, IH. Qed.

(** A field holds no newline, no quote and no backslash. *)
Definition field_char (c : ascii) : bool :=
  let n := N_of_ascii c in negb ((n =? 10) || (n =? 34) || (n =? 92))%N.
Definition plain_field (s : string) : Prop := all_chars field_char s = true.

Lemma field_no_newline s : plain_field s → all_chars no_newline s = true.
Proof.
  apply all_chars_mono. intros c H. unfold no_newline.
  rewrite bool_decide_false; [done|]. unfold nl. intros [= ->]. done.
Qed.
Lemma digit_field c : is_digit c = true → field_char c = true.
Proof.
  unfold is_digit, digit_val, field_char. destruct ((48 <=? N_of_ascii c)%N && _) eqn:E; [|done].
  intros _. apply andb_true_iff in E as [E1 E2]. apply N.leb_le in E1, E2.
  apply negb_true_iff. rewrite !orb_false_iff, !N.eqb_neq. lia.
Qed.
Lemma number_field z : 0 ≤ z → plain_field (to_string z).
Proof. intros H. eapply all_chars_mono; [apply digit_field|]. by apply to_string_digits. Qed.

Lemma plain_app s t : plain_field s → plain_field t → plain_field (s +:+ t).
Proof. unfold plain_field. intros H1 H2. by rewrite all_chars_app, H1, H2. Qed.

Lemma txn_field_plain t : txn_plain t → plain_field (txn_field t).
Proof.
  intros (Hs & Hd & Ha). unfold txn_field.
  destruct (isRead t); repeat apply plain_app; by (done || apply number_field).
Qed.
Lemma nodes_field_plain l : Forall plain_field l → plain_field (nodes_field l).
Proof.
  intros F. unfold nodes_field. repeat apply plain_app; try done.
  induction F as [|x l H F IH]; [done|]. destruct l; [done|].
  change (join ", " (x :: s :: l)) with (x +:+ ", " +:+ join ", " (s :: l)). by repeat apply plain_app.
Qed.

(** What the tokenizer does with the rows of such a file: quotes delimit a
    field and go away. Trimming leaves a text in parentheses and the empty one. *)
Definition no_comma (c : ascii) : bool := negb (bool_decide (c = ","%char)).
Record tokenizer_ok (tokenize : string → list string) : Prop := {
  tokenize_first a b c :
    all_chars no_comma a = true → plain_field a → plain_field b → plain_field c →
    tokenize (a +:+ "," +:+ quoted b +:+ "," +:+ quoted c) = [a; b; c];
  tokenize_next b : plain_field b → tokenize ("," +:+ quoted b +:+ ",") = [""; b; ""] }.
Record trim_ok (trim : string → string) : Prop := {
  trim_empty : trim "" = "";
  trim_parens s : trim ("(" +:+ s +:+ ")") = "(" +:+ s +:+ ")" }.

Lemma trim_txn_field trim t : trim_ok trim → trim (txn_field t) = txn_field t.
Proof.
  intros T. unfold txn_field. destruct (isRead t); [by apply trim_parens|].
  rewrite <- !append_assoc, !append_assoc. rewrite <- (append_assoc (to_string (src t))).
  rewrite <- (append_assoc _ (to_string (dst t))), <- (append_assoc _ ", ").
  rewrite <- (append_assoc _ (to_string (amount t))). by apply trim_parens.
Qed.

(** *** No fault on the way *)
Lemma SendAliveUpdateAsync_total a m p t : faults no_fault (SendAliveUpdateAsync a false false m p t).
Proof. unfold SendAliveUpdateAsync, emit_event. cbn [negb andb]. solve_faults. Qed.
#[local] Hint Resolve SendAliveUpdateAsync_total : faults.
Lemma transaction_row_total trim b t nodes : faults no_fault (transaction_row trim b t nodes).
Proof. unfold transaction_row, StartClientRequests, emit_event. solve_faults. Qed.
#[local] Hint Resolve transaction_row_total : faults.

(** The text of a row that is neither a failure nor a recovery. *)
Definition transaction_text (t : string) : bool :=
  match t with String "F" _ | String "R" _ => false | _ => true end.

Lemma process_fields_total trim f t nodes :
  transaction_text t = true → f = "" ∨ f = "1" → faults no_fault (process_fields trim f t nodes).
Proof.
  intros T F. assert (Row : ∀ b, faults no_fault (match t with
    | String "F" _ => node_row true t | String "R" _ => node_row false t
    | _ => transaction_row trim b t nodes end)).
  { intros b. destruct t as [|[[] [] [] [] [] [] [] []] t]; try done; apply transaction_row_total. }
  unfold process_fields, next_set, wait_answered, emit_event.
  assert (One : stoiM "1" = (mret 1 : LaunchM Z)) by reflexivity.
  destruct F as [->| ->]; apply faults_bind; [apply faults_gets| |apply faults_gets|]; intros s; cbv zeta.
  all: rewrite ?One; solve_faults; apply Row.
Qed.

Lemma wp_faults {S A} (m : M S A) s Q : faults no_fault m → wp any_fault m s Q → wp no_fault m s Q.
Proof. unfold wp, faults. destruct (m s) as [[a s']|] eqn:E; [done|]. intros H _. by apply (H s f). Qed.

Lemma txn_field_text t : transaction_text (txn_field t) = true.
Proof. unfold txn_field. by destruct (isRead t). Qed.

Lemma row_request_txn trim n t :
  trim_ok trim → txn_plain t → row_request trim n (txn_field t) = [txn_request n t].
Proof.
  intros T P.
  assert (E : row_request trim n (txn_field t) = match parse_transaction (trim (txn_field t)) with
    | Some (from, to, amount, ro) => [request_of n from to amount ro] | None => [] end).
  { unfold txn_field. by destruct (isRead t). }
  rewrite E, trim_txn_field, parse_txn_field by done. unfold txn_request. by destruct (isRead t).
Qed.

Lemma csv_no_newline l nodes :
  Forall txn_plain l → Forall plain_field nodes →
  Forall (λ line, all_chars no_newline line = true) (csv_lines l nodes).
Proof.
  intros F N. assert (Q : ∀ s, plain_field s → all_chars no_newline (quoted s) = true).
  { intros s H. unfold quoted. by rewrite !all_chars_app, (field_no_newline s H). }
  assert (P : all_chars no_newline (quoted (nodes_field nodes)) = true) by (by apply Q, nodes_field_plain).
  unfold csv_lines. constructor; [done|]. constructor.
  - unfold first_row. rewrite !all_chars_app, P. destruct F as [|t l H F]; cbn [head]; [done|].
    by rewrite Q by (by apply txn_field_plain).
  - apply Forall_fmap. destruct F as [|t l H F]; [constructor|]. eapply Forall_impl; [|exact F].
    intros u Hu. unfold next_row. cbn. rewrite !all_chars_app, Q by (by apply txn_field_plain). done.
Qed.

Section roundtrip.
Variables (tokenize : string → list string) (trim : string → string).
Hypotheses (Tok : tokenizer_ok tokenize) (Trim : trim_ok trim).

(** A line that splits into [f], [t], [nodes]. *)
Lemma process_split line f t nodes :
  match line with EmptyString | String "S" _ => false | _ => true end = true →
  tokenize line = [f; t; nodes] →
  process_line tokenize trim line = process_fields trim f t nodes ∧
  ∀ n, line_requests tokenize trim n line = row_request trim n t.
Proof.
  intros H E. unfold process_line, line_requests.
  destruct line as [|[[] [] [] [] [] [] [] []] line]; try done; by rewrite E.
Qed.

Lemma next_row_ok t : txn_plain t →
  faults no_fault (process_line tokenize trim (next_row t)) ∧
  ∀ n, line_requests tokenize trim n (next_row t) = [txn_request n t].
Proof.
  intros P. destruct (process_split (next_row t) "" (txn_field t) "") as [E R]; [done|..].
  { by apply (tokenize_next _ Tok), txn_field_plain. }
  split; [rewrite E; apply process_fields_total; [apply txn_field_text|by left]|].
  intros n. by rewrite R, row_request_txn.
Qed.

Lemma first_row_ok o nodes : Forall plain_field nodes → (∀ t, o = Some t → txn_plain t) →
  faults no_fault (process_line tokenize trim (first_row o nodes)) ∧
  ∀ n, line_requests tokenize trim n (first_row o nodes) =
    match o with Some t => [txn_request n t] | None => [] end.
Proof.
  intros N P. set (t := match o with Some t => txn_field t | None => "" end).
  assert (Pt : plain_field t) by (destruct o; [by apply txn_field_plain, P|done]).
  destruct (process_split (first_row o nodes) "1" t (nodes_field nodes)) as [E R]; [done|..].
  { apply (tokenize_first _ Tok "1"); [done|done|done|by apply nodes_field_plain]. }
  split.
  - rewrite E. apply process_fields_total; [|by right]. destruct o; [apply txn_field_text|done].
  - intros n. rewrite R. destruct o as [u|]; [by apply row_request_txn, P|].
    unfold row_request, t. by rewrite (trim_empty _ Trim).
Qed.

Lemma header_ok :
  faults no_fault (process_line tokenize trim csv_header) ∧
  ∀ n, line_requests tokenize trim n csv_header = [].
Proof. split; [solve_faults|done]. Qed.

(** The requests of a list of transactions, numbered from [n]. *)
Fixpoint txn_requests (n : Z) (l : list Txn) : list ClientRequest :=
  match l with [] => [] | t :: l => txn_request n t :: txn_requests (n + 1) l end.

Lemma file_requests_cons n line lines :
  file_requests tokenize trim n (line :: lines) = line_requests tokenize trim n line ++
    file_requests tokenize trim (n + Z.of_nat (length (line_requests tokenize trim n line))) lines.
Proof. done. Qed.

Lemma next_rows_requests n l :
  Forall txn_plain l → file_requests tokenize trim n (next_row <$> l) = txn_requests n l.
Proof.
  intros F. revert n. induction F as [|t l H F IH]; intros n; [done|].
  rewrite fmap_cons, file_requests_cons, (proj2 (next_row_ok t H)). cbn. by rewrite IH.
Qed.

Lemma csv_requests l nodes :
  Forall txn_plain l → Forall plain_field nodes →
  file_requests tokenize trim 0 (csv_lines l nodes) = txn_requests 0 l.
Proof.
  intros F N. unfold csv_lines. rewrite !file_requests_cons, (proj2 header_ok).
  destruct F as [|t l H F]; cbn [head tail].
  - rewrite (proj2 (first_row_ok None nodes N ltac:(done))). done.
  - rewrite (proj2 (first_row_ok (Some t) nodes N ltac:(by intros ? [= <-]))). cbn.
    by rewrite next_rows_requests.
Qed.

Lemma csv_total l nodes :
  Forall txn_plain l → Forall plain_field nodes →
  Forall (λ line, faults no_fault (process_line tokenize trim line)) (csv_lines l nodes).
Proof.
  intros F N. unfold csv_lines. constructor; [apply header_ok|]. constructor.
  - apply first_row_ok; [done|]. intros t E. destruct F; cbn in E; [done|by injection E as <-].
  - apply Forall_fmap. destruct F as [|t l H F]; [constructor|]. cbn.
    eapply Forall_impl; [|exact F]. intros u Hu. by apply next_row_ok.
Qed.

Lemma faults_for_all {X} (l : list X) (body : X → LaunchM unit) :
  Forall (λ x, faults no_fault (body x)) l → faults no_fault (for_each l body).
Proof.
  induction 1; cbn [for_each]; [apply faults_ret|]. apply faults_bind; [done|]. by intros _.
Qed.
End roundtrip.

(** The text of a workload, read by the launcher. *)
Lemma run_file_csv (tokenize : string → list string) (trim : string → string)
    (l : list Txn) (nodes : list string) (stubs : gset Z) :
  tokenizer_ok tokenize → trim_ok trim → Forall txn_plain l → Forall plain_field nodes →
  ∃ s, run_file tokenize trim (csv_text l nodes) (launch_init stubs) = Ok (tt, s) ∧
    requests s = txn_requests 0 l.
Proof.
  intros Tok Trim F N.
  assert (L : getlines "" (csv_text l nodes) = csv_lines l nodes).
  { apply getlines_csv_text, csv_no_newline; done. }
  assert (Total : faults no_fault (run_file tokenize trim (csv_text l nodes))).
  { unfold run_file, wait_answered, emit_event. rewrite L. apply faults_bind.
    - by apply faults_for_all, csv_total.
    - intros []. solve_faults. }
  destruct (run_file tokenize trim (csv_text l nodes) (launch_init stubs)) as [[[] s]|f] eqn:E.
  2: { by apply Total in E. }
  exists s. split; [done|]. apply run_file_requests in E as [_ R].
  rewrite R, L. apply csv_requests; done.
Qed.

(** C29: the benchmark file is read back, where it is the file that is read. The
    workload is written to [../test_data/benchmark.csv], the launcher opens
    [../tests/test_data/benchmark.csv]. For transactions without negative
    numbers, node names without quotes, and any tokenizer and trimming that do
    what is documented on such rows: if both paths lead to one file, the
    launcher runs through it without an exception and hands the client exactly
    the transactions of the workload, in order, numbered from 0. If they do not,
    or the file to write cannot be opened, the run is that of the file that was there before, or ends with status 1 if
    there was none, whatever the workload. *)
Theorem benchmark_file_read_back (tokenize : string → list string) (trim : string → string)
    (l : list Txn) (nodes : list string) (stubs : gset Z) (fs : FileSystem) :
  tokenizer_ok tokenize → trim_ok trim → Forall txn_plain l → Forall plain_field nodes →
  (∀ f, fs_target fs out_csv_path = Some f → fs_target fs (test_file "benchmark.csv") = Some f →
    ∃ s, run_benchmark tokenize trim l nodes fs (launch_init stubs) = Ok (0, s) ∧
      requests s = txn_requests 0 l) ∧
  ((∀ f, fs_target fs out_csv_path = Some f → fs_target fs (test_file "benchmark.csv") ≠ Some f) →
    run_benchmark tokenize trim l nodes fs (launch_init stubs) =
      read_test_file tokenize trim fs "benchmark.csv" (launch_init stubs)).
Proof.
  intros Tok Trim F N. unfold run_benchmark, read_test_file, open_file, write_csv. split.
  - intros f Hout Hin. rewrite Hout. cbn [fs_target fs_files]. rewrite Hin. cbn. rewrite lookup_insert_eq.
    destruct (run_file_csv tokenize trim l nodes stubs Tok Trim F N) as (s & E & R).
    exists s. split; [|exact R]. by rewrite (bind_Ok _ _ _ _ _ E).
  - intros Hne. destruct (fs_target fs out_csv_path) as [f|]; [|done]. cbn [fs_target fs_files].
    specialize (Hne f eq_refl).
    destruct (fs_target fs (test_file "benchmark.csv")) as [g|]; [|done]. cbn.
    by rewrite lookup_insert_ne by congruence.
Qed.

(** ** A tokenizer and a trimming that qualify *)
Fixpoint split_fields (inside : bool) (cur s : string) : list string :=
  match s with
  | EmptyString => [cur]
  | String c s =>
      if bool_decide (String c "" = dq) then split_fields (negb inside) cur s
      else if bool_decide (c = ","%char) && negb inside then cur :: split_fields inside "" s
      else split_fields inside (cur +:+ String c "") s
  end.
Definition simple_tokenize : string → list string := split_fields false "".
Definition simple_trim (s : string) : string := erase_back (erase_front s).

Lemma split_fields_plain inside cur s rest :
  plain_field s → inside = true ∨ all_chars no_comma s = true →
  split_fields inside cur (s +:+ rest) = split_fields inside (cur +:+ s) rest.
Proof.
  revert cur. induction s as [|c s IH]; intros cur P C.
  - by rewrite append_nil, append_nil_r.
  - unfold plain_field in P. cbn in P. apply andb_true_iff in P as [Pc P].
    rewrite append_cons. cbn [split_fields]. rewrite bool_decide_false.
    2: { unfold dq. intros [= ->]. done. }
    assert (Hc : bool_decide (c = ","%char) && negb inside = false).
    { destruct C as [->|C]; [by rewrite andb_false_r|]. cbn in C.
      apply andb_true_iff in C as [C _]. unfold no_comma in C. by destruct (bool_decide _). }
    rewrite Hc, IH; [by rewrite append_assoc|done|].
    destruct C as [->|C]; [by left|right]. cbn in C. by apply andb_true_iff in C as [_ C].
Qed.

Lemma split_fields_quoted cur b rest :
  plain_field b → split_fields false cur (quoted b +:+ rest) = split_fields false (cur +:+ b) rest.
Proof.
  intros P. unfold quoted. rewrite !append_assoc. change (dq +:+ ?s) with (String (ascii_of_nat 34) s) at 1.
  cbn [split_fields]. rewrite bool_decide_true by done. cbn [negb].
  rewrite split_fields_plain by auto. change (dq +:+ rest) with (String (ascii_of_nat 34) rest).
  cbn [split_fields]. by rewrite bool_decide_true.
Qed.

Lemma split_fields_comma cur rest : split_fields false cur ("," +:+ rest) = cur :: split_fields false "" rest.
Proof. done. Qed.

Lemma simple_tokenize_ok : tokenizer_ok simple_tokenize.
Proof.
  unfold simple_tokenize. split.
  - intros a b c Na Pa Pb Pc. rewrite split_fields_plain, split_fields_comma by auto.
    rewrite split_fields_quoted, split_fields_comma by done.
    rewrite <- (append_nil_r (quoted c)), split_fields_quoted by done. done.
  - intros b Pb. rewrite split_fields_comma, split_fields_quoted by done. done.
Qed.

Lemma erase_back_paren s : erase_back (s +:+ ")") = s +:+ ")".
Proof.
  induction s as [|c s IH]; [done|]. rewrite append_cons. cbn [erase_back]. rewrite IH.
  by destruct s.
Qed.
Lemma simple_trim_ok : trim_ok simple_trim.
Proof.
  split; [done|]. intros s. unfold simple_trim. change (erase_front ("(" +:+ ?t)) with ("(" +:+ t).
  rewrite <- append_assoc. apply erase_back_paren.
Qed.

Definition small_txns : list Txn := [MkTxn false 1 4 3; MkTxn true 7 0 0; MkTxn false 2 9 1].

Definition small_file : string := csv_text small_txns ["n1"; "n2"].

(** A checkout with an older benchmark file, with and without the link from
    [test_data] to [tests/test_data]. *)
Definition linked (p : string) : option string :=
  if bool_decide (p = out_csv_path) then Some (test_file "benchmark.csv") else Some p.
Definition old_file : gmap string string :=
  {[test_file "benchmark.csv" := csv_text [MkTxn true 5 0 0] ["n1"]]}.

Lemma benchmark_file_read_back_witness :
  (∃ s, run_benchmark simple_tokenize simple_trim small_txns ["n1"; "n2"] (MkFileSystem old_file linked)
      (launch_init (list_to_set (seqZ 1 9))) = Ok (0, s) ∧
    requests s = [request_of 0 1 4 3 false; request_of 1 7 (-1) (-1) true; request_of 2 2 9 1 false]) ∧
  run_benchmark simple_tokenize simple_trim small_txns ["n1"; "n2"] (MkFileSystem old_file Some)
      (launch_init (list_to_set (seqZ 1 9))) =
    read_test_file simple_tokenize simple_trim (MkFileSystem old_file Some) "benchmark.csv"
      (launch_init (list_to_set (seqZ 1 9))).
Proof.
  assert (Forall txn_plain small_txns ∧ Forall plain_field ["n1"; "n2"]) as [F N]
    by (split; repeat constructor; discriminate).
  split.
  - apply (proj1 (benchmark_file_read_back simple_tokenize simple_trim small_txns ["n1"; "n2"]
      (list_to_set (seqZ 1 9)) (MkFileSystem old_file linked) simple_tokenize_ok simple_trim_ok F N)
      (test_file "benchmark.csv") eq_refl eq_refl).
  - apply (proj2 (benchmark_file_read_back simple_tokenize simple_trim small_txns ["n1"; "n2"]
      (list_to_set (seqZ 1 9)) (MkFileSystem old_file Some) simple_tokenize_ok simple_trim_ok F N)).
    by intros ? [= <-].
Defined.

Definition small_launch : Launcher :=
  match run_file simple_tokenize simple_trim small_file (launch_init (list_to_set (seqZ 1 3))) with
  | Ok (_, s) => s
  | Fault _ => launch_init ∅
  end.

Lemma launcher_timestamps_witness :
  rq_timestamp <$> requests small_launch = seqZ 0 (num small_launch) ∧ num small_launch = 3.
Proof.
  split; [|vm_compute; reflexivity].
  refine (proj1 (launcher_timestamps simple_tokenize simple_trim small_file
    (list_to_set (seqZ 1 3)) small_launch _)). vm_compute. reflexivity.
Defined.
