(* ===== verification/Terminal.v ===== *)
(** * The terminal: the prompt between two sets, and moving on

    [PromptUser], [InputThread], [SendMoveOn] of [node_launch.cpp] and
    [GetNodeInfoClient] of [call_data.cpp]: what the user types, what the
    program asks of the nodes and prints, and what it changes.

    Representation. Standard input is the list of the lines still to come,
    empty at its end; standard output a list of pieces, with the value of a
    [double] kept as a quotient, unrounded. The nodes are the processes that
    run, with their state; a blocking call runs the handler of the node, and
    fails when the process is gone. A process dies of a fault of its handler.
    [stubs] is the hash map of the non-null stubs, in its own order. Boost's
    [trim] and [split], the order of the other hash maps and the fuel of the
    loop in [Reshard] are parameters. *)
From S2P Require Import Prelude Text Messages Node Elections Control Client Launch Sharding.
#[local] Open Scope Z_scope.

Record Terminal := MkTerminal {
  te_stubs : list Z;
  te_nodes : gmap Z PaxosNode;
  te_client : PaxosClient;
  te_active : gset Z;
  te_set_number : Z;
  te_processed : list (Z * Z);
  te_millis : Z;
  stop_input : bool;
  prompt_map : gmap Z Z;
  stdin : list string;
  stdout : list Piece;
  te_sent : list (Z * AliveUpdateRequest) }.
#[export] Instance rebuild_Terminal : Rebuild Terminal := λ s,
  MkTerminal (te_stubs s) (te_nodes s) (te_client s) (te_active s) (te_set_number s)
    (te_processed s) (te_millis s) (stop_input s) (prompt_map s) (stdin s) (stdout s) (te_sent s).
#[export] Instance upd_te_nodes : Upd te_nodes := ltac:(derive_upd).
#[export] Instance upd_te_client : Upd te_client := ltac:(derive_upd).
#[export] Instance upd_te_active : Upd te_active := ltac:(derive_upd).
#[export] Instance upd_stop_input : Upd stop_input := ltac:(derive_upd).
#[export] Instance upd_prompt_map : Upd prompt_map := ltac:(derive_upd).
#[export] Instance upd_stdin : Upd stdin := ltac:(derive_upd).
#[export] Instance upd_stdout : Upd stdout := ltac:(derive_upd).
#[export] Instance upd_te_sent : Upd te_sent := ltac:(derive_upd).
Abbreviation TermM := (M Terminal).

Definition print (l : list Piece) : TermM unit := stdout ::~ (λ o, o ++ l).
Definition say (s : string) : TermM unit := print [Str s].

(** [std::getline(std::cin, input)]; [None] at the end of the input. *)
Definition getline : TermM (option string) :=
  l ← gets stdin;
  match l with
  | [] => mret None
  | x :: l => stdin ::= l ;; mret (Some x)
  end.

(** [stubs[node_id]], which the next use dereferences. *)
Definition stub_at (i : Z) : TermM Z :=
  l ← gets te_stubs;
  if bool_decide (i ∈ l) then mret i else raise NullStub.

(** [GetNodeInfoClient(stub).GetNodeInfo(request)] *)
Definition GetNodeInfo (i : Z) (request : InfoRequest) : TermM NodeInfo :=
  m ← gets te_nodes;
  match m !! i with
  | Some s => mret (HandleSendNodeInfo request s)
  | None => raise RpcFailed
  end.

Definition ask_log : InfoRequest := MkInfoRequest true false false false 0.
Definition ask_db : InfoRequest := MkInfoRequest false true false false 0.
Definition ask_status (seq : Z) : InfoRequest := MkInfoRequest false false true false seq.
Definition ask_newview : InfoRequest := MkInfoRequest false false false true 0.

(** ** The commands *)
Definition print_log (arg : string) : TermM unit :=
  n ← stoiM arg;
  i ← stub_at n;
  output ← GetNodeInfo i ask_log;
  say ("Node " +:+ arg +:+ " - Current Log State:" +:+ nl) ;;
  say (ni_print_log output +:+ nl).

Definition print_account (e : string * Z) : TermM unit :=
  say ("Account: " +:+ e.1 +:+ ", Balance: " +:+ to_string e.2 +:+ nl).
Definition print_db : TermM unit :=
  stubs ← gets te_stubs;
  for_each stubs (λ i,
    output ← GetNodeInfo i ask_db;
    say ("Node " +:+ to_string i +:+ " - Current Database State:" +:+ nl) ;;
    for_each (ni_database output) print_account).

Definition print_status (arg : string) : TermM unit :=
  stubs ← gets te_stubs;
  for_each stubs (λ i,
    seq ← stoiM arg;
    output ← GetNodeInfo i (ask_status seq);
    say ("Node " +:+ to_string i +:+ " - Current Status For SeqNum " +:+ arg +:+ ": "
         +:+ ni_status output +:+ nl)).

(** [std::map<std::pair<int,int>, NewViewRequest>]: one view per ballot, the
    later answer for a ballot replacing the earlier. *)
Definition view_key (v : NewViewRequest) : Z * Z := (counter (nv_ballot v), node_id (nv_ballot v)).
Definition pair_le : relation ((Z * Z) * NewViewRequest) := λ p q,
  p.1.1 < q.1.1 ∨ (p.1.1 = q.1.1 ∧ p.1.2 ≤ q.1.2).
#[export] Instance pair_le_dec : RelDecision pair_le.
Proof. intros p q. unfold pair_le. apply _. Defined.
Definition add_views (l : list NewViewRequest) (m : gmap (Z * Z) NewViewRequest) :
    gmap (Z * Z) NewViewRequest :=
  foldl (λ m v, <[view_key v := v]> m) m l.
Definition view_log (v : NewViewRequest) : gmap Z AcceptedEntry :=
  foldl (λ m e, <[ae_seqnum e := e]> m) ∅ (nv_accept_log v).

Fixpoint collect_views (stubs : list Z) (m : gmap (Z * Z) NewViewRequest) :
    TermM (gmap (Z * Z) NewViewRequest) :=
  match stubs with
  | [] => mret m
  | i :: stubs =>
      output ← GetNodeInfo i ask_newview;
      collect_views stubs (add_views (ni_newviews output) m)
  end.
Definition print_view : TermM unit :=
  stubs ← gets te_stubs;
  all_views ← collect_views stubs ∅;
  for_each (merge_sort pair_le (map_to_list all_views)) (λ p,
    say ("<NEW-VIEW, (" +:+ to_string p.1.1 +:+ "," +:+ to_string p.1.2 +:+ "), "
         +:+ AcceptLogToString (view_log p.2) +:+ ">" +:+ nl)) ;;
  say nl.

(** [shard_map[item]] *)
Definition cluster_of_item (item : Z) : TermM Z :=
  m ← gets prompt_map;
  let '(c, m) := subscript 0 m item in
  prompt_map ::= m ;; mret c.

(** The loop over [output.database()]: each entry of the item is printed. *)
Fixpoint print_entries (item : Z) (l : list (string * Z)) (found : bool) : TermM bool :=
  match l with
  | [] => mret found
  | (client, balance) :: l =>
      n ← stoiM client;
      if item =? n then say (to_string balance +:+ nl) ;; print_entries item l true
      else print_entries item l found
  end.

Definition print_balance (num_clusters : Z) (arg : string) : TermM unit :=
  item ← stoiM arg;
  cluster ← cluster_of_item item;
  stubs ← gets te_stubs;
  let per := Z.quot (Z.of_nat (length stubs)) num_clusters in
  for_each (seqZ ((cluster - 1) * per + 1) per) (λ i,
    i ← stub_at i;
    output ← GetNodeInfo i ask_db;
    say ("Node " +:+ to_string i +:+ " Balance for item " +:+ to_string item +:+ ": ") ;;
    found ← print_entries item (ni_database output) false;
    when (negb found) (say (to_string 10 +:+ nl))).

Definition performance : TermM unit :=
  ms ← gets te_millis;
  n ← gets (λ s, Z.of_nat (length (te_processed s)));
  say ("Performance Metrics:" +:+ nl) ;;
  print [Str "Throughput (transactions/second): "; Quot (n * 1000) ms; Str nl] ;;
  print [Str "Latency Total Time (seconds): "; Quot ms 1000; Str nl] ;;
  print [Str "Avg Latency per txn: "; Quot ms (1000 * n); Str nl].

Definition TOTAL_ITEMS : Z := 9000.

Section prompt.
Variable trim : string → string.
Variable split : string → list string.
Variable order : gmap Z Z → list (Z * Z).
Variable fuel : nat.

(** [Reshard(...)], or [None] while its loop still runs. *)
Definition call_Reshard (num_clusters : Z) : TermM (option (gmap Z Z)) :=
  s ← gets id;
  match Reshard order fuel num_clusters (te_processed s) (prompt_map s) TOTAL_ITEMS with
  | Ok (true, r) => mret (Some (new_mapping r))
  | Ok (false, _) => mret None
  | Fault f => raise f
  end.

Definition print_move (p : Z * Z) : TermM unit :=
  old ← cluster_of_item p.1;
  when (negb (p.2 =? old)) (
    old ← cluster_of_item p.1;
    say ("(" +:+ to_string p.1 +:+ ", " +:+ to_string old +:+ ", " +:+ to_string p.2 +:+ ")" +:+ nl)).

Definition send_update (i : Z) (u : AliveUpdateRequest) : TermM unit :=
  te_sent ::~ (λ l, l ++ [(i, u)]).

(** Whether it came to an end. *)
Definition print_reshard (num_clusters : Z) : TermM bool :=
  new_shard_map ← call_Reshard num_clusters;
  match new_shard_map with
  | None => mret false
  | Some m =>
      say ("Items which moved shards:" +:+ nl) ;;
      for_each (order m) print_move ;;
      say ("sending change" +:+ nl) ;;
      stubs ← gets te_stubs;
      for_each stubs (λ i, send_update i (AliveAsyncCall false false false false false true (order m))) ;;
      mret true
  end.

(** ** The prompt *)
Inductive Turn := Again | Returns | Hangs.
#[global] Instance Turn_eq_dec : EqDecision Turn.
Proof. solve_decision. Defined.

Definition usage (s : string) : TermM unit := say ("Invalid input. Usage: " +:+ s +:+ nl).
Definition with_argument (args : list string) (text : string) (m : string → TermM unit) :
    TermM Turn :=
  match args with
  | [_; arg] => m arg ;; mret Again
  | _ => usage text ;; mret Again
  end.

Definition run_command (num_clusters : Z) (args : list string) : TermM Turn :=
  match args with
  | [] => raise BadIndex
  | name :: _ =>
      if name ==s "PrintLog" then with_argument args "PrintLog <node_id>" print_log
      else if name ==s "PrintDB" then print_db ;; mret Again
      else if name ==s "PrintStatus" then with_argument args "PrintStatus <seq_num>" print_status
      else if name ==s "PrintView" then print_view ;; mret Again
      else if name ==s "PrintBalance" then
        with_argument args "PrintBalance <item_id>" (print_balance num_clusters)
      else if name ==s "Performance" then performance ;; mret Again
      else if name ==s "PrintReshard" then
        ended ← print_reshard num_clusters; mret (if ended : bool then Again else Hangs)
      else if name ==s "Continue" then mret Returns
      else say ("Invalid input. Please enter PrintLog, PrintDB, PrintStatus, PrintView or Continue."
                +:+ nl) ;; mret Again
  end.

Definition prompt_turn (num_clusters : Z) : TermM Turn :=
  n ← gets te_set_number;
  say ("Enter command to get up to and including set " +:+ to_string n +:+ ": " +:+ nl) ;;
  input ← getline;
  match input with
  | None => mret Again
  | Some input => run_command num_clusters (split (trim input))
  end.

(** The loop: whether it returned within so many turns. *)
Fixpoint prompt_loop (turns : nat) (num_clusters : Z) : TermM bool :=
  match turns with
  | O => mret false
  | S turns =>
      t ← prompt_turn num_clusters;
      match t with
      | Again => prompt_loop turns num_clusters
      | Returns => mret true
      | Hangs => mret false
      end
  end.

(** [shard_map] is passed by value. *)
Definition PromptUser (turns : nat) (shard_map : gmap Z Z) (num_clusters : Z) : TermM bool :=
  prompt_map ::= shard_map ;; prompt_loop turns num_clusters.
End prompt.

(** ** Moving on *)

(** A blocking call of a node: its answer, or nothing when the process is gone
    or dies of it. *)
Definition rpc {A} (i : Z) (m : NodeM A) : TermM (option A) :=
  nodes ← gets te_nodes;
  match nodes !! i with
  | None => mret None
  | Some s =>
      match m s with
      | Ok (a, s') => te_nodes ::= <[i := s']> nodes ;; mret (Some a)
      | Fault _ => te_nodes ::= delete i nodes ;; mret None
      end
  end.

Definition SendMoveOn (i : Z) : TermM bool :=
  reply ← rpc i HandleMoveOn;
  mret (default false reply).

(** [std::cin.ignore(max, '\n')]: the next line is thrown away. *)
Definition cin_ignore : TermM unit := stdin ::~ tail.

Definition client_moves_on : TermM unit := λ s,
  match (client_HandleMoveOn ;; destroy_unnamed) (te_client s) with
  | Ok (_, c) => Ok (tt, upd te_client c s)
  | Fault f => Fault f
  end.

Definition move_on : TermM unit :=
  say ("[User] requested to move on." +:+ nl) ;;
  active ← gets te_active;
  for_each (merge_sort Z.le (elements active)) (λ i, i ← stub_at i; SendMoveOn i ;; skip) ;;
  client_moves_on ;;
  stop_input ::= true ;;
  cin_ignore.

(** One turn of [InputThread]: [ready] is what [select] answers. Whether the
    thread goes on. *)
Definition InputThread_turn (ready : bool) : TermM bool :=
  stop ← gets stop_input;
  if stop : bool then mret false else
  if negb ready then mret true else
  input ← getline;
  match input with
  | Some x => if (x ==s "Continue") || (x ==s "continue") then move_on ;; mret false else mret true
  | None => mret true
  end.

Fixpoint InputThread (polls : list bool) : TermM bool :=
  match polls with
  | [] => mret true
  | ready :: polls =>
      more ← InputThread_turn ready;
      if more : bool then InputThread polls else mret false
  end.
