(* ===== verification/TerminalProofs.v ===== *)
(** * The terminal: what the commands show and change

    [PrintReshard] sends its map to every node, which takes it over, and tells
    nobody else; [PrintBalance] shows the ledgers of the cluster of its item;
    the prompt leaves its loop at [Continue] only; moving on ends what is in
    flight, answers what the surviving nodes held, and loses a line of input. *)
From S2P Require Import Prelude Text Messages Node Elections Control Client Launch CsvProofs.
From S2P Require Import Sharding ReshardProofs LedgerProofs Calls CallProofs ClientProofs TimerProofs ClientSafety Terminal.
#[local] Open Scope Z_scope.

Definition printed (l : list Piece) (s : Terminal) : Terminal := upd stdout (stdout s ++ l) s.
Lemma printed_nil s : printed [] s = s.
Proof. unfold printed. rewrite app_nil_r. by destruct s. Qed.
Lemma printed_app l1 l2 s : printed l2 (printed l1 s) = printed (l1 ++ l2) s.
Proof. unfold printed. simp_upd. by rewrite app_assoc. Qed.
Lemma say_eq t s : say t s = Ok (tt, printed [Str t] s).
Proof. done. Qed.

(** A loop whose turns only print. *)
Lemma for_each_printed {X} (l : list X) (f : X → list Piece) (body : X → TermM unit) (P : Terminal → Prop) s :
  (∀ x t, x ∈ l → P t → body x t = Ok (tt, printed (f x) t)) → (∀ o t, P t → P (printed o t)) → P s →
  for_each l body s = Ok (tt, printed (concat (f <$> l)) s).
Proof.
  intros Hb HP. revert s. induction l as [|x l IH]; intros s Hs; cbn [for_each].
  - change (Ok (tt, s) = Ok (tt, printed [] s)). by rewrite printed_nil.
  - rewrite fmap_cons. cbn [concat]. rewrite (bind_Ok _ _ _ _ _ (Hb x s (list_elem_of_here _ _) Hs)), IH.
    + by rewrite printed_app.
    + intros y t Hy. apply Hb. by right.
    + by apply HP.
Qed.

(** ** PrintReshard *)
Definition move_line (old : gmap Z Z) (p : Z * Z) : list Piece :=
  let o := default 0 (old !! p.1) in
  if p.2 =? o then []
  else [Str ("(" +:+ to_string p.1 +:+ ", " +:+ to_string o +:+ ", " +:+ to_string p.2 +:+ ")" +:+ nl)].

Lemma cluster_of_item_known item c s :
  prompt_map s !! item = Some c → cluster_of_item item s = Ok (c, s).
Proof.
  intros H. unfold cluster_of_item, subscript. run_goal. rewrite H. run_goal. by destruct s.
Qed.

Lemma print_move_eq old p s :
  prompt_map s = old → is_Some (old !! p.1) → print_move p s = Ok (tt, printed (move_line old p) s).
Proof.
  intros <- [c H]. unfold print_move, move_line. rewrite (bind_Ok _ _ _ _ _ (cluster_of_item_known _ _ _ H)), H.
  change (default 0 (Some c)) with c. cbv zeta.
  destruct (p.2 =? c); cbn [negb when]; [by rewrite printed_nil|].
  by rewrite (bind_Ok _ _ _ _ _ (cluster_of_item_known _ _ _ H)).
Qed.

Lemma apply_reshard_union l (n : gmap Z Z) : NoDup l.*1 → apply_reshard l n = list_to_map l ∪ n.
Proof.
  revert n. induction l as [|[i c] l IH]; intros n Hd; cbn [fmap list_fmap] in *.
  - change (n = ∅ ∪ n). by rewrite (left_id_L ∅ (∪)).
  - apply list.NoDup_cons in Hd as [Hi Hd].
    change (apply_reshard l (<[i := c]> n) = list_to_map ((i, c) :: l) ∪ n). rewrite IH by done.
    cbn [list_to_map fold_right]. rewrite <- insert_union_r by by apply not_elem_of_list_to_map_1.
    apply insert_union_l.
Qed.

Lemma apply_reshard_new l m (n : gmap Z Z) :
  l ≡ₚ map_to_list m → dom n = dom m → apply_reshard l n = m.
Proof.
  intros Hl Hd. rewrite apply_reshard_union by (rewrite Hl; apply NoDup_fst_map_to_list).
  rewrite (list_to_map_proper l (map_to_list m)) by (try done; rewrite Hl; apply NoDup_fst_map_to_list).
  rewrite list_to_map_to_list. apply map_eq. intros i. destruct (m !! i) as [c|] eqn:E.
  - by rewrite (lookup_union_Some_l _ _ _ _ E).
  - rewrite lookup_union_r by done. apply not_elem_of_dom. rewrite Hd. by apply not_elem_of_dom.
Qed.

Definition reshard_update (l : list (Z * Z)) : AliveUpdateRequest :=
  AliveAsyncCall false false false false false true l.

Lemma send_updates_eq l u s :
  for_each l (λ i, send_update i u) s =
    Ok (tt, upd te_sent (te_sent s ++ ((λ i, (i, u)) <$> l)) s).
Proof.
  revert s. induction l as [|i l IH]; intros s; cbn [for_each fmap list_fmap].
  - rewrite app_nil_r. by destruct s.
  - rewrite (bind_Ok _ _ _ _ _ (eq_refl : send_update i u s = Ok (tt, upd te_sent (te_sent s ++ [(i, u)]) s))), IH.
    simp_upd. by rewrite <- app_assoc.
Qed.

Lemma print_reshard_eq order fuel k s r :
  (∀ m, order m ≡ₚ map_to_list m) →
  Reshard order fuel k (te_processed s) (prompt_map s) TOTAL_ITEMS = Ok (true, r) →
  let m := new_mapping r in
  print_reshard order fuel k s = Ok (true,
    upd te_sent (te_sent s ++ ((λ i, (i, reshard_update (order m))) <$> te_stubs s))
      (printed ([Str ("Items which moved shards:" +:+ nl)] ++ concat (move_line (prompt_map s) <$> order m)
        ++ [Str ("sending change" +:+ nl)]) s)).
Proof.
  intros O E m. destruct (Reshard_books order O _ _ _ _ _ _ _ E) as (Hd & _).
  assert (call_Reshard order fuel k s = Ok (Some m, s)) as Hc
    by (unfold call_Reshard; run_goal; by rewrite E).
  set (s1 := printed [Str ("Items which moved shards:" +:+ nl)] s).
  assert (for_each (order m) print_move s1 =
    Ok (tt, printed (concat (move_line (prompt_map s) <$> order m)) s1)) as Hm.
  { apply (for_each_printed _ _ _ (λ t, prompt_map t = prompt_map s)); [|done..].
    intros [i c] t Hi Ht. apply print_move_eq; [done|]. apply elem_of_dom. rewrite <- Hd.
    rewrite O, elem_of_map_to_list in Hi. apply elem_of_dom. by exists c. }
  unfold print_reshard. rewrite (bind_Ok _ _ _ _ _ Hc).
  rewrite (bind_Ok _ _ _ _ _ (say_eq _ _)). fold s1. rewrite (bind_Ok _ _ _ _ _ Hm).
  rewrite (bind_Ok _ _ _ _ _ (say_eq _ _)), !printed_app. subst s1. rewrite printed_app.
  run_goal. by rewrite send_updates_eq.
Qed.

(** C35: [PrintReshard] installs the new map at the nodes, and nowhere else.
    When [Reshard] returns, in whatever order the hash maps are walked, the
    command prints exactly the items whose cluster changed, each with its old
    and its new cluster, and sends one update to every node; a node that
    receives it has exactly the new map, and nothing else of it changes. The
    map of the prompt itself, from which the next [PrintReshard] and
    [PrintBalance] start, and the map of the client are left as they were. *)
Theorem reshard_reaches_every_node (order : gmap Z Z → list (Z * Z)) (fuel : nat) (k : Z)
    (rest : list string) (s : Terminal) (r : ReshardState) :
  (∀ m, order m ≡ₚ map_to_list m) →
  Reshard order fuel k (te_processed s) (prompt_map s) TOTAL_ITEMS = Ok (true, r) →
  let m := new_mapping r in
  run_command order fuel k ("PrintReshard"%string :: rest) s = Ok (Again,
    upd te_sent (te_sent s ++ ((λ i, (i, reshard_update (order m))) <$> te_stubs s))
      (printed ([Str ("Items which moved shards:" +:+ nl)] ++ concat (move_line (prompt_map s) <$> order m)
        ++ [Str ("sending change" +:+ nl)]) s)) ∧
  ∀ n, dom (shard_map_ n) = dom (prompt_map s) →
    HandleSetAlive (reshard_update (order m)) n = Ok (true, upd shard_map_ m n).
Proof.
  intros O E m. split.
  - change (run_command order fuel k ("PrintReshard"%string :: rest) s) with
      ((ended ← print_reshard order fuel k; mret (if ended : bool then Again else Hangs)) s).
    by rewrite (bind_Ok _ _ _ _ _ (print_reshard_eq order fuel k s r O E)).
  - intros n Hn. destruct (Reshard_books order O _ _ _ _ _ _ _ E) as (Hd & _).
    unfold HandleSetAlive. cbn [reshard_update AliveAsyncCall au_prompt_pause au_reshard au_shard_map].
    run_goal. rewrite apply_reshard_new with (m := m); [done|apply O|]. by rewrite Hn, <- Hd.
Qed.

(** The terminal of the small deployment; one read of item 1 was made. *)
Definition small_terminal (nodes : gmap Z PaxosNode) (processed : list (Z * Z)) (input : list string) :
    Terminal :=
  MkTerminal [1; 2; 3; 4; 5; 6] nodes (PaxosClient_init "A" (list_to_set [1; 2; 3; 4; 5; 6]) 3 small_shards 2)
    {[1; 2]} 1 processed 0 false small_shards input [] [].
Definition reshard_end_of (s : Terminal) : ReshardState :=
  match Reshard map_to_list 50 2 (te_processed s) (prompt_map s) TOTAL_ITEMS with
  | Ok (_, r) => r
  | Fault _ => MkReshard ∅ [] []
  end.

Lemma reshard_reaches_every_node_witness :
  HandleSetAlive (reshard_update (map_to_list (new_mapping (reshard_end_of (small_terminal ∅ [(1, -1)] [])))))
    (small_node 1) = Ok (true, upd shard_map_ (new_mapping (reshard_end_of (small_terminal ∅ [(1, -1)] [])))
      (small_node 1)).
Proof.
  set (s := small_terminal ∅ [(1, -1)] []).
  assert (E : (λ r, bool_decide (r.1 = true)) <$> (match Reshard map_to_list 50 2 (te_processed s)
    (prompt_map s) TOTAL_ITEMS with Ok r => Some r | _ => None end) = Some true) by (vm_compute; reflexivity).
  assert (Reshard map_to_list 50 2 (te_processed s) (prompt_map s) TOTAL_ITEMS =
    Ok (true, reshard_end_of s)) as E'.
  { unfold reshard_end_of. destruct (Reshard _ _ _ _ _ _) as [[b r]|]; [|done].
    cbn in E. injection E as E%bool_decide_eq_true. by rewrite E. }
  apply (proj2 (reshard_reaches_every_node map_to_list 50 2 [] s (reshard_end_of s)
    (λ m, reflexivity _) E')). reflexivity.
Defined.

(** ** PrintBalance *)

(** The modified accounts of a node are numbers that print and read back, and
    every other account has the balance all accounts start with. *)
Record ledger_shown (n : PaxosNode) : Prop := LedgerShown {
  ls_range : ∀ a, a ∈ modified_accounts_ n → int_min ≤ a ≤ int_max;
  ls_untouched : ∀ a, 1 ≤ a ≤ TOTAL_ITEMS → a ∉ modified_accounts_ n → accounts_ n a = 10 }.

Lemma print_entries_absent item (f : Z → Z) l s found :
  (∀ a, a ∈ l → int_min ≤ a ≤ int_max) → item ∉ l →
  print_entries item ((λ a, (to_string a, f a)) <$> l) found s = Ok (found, s).
Proof.
  revert found. induction l as [|a l IH]; intros found Hr Hi; [done|].
  apply list.not_elem_of_cons in Hi as [Hn Hi]. rewrite fmap_cons. cbn [print_entries].
  rewrite (bind_Ok _ _ _ _ _ (stoiM_ok _ _ _ (stoi_to_string a (Hr a (list_elem_of_here _ _))))).
  rewrite (proj2 (Z.eqb_neq _ _)) by done. apply IH; [|done]. intros b Hb. apply Hr. by right.
Qed.

Lemma print_entries_present item (f : Z → Z) l s found :
  (∀ a, a ∈ l → int_min ≤ a ≤ int_max) → NoDup l → item ∈ l →
  print_entries item ((λ a, (to_string a, f a)) <$> l) found s =
    Ok (true, printed [Str (to_string (f item) +:+ nl)] s).
Proof.
  revert found s. induction l as [|a l IH]; intros found s Hr Hd Hi; [by apply elem_of_nil in Hi|].
  apply list.NoDup_cons in Hd as [Ha Hd]. rewrite fmap_cons. cbn [print_entries].
  rewrite (bind_Ok _ _ _ _ _ (stoiM_ok _ _ _ (stoi_to_string a (Hr a (list_elem_of_here _ _))))).
  assert (∀ b, b ∈ l → int_min ≤ b ≤ int_max) as Hr' by (intros b Hb; apply Hr; by right).
  destruct (Z.eqb_spec item a) as [->|Hn].
  - rewrite (bind_Ok _ _ _ _ _ (say_eq _ _)). by rewrite print_entries_absent.
  - apply IH; [done..|]. by apply list.elem_of_cons in Hi as [?|?].
Qed.

Definition balance_lines (item : Z) (i : Z) (n : PaxosNode) : list Piece :=
  [Str ("Node " +:+ to_string i +:+ " Balance for item " +:+ to_string item +:+ ": ");
   Str (to_string (accounts_ n item) +:+ nl)].

Lemma print_balance_at item i n s :
  1 ≤ item ≤ TOTAL_ITEMS → i ∈ te_stubs s → te_nodes s !! i = Some n → ledger_shown n →
  (i ← stub_at i;
   output ← GetNodeInfo i ask_db;
   say ("Node " +:+ to_string i +:+ " Balance for item " +:+ to_string item +:+ ": ") ;;
   found ← print_entries item (ni_database output) false;
   when (negb found) (say (to_string 10 +:+ nl))) s =
  Ok (tt, printed (balance_lines item i n) s).
Proof.
  intros Hit Hi Hn [Hr Hu].
  assert (stub_at i s = Ok (i, s)) as E1 by (unfold stub_at; run_goal; by rewrite bool_decide_eq_true_2).
  rewrite (bind_Ok _ _ _ _ _ E1).
  assert (GetNodeInfo i ask_db s = Ok (MkNodeInfo "" (db_dump n) "" [], s)) as E2
    by (unfold GetNodeInfo; run_goal; by rewrite Hn).
  rewrite (bind_Ok _ _ _ _ _ E2), (bind_Ok _ _ _ _ _ (say_eq _ _)). cbn [ni_database]. unfold db_dump.
  set (l := merge_sort Z.le (elements (modified_accounts_ n))).
  assert (∀ a, a ∈ l ↔ a ∈ modified_accounts_ n) as Hl
    by (intros a; unfold l; by rewrite merge_sort_Permutation, elem_of_elements).
  assert (NoDup l) as Hd by (unfold l; rewrite merge_sort_Permutation; apply NoDup_elements).
  assert (∀ a, a ∈ l → int_min ≤ a ≤ int_max) as Hr' by (intros a Ha; by apply Hr, Hl).
  unfold balance_lines. destruct (decide (item ∈ l)) as [Hin|Hin].
  - rewrite (bind_Ok _ _ _ _ _ (print_entries_present item (accounts_ n) l _ false Hr' Hd Hin)).
    cbn [negb when]. by rewrite printed_app.
  - rewrite (bind_Ok _ _ _ _ _ (print_entries_absent item (accounts_ n) l _ false Hr' Hin)).
    cbn [negb when]. rewrite say_eq, printed_app, Hu; [done..|]. by rewrite <- Hl.
Qed.

Definition cluster_nodes_of (k c : Z) (s : Terminal) : list Z :=
  let per := Z.quot (Z.of_nat (length (te_stubs s))) k in seqZ ((c - 1) * per + 1) per.
Definition balance_of_node (item : Z) (s : Terminal) (i : Z) : list Piece :=
  match te_nodes s !! i with Some n => balance_lines item i n | None => [] end.

(** [PrintBalance] shows the ledgers. For an item of the prompt's map it
    prints, for each node of the item's cluster in order, the balance the
    node's ledger has for the item, also when no entry ever touched it, as long
    as untouched accounts have their initial balance; nothing else changes. *)
Theorem print_balance_shows_ledger (order : gmap Z Z → list (Z * Z)) (fuel : nat) (k c item : Z)
    (arg : string) (s : Terminal) :
  stoi arg = inr item → 1 ≤ item ≤ TOTAL_ITEMS → prompt_map s !! item = Some c →
  (∀ i, i ∈ cluster_nodes_of k c s →
    i ∈ te_stubs s ∧ ∃ n, te_nodes s !! i = Some n ∧ ledger_shown n) →
  run_command order fuel k ["PrintBalance"%string; arg] s =
    Ok (Again, printed (concat (balance_of_node item s <$> cluster_nodes_of k c s)) s).
Proof.
  intros Ha Hit Hc Hn.
  change (run_command order fuel k ["PrintBalance"%string; arg] s) with
    ((print_balance k arg ;; mret Again) s).
  assert (print_balance k arg s = Ok (tt, printed (concat (balance_of_node item s <$> cluster_nodes_of k c s)) s))
    as E; [|by rewrite (bind_Ok _ _ _ _ _ E)].
  unfold print_balance. rewrite (bind_Ok _ _ _ _ _ (stoiM_ok _ _ _ Ha)).
  rewrite (bind_Ok _ _ _ _ _ (cluster_of_item_known _ _ _ Hc)). run_goal.
  apply (for_each_printed _ _ _ (λ t, te_stubs t = te_stubs s ∧ te_nodes t = te_nodes s)); [|done..].
  intros i t Hi [Hs Ht]. destruct (Hn i Hi) as (Hi1 & n & Hn1 & Hl). unfold balance_of_node. rewrite Hn1.
  apply print_balance_at; [done|congruence..|done].
Qed.

(** An item the map does not have takes the launcher down. The subscript
    makes its cluster 0, whose nodes are numbered from 0 downwards, and the
    first of them has no stub. *)
Theorem unknown_item_crashes (order : gmap Z Z → list (Z * Z)) (fuel : nat) (k item : Z)
    (arg : string) (s : Terminal) :
  stoi arg = inr item → prompt_map s !! item = None →
  1 ≤ Z.quot (Z.of_nat (length (te_stubs s))) k → (∀ i, i ∈ te_stubs s → 1 ≤ i) →
  run_command order fuel k ["PrintBalance"%string; arg] s = Fault NullStub.
Proof.
  intros Ha Hc Hk Hs.
  change (run_command order fuel k ["PrintBalance"%string; arg] s) with
    ((print_balance k arg ;; mret Again) s).
  unfold print_balance, cluster_of_item, subscript.
  rewrite M_bind_assoc, (bind_Ok _ _ _ _ _ (stoiM_ok _ _ _ Ha)). run_goal. rewrite Hc. run_goal. simp_upd.
  set (per := Z.quot _ _) in *. rewrite seqZ_cons by lia. cbn [for_each]. unfold stub_at. run_goal.
  simp_upd. rewrite bool_decide_eq_false_2; [done|]. intros Hi%Hs. lia.
Qed.

(** ** The prompt *)
Definition prompt_line (s : Terminal) : Piece :=
  Str ("Enter command to get up to and including set " +:+ to_string (te_set_number s) +:+ ": " +:+ nl).

Lemma collect_views_keeps l m : respects (keeps stdin) (collect_views l m).
Proof. revert m. induction l as [|i l IH]; intros m; cbn [collect_views]; unfold GetNodeInfo; solve_keeps. Qed.
Lemma print_entries_keeps item l b : respects (keeps stdin) (print_entries item l b).
Proof.
  revert b. induction l as [|[c v] l IH]; intros b; cbn [print_entries]; unfold stoiM, say, print; solve_keeps.
Qed.
#[local] Hint Resolve collect_views_keeps print_entries_keeps : respects.

Lemma run_command_keeps order fuel k args : respects (keeps stdin) (run_command order fuel k args).
Proof.
  unfold run_command, with_argument, usage, Terminal.print_log, print_db, print_account, print_status, print_view,
    print_balance, performance, print_reshard, call_Reshard, print_move, send_update, cluster_of_item, stub_at,
    GetNodeInfo, stoiM, say, print.
  solve_keeps.
Qed.

Lemma run_command_returns order fuel k args s :
  wp any_fault (run_command order fuel k args) s
    (λ t _, t = Returns → head args = Some "Continue"%string).
Proof.
  unfold run_command. destruct args as [|name args]; [by wp_step|].
  assert (∀ m : TermM unit, wp any_fault (m ;; mret Again) s
    (λ t _, t = Returns → head (name :: args) = Some "Continue"%string)) as Ha.
  { intros m. unfold wp, mbind, M_bind. by destruct (m s) as [[[] ?]|]. }
  assert (∀ text m, wp any_fault (with_argument (name :: args) text m) s
    (λ t _, t = Returns → head (name :: args) = Some "Continue"%string)) as Hw.
  { intros text m. unfold with_argument. destruct args as [|? [|? ?]]; apply Ha. }
  repeat case_bool_decide; subst; first [apply Hw|apply Ha|idtac].
  - unfold wp, mbind, M_bind. by destruct (print_reshard order fuel k s) as [[[] ?]|].
  - by wp_step.
Qed.

(** A turn of the prompt, as far as the input goes. *)
Lemma prompt_turn_eq trim split order fuel k s :
  prompt_turn trim split order fuel k s =
    match stdin s with
    | [] => Ok (Again, printed [prompt_line s] s)
    | x :: l => run_command order fuel k (split (trim x)) (upd stdin l (printed [prompt_line s] s))
    end.
Proof.
  unfold prompt_turn. rewrite (bind_Ok _ _ _ _ _ (eq_refl : gets te_set_number s = Ok (_, s))).
  rewrite (bind_Ok _ _ _ _ _ (say_eq _ _)).
  change [Str _] with [prompt_line s]. unfold getline.
  rewrite M_bind_assoc. rewrite (bind_Ok _ _ _ _ _ (eq_refl : gets stdin (printed _ s) = Ok (stdin s, _))).
  by destruct (stdin s).
Qed.

Lemma prompt_loop_returns trim split order fuel turns k s :
  wp any_fault (prompt_loop trim split order fuel turns k) s (λ b s', b = true →
    ∃ seen x, stdin s = seen ++ x :: stdin s' ∧ head (split (trim x)) = Some "Continue"%string).
Proof.
  revert s. induction turns as [|turns IH]; intros s; cbn [prompt_loop]; [by wp_step|].
  wp_step. destruct (stdin s) as [|x l] eqn:E.
  - eapply wp_returns; [rewrite prompt_turn_eq, E; reflexivity|]. cbn beta.
    eapply wp_mono; [|apply IH]. cbn beta. intros b s' H Hb.
    destruct (H Hb) as (seen & y & Hs & _). change (stdin (printed _ s)) with (stdin s) in Hs.
    rewrite E in Hs. by destruct seen.
  - eapply wp_eq; [rewrite prompt_turn_eq, E; reflexivity|].
    set (s1 := upd stdin l _).
    pose proof (run_command_returns order fuel k (split (trim x)) s1) as Hr.
    pose proof (run_command_keeps order fuel k (split (trim x)) s1) as Hk.
    unfold wp in Hr |- *. destruct (run_command _ _ _ _ s1) as [[t s2]|]; [|done].
    specialize (Hk t s2 eq_refl). unfold keeps in Hk. change (stdin s1) with l in Hk.
    destruct t; [| |done].
    + pose proof (IH s2) as H2. unfold wp in H2. destruct (prompt_loop _ _ _ _ _ _ s2) as [[b s3]|]; [|done].
      intros Hb. destruct (H2 Hb) as (seen & y & Hs & Hy). exists (x :: seen), y. split; [|done].
      by rewrite <- Hk, Hs.
    + intros _. exists [], x. rewrite Hk. auto.
Qed.

(** The prompt ends at [Continue] and nowhere else. If it returns, the last
    line it consumed begins with the word [Continue] and the rest of the input
    is untouched; at the end of the input it prints its line again and again
    and never returns, whatever the number of turns. *)
Theorem prompt_ends_at_continue (trim : string → string) (split : string → list string)
    (order : gmap Z Z → list (Z * Z)) (fuel turns : nat) (shard_map : gmap Z Z) (k : Z) (s : Terminal) :
  (∀ s', PromptUser trim split order fuel turns shard_map k s = Ok (true, s') →
    ∃ seen x, stdin s = seen ++ x :: stdin s' ∧ head (split (trim x)) = Some "Continue"%string) ∧
  (stdin s = [] → PromptUser trim split order fuel turns shard_map k s =
    Ok (false, printed (replicate turns (prompt_line s)) (upd prompt_map shard_map s))).
Proof.
  split.
  - intros s' H. exact (wp_Ok any_fault _ (upd prompt_map shard_map s) _ _ (λ b s', b = true → _) H
      (prompt_loop_returns _ _ _ _ _ _ _) eq_refl).
  - intros H. unfold PromptUser. rewrite (bind_Ok _ _ _ _ _ (eq_refl : modify _ s = Ok (tt, upd prompt_map shard_map s))).
    change (prompt_line s) with (prompt_line (upd prompt_map shard_map s)).
    assert (stdin (upd prompt_map shard_map s) = []) as H' by done.
    revert H'. generalize (upd prompt_map shard_map s). clear H s. induction turns as [|n IH]; intros s H.
    + cbn. by rewrite printed_nil.
    + cbn [prompt_loop]. erewrite bind_Ok by (rewrite prompt_turn_eq, H; reflexivity). cbn beta.
      rewrite IH by done. by rewrite printed_app.
Qed.

(** ** Moving on *)

(** The call held under number [q] can be given up: its entry, the default one
    if there is none, has two numeric accounts, whose locks exist if they are to
    be released. *)
Definition releasable (n : PaxosNode) (q : Z) : bool :=
  let r := ae_request (default AcceptedEntry_default (pending_entries_ n !! q)) in
  match stoi (rq_from_account r), stoi (rq_to_account r) with
  | inr f, inr t => negb (shard_of n f =? shard_of n t) || (valid_index f && valid_index t)
  | _, _ => false
  end.
Definition can_move_on (n : PaxosNode) : bool :=
  forallb (releasable n) (map_to_list (pending_client_calls_ n)).*1.

(** The answers to the calls a node holds and to those it has queued. *)
Definition held_answers (n : PaxosNode) : list Output :=
  ((λ p, RespondClient (cd_id p.2)) <$> map_to_list (pending_client_calls_ n)) ++
  ((λ q, RespondClient (cd_id q.2)) <$> queued_client_requests_ n).

Definition hold_state (n : PaxosNode) :=
  (queued_client_requests_ n, pending_client_calls_ n, outbox_ n).

Lemma releasable_entries n n' :
  shard_map_ n' = shard_map_ n →
  (∀ q, default AcceptedEntry_default (pending_entries_ n' !! q) =
        default AcceptedEntry_default (pending_entries_ n !! q)) →
  ∀ q, releasable n' q = releasable n q.
Proof. intros Hs He q. unfold releasable, shard_of. by rewrite He, Hs. Qed.

Lemma move_on_call_released q n :
  wp (λ _, releasable n q = false) (move_on_call q) n (λ _ n',
    releasable n q = true ∧ hold_state n' =
      hold_state (upd pending_client_calls_ (delete q (pending_client_calls_ n)) n) ∧
    ∀ q', releasable n' q' = releasable n q').
Proof.
  unfold move_on_call. wp_step. wp_step.
  destruct (subscript AcceptedEntry_default (pending_entries_ n) q) as [e m] eqn:E. cbv zeta.
  assert (e = default AcceptedEntry_default (pending_entries_ n !! q)) as ->
    by (pose proof (f_equal fst E) as H; rewrite subscript_fst in H; by simpl in H).
  assert (∀ q', default AcceptedEntry_default (m !! q') =
    default AcceptedEntry_default (pending_entries_ n !! q')) as Hm.
  { intros q'. pose proof (f_equal snd E) as H. cbn in H. rewrite <-H, subscript_lookup. by case_decide; subst. }
  pose proof (eq_refl (releasable n q)) as Hr. unfold releasable at 2 in Hr. cbv zeta in Hr.
  unfold stoiM, unlock. wp_steps.
  all: repeat match goal with
    | H : ?x = _ |- _ => lazymatch x with stoi _ => idtac | valid_index _ => idtac end; rewrite H in Hr
    | H : (shard_of _ _ =? shard_of _ _) = _ |- _ => change (shard_of (upd pending_entries_ m n)) with (shard_of n) in H; rewrite H in Hr
    end.
  all: try exact Hr.
  all: split_and!; [exact Hr|reflexivity|]; apply releasable_entries; simp_upd; [done|exact Hm].
Qed.

Lemma move_on_calls_released {X} (l : list (Z * X)) n :
  wp (λ _, forallb (releasable n) l.*1 = false) (for_each l (λ p, move_on_call p.1)) n (λ _ n',
    forallb (releasable n) l.*1 = true ∧
    hold_state n' = hold_state (upd pending_client_calls_ (without l (pending_client_calls_ n)) n)).
Proof.
  revert n. induction l as [|p l IH]; intros n; cbn [for_each].
  { apply wp_ret. split; [done|]. by destruct n. }
  apply wp_bind. pose proof (move_on_call_released p.1 n) as W. unfold wp at 1 in W. unfold wp at 1.
  destruct (move_on_call p.1 n) as [[[] n1]|]; [|cbn; by rewrite W].
  destruct W as (Hp & H1 & Hrel). specialize (IH n1).
  assert (forallb (releasable n1) l.*1 = forallb (releasable n) l.*1) as El.
  { clear -Hrel. induction l as [|q l IH]; cbn; [done|]. by rewrite Hrel, IH. }
  rewrite El in IH. unfold wp in IH |- *. cbn. rewrite Hp. cbn [andb].
  destruct (for_each l _ n1) as [[[] n2]|]; [|exact IH]. destruct IH as [Hl H2]. split; [done|].
  unfold hold_state in *. simp_upd. injection H1 as E1 E2 E3. rewrite E1, E2, E3 in H2.
  exact H2.
Qed.

(** What moving on does to a node: it answers the calls and forgets them, or
    dies of one it cannot give up. *)
Lemma HandleMoveOn_answers n :
  match HandleMoveOn n with
  | Ok (_, n') => can_move_on n = true ∧ outbox_ n' = outbox_ n ++ held_answers n ∧
      pending_client_calls_ n' = ∅ ∧ queued_client_requests_ n' = []
  | Fault _ => can_move_on n = false
  end.
Proof.
  change (wp (λ _, can_move_on n = false) HandleMoveOn n (λ _ n', can_move_on n = true ∧
    outbox_ n' = outbox_ n ++ held_answers n ∧ pending_client_calls_ n' = ∅ ∧ queued_client_requests_ n' = [])).
  unfold HandleMoveOn. do 3 wp_step. eapply wp_returns; [apply respond_all_eq|]. wp_step.
  unfold can_move_on.
  set (os := (λ p, RespondClient (cd_id p.2)) <$> map_to_list (pending_client_calls_ n)).
  eapply wp_mono; [|exact (move_on_calls_released (map_to_list (pending_client_calls_ n)) (Node.sent os n))].
  cbn beta. intros ? n1 [Hall H1]. wp_step. wp_step. wp_step.
  eapply wp_returns; [apply respond_all_eq|]. unfold reset_in_flights. wp_steps.
  unfold hold_state, Node.sent in *. simp_upd. injection H1 as E1 E2 E3.
  split_and!; [exact Hall| |by rewrite E2, without_all|done].
  rewrite E3, E1. unfold held_answers. by rewrite (app_assoc (outbox_ n)).
Qed.

(** The nodes after the calls of [SendMoveOn], one after the other. *)
Definition moved_on (n : PaxosNode) : option PaxosNode :=
  match HandleMoveOn n with Ok (_, n') => Some n' | Fault _ => None end.

Lemma SendMoveOn_eq i s :
  ∃ b, SendMoveOn i s = Ok (b, upd te_nodes (partial_alter (λ o, o ≫= moved_on) i (te_nodes s)) s).
Proof.
  set (m := partial_alter _ i (te_nodes s)).
  assert (m !! i = te_nodes s !! i ≫= moved_on) as Hi by apply lookup_partial_alter_eq.
  assert (∀ j, j ≠ i → m !! j = te_nodes s !! j) as Hm by (intros j Hj; by apply lookup_partial_alter_ne).
  clearbody m. unfold moved_on in Hi. unfold SendMoveOn, rpc. run_goal.
  destruct (te_nodes s !! i) as [n|] eqn:E; cbn in Hi.
  - destruct (HandleMoveOn n) as [[b n']|] eqn:H; [exists b|exists false].
    + replace m with (<[i := n']> (te_nodes s)); [done|]. apply map_eq. intros j.
      destruct (decide (j = i)) as [->|Hj]; [by rewrite lookup_insert_eq|]. rewrite lookup_insert_ne by done. by rewrite Hm.
    + replace m with (delete i (te_nodes s)); [done|]. apply map_eq. intros j.
      destruct (decide (j = i)) as [->|Hj]; [by rewrite lookup_delete_eq|]. rewrite lookup_delete_ne by done. by rewrite Hm.
  - exists false. replace m with (te_nodes s); [by destruct s|]. apply map_eq. intros j.
    destruct (decide (j = i)) as [->|Hj]; [congruence|]. by rewrite Hm.
Qed.

(** The state after the loop over the active nodes. *)
Lemma SendMoveOn_all l s :
  NoDup l → (∀ i, i ∈ l → i ∈ te_stubs s) →
  ∃ m, for_each l (λ i, i ← stub_at i; SendMoveOn i ;; skip) s = Ok (tt, upd te_nodes m s) ∧
    ∀ i, m !! i = if decide (i ∈ l) then te_nodes s !! i ≫= moved_on else te_nodes s !! i.
Proof.
  revert s. induction l as [|i l IH]; intros s Hd Hs; cbn [for_each].
  - exists (te_nodes s). split; [by destruct s|]. intros i. case_decide as H; [by apply elem_of_nil in H|done].
  - apply list.NoDup_cons in Hd as [Hi Hd]. destruct (SendMoveOn_eq i s) as [b Eb].
    assert (stub_at i s = Ok (i, s)) as Est
      by (unfold stub_at; run_goal; rewrite bool_decide_eq_true_2; [done|apply Hs; left]).
    set (s1 := upd te_nodes (partial_alter (λ o, o ≫= moved_on) i (te_nodes s)) s) in *.
    assert ((i ← stub_at i; SendMoveOn i ;; skip) s = Ok (tt, s1)) as E1
      by (rewrite (bind_Ok _ _ _ _ _ Est); by rewrite (bind_Ok _ _ _ _ _ Eb)).
    destruct (IH s1 Hd) as (m & Em & Hm); [intros j Hj; apply Hs; by right|].
    exists m. rewrite (bind_Ok _ _ _ _ _ E1), Em. split; [unfold s1; by simp_upd|].
    intros j. rewrite Hm. unfold s1. simp_upd. destruct (decide (j = i)) as [->|Hj].
    + rewrite decide_False, decide_True, lookup_partial_alter_eq by (try done; left). done.
    + rewrite lookup_partial_alter_ne by done. destruct (decide (j ∈ l)).
      * rewrite decide_True by (by right). done.
      * rewrite decide_False; [done|]. rewrite list.not_elem_of_cons. done.
Qed.

(** The loop over the active nodes. *)
Lemma SendMoveOn_active s :
  (∀ i, i ∈ te_active s → i ∈ te_stubs s) →
  ∃ m, for_each (merge_sort Z.le (elements (te_active s))) (λ i, i ← stub_at i; SendMoveOn i ;; skip) s =
      Ok (tt, upd te_nodes m s) ∧
    ∀ i, m !! i = if decide (i ∈ te_active s) then te_nodes s !! i ≫= moved_on else te_nodes s !! i.
Proof.
  intros Ha. destruct (SendMoveOn_all (merge_sort Z.le (elements (te_active s))) s) as (m & Em & Hm).
  { rewrite merge_sort_Permutation. apply NoDup_elements. }
  { intros i. rewrite merge_sort_Permutation, elem_of_elements. apply Ha. }
  exists m. split; [exact Em|]. intros i. rewrite Hm.
  pose proof (merge_sort_Permutation Z.le (elements (te_active s))) as P.
  destruct (decide (i ∈ te_active s)) as [Hi|Hi]; [rewrite decide_True|rewrite decide_False]; try done;
    by rewrite P, elem_of_elements.
Qed.

Lemma client_move_on_event now c c' :
  client_event now CMoveOn c = Ok (tt, c') → inflight_ c' = ∅ ∧ timer_heap c' = [] ∧
    remaining_transactions c' = remaining_transactions c - Z.of_nat (size (inflight_ c)).
Proof.
  intros ([] & c1 & E & D)%bind_Ok_inv. injection D as <-.
  exact (wp_Ok _ _ _ _ _ _ E (client_move_on_clears c)).
Qed.

Lemma move_on_eq s m c :
  let s1 := printed [Str ("[User] requested to move on." +:+ nl)] s in
  for_each (merge_sort Z.le (elements (te_active s1))) (λ i, i ← stub_at i; SendMoveOn i ;; skip) s1 =
    Ok (tt, upd te_nodes m s1) →
  client_event 0 CMoveOn (te_client s) = Ok (tt, c) →
  move_on s = Ok (tt, upd stdin (tail (stdin s)) (upd stop_input true (upd te_client c (upd te_nodes m s1)))).
Proof.
  intros s1 Em Ec. unfold move_on. rewrite (bind_Ok _ _ _ _ _ (say_eq _ _)). fold s1.
  rewrite (bind_Ok _ _ _ _ _ (eq_refl : gets te_active s1 = Ok (te_active s1, s1))).
  rewrite (bind_Ok _ _ _ _ _ Em).
  assert (client_moves_on (upd te_nodes m s1) = Ok (tt, upd te_client c (upd te_nodes m s1))) as Ecm.
  { unfold client_moves_on. change (te_client (upd te_nodes m s1)) with (te_client s).
    unfold client_event in Ec. cbn [client_step] in Ec. by rewrite Ec. }
  by rewrite (bind_Ok _ _ _ _ _ Ecm).
Qed.

(** C34: moving on ends the set. When the user's line is [Continue], every
    active node is asked to move on, once. A node that can give up the calls it
    holds has then answered all of them, and all those it had queued, once each
    and nothing else, and holds and queues none; a node that holds a call whose
    entry has no numeric accounts (such as the default entry, when the call's
    entry is gone) dies in [std::stoi]; the nodes that are not active are not
    touched. The client has no request in flight and none to retry, and its
    count is lowered by those it had; the thread ends — and the next line of the
    input, whatever it says, is thrown away. *)
Theorem move_on_ends_the_set (s : Terminal) (line next : string) (rest : list string) :
  stop_input s = false → stdin s = line :: next :: rest →
  line = "Continue"%string ∨ line = "continue"%string →
  (∀ i, i ∈ te_active s → i ∈ te_stubs s) → client_ok (te_client s) →
  ∃ s', InputThread_turn true s = Ok (false, s') ∧ stop_input s' = true ∧ stdin s' = rest ∧
    (∀ i, i ∉ te_active s → te_nodes s' !! i = te_nodes s !! i) ∧
    (∀ i n, i ∈ te_active s → te_nodes s !! i = Some n →
      if can_move_on n then ∃ n', te_nodes s' !! i = Some n' ∧
        outbox_ n' = outbox_ n ++ held_answers n ∧
        pending_client_calls_ n' = ∅ ∧ queued_client_requests_ n' = []
      else te_nodes s' !! i = None) ∧
    inflight_ (te_client s') = ∅ ∧ timer_heap (te_client s') = [] ∧
    remaining_transactions (te_client s') =
      remaining_transactions (te_client s) - Z.of_nat (size (inflight_ (te_client s))).
Proof.
  intros Hst Hin Hl Ha Hok.
  set (s1 := printed [Str ("[User] requested to move on." +:+ nl)] (upd stdin (next :: rest) s)).
  destruct (SendMoveOn_active s1 Ha) as (m & Em & Hm).
  destruct (wp_total _ _ _ (client_event_ok 0 CMoveOn (te_client s) Hok I)) as (c & Ec & _).
  pose proof (client_move_on_event 0 (te_client s) c Ec) as (C1 & C2 & C3).
  exists (upd stdin rest (upd stop_input true (upd te_client c (upd te_nodes m s1)))).
  split_and!; [|done|done| | |exact C1|exact C2|exact C3].
  - unfold InputThread_turn. rewrite (bind_Ok _ _ _ _ _ (eq_refl : gets stop_input s = Ok (_, s))), Hst.
    cbn [negb]. assert (getline s = Ok (Some line, upd stdin (next :: rest) s)) as E
      by (unfold getline; run_goal; rewrite Hin; by run_goal).
    rewrite (bind_Ok _ _ _ _ _ E).
    assert ((line ==s "Continue") || (line ==s "continue") = true) as ->
      by (destruct Hl; subst; by repeat case_bool_decide).
    by rewrite (bind_Ok _ _ _ _ _ (move_on_eq _ m c Em Ec)).
  - intros i Hi. change (m !! i = te_nodes s !! i). rewrite Hm. by rewrite decide_False.
  - intros i n Hi Hn. change (te_nodes (upd stdin rest _)) with m. rewrite Hm.
    change (te_nodes s1) with (te_nodes s). rewrite decide_True, Hn by exact Hi. cbn.
    unfold moved_on. pose proof (HandleMoveOn_answers n) as W.
    destruct (HandleMoveOn n) as [[b n']|]; [destruct W as [-> W]; by exists n'|by rewrite W].
Qed.

(** ** The theorems on the small deployment *)
Definition small_nodes : gmap Z PaxosNode :=
  list_to_map ((λ i, (i, small_node i)) <$> [1; 2; 3; 4; 5; 6]).
Definition no_split (s : string) : list string := [s].

Lemma small_node_shown i : ledger_shown (small_node i).
Proof.
  split.
  - intros a Ha. exfalso. exact (not_elem_of_empty a Ha).
  - intros a [H1 H2] _. change (accounts_init a = 10). unfold accounts_init, TOTAL_ITEMS in *.
    by rewrite (proj2 (Z.leb_le _ _) H1), (proj2 (Z.leb_le _ _) H2).
Qed.

Lemma print_balance_shows_ledger_witness :
  run_command map_to_list 50 2 ["PrintBalance"; "2"]%string (small_terminal small_nodes [] []) =
    Ok (Again, printed (concat (balance_of_node 2 (small_terminal small_nodes [] []) <$> [1; 2; 3]))
      (small_terminal small_nodes [] [])).
Proof.
  apply (print_balance_shows_ledger map_to_list 50 2 1 2 "2" (small_terminal small_nodes [] [])).
  - reflexivity.
  - unfold TOTAL_ITEMS. lia.
  - reflexivity.
  - intros i Hi. change (i ∈ [1; 2; 3]) in Hi.
    repeat (apply list.elem_of_cons in Hi as [->|Hi]; [split; [apply list_elem_of_In; cbn; tauto|]|]);
      [eexists; split; [reflexivity|apply small_node_shown]..|by apply elem_of_nil in Hi].
Defined.

Lemma prompt_ends_at_continue_witness :
  ∃ s', PromptUser id no_split map_to_list 50 3 small_shards 2
      (small_terminal ∅ [] ["Performance"; "Continue"; "7"]%string) = Ok (true, s') ∧
    ∃ seen x, ["Performance"; "Continue"; "7"]%string = seen ++ x :: stdin s' ∧
      head (no_split x) = Some "Continue"%string.
Proof.
  assert (value (PromptUser id no_split map_to_list 50 3 small_shards 2
    (small_terminal ∅ [] ["Performance"; "Continue"; "7"]%string)) = Some true) as (s' & H)%value_Ok
    by (vm_compute; reflexivity).
  exists s'. split; [exact H|].
  exact (proj1 (prompt_ends_at_continue id no_split map_to_list 50 3 small_shards 2
    (small_terminal ∅ [] ["Performance"; "Continue"; "7"]%string)) s' H).
Defined.

(** Node 1 holds one call and has queued another, node 2 holds a call whose
    entry is gone. *)
Definition holding_nodes : gmap Z PaxosNode :=
  let r := transfer 1 "1" "2" 4 in
  <[1 := upd pending_client_calls_ {[1 := MkCall 7 r]}
      (upd pending_entries_ {[1 := MkAcceptedEntry (MkBallot 1 1) 1 r 1 "" ClientRequest_default 0 ""]}
        (upd queued_client_requests_ [(transfer 2 "1" "2" 1, MkCall 8 (transfer 2 "1" "2" 1))]
          (small_node 1)))]>
  (<[2 := upd pending_client_calls_ {[5 := MkCall 9 r]} (small_node 2)]> small_nodes).

Lemma move_on_ends_the_set_witness :
  ∃ s', InputThread_turn true (small_terminal holding_nodes [] ["Continue"; "PrintDB"; "Continue"]%string) =
      Ok (false, s') ∧ stdin s' = ["Continue"%string] ∧
    (∃ n', te_nodes s' !! 1 = Some n' ∧ outbox_ n' = [RespondClient 7; RespondClient 8] ∧
      pending_client_calls_ n' = ∅) ∧ te_nodes s' !! 2 = None ∧ te_nodes s' !! 3 = Some (small_node 3).
Proof.
  destruct (move_on_ends_the_set (small_terminal holding_nodes [] ["Continue"; "PrintDB"; "Continue"]%string)
    "Continue" "PrintDB" ["Continue"%string]) as (s' & H1 & _ & H2 & H3 & H4 & _).
  - reflexivity.
  - reflexivity.
  - by left.
  - intros i Hi. change (i ∈ ({[1; 2]} : gset Z)) in Hi. apply list_elem_of_In.
    apply elem_of_union in Hi as [Hi|Hi]; apply elem_of_singleton in Hi as ->; cbn; tauto.
  - apply PaxosClient_init_ok.
  - assert (∀ i n, holding_nodes !! i = Some n → te_nodes (small_terminal holding_nodes []
      ["Continue"; "PrintDB"; "Continue"]%string) !! i = Some n) as Hn by done.
    exists s'. split_and!; [exact H1|exact H2| | |].
    + specialize (H4 1 _ ltac:(by apply elem_of_union_l, elem_of_singleton) (Hn 1 _ (lookup_insert_eq _ _ _))).
      destruct H4 as (n' & E1 & E2 & E3 & _). exists n'. by rewrite E2.
    + exact (H4 2 _ ltac:(by apply elem_of_union_r, elem_of_singleton) (Hn 2 _ eq_refl)).
    + exact (H3 3 ltac:(by apply (bool_decide_eq_true_1 (3 ∉ ({[1; 2]} : gset Z))))).
Defined.
