(* ===== verification/Storage.v ===== *)
(** * The account table on disk

    [InitializeDatabase], [InitDB], [UpdateBalance], [SetBalance] and
    [GetBalance] of [paxos_node.cpp]. SQLite is a parameter: the class
    [SqlTable] is one statement of the source each, its laws are what SQL says
    they do, and whether a call of the library succeeds is an argument. An
    instance on finite maps shows that the laws can be met.

    The node keeps its balances in memory. [alv_] is false in every node, and
    nothing sets it: the table is only ever initialised. *)
From S2P Require Import Prelude.
From Stdlib Require Import QArith.QArith.
#[local] Open Scope Z_scope.

(** ** The statements *)
Class SqlTable (T : Type) := {
  (** [CREATE TABLE IF NOT EXISTS accounts (...)] on a file without it *)
  create_accounts : T;
  (** [SELECT COUNT( * ) FROM accounts] *)
  count_rows : T → Z;
  (** [UPDATE accounts SET balance = 10] *)
  reset_rows : T → T;
  (** [INSERT OR IGNORE INTO accounts (item_id, balance) VALUES (?, 10)] *)
  insert_or_ignore : Z → T → T;
  (** [UPDATE accounts SET balance = balance + ? WHERE item_id = ?] *)
  add_balance : Z → Z → T → T;
  (** [UPDATE accounts SET balance = ? WHERE item_id = ?] *)
  set_balance : Z → Z → T → T;
  (** [SELECT balance FROM accounts WHERE item_id = ?] *)
  select_balance : T → Z → option Z }.

Class SqlLaws (T : Type) `{SqlTable T} := {
  select_create i : select_balance create_accounts i = None;
  count_le t (l : list Z) :
    NoDup l → (∀ i, i ∈ l → is_Some (select_balance t i)) → Z.of_nat (length l) ≤ count_rows t;
  count_create : count_rows create_accounts = 0;
  select_reset t i : select_balance (reset_rows t) i = (λ _, 10) <$> select_balance t i;
  select_insert t i j :
    select_balance (insert_or_ignore i t) j =
      if decide (j = i) then Some (default 10 (select_balance t i)) else select_balance t j;
  select_add t d i j :
    select_balance (add_balance d i t) j =
      if decide (j = i) then (λ b, b + d) <$> select_balance t i else select_balance t j;
  select_set t v i j :
    select_balance (set_balance v i t) j =
      if decide (j = i) then (λ _, v) <$> select_balance t i else select_balance t j }.

#[export] Instance gmap_table : SqlTable (gmap Z Z) := {
  create_accounts := ∅;
  count_rows m := Z.of_nat (size m);
  reset_rows m := (λ _, 10) <$> m;
  insert_or_ignore i m := match m !! i with Some _ => m | None => <[i := 10]> m end;
  add_balance d i m := alter (λ b, b + d) i m;
  set_balance v i m := alter (λ _, v) i m;
  select_balance m i := m !! i }.

Lemma lookup_alter_dec (g : Z → Z) (m : gmap Z Z) i j :
  alter g i m !! j = if decide (j = i) then g <$> m !! i else m !! j.
Proof.
  case_decide as H; [subst; apply lookup_alter_eq|]. by apply lookup_alter_ne.
Qed.
#[export] Instance gmap_laws : SqlLaws (gmap Z Z).
Proof.
  split; cbn.
  - done.
  - intros m l Hd Hl. apply inj_le. rewrite <- size_dom, <- (size_list_to_set (C := gset Z) l Hd).
    apply subseteq_size. intros i Hi. apply elem_of_dom, Hl. by apply elem_of_list_to_set in Hi.
  - done.
  - intros m i. apply lookup_fmap.
  - intros m i j. destruct (m !! i) as [v|] eqn:E; case_decide as H; subst.
    + by rewrite E.
    + done.
    + by rewrite lookup_insert_eq.
    + by rewrite lookup_insert_ne.
  - intros m d i j. apply (lookup_alter_dec (λ b, b + d)).
  - intros m v i j. apply (lookup_alter_dec (λ _, v)).
Qed.

Section storage.
Context {T : Type} `{SqlLaws T}.

(** The file, with its table once there is one; the handle and the prepared
    statement of the node. *)
Record Storage := MkStorage {
  st_table : option T;
  db_ : bool;
  update_stmt_ : bool;
  alv_ : bool }.

(** Which calls of the library succeed. *)
Record Outcomes := MkOutcomes {
  oc_open : bool;
  oc_create : bool;
  oc_count : bool;
  oc_reset : bool;
  oc_prepare_insert : bool;
  oc_insert : Z → bool;
  oc_prepare_update : bool }.
Definition all_well : Outcomes := MkOutcomes true true true true true (λ _, true) true.

Definition insert_missing (oc : Outcomes) (t : T) : T :=
  foldl (λ t item, if oc_insert oc item then insert_or_ignore item t else t) t (seqZ 1 9000).

Definition initialize_rows (oc : Outcomes) (t : T) : T :=
  let row_count := if oc_count oc then count_rows t else 0 in
  if 9000 <=? row_count then (if oc_reset oc then reset_rows t else t)
  else if oc_prepare_insert oc then insert_missing oc t else t.

Definition InitializeDatabase (oc : Outcomes) (s : Storage) : Storage :=
  if negb (oc_open oc) then MkStorage (st_table s) true (update_stmt_ s) (alv_ s)
  else if negb (oc_create oc) then MkStorage (st_table s) true (update_stmt_ s) (alv_ s)
  else MkStorage (Some (initialize_rows oc (default create_accounts (st_table s)))) true
         (oc_prepare_update oc) (alv_ s).

Definition InitDB (oc : Outcomes) (s : Storage) : Storage :=
  if negb (oc_open oc) then MkStorage (st_table s) true (update_stmt_ s) (alv_ s)
  else MkStorage (st_table s) true (oc_prepare_update oc) (alv_ s).

Definition UpdateBalance (step_ok : bool) (item_id amount : Z) (is_sender : bool) (s : Storage) :
    Storage :=
  if negb (update_stmt_ s) || negb (alv_ s) then s
  else if negb step_ok then s
  else MkStorage (add_balance (if is_sender then - amount else amount) item_id <$> st_table s)
         (db_ s) (update_stmt_ s) (alv_ s).

(** The bound value is the double cut to an integer. *)
Definition truncated (x : Q) : Z := Z.quot (Qnum x) (Zpos (Qden x)).
Definition SetBalance (prepare_ok step_ok : bool) (item_id : Z) (new_balance : Q) (s : Storage) :
    Storage :=
  if negb (db_ s) || negb (alv_ s) then s
  else if negb prepare_ok || negb step_ok then s
  else MkStorage (set_balance (truncated new_balance) item_id <$> st_table s)
         (db_ s) (update_stmt_ s) (alv_ s).

Definition GetBalance (prepare_ok : bool) (item_id : Z) (s : Storage) : Z :=
  if negb (db_ s) || negb (alv_ s) then -1
  else if negb prepare_ok then -1
  else default (-1) (st_table s ≫= λ t, select_balance t item_id).

(** ** What the table holds *)
Lemma select_foldl_insert (oc : Outcomes) l t j :
  (∀ i, i ∈ l → oc_insert oc i = true) →
  select_balance (foldl (λ t item, if oc_insert oc item then insert_or_ignore item t else t) t l) j =
    if decide (j ∈ l) then Some (default 10 (select_balance t j)) else select_balance t j.
Proof.
  revert t. induction l as [|i l IH]; intros t Hl; cbn [foldl].
  - rewrite decide_False; [done|]. apply not_elem_of_nil.
  - rewrite (Hl i (list_elem_of_here _ _)), IH by (intros k Hk; apply Hl; by right).
    rewrite !select_insert. destruct (decide (j = i)) as [->|Hne].
    + rewrite (decide_True (P := i ∈ i :: l)) by left. case_decide; [by destruct (select_balance t i)|done].
    + destruct (decide (j ∈ l)); [rewrite (decide_True (P := j ∈ i :: l)) by (by right)|
        rewrite (decide_False (P := j ∈ i :: l)) by (rewrite list.not_elem_of_cons; done)]; done.
Qed.

(** After the initialisation, when no call of the library fails, every item has
    a row. A table that had at least 9000 rows holds 10 in each; a smaller one
    keeps the balances it had, and its new rows hold 10: a file a former run
    left incomplete is not reset. *)
Theorem InitializeDatabase_rows (s : Storage) (i : Z) :
  let t := default create_accounts (st_table s) in
  1 ≤ i ≤ 9000 →
  st_table (InitializeDatabase all_well s) ≫= (λ t, select_balance t i) =
    if 9000 <=? count_rows t then (λ _, 10) <$> select_balance t i
    else Some (default 10 (select_balance t i)).
Proof.
  intros t Hi. unfold InitializeDatabase, initialize_rows. cbn. fold t. destruct (9000 <=? count_rows t).
  - apply select_reset.
  - unfold insert_missing. rewrite select_foldl_insert by done. rewrite decide_True; [done|].
    apply elem_of_seqZ. lia.
Qed.

(** On a new file the rows of all items hold 10, after any number of further
    initialisations ([ResetNode] runs it again). *)
Theorem fresh_table_initialized (s : Storage) (n : nat) (i : Z) :
  st_table s = None → 1 ≤ i ≤ 9000 →
  st_table (Nat.iter (S n) (InitializeDatabase all_well) s) ≫= (λ t, select_balance t i) = Some 10.
Proof.
  intros Hs. revert i. induction n as [|n IH]; intros i Hi.
  - change (Nat.iter 1 _ s) with (InitializeDatabase all_well s). rewrite InitializeDatabase_rows, Hs by done.
    cbn. by rewrite count_create, select_create.
  - change (Nat.iter (S (S n)) _ s) with (InitializeDatabase all_well (Nat.iter (S n) (InitializeDatabase all_well) s)).
    specialize (IH i Hi). set (s' := Nat.iter (S n) _ s) in *. clearbody s'.
    rewrite InitializeDatabase_rows by done. apply bind_Some in IH as (t & -> & E).
    change (default create_accounts (Some t)) with t. rewrite E. by destruct (9000 <=? count_rows t).
Qed.

(** Writes are off: with [alv_] false, whatever else holds, no operation
    changes the file and no balance can be read. *)
Theorem storage_is_off (s : Storage) (item amount : Z) (x : Q) (sender ok1 ok2 : bool) :
  alv_ s = false →
  UpdateBalance ok1 item amount sender s = s ∧ SetBalance ok1 ok2 item x s = s ∧ GetBalance ok1 item s = -1.
Proof. intros Ha. unfold UpdateBalance, SetBalance, GetBalance. rewrite Ha. by rewrite !orb_true_r. Qed.

(** Were they on: what is set is read back, and a transfer between two rows
    keeps their sum. *)
Theorem balance_read_back (s : Storage) (t : T) (item b : Z) (x : Q) :
  alv_ s = true → db_ s = true → st_table s = Some t → select_balance t item = Some b →
  GetBalance true item (SetBalance true true item x s) = truncated x.
Proof.
  intros Ha Hd Ht Hb. unfold SetBalance, GetBalance. rewrite Ha, Hd, Ht. cbn.
  rewrite select_set, decide_True, Hb by done. done.
Qed.
End storage.
