(* ===== verification/Deploy.v ===== *)
(** * The deployment that [main] launches

    [main] and [run_node] of [node_launch.cpp] up to the reading of the test
    file: the map of the items, the addresses, one process per node, the client.
    [fork] is the construction of the node in its process; the trace handlers,
    the sleeps and the files the output goes to are left out. *)
From S2P Require Import Prelude Text Messages Node Client Sharding ShardingProofs Terminal Cluster.
From Stdlib Require Import Ascii.
#[local] Open Scope Z_scope.

(** ** Addresses *)
Definition host : string := "127.0.0.1:".
Definition node_address (i : Z) : string := host +:+ to_string (5000 + i).
Definition node_addresses (num_nodes_per_cluster num_clusters : Z) : gmap Z string :=
  list_to_map ((λ i, (i, node_address i)) <$> seqZ 1 (num_nodes_per_cluster * num_clusters)).

(** [6000 + (client_id[0] - 'A') + 1]; the first character of an empty string
    is the terminating zero. *)
Definition client_port (client_id : string) : Z :=
  let c := match client_id with EmptyString => 0 | String c _ => Z.of_N (N_of_ascii c) end in
  6000 + (c - 65) + 1.
Definition client_address (client_id : string) : string := host +:+ to_string (client_port client_id).
Definition client_ids : list string := ["A"].
Definition client_addresses (ids : list string) : gmap string string :=
  list_to_map ((λ i, (i, client_address i)) <$> ids).

(** ** Processes *)
Definition run_node (node_id : Z) (node_addresses : gmap Z string) (client_ids : list string)
    (shard_map : gmap Z Z) (num_clusters now : Z) : res PaxosNode :=
  match node_addresses !! node_id with
  | None => Fault OutOfRange
  | Some _ => Ok (PaxosNode_init node_id (dom node_addresses) (dom (client_addresses client_ids))
                    shard_map num_clusters now)
  end.

(** The processes forked over [node_addresses]. *)
Definition launch_nodes (num_nodes_per_cluster num_clusters now : Z) : gmap Z PaxosNode :=
  let addresses := node_addresses num_nodes_per_cluster num_clusters in
  map_imap (λ i _, match run_node i addresses client_ids (MakeShardMap TOTAL_ITEMS num_clusters)
                           num_clusters now with Ok s => Some s | Fault _ => None end) addresses.

(** The stubs, by number, and the client made with them. *)
Definition launch_client (num_nodes_per_cluster num_clusters : Z) : PaxosClient :=
  let addresses := node_addresses num_nodes_per_cluster num_clusters in
  PaxosClient_init "A" (dom addresses) num_clusters (MakeShardMap TOTAL_ITEMS num_clusters)
    0.

Definition launch (num_nodes_per_cluster num_clusters now : Z) : System :=
  MkSystem (launch_nodes num_nodes_per_cluster num_clusters now) [].

(** ** The configuration *)
Section deployment.
Context (n k now : Z) (Hn : 1 ≤ n) (Hk : 1 ≤ k).

Lemma addresses_dom i : i ∈ dom (node_addresses n k) ↔ 1 ≤ i ≤ n * k.
Proof.
  unfold node_addresses. rewrite dom_list_to_map_L, elem_of_list_to_set, <- list_fmap_compose.
  cbn. rewrite list_fmap_id, elem_of_seqZ. lia.
Qed.
Lemma addresses_size : Z.of_nat (size (node_addresses n k)) = n * k.
Proof.
  rewrite <- size_dom.
  replace (dom (node_addresses n k)) with (list_to_set (seqZ 1 (n * k)) : gset Z).
  - apply size_seqZ_set. nia.
  - apply set_eq. intros i. rewrite addresses_dom, elem_of_list_to_set, elem_of_seqZ. lia.
Qed.

Lemma launched i s :
  sy_nodes (launch n k now) !! i = Some s ↔
  1 ≤ i ≤ n * k ∧ s = PaxosNode_init i (dom (node_addresses n k)) {["A"%string]} (MakeShardMap TOTAL_ITEMS k) k now.
Proof.
  cbn. unfold launch_nodes. rewrite map_lookup_imap. rewrite <- addresses_dom, elem_of_dom. unfold run_node.
  destruct (node_addresses n k !! i) as [a|] eqn:E; cbn; rewrite ?E.
  - split; [intros [= <-]|intros [_ ->]]; eauto.
  - split; [done|]. by intros [[]].
Qed.
End deployment.
Lemma lookup_numbered {A} (g : Z → A) a m c :
  a ≤ c < a + m → (list_to_map ((λ c, (c, g c)) <$> seqZ a m) : gmap Z A) !! c = Some (g c).
Proof.
  intros Hc. apply elem_of_list_to_map_1.
  - rewrite <- list_fmap_compose. cbn. rewrite list_fmap_id. apply NoDup_seqZ.
  - apply list_elem_of_fmap. exists c. split; [done|]. by apply elem_of_seqZ.
Qed.

Lemma item_has_cluster total k item :
  1 ≤ k → 1 ≤ item ≤ total → ∃ c, MakeShardMap total k !! item = Some c ∧ 1 ≤ c ≤ k.
Proof.
  intros Hk Hi. pose proof (MakeShardMap_lookup total k ltac:(lia) ltac:(lia) item) as S.
  destruct (block_of (Z.quot total k) (Z.rem total k) (Z.to_nat k) item) as (c & Hc & Hb).
  - apply Z.quot_pos; lia.
  - apply Z.rem_bound_pos; lia.
  - rewrite Z2Nat.id, first_item_total by lia. lia.
  - exists c. split; [|lia]. apply S. split; [lia|exact Hb].
Qed.

Section configured.
Context (n k now : Z) (Hn : 1 ≤ n) (Hk : 1 ≤ k).

Lemma divisor_launched : divisor_of (Z.of_nat (size (dom (node_addresses n k)))) k = n.
Proof. unfold divisor_of. rewrite size_dom, addresses_size by done. apply Z.quot_mul. lia. Qed.

Lemma launched_cluster_of c j : 1 ≤ j → cluster_of n j = c ↔ n * (c - 1) + 1 ≤ j ≤ n * c.
Proof.
  intros Hj. unfold cluster_of. rewrite Z.quot_div_nonneg by lia.
  pose proof (Z.div_mod (j - 1) n ltac:(lia)). pose proof (Z.mod_pos_bound (j - 1) n ltac:(lia)). nia.
Qed.

(** The node of number [i] as it is launched. *)
Record configured (i : Z) (s : PaxosNode) : Prop := Configured {
  cf_id : node_id_ s = i ∧ cluster_id_ s = cluster_of n i;
  cf_quorum : divisor_ s = n ∧ 2 * f_ s + 1 ≤ n ≤ 2 * f_ s + 2;
  cf_peers : ∀ j, j ∈ cluster_peers s ↔ j ≠ i ∧ 1 ≤ j ≤ n * k ∧ cluster_of n j = cluster_of n i;
  cf_items : ∀ item, 1 ≤ item ≤ TOTAL_ITEMS → 1 ≤ shard_of s item ≤ k;
  cf_leaders : ∀ c, 1 ≤ c ≤ k →
    1 ≤ leader_of_cluster s c ≤ n * k ∧ cluster_of n (leader_of_cluster s c) = c ∧
    leader_per_cluster_ (launch_client n k) !! c = Some (leader_of_cluster s c) }.

Lemma launched_configured i :
  1 ≤ i ≤ n * k → configured i (PaxosNode_init i (dom (node_addresses n k)) {["A"%string]}
    (MakeShardMap TOTAL_ITEMS k) k now).
Proof.
  intros Hi. set (s := PaxosNode_init _ _ _ _ _ _). pose proof divisor_launched as Hd.
  assert (divisor_ s = n) as Hds by exact Hd.
  split.
  - split; [done|]. change (cluster_of (divisor_ s) i = cluster_of n i). by rewrite Hds.
  - change (f_ s) with (max_faulty (divisor_ s)). rewrite Hds. split; [done|]. unfold max_faulty.
    rewrite Z.quot_div_nonneg by lia. pose proof (Z.div_mod (n - 1) 2). pose proof (Z.mod_pos_bound (n - 1) 2). lia.
  - intros j. unfold cluster_peers. rewrite list_elem_of_filter, elem_of_elements.
    change (peer_stubs_ s) with (dom (node_addresses n k)). rewrite addresses_dom.
    change (node_id_ s) with i. unfold outside_cluster.
    change (intra_c_nid_range_ s) with (range_low (divisor_ s) i, range_low (divisor_ s) i + divisor_ s - 1).
    rewrite Hds. cbn [fst snd]. rewrite orb_false_iff, Z.ltb_ge. 
    pose proof (proj1 (launched_cluster_of (cluster_of n i) i ltac:(lia)) eq_refl) as Hci.
    assert (range_low n i = n * (cluster_of n i - 1) + 1) as -> by (unfold range_low, cluster_of; lia).
    split.
    + intros [[H1 [H2 H3]] H4]. split_and!; [done|lia..|]. apply launched_cluster_of; lia.
    + intros (H1 & H2 & H3). apply launched_cluster_of in H3; [|lia]. split_and!; [done|lia..].
  - intros item Hit. change (shard_of s item) with (default 0 (MakeShardMap TOTAL_ITEMS k !! item)).
    destruct (item_has_cluster TOTAL_ITEMS k item ltac:(lia) Hit) as (c & -> & Hc). exact Hc.
  - intros c Hc. assert (leader_of_cluster s c = n * (c - 1) + 1) as El.
    { unfold leader_of_cluster. change (cluster_leaders_ s) with (cluster_leaders_init (divisor_ s) k).
      rewrite Hds. unfold cluster_leaders_init. rewrite lookup_numbered with (g := λ c, n * (c - 1) + 1) by lia. done. }
    rewrite El. split_and!; [nia..|apply launched_cluster_of; nia|].
    unfold launch_client, PaxosClient_init. cbn [leader_per_cluster_]. rewrite size_dom, addresses_size by done.
    unfold initial_leaders.
    replace ((λ c, (c + 1, Z.quot (c * (n * k)) k + 1)) <$> seqZ 0 k)
      with ((λ c, (c, n * (c - 1) + 1)) <$> seqZ 1 k).
    { by rewrite lookup_numbered with (g := λ c, n * (c - 1) + 1) by lia. }
    assert (seqZ 1 k = Z.add 1 <$> seqZ 0 k) as -> by by rewrite fmap_add_seqZ.
    rewrite <- list_fmap_compose. apply list_fmap_ext.
    intros j x Hx. apply lookup_seqZ in Hx as [-> _]. cbn. rewrite Z.mul_assoc, Z.quot_mul by lia. f_equal; lia.
Qed.
End configured.

(** C31: the deployment is well configured. For any number of clusters and of
    nodes in each, [main] launches exactly the nodes 1 to their product, each of
    which numbers its clusters as blocks of [n] consecutive nodes, can lose
    [f_] of them with [n] one of [2 f_ + 1] and [2 f_ + 2], sends to exactly
    the other nodes of its block, and places every item in a cluster there is;
    the leader it assumes for a cluster is a launched node of that cluster, and
    the one the client assumes. *)
Theorem launched_system_configured (n k now i : Z) :
  1 ≤ n → 1 ≤ k →
  match sy_nodes (launch n k now) !! i with
  | Some s => 1 ≤ i ≤ n * k ∧ configured n k i s
  | None => ¬ (1 ≤ i ≤ n * k)
  end.
Proof.
  intros Hn Hk. pose proof (launched n k now i) as H.
  destruct (sy_nodes (launch n k now) !! i) as [s|] eqn:E.
  - destruct (proj1 (H s) eq_refl) as [Hi ->]. split; [done|by apply launched_configured].
  - intros Hi. by pose proof (proj2 (H _) (conj Hi eq_refl)).
Qed.

Lemma launched_system_configured_witness :
  match sy_nodes (launch 3 3 0) !! 4 with
  | Some s => 1 ≤ 4 ≤ 3 * 3 ∧ configured 3 3 4 s
  | None => ¬ (1 ≤ 4 ≤ 3 * 3)
  end.
Proof. apply (launched_system_configured 3 3 0 4); lia. Defined.

(** Two processes never share an address: below a thousand nodes the numbers of
    the ports differ, also from the client's; with a thousand nodes or more
    node 1001 has the address of the client. *)
Lemma to_string_inj x y : int_min ≤ x ≤ int_max → int_min ≤ y ≤ int_max → to_string x = to_string y → x = y.
Proof.
  intros Hx Hy E. apply (f_equal stoi) in E. rewrite !stoi_to_string in E by done. by injection E.
Qed.

Theorem addresses_distinct (i j : Z) :
  1 ≤ i ≤ 1000 → 1 ≤ j ≤ 1000 →
  (node_address i = node_address j → i = j) ∧ node_address i ≠ client_address "A".
Proof.
  intros Hi Hj. unfold node_address, client_address, host, int_min, int_max. split.
  - intros E. injection E as E. apply to_string_inj in E; unfold int_min, int_max; lia.
  - intros E. injection E as E. change (to_string (5000 + i) = to_string 6001) in E.
    apply to_string_inj in E; unfold int_min, int_max; lia.
Qed.
