(* ===== verification/LogLine.v ===== *)
(** * One statement, one write

    [LogLine] of [log.h], without the trace ring: a statement is put together
    in the stream of a temporary of its thread, and the destructor writes it to
    [std::cout] under a mutex. Threads interleave between any two operations,
    the write itself is one character after the other, and threads that do not
    hold the mutex can do all but write. *)
From S2P Require Import Prelude Text.
#[local] Open Scope Z_scope.

(** A temporary under construction, or in its destructor: the text already
    written and the text still to write. *)
Inductive LogLine :=
  | Building (oss_ : string)
  | Waiting (oss_ : string)
  | Writing (written rest : string).

Record Logger := MkLogger {
  lo_lines : gmap Z LogLine;
  cout_mutex : option Z;
  cout : string;
  lo_statements : list string }.

Definition logger_init : Logger := MkLogger ∅ None "" [].

Definition set_line (t : Z) (l : LogLine) (s : Logger) : Logger :=
  MkLogger (<[t := l]> (lo_lines s)) (cout_mutex s) (cout s) (lo_statements s).

(** [lo_statements] records the statements whose destructor has ended. *)
Inductive log_step (s : Logger) : Logger → Prop :=
  (** [LogLine()] *)
  | log_new t :
      lo_lines s !! t = None → log_step s (set_line t (Building "") s)
  (** [operator<<]: what the stream makes of a value *)
  | log_append t oss piece :
      lo_lines s !! t = Some (Building oss) → log_step s (set_line t (Building (oss +:+ piece)) s)
  (** [~LogLine()] begins *)
  | log_destroy t oss :
      lo_lines s !! t = Some (Building oss) → log_step s (set_line t (Waiting oss) s)
  (** [std::lock_guard] *)
  | log_lock t oss :
      lo_lines s !! t = Some (Waiting oss) → cout_mutex s = None →
      log_step s (MkLogger (<[t := Writing "" oss]> (lo_lines s)) (Some t) (cout s) (lo_statements s))
  (** a character of [std::cout << oss_.str()] *)
  | log_put t written c rest :
      lo_lines s !! t = Some (Writing written (String c rest)) →
      log_step s (MkLogger (<[t := Writing (written +:+ String c "") rest]> (lo_lines s))
        (cout_mutex s) (cout s +:+ String c "") (lo_statements s))
  (** [flush], the mutex is released, the temporary is gone *)
  | log_unlock t written :
      lo_lines s !! t = Some (Writing written "") →
      log_step s (MkLogger (delete t (lo_lines s)) None (cout s) (lo_statements s ++ [written])).

Definition log_reachable (s : Logger) : Prop := rtc log_step logger_init s.

Definition joined (l : list string) : string := foldr (λ a b, a +:+ b) "" l.

(** What has been written of the statement in progress. *)
Definition in_progress (s : Logger) : string :=
  match cout_mutex s with
  | Some t => match lo_lines s !! t with Some (Writing written _) => written | _ => "" end
  | None => ""
  end.

Record log_ok (s : Logger) : Prop := LogOk {
  lg_cout : cout s = joined (lo_statements s) +:+ in_progress s;
  lg_holder : ∀ t written rest,
    lo_lines s !! t = Some (Writing written rest) → cout_mutex s = Some t;
  lg_held : ∀ t, cout_mutex s = Some t →
    ∃ written rest, lo_lines s !! t = Some (Writing written rest) }.

Lemma joined_snoc l x : joined (l ++ [x]) = joined l +:+ x.
Proof.
  unfold joined. induction l as [|a l IH].
  - change (x +:+ "" = x). apply append_nil_r.
  - cbn [app foldr]. by rewrite IH, append_assoc.
Qed.

(** A thread that is not writing changes its own line. *)
Lemma set_line_ok t l s :
  (∀ written rest, lo_lines s !! t ≠ Some (Writing written rest)) →
  (∀ written rest, l ≠ Writing written rest) → log_ok s → log_ok (set_line t l s).
Proof.
  intros Ht Hl [H1 H2 H3].
  assert (∀ u, cout_mutex s = Some u → u ≠ t) as Hne.
  { intros u Hu ->. destruct (H3 t Hu) as (w & r & E). by apply (Ht w r). }
  split; cbn.
  - rewrite H1. unfold in_progress. cbn. destruct (cout_mutex s) as [u|] eqn:E; [|done].
    by rewrite lookup_insert_ne by (intros ->; by apply (Hne u)).
  - intros u w r Hu. destruct (decide (u = t)) as [->|Hut].
    + rewrite lookup_insert_eq in Hu. injection Hu as ->. by destruct (Hl w r).
    + rewrite lookup_insert_ne in Hu by done. eauto.
  - intros u Hu. rewrite lookup_insert_ne by (intros ->; by apply (Hne u)). auto.
Qed.

Lemma log_step_ok s s' : log_ok s → log_step s s' → log_ok s'.
Proof.
  intros Hok [t Ht|t oss piece Ht|t oss Ht|t oss Ht Hm|t w c rest Ht|t w Ht];
    try (apply set_line_ok; [|done|done]; intros w r; congruence);
    destruct Hok as [H1 H2 H3].
  - unfold in_progress in H1. rewrite Hm in H1. split; cbn.
    + unfold in_progress. cbn. by rewrite lookup_insert_eq.
    + intros u w r Hu. destruct (decide (u = t)) as [->|Hut]; [done|].
      rewrite lookup_insert_ne in Hu by done. apply H2 in Hu. congruence.
    + intros u [= <-]. rewrite lookup_insert_eq. eauto.
  - pose proof (H2 _ _ _ Ht) as Hm. split; cbn.
    + rewrite H1. unfold in_progress. cbn. rewrite Hm, Ht, lookup_insert_eq. by rewrite append_assoc.
    + intros u w' r Hu. destruct (decide (u = t)) as [->|Hut]; [done|].
      rewrite lookup_insert_ne in Hu by done. eauto.
    + intros u Hu. rewrite Hm in Hu. injection Hu as <-. rewrite lookup_insert_eq. eauto.
  - pose proof (H2 _ _ _ Ht) as Hm. split; cbn.
    + rewrite H1. unfold in_progress. cbn. rewrite Hm, Ht, joined_snoc. by rewrite append_nil_r.
    + intros u w' r [Hne Hu]%lookup_delete_Some. apply H2 in Hu. congruence.
    + done.
Qed.

(** Log statements do not interleave. Whatever the threads do, at any
    moment what is on standard output is the complete statements that have been
    logged, one after the other in the order in which they took the mutex,
    followed by the part already written of the one that holds it; when the
    mutex is free, nothing but complete statements. *)
Theorem log_statements_atomic (s : Logger) :
  log_reachable s →
  cout s = joined (lo_statements s) +:+ in_progress s ∧
  (cout_mutex s = None → cout s = joined (lo_statements s)).
Proof.
  intros H. assert (log_ok s) as [H1 _ _].
  { assert (log_ok logger_init) as H0 by (split; cbn; [done|intros ? ? ? E; by apply lookup_empty_Some in E|done]).
    revert H0. unfold log_reachable in H. induction H as [x|x y z Hxy _ IH]; [done|].
    intros Hx. apply IH. by eapply log_step_ok. }
  split; [exact H1|]. intros Hm. rewrite H1. unfold in_progress. rewrite Hm. apply append_nil_r.
Qed.
